(* ===== verification/_CoqProject ===== *)
-Q . S2P
Prelude.v
Wire.v
Protocol.v
ProtocolV2.v
Rpc.v
Ring.v
Layout.v
State.v
Structs.v
Alloc.v
Yaml.v
YamlProps.v
ConfigFile.v
ConfigProps.v
Metrics.v
Numa.v
Process.v
Drain.v
Offload.v
Store.v
Identity.v
Files.v
Nvme.v
NvmeUring.v
NvmeProps.v
NvmeStore.v
ColdProps.v
Socket.v
Export.v
Session.v
Canonical.v
Rollout.v
Guarantee.v
Fencing.v
System.v
Stat.v
StatProps.v
Control.v
ControlProps.v
Scenarios.v
OffloadProps.v
CanonicalProps.v
RolloutProps.v
SessionProps.v
Agent.v
AgentLogic.v
AgentWorld.v
AgentProps.v
AgentFlow.v
AgentRestore.v
Bindings.v
BindingsProps.v
Findings.v
