(* ===== verification/Prelude.v ===== *)
(** * Verification of StateSpectre

    StateSpectre moves model state of GPU ranks into host memory and back.  One
    daemon per node owns pinned arenas divided into slots; ranks use it through an
    agent library, talk to it over a Unix socket and write completions into
    shared-memory rings; Python reaches the agent through a binding module.  This
    library models the daemon ([src/src/daemon/]), the agent ([src/src/agent/]),
    the bindings ([src/src/python/]), the administrative tool ([src/src/tools/])
    and the code they share ([src/src/common/], [src/abi/]) as executable Rocq
    functions and proves what makes them correct.

    ** The program and its model

    The daemon is one object, [OffloadDaemon], whose tables are protected by the
    mutex [mu_].  Its state is the record [State.Daemon]; a handler is a function
    from the request and the state to the response and the new state, with every
    guard, early return, table update and counter of the code.  A handler that
    may throw or run into undefined behaviour returns [res].  Machine integers
    are [Z] with their wrap-around written out ([u32], [u64]); a counter that
    issues ids ([next_lease_id_] and the like) counts without a bound, and an id is
    the count modulo [2 ^ 64], so ids repeat where the code's do
    ([Findings.lease_ids_wrap]); executions ([System.dstep]) go on while no counter
    has wrapped ([System.ids_in_range]).  The bytes of the arenas are not a table;
    the field [arena_writes] logs where a readback of the daemon writes them.  A
    [double] is its binary64 value.  A hash table is a [gmap]; loops over one visit it in the
    order of [map_to_list], and the one result that could show the order, the
    manifest, is proved not to ([RolloutProps.manifest_order_independent]).

    Routines that copy bytes release [mu_].  Such a gap is explicit: an
    [Drain.IoGap] holds the outcome of the system calls made there, the clock
    when the lock is taken again and [io_env], what the other threads did to the
    tables meanwhile: any function.  [Guarantee.guarantee] is a preorder that
    every operation is proved to respect, also when the gaps inside it respect it
    ([Guarantee.rely]); theorems about executions ([System.dstep]) therefore hold
    for every interference that is itself made of such operations.

    Code at the edge of the program is modelled against scripts of what the
    kernel answers: the bytes of cold storage and the two NVMe engines ([Nvme],
    [NvmeUring]), sockets whose calls are cut and interrupted ([Socket]), export
    connections ([Export]) and the daemon's start, accept loop and stop
    ([Process]).  The byte-level copies of [NvmeStore] return what an
    [IoGap] holds of them, a flag and a cold entry.  Refinement theorems relate
    levels: frames on a socket refine handler calls
    ([Socket.serve_connection_refines]), and the bytes of the shared control region
    represent the tables ([ControlProps.control_region_refines]).

    The agent is a state monad over the record [Agent.Agent]; CUDA, the clocks,
    the mapped control region and the daemon's answers are the class
    [Agent.World], whose fields may depend on the whole history of calls (the
    trace).  An API call is atomic; the progress thread interleaves with the
    callers in two halves, polling events and reporting, as its lock has it; the
    destructor is an operation ([Agent.shutdown]) but not a step of the executions,
    and a callback is a recorded call that returns.  The
    marker [CEvict] in the trace records which callback an eviction was made for
    and is not an action of the code.  The Python context ([Bindings.Context]) is a
    state over the agent's with torch as the class [Bindings.Torch] and its
    documented behaviour as [TorchLaws].

    ** Files, in order

    - [Prelude]: widths, the result type, record update, shared lemmas and hints.
    - [Wire]: the byte writer and reader ([common/wire.h]) and their laws.
    - [Protocol], [ProtocolV2]: every message of [protocol.h], [protocol_v2.h]
      with its encoder and decoder ([wire.cpp], [wire_v2.cpp]).
    - [Rpc]: frames, [recv_frame] ([uds.cpp]), [OffloadDaemon::dispatch] and the
      client's [round_trip] ([rpc_client.cpp]) against an interface [Handlers].
    - [Ring]: the completion ring ([completion_ring.h]), sequentially and as
      interleaved memory accesses of a rank and the daemon.
    - [Layout]: offsets and sizes of the shared control region
      ([control_layout.h]) and ring sizing.
    - [State]: the tables ([daemon.h], [canonical.h], the ABI headers), metrics
      and the primitives on slots, leases and locations.
    - [Structs]: layout of C structures and their members in a memory of bytes.
    - [Alloc]: validation ([config.cpp]), the slot plan, the initial state,
      [allocate_slots], [free_slots].
    - [Yaml], [YamlProps], [ConfigFile], [ConfigProps]: the YAML subset and
      [load_config] ([config.cpp]).
    - [Metrics]: bandwidth window, percentiles, trace lines ([metrics.cpp]).
    - [Numa]: node masks, first touch, GPU topology ([numa_util.cpp]).
    - [Process]: listening and accepting ([uds.cpp]), arenas and teardown, the
      accept loop, [run] ([daemon.cpp]) and [main] ([main.cpp]).
    - [Drain]: cold storage, [force_drain_one], the two background workers.
    - [Offload]: the v1 handlers and [apply_ring_completion].
    - [Store]: identity string, content hash, quota and reclamation
      ([canonical.cpp]); [Identity]: the identity string separates shards.
    - [Files], [Nvme], [NvmeUring], [NvmeProps], [NvmeStore], [ColdProps]: files
      and their system calls, the pwrite and io_uring engines, the cold store on
      bytes ([daemon.cpp]).
    - [Socket]: sending and receiving frames with descriptors, the connection loop.
    - [Export]: the export transports ([export_backend.cpp], [export_libfabric.cpp]).
    - [Session]: registration, heartbeats, expiry and ring polling.
    - [Canonical]: jobs, attach, create, commit, release ([canonical.cpp]).
    - [Rollout]: seal, manifests, pull, restore, drop, retention
      ([canonical_rollout.cpp]).
    - [Guarantee], [Fencing]: the guarantee of every routine and handler.
    - [System]: the dispatcher over all handlers, executions, and the instance
      that makes the daemon a client of [Rpc]'s interface.
    - [Stat]: the administrative tool ([offload_stat.cpp]); [StatProps]: its output,
      read back, is the daemon's numbers.
    - [Control], [ControlProps]: the control region byte for byte.
    - [Scenarios]: concrete executions used to instantiate the theorems.
    - [OffloadProps], [CanonicalProps], [RolloutProps], [SessionProps]: the
      functional theorems of the components.
    - [Agent]: the agent library ([agent.cpp]); [AgentLogic]: its program logic;
      [AgentWorld]: a world made of the daemon's model; [AgentProps],
      [AgentFlow], [AgentRestore]: its theorems.
    - [Bindings], [BindingsProps]: the Python binding ([bindings.cpp]).
    - [Findings]: executions that show defects of the code.

    ** What the theorems show

    - Over all executions, until a 64-bit counter wraps: a fenced epoch stays fenced
      and its requests are refused; ids are never reused; the canonical store stays
      consistent; recorded versions never go back (v1 operations); objects being
      exported or restored are never reclaimed.
    - What is said of sizes holds for configurations whose sums do not wrap
      ([Alloc.config_in_range]; validation does not exclude the others) and, for
      reservations, for sizes that do not wrap the slot count
      ([Findings.slots_for_bytes_wraps]).
    - Reservation: a granted run was free, contiguous and large enough; the
      allocator's search is first fit; the slot plan and the control region do not
      overlap; ring sizing terminates up to 2^31 entries.
    - Transfer: which completions are accepted and their effect; batches are
      sequences; copies to the device start from readable slots; prefetch serves
      the recorded version; a forced drain takes the oldest eligible lease and
      moves exactly its run; release is final; registration replaces the session.
    - Cold storage: drained bytes are read back unchanged, and in bounded time
      from a kernel that serves calls, for both tiers and both engines.
    - Canonical store: deduplication merges exactly equal identities; who becomes
      creator; what a commit and a release do; sealing freezes, repeats and is
      independent of table order; pulls export sealed bytes only and put the tables
      back; restore round trips; retention and dropping are exact and touch only
      what the dropped objects record as theirs.
    - Transport: codecs, frames, whole calls and whole connections refine the
      handler; the ring is a FIFO queue, without races, under every interleaving;
      an export answered ok was delivered whole.
    - Shared memory: what the daemon and the ranks store represents the tables,
      what a rank loads is what the tables hold, nothing outside is touched.
    - Agent and bindings, until the agent is destroyed: GPU storage is invalidated
      only after its bytes were copied and the copy was seen complete; sources live
      as long as their copies unless one tensor is evicted destructively twice at a
      time; completions are reported exactly once; counters of bytes in flight
      are exact; restores read the place of a slot reported ready and terminate; Python releases only
      whole storages, and automatic tensor ids do not collide.
    - Process: a stop request that reaches every thread ends the daemon and leaves
      nothing behind (the executions in which one is missed are examples in
      [Process]); the configuration loader is total and reads back what is printed;
      what the tool prints, read back, is the daemon's own numbers.

    ** Bounds and fuel

    [Layout.round_ring_capacity] takes fuel: 32 iterations suffice up to 2^31 and
    no number does above (both proved).  [Drain.alloc_with_drain] makes the code's
    65 attempts.  [Session.drain_ring] takes the poller's budget of 256, or the
    pending count for the unbounded loops; a push by a rank between two pops of
    such a loop is seen by the next sweep.  The YAML parser's fuel
    [Yaml.parse_fuel] grows with the lines ([ConfigProps.load_config_total]: it is
    enough).  Loops over
    system calls end with the script of answers; the termination theorems say how
    long a script is enough.  The polling loops of the agent take fuel: 300001
    polls pass the 600 s timeout ([AgentRestore.restore_terminates]).
    [Process.accept_loop] runs over a list of events.  [Control] assumes at most
    2^26 entries per ring and 2^20 rings, below which the 32-bit ring stride does
    not overflow.

    ** Not modelled

    Log lines; which handler writes which trace line; the wording of a socket
    address; GIL handling and the pybind declarations; signal delivery (a signal
    is the event that requests the stop); the memory orders of slot states (loads
    and stores of the control region are sequential, those of the ring indices
    are not, see [Ring]).  The structures of [offload_canonical_abi.hpp] beside
    its enumerations are used by no code.  Executions are sequences of whole
    operations, with interference in their gaps that keeps the guarantee; two
    operations whose gaps overlap without one lying in a gap of the other, such as
    two that each took an id before a gap, are not among them.  The depth of the
    call stack; exceptions thrown by a callback. *)
From stdpp Require Import base gmap strings list fin_maps list_numbers sorting.
From Stdlib Require Import ZArith Lia Strings.Byte.
Open Scope Z_scope.

(** ** Fixed-width unsigned integers

    A [uintN_t] is a [Z]; every operation of the code that can leave the range
    writes its wrap-around with [u8], [u16], [u32] or [u64]. *)
Definition u8 (z : Z) : Z := z mod 2 ^ 8.
Definition u16 (z : Z) : Z := z mod 2 ^ 16.
Definition u32 (z : Z) : Z := z mod 2 ^ 32.
Definition u64 (z : Z) : Z := z mod 2 ^ 64.
(** Conversion of a [uint32_t] to [int32_t] (two's complement). *)
Definition i32 (z : Z) : Z := if decide (u32 z < 2 ^ 31) then u32 z else u32 z - 2 ^ 32.

Definition in_u16 (z : Z) : Prop := 0 <= z < 2 ^ 16.
Definition in_u32 (z : Z) : Prop := 0 <= z < 2 ^ 32.
Definition in_u64 (z : Z) : Prop := 0 <= z < 2 ^ 64.
Definition in_i32 (z : Z) : Prop := - 2 ^ 31 <= z < 2 ^ 31.

(** The sentinel [0xFFFFFFFFu] (no slot, no ring, no owner). *)
Definition NO_U32 : Z := 4294967295.

Create HintDb offload.

Lemma u32_small z : in_u32 z -> u32 z = z.
Proof. intros H. apply Z.mod_small, H. Qed.
Lemma u64_small z : in_u64 z -> u64 z = z.
Proof. intros H. apply Z.mod_small, H. Qed.
Lemma u32_range z : in_u32 (u32 z).
Proof. apply Z.mod_pos_bound. lia. Qed.
Lemma u64_range z : in_u64 (u64 z).
Proof. apply Z.mod_pos_bound. lia. Qed.
#[export] Hint Resolve u32_range u64_range : offload.

Lemma i32_u32 z : in_i32 z -> i32 (u32 z) = z.
Proof.
  unfold in_i32, i32, u32. intros H. rewrite Zmod_mod.
  destruct (Z_lt_ge_dec z 0).
  - replace (z mod 2 ^ 32) with (z + 2 ^ 32).
    + rewrite decide_False by lia. lia.
    + symmetry. rewrite <- (Z.mod_small (z + 2 ^ 32) (2 ^ 32)) by lia.
      rewrite <- (Z_mod_plus_full z 1 (2 ^ 32)). f_equal. 
  - rewrite Z.mod_small by lia. by rewrite decide_True by lia.
Qed.

(** ** Results of code that throws *)
Inductive res (A : Type) : Type :=
  | Ok (a : A)
  | Throw (msg : string).
Arguments Ok {A} a.
Arguments Throw {A} msg.

Definition res_bind {A B} (r : res A) (k : A -> res B) : res B :=
  match r with Ok a => k a | Throw m => Throw m end.
Lemma res_bind_ok {A B} (r : res A) (k : A -> res B) b :
  res_bind r k = Ok b -> exists a, r = Ok a /\ k a = Ok b.
Proof. destruct r as [a|m]; [|done]. by exists a. Qed.

Declare Scope offload_scope.
Delimit Scope offload_scope with offload.

(** ** Functional record update

    [Eta R] lists the fields of a record once; [r <| f := v |>] and
    [r <| f ::= g |>] are then available for each of its fields. *)
Class Eta (R : Type) := eta_expand : R -> R.
Class Update {R T : Type} (proj : R -> T) := update : (T -> T) -> R -> R.
Arguments update {R T} proj {Update} _ _.

Ltac solve_update :=
  match goal with
  | |- @Update ?R ?T ?proj =>
      let e := constr:(ltac:(typeclasses eauto) : Eta R) in
      let f := fresh "f" in
      let r := fresh "r" in
      intros f r;
      let body := eval red in (e r) in
      lazymatch eval pattern (proj r) in body with
      | ?ctx _ => let t := eval cbv beta in (ctx (f (proj r))) in exact t
      end
  end.
#[export] Hint Extern 1 (@Update _ _ _) => solve_update : typeclass_instances.

Notation "r <| f := v |>" := (update f (fun _ => v) r)
  (at level 1, f at next level, left associativity) : offload_scope.
Notation "r <| f ::= g |>" := (update f g r)
  (at level 1, f at next level, left associativity) : offload_scope.
Open Scope offload_scope.
