(* ===== verification/Wire.v ===== *)
(** * Byte-level codec and framing of the control plane

    Models [src/common/wire.h] (the [Writer] and [Reader] classes, the frame
    header) and the framing functions of [src/common/wire.cpp] and
    [src/common/uds.cpp].  A [Writer] appends to a byte vector and may throw;
    a [Reader] consumes a byte range and throws on truncation.  The relation
    [parses] is the compositional law every message codec satisfies: the reader
    inverts the writer whatever follows, and rejects every strict prefix. *)
From stdpp Require Import base strings list list_numbers.
From Stdlib Require Import ZArith Lia Strings.Byte.
From S2P Require Import Prelude.
Open Scope Z_scope.
Open Scope offload_scope.

(** ** Bytes and little-endian integers *)
Definition byte_of_Z (z : Z) : byte :=
  match Byte.of_N (Z.to_N (u8 z)) with Some b => b | None => x00 end.
Definition byte_to_Z (b : byte) : Z := Z.of_N (Byte.to_N b).

(** The [n] low bytes of [v], least significant first ([memcpy] of an integer
    on the little-endian targets the codec is written for). *)
Fixpoint le_bytes (n : nat) (v : Z) : list byte :=
  match n with
  | O => []
  | S n' => byte_of_Z v :: le_bytes n' (v / 256)
  end.
Fixpoint le_value (bs : list byte) : Z :=
  match bs with
  | [] => 0
  | b :: bs' => byte_to_Z b + 256 * le_value bs'
  end.

Definition bytes_of_string (s : string) : list byte := String.list_byte_of_string s.
Definition string_of_bytes (bs : list byte) : string := String.string_of_list_byte bs.

(** ** Writer: each call appends some bytes or throws *)
Abbreviation writer := (res (list byte)).
Definition w_u8 (v : Z) : writer := Ok [byte_of_Z v].
Definition w_b (v : bool) : writer := Ok [if v then x01 else x00].
Definition w_u16 (v : Z) : writer := Ok (le_bytes 2 v).
Definition w_u32 (v : Z) : writer := Ok (le_bytes 4 v).
Definition w_u64 (v : Z) : writer := Ok (le_bytes 8 v).
Definition w_str (s : string) : writer :=
  let b := bytes_of_string s in
  if decide (Z.of_nat (length b) > 4294967295) then Throw "string too long"
  else Ok (le_bytes 4 (u32 (Z.of_nat (length b))) ++ b).

(** A sequence of writer calls on the same buffer. *)
Fixpoint w_seq (ws : list writer) : writer :=
  match ws with
  | [] => Ok []
  | w :: ws' => res_bind w (fun b => res_bind (w_seq ws') (fun b' => Ok (b ++ b')))
  end.
(** [w.u32(static_cast<uint32_t>(v.size())); for (x : v) body(x);] *)
Definition w_vec {A} (body : A -> writer) (l : list A) : writer :=
  w_seq (w_u32 (u32 (Z.of_nat (length l))) :: map body l).

(** ** Reader *)
Definition reader (A : Type) : Type := list byte -> res (A * list byte).
Definition r_ret {A} (a : A) : reader A := fun bs => Ok (a, bs).
Definition r_bind {A B} (g : reader A) (k : A -> reader B) : reader B :=
  fun bs => match g bs with Ok (a, bs') => k a bs' | Throw m => Throw m end.
Notation "x <- g ;; k" := (r_bind g (fun x => k))
  (at level 60, g at next level, right associativity) : offload_scope.

Definition r_take (n : Z) : reader (list byte) := fun bs =>
  if decide (Z.of_nat (length bs) < n) then Throw "truncated wire message"
  else Ok (take (Z.to_nat n) bs, drop (Z.to_nat n) bs).
Definition r_u8 : reader Z := b <- r_take 1;; r_ret (le_value b).
Definition r_b : reader bool := v <- r_u8;; r_ret (negb (Z.eqb v 0)).
Definition r_u16 : reader Z := b <- r_take 2;; r_ret (le_value b).
Definition r_u32 : reader Z := b <- r_take 4;; r_ret (le_value b).
Definition r_u64 : reader Z := b <- r_take 8;; r_ret (le_value b).
Definition r_str : reader string :=
  n <- r_u32;; b <- r_take n;; r_ret (string_of_bytes b).

Definition r_i32 : reader Z := v <- r_u32;; r_ret (i32 v).

(** A counted loop of reads. *)
Fixpoint r_loop {A} (g : reader A) (n : nat) : reader (list A) :=
  match n with
  | O => r_ret []
  | S n' => x <- g;; xs <- r_loop g n';; r_ret (x :: xs)
  end.
Definition r_vec {A} (g : reader A) : reader (list A) :=
  n <- r_u32;; r_loop g (Z.to_nat n).

(** A [decode_T(d, n)] reads the fields and ignores trailing bytes. *)
Definition decode_with {A} (g : reader A) (bs : list byte) : res A :=
  match g bs with Ok (a, _) => Ok a | Throw m => Throw m end.

(** ** Frames *)
Definition OFLD_RPC_MAGIC : Z := 0x4F465250.
Definition kFrameHeaderSize : Z := 12.

Record FrameHeader := mkFrameHeader {
  fh_magic : Z; fh_opcode : Z; fh_flags : Z; fh_payload_len : Z }.

Definition make_frame (op : Z) (body : list byte) (flags : Z) : writer :=
  if decide (Z.of_nat (length body) > 4294967295) then Throw "frame body too large"
  else w_seq [w_u32 OFLD_RPC_MAGIC; w_u16 op; w_u16 flags;
              w_u32 (u32 (Z.of_nat (length body))); Ok body].

Definition parse_frame_header (bs : list byte) : res FrameHeader :=
  if decide (Z.of_nat (length bs) < kFrameHeaderSize) then Throw "short frame header"
  else decode_with
    (magic <- r_u32;;
     if decide (magic ≠ OFLD_RPC_MAGIC) then fun _ => Throw "bad frame magic"
     else (op <- r_u16;; fl <- r_u16;; len <- r_u32;;
           r_ret (mkFrameHeader magic op fl len))) bs.

(** One [recv_frame] on a connected stream whose remaining bytes are [bs]:
    [None] is the clean end of stream, otherwise the opcode, the payload and
    the bytes left in the stream. *)
Definition recv_frame (bs : list byte) : res (option (Z * list byte * list byte)) :=
  match bs with
  | [] => Ok None
  | _ =>
    if decide (Z.of_nat (length bs) < kFrameHeaderSize)
    then Throw "recvmsg EOF mid-header"
    else
      match parse_frame_header (take 12 bs) with
      | Throw m => Throw m
      | Ok fh =>
        let rest := drop 12 bs in
        if decide (fh_payload_len fh > Z.shiftl 256 20)
        then Throw "frame payload absurdly large"
        else if decide (Z.of_nat (length rest) < fh_payload_len fh)
        then (if decide (length rest = 0%nat) then Throw "EOF before payload"
              else Throw "recv EOF mid-message")
        else
          let n := Z.to_nat (fh_payload_len fh) in
          Ok (Some (fh_opcode fh, take n rest, drop n rest))
      end
  end.

(** ** Laws of bytes and integers *)
Lemma byte_to_of_Z z : byte_to_Z (byte_of_Z z) = u8 z.
Proof.
  unfold byte_to_Z, byte_of_Z. pose proof (Z.mod_pos_bound z (2 ^ 8)) as H.
  fold (u8 z) in H. destruct (Byte.of_N (Z.to_N (u8 z))) as [b|] eqn:E.
  - apply Byte.to_of_N in E. rewrite E. lia.
  - apply Byte.of_N_None_iff in E. lia.
Qed.
Lemma length_le_bytes n v : length (le_bytes n v) = n.
Proof. revert v. induction n; intros; simpl; auto. Qed.
Lemma le_value_bytes n v : le_value (le_bytes n v) = v mod 2 ^ (8 * Z.of_nat n).
Proof.
  revert v. induction n as [|n IH]; intros v.
  - simpl. by rewrite Z.mod_1_r.
  - cbn [le_bytes le_value]. rewrite IH, byte_to_of_Z. unfold u8.
    replace (2 ^ (8 * Z.of_nat (S n))) with (2 ^ 8 * 2 ^ (8 * Z.of_nat n))
      by (rewrite <- Z.pow_add_r by lia; f_equal; lia).
    rewrite Z.rem_mul_r by lia. reflexivity.
Qed.

(** ** [parses g b v]: reader [g] turns exactly the bytes [b] into [v] *)
Definition parses {A} (g : reader A) (b : list byte) (v : A) : Prop :=
  (forall rest, g (b ++ rest) = Ok (v, rest)) /\
  (forall p s, b = p ++ s -> s ≠ [] -> g p = Throw "truncated wire message").

Lemma parses_ret {A} (v : A) : parses (r_ret v) [] v.
Proof.
  split; [done|]. intros p s H Hs. symmetry in H. apply app_eq_nil in H as [_ ->]. done.
Qed.

(** A strict prefix of [b1 ++ b2] is a strict prefix of [b1], or [b1] followed
    by a strict prefix of [b2]. *)
Lemma strict_prefix_app {A} (b1 b2 p s : list A) :
  b1 ++ b2 = p ++ s -> s ≠ [] ->
  (exists s', b1 = p ++ s' /\ s' ≠ []) \/ (exists p', p = b1 ++ p' /\ b2 = p' ++ s).
Proof.
  intros H Hs. apply app_eq_inv in H as [[k [-> ->]]|[k [-> Hk]]].
  - destruct k as [|x k]; [|left; eauto].
    right. exists []. by rewrite !app_nil_r.
  - right. exists k. by split.
Qed.

Lemma parses_bind {A B} (g : reader A) (k : A -> reader B) b1 b2 v w :
  parses g b1 v -> parses (k v) b2 w -> parses (r_bind g k) (b1 ++ b2) w.
Proof.
  intros [Hg Hgt] [Hk Hkt]. split.
  - intros rest. unfold r_bind. rewrite <- app_assoc, Hg. apply Hk.
  - intros p s Hp Hs. unfold r_bind.
    destruct (strict_prefix_app _ _ _ _ Hp Hs) as [(s' & E & Hs')|(p' & -> & E)].
    + by rewrite (Hgt p s' E Hs').
    + rewrite Hg. by apply (Hkt p' s).
Qed.
Lemma parses_fmap {A B} (g : reader A) (f : A -> B) b v :
  parses g b v -> parses (r_bind g (fun x => r_ret (f x))) b (f v).
Proof.
  intros H. rewrite <- (app_nil_r b). eapply parses_bind; [done|]. apply parses_ret.
Qed.

Lemma parses_take (n : Z) (b : list byte) : Z.of_nat (length b) = n -> parses (r_take n) b b.
Proof.
  intros H. split.
  - intros rest. unfold r_take. rewrite length_app, decide_False by lia.
    rewrite take_app_le, drop_app_ge by lia.
    rewrite take_ge by lia. replace (Z.to_nat n - length b)%nat with 0%nat by lia. done.
  - intros p s -> Hs. unfold r_take. rewrite length_app in H.
    destruct s; [done|]. simpl in H. by rewrite decide_True by lia.
Qed.
Lemma parses_le (n : Z) (w : nat) (v : Z) :
  n = Z.of_nat w -> 0 <= v < 2 ^ (8 * n) ->
  parses (b <- r_take n;; r_ret (le_value b)) (le_bytes w v) v.
Proof.
  intros -> Hv. pose proof (le_value_bytes w v) as E. rewrite Z.mod_small in E by done.
  rewrite <- E at 2. apply parses_fmap, parses_take. by rewrite length_le_bytes.
Qed.
Lemma parses_u16 v : in_u16 v -> parses r_u16 (le_bytes 2 v) v.
Proof. intros H. by apply parses_le. Qed.
Lemma parses_u32 v : in_u32 v -> parses r_u32 (le_bytes 4 v) v.
Proof. intros H. by apply parses_le. Qed.
Lemma parses_u64 v : in_u64 v -> parses r_u64 (le_bytes 8 v) v.
Proof. intros H. by apply parses_le. Qed.
Lemma parses_b (v : bool) : parses r_b [if v then x01 else x00] v.
Proof.
  replace v with (negb (Z.eqb (if v then 1 else 0) 0)) at 2 by by destruct v.
  apply (parses_fmap r_u8 (fun x => negb (Z.eqb x 0))). unfold r_u8.
  replace [if v then x01 else x00] with (le_bytes 1 (if v then 1 else 0)) by by destruct v.
  apply parses_le; [done|]. destruct v; lia.
Qed.

(** A string the writer accepts. *)
Definition in_str (s : string) : Prop := Z.of_nat (length (bytes_of_string s)) < 2 ^ 32.

Lemma parses_str s : in_str s ->
  parses r_str (le_bytes 4 (u32 (Z.of_nat (length (bytes_of_string s)))) ++ bytes_of_string s) s.
Proof.
  intros H. unfold in_str in H. rewrite u32_small by (split; lia).
  eapply parses_bind; [apply parses_u32; split; lia|].
  rewrite <- (String.string_of_list_byte_of_string s) at 3.
  apply parses_fmap, parses_take. done.
Qed.

(** ** Writer calls paired with the reader that inverts them *)
Definition codec {A} (w : writer) (g : reader A) (v : A) : Prop :=
  exists b, w = Ok b /\ parses g b v.

Lemma codec_u16 v : in_u16 v -> codec (w_u16 v) r_u16 v.
Proof. intros. eexists. split; [done|]. by apply parses_u16. Qed.
Lemma codec_u32 v : in_u32 v -> codec (w_u32 v) r_u32 v.
Proof. intros. eexists. split; [done|]. by apply parses_u32. Qed.
Lemma codec_u64 v : in_u64 v -> codec (w_u64 v) r_u64 v.
Proof. intros. eexists. split; [done|]. by apply parses_u64. Qed.
Lemma codec_b (v : bool) : codec (w_b v) r_b v.
Proof. intros. eexists. split; [done|]. by apply parses_b. Qed.
Lemma codec_str s : in_str s -> codec (w_str s) r_str s.
Proof.
  intros H. eexists. split; [|by apply parses_str]. unfold w_str, in_str in *.
  by rewrite decide_False by lia.
Qed.
Lemma codec_i32 v : in_i32 v ->
  codec (w_u32 (u32 v)) r_i32 v.
Proof.
  intros H. eexists. split; [done|]. rewrite <- (i32_u32 v H) at 2.
  apply (parses_fmap r_u32 i32). apply parses_u32, u32_range.
Qed.
Lemma codec_nil {A} (v : A) : codec (w_seq []) (r_ret v) v.
Proof. exists []. split; [done|]. apply parses_ret. Qed.
Lemma codec_cons {A B} w ws (g : reader A) (k : A -> reader B) v r :
  codec w g v -> codec (w_seq ws) (k v) r -> codec (w_seq (w :: ws)) (r_bind g k) r.
Proof.
  intros (b1 & -> & H1) (b2 & E & H2). exists (b1 ++ b2). simpl. rewrite E.
  split; [done|]. by eapply parses_bind.
Qed.
Lemma codec_last {A B} w (g : reader A) (f : A -> B) v :
  codec w g v -> codec (w_seq [w]) (r_bind g (fun x => r_ret (f x))) (f v).
Proof.
  intros H. eapply codec_cons; [done|]. apply codec_nil.
Qed.
Lemma codec_loop {A} (body : A -> writer) (g : reader A) l :
  Forall (fun x => codec (body x) g x) l ->
  codec (w_seq (map body l)) (r_loop g (length l)) l.
Proof.
  induction 1 as [|x l Hx _ IH]; simpl; [apply codec_nil|].
  destruct IH as (b & E & Hb). destruct Hx as (b0 & E0 & Hb0).
  exists (b0 ++ b). rewrite E0. simpl. change (fix w_seq (ws : list writer) := _) with w_seq.
  rewrite E. split; [done|]. eapply parses_bind; [done|]. by apply (parses_fmap _ (cons x)).
Qed.
Lemma codec_vec {A} (body : A -> writer) (g : reader A) l :
  Z.of_nat (length l) < 2 ^ 32 -> Forall (fun x => codec (body x) g x) l ->
  codec (w_vec body l) (r_vec g) l.
Proof.
  intros Hl Hall. unfold w_vec. rewrite u32_small by (split; lia).
  eapply codec_cons; [apply codec_u32; split; lia|]. rewrite Nat2Z.id. by apply codec_loop.
Qed.

Create HintDb codec.
#[export] Hint Resolve codec_u16 codec_u32 codec_u64 codec_b codec_str codec_i32 : codec.
(** A vector whose length and elements fit the wire. *)
Definition in_vec {A} (P : A -> Prop) (l : list A) : Prop :=
  Z.of_nat (length l) < 2 ^ 32 /\ Forall P l.
Lemma codec_in_vec {A} (P : A -> Prop) (body : A -> writer) (g : reader A) l :
  (forall x, P x -> codec (body x) g x) -> in_vec P l -> codec (w_vec body l) (r_vec g) l.
Proof. intros H [Hl Hall]. apply codec_vec; [done|]. by eapply Forall_impl. Qed.
#[export] Hint Resolve codec_in_vec : codec.

(** Proves [wf_T m -> codec (encode_T m) read_T m] field by field. *)
Ltac codec_field := eapply codec_cons; [solve [simpl; eauto 4 with codec]|].
Ltac solve_codec :=
  match goal with |- ?P ?x -> _ => destruct x end;
  let H := fresh "H" in intros H; red in H; destruct_and? H;
  match goal with
  | |- codec ?w ?g ?v =>
      let w' := eval red in w in let g' := eval red in g in change (codec w' g' v)
  end;
  repeat codec_field; apply codec_nil.

(** Round trip and rejection of truncated messages, from [codec]. *)
Lemma codec_decode {A} (w : writer) (g : reader A) v b rest :
  codec w g v -> w = Ok b -> decode_with g (b ++ rest) = Ok v.
Proof. intros (b' & -> & [H _]) [= ->]. unfold decode_with. by rewrite H. Qed.
Lemma codec_truncated {A} (w : writer) (g : reader A) v b p s :
  codec w g v -> w = Ok b -> b = p ++ s -> s ≠ [] ->
  decode_with g p = Throw "truncated wire message".
Proof. intros (b' & -> & [_ H]) [= ->] Hp Hs. unfold decode_with. by rewrite (H p s Hp Hs). Qed.
