(* ===== verification/Protocol.v ===== *)
(** * v1 control-plane messages

    The message structs of [src/common/protocol.h] and their codecs of
    [src/common/wire.cpp], field by field and in wire order.  Every message has
    its record, its [encode_*] (a sequence of writer calls), the reads of its
    [decode_*], the predicate that its fields fit their wire widths, and the
    lemma that reader and writer agree. *)
From stdpp Require Import base strings list list_numbers.
From Stdlib Require Import ZArith Lia Strings.Byte.
From S2P Require Import Prelude.
From S2P Require Import Wire.
Open Scope Z_scope.
Open Scope offload_scope.

(** [ArenaFd] *)
Record ArenaFd := mkArenaFd {
  af_arena_id : Z; af_numa_node : Z; af_kind : Z; af_size : Z; af_base_offset : Z;
  af_preferred_gpu : Z; af_flags : Z; af_fd_index : Z;
  af_registration_granularity : Z; af_allocation_granularity : Z }.
#[export] Instance eta_ArenaFd : Eta ArenaFd := fun m =>
  mkArenaFd
    (af_arena_id m) (af_numa_node m) (af_kind m) (af_size m) (af_base_offset m)
    (af_preferred_gpu m) (af_flags m) (af_fd_index m) (af_registration_granularity m)
    (af_allocation_granularity m).
Definition put_ArenaFd (m : ArenaFd) : writer :=
  w_seq [
    w_u64 (af_arena_id m); w_u32 (af_numa_node m); w_u32 (af_kind m);
    w_u64 (af_size m); w_u64 (af_base_offset m); w_u32 (af_preferred_gpu m);
    w_u64 (af_flags m); w_u32 (af_fd_index m); w_u32 (af_registration_granularity m);
    w_u32 (af_allocation_granularity m)].
Definition get_ArenaFd : reader ArenaFd :=
  arena_id <- r_u64;; numa_node <- r_u32;; kind <- r_u32;; size <- r_u64;;
  base_offset <- r_u64;; preferred_gpu <- r_u32;; flags <- r_u64;;
  fd_index <- r_u32;; registration_granularity <- r_u32;;
  allocation_granularity <- r_u32;;
  r_ret (mkArenaFd
    arena_id numa_node kind size base_offset preferred_gpu flags fd_index
    registration_granularity allocation_granularity).
Definition wf_ArenaFd (m : ArenaFd) : Prop :=
  in_u64 (af_arena_id m) /\ in_u32 (af_numa_node m) /\ in_u32 (af_kind m) /\
  in_u64 (af_size m) /\ in_u64 (af_base_offset m) /\ in_u32 (af_preferred_gpu m) /\
  in_u64 (af_flags m) /\ in_u32 (af_fd_index m) /\
  in_u32 (af_registration_granularity m) /\ in_u32 (af_allocation_granularity m).
Lemma codec_ArenaFd m : wf_ArenaFd m -> codec (put_ArenaFd m) get_ArenaFd m.
Proof. solve_codec. Qed.
#[export] Hint Resolve codec_ArenaFd : codec.

(** [RegisterRankRequest] *)
Record RegisterRankRequest := mkRegisterRankRequest {
  rr_rank_id : Z; rr_local_rank : Z; rr_world_rank : Z; rr_gpu_id : Z;
  rr_numa_node : Z; rr_pid : Z; rr_capabilities : Z }.
#[export] Instance eta_RegisterRankRequest : Eta RegisterRankRequest := fun m =>
  mkRegisterRankRequest
    (rr_rank_id m) (rr_local_rank m) (rr_world_rank m) (rr_gpu_id m) (rr_numa_node m)
    (rr_pid m) (rr_capabilities m).
Definition encode_RegisterRankRequest (m : RegisterRankRequest) : writer :=
  w_seq [
    w_u32 (rr_rank_id m); w_u32 (rr_local_rank m); w_u32 (rr_world_rank m);
    w_u32 (rr_gpu_id m); w_u32 (rr_numa_node m); w_u64 (rr_pid m);
    w_u64 (rr_capabilities m)].
Definition read_RegisterRankRequest : reader RegisterRankRequest :=
  rank_id <- r_u32;; local_rank <- r_u32;; world_rank <- r_u32;; gpu_id <- r_u32;;
  numa_node <- r_u32;; pid <- r_u64;; capabilities <- r_u64;;
  r_ret (mkRegisterRankRequest
    rank_id local_rank world_rank gpu_id numa_node pid capabilities).
Definition decode_RegisterRankRequest (bs : list byte) : res RegisterRankRequest := decode_with read_RegisterRankRequest bs.
Definition wf_RegisterRankRequest (m : RegisterRankRequest) : Prop :=
  in_u32 (rr_rank_id m) /\ in_u32 (rr_local_rank m) /\ in_u32 (rr_world_rank m) /\
  in_u32 (rr_gpu_id m) /\ in_u32 (rr_numa_node m) /\ in_u64 (rr_pid m) /\
  in_u64 (rr_capabilities m).
Lemma codec_RegisterRankRequest m : wf_RegisterRankRequest m -> codec (encode_RegisterRankRequest m) read_RegisterRankRequest m.
Proof. solve_codec. Qed.
#[export] Hint Resolve codec_RegisterRankRequest : codec.

(** [RegisterRankResponse] *)
Record RegisterRankResponse := mkRegisterRankResponse {
  rrs_ok : bool; rrs_message : string; rrs_rank_epoch : Z;
  rrs_control_generation : Z; rrs_arenas : list ArenaFd; rrs_control_fd_index : Z;
  rrs_control_size : Z; rrs_num_slots : Z; rrs_ring_index : Z }.
#[export] Instance eta_RegisterRankResponse : Eta RegisterRankResponse := fun m =>
  mkRegisterRankResponse
    (rrs_ok m) (rrs_message m) (rrs_rank_epoch m) (rrs_control_generation m)
    (rrs_arenas m) (rrs_control_fd_index m) (rrs_control_size m) (rrs_num_slots m)
    (rrs_ring_index m).
Definition encode_RegisterRankResponse (m : RegisterRankResponse) : writer :=
  w_seq [
    w_b (rrs_ok m); w_str (rrs_message m); w_u64 (rrs_rank_epoch m);
    w_u64 (rrs_control_generation m); w_vec put_ArenaFd (rrs_arenas m);
    w_u32 (rrs_control_fd_index m); w_u64 (rrs_control_size m);
    w_u32 (rrs_num_slots m); w_u32 (rrs_ring_index m)].
Definition read_RegisterRankResponse : reader RegisterRankResponse :=
  ok <- r_b;; message <- r_str;; rank_epoch <- r_u64;; control_generation <- r_u64;;
  arenas <- r_vec get_ArenaFd;; control_fd_index <- r_u32;; control_size <- r_u64;;
  num_slots <- r_u32;; ring_index <- r_u32;;
  r_ret (mkRegisterRankResponse
    ok message rank_epoch control_generation arenas control_fd_index control_size
    num_slots ring_index).
Definition decode_RegisterRankResponse (bs : list byte) : res RegisterRankResponse := decode_with read_RegisterRankResponse bs.
Definition wf_RegisterRankResponse (m : RegisterRankResponse) : Prop :=
  in_str (rrs_message m) /\ in_u64 (rrs_rank_epoch m) /\
  in_u64 (rrs_control_generation m) /\ in_vec wf_ArenaFd (rrs_arenas m) /\
  in_u32 (rrs_control_fd_index m) /\ in_u64 (rrs_control_size m) /\
  in_u32 (rrs_num_slots m) /\ in_u32 (rrs_ring_index m).
Lemma codec_RegisterRankResponse m : wf_RegisterRankResponse m -> codec (encode_RegisterRankResponse m) read_RegisterRankResponse m.
Proof. solve_codec. Qed.
#[export] Hint Resolve codec_RegisterRankResponse : codec.

(** [HeartbeatRequest] *)
Record HeartbeatRequest := mkHeartbeatRequest {
  hb_rank_id : Z; hb_rank_epoch : Z; hb_timestamp_ns : Z }.
#[export] Instance eta_HeartbeatRequest : Eta HeartbeatRequest := fun m =>
  mkHeartbeatRequest
    (hb_rank_id m) (hb_rank_epoch m) (hb_timestamp_ns m).
Definition encode_HeartbeatRequest (m : HeartbeatRequest) : writer :=
  w_seq [
    w_u32 (hb_rank_id m); w_u64 (hb_rank_epoch m); w_u64 (hb_timestamp_ns m)].
Definition read_HeartbeatRequest : reader HeartbeatRequest :=
  rank_id <- r_u32;; rank_epoch <- r_u64;; timestamp_ns <- r_u64;;
  r_ret (mkHeartbeatRequest
    rank_id rank_epoch timestamp_ns).
Definition decode_HeartbeatRequest (bs : list byte) : res HeartbeatRequest := decode_with read_HeartbeatRequest bs.
Definition wf_HeartbeatRequest (m : HeartbeatRequest) : Prop :=
  in_u32 (hb_rank_id m) /\ in_u64 (hb_rank_epoch m) /\ in_u64 (hb_timestamp_ns m).
Lemma codec_HeartbeatRequest m : wf_HeartbeatRequest m -> codec (encode_HeartbeatRequest m) read_HeartbeatRequest m.
Proof. solve_codec. Qed.
#[export] Hint Resolve codec_HeartbeatRequest : codec.

(** [HeartbeatResponse] *)
Record HeartbeatResponse := mkHeartbeatResponse {
  hbs_ok : bool; hbs_message : string }.
#[export] Instance eta_HeartbeatResponse : Eta HeartbeatResponse := fun m =>
  mkHeartbeatResponse
    (hbs_ok m) (hbs_message m).
Definition encode_HeartbeatResponse (m : HeartbeatResponse) : writer :=
  w_seq [
    w_b (hbs_ok m); w_str (hbs_message m)].
Definition read_HeartbeatResponse : reader HeartbeatResponse :=
  ok <- r_b;; message <- r_str;;
  r_ret (mkHeartbeatResponse
    ok message).
Definition decode_HeartbeatResponse (bs : list byte) : res HeartbeatResponse := decode_with read_HeartbeatResponse bs.
Definition wf_HeartbeatResponse (m : HeartbeatResponse) : Prop :=
  in_str (hbs_message m).
Lemma codec_HeartbeatResponse m : wf_HeartbeatResponse m -> codec (encode_HeartbeatResponse m) read_HeartbeatResponse m.
Proof. solve_codec. Qed.
#[export] Hint Resolve codec_HeartbeatResponse : codec.

(** [RequestOffloadRequest] *)
Record RequestOffloadRequest := mkRequestOffloadRequest {
  ro_rank_id : Z; ro_rank_epoch : Z; ro_tensor_id : Z; ro_version : Z; ro_nbytes : Z;
  ro_gpu_id : Z; ro_numa_node : Z; ro_alignment : Z; ro_priority : Z; ro_flags : Z;
  ro_debug_name : string }.
#[export] Instance eta_RequestOffloadRequest : Eta RequestOffloadRequest := fun m =>
  mkRequestOffloadRequest
    (ro_rank_id m) (ro_rank_epoch m) (ro_tensor_id m) (ro_version m) (ro_nbytes m)
    (ro_gpu_id m) (ro_numa_node m) (ro_alignment m) (ro_priority m) (ro_flags m)
    (ro_debug_name m).
Definition encode_RequestOffloadRequest (m : RequestOffloadRequest) : writer :=
  w_seq [
    w_u32 (ro_rank_id m); w_u64 (ro_rank_epoch m); w_u64 (ro_tensor_id m);
    w_u64 (ro_version m); w_u64 (ro_nbytes m); w_u32 (ro_gpu_id m);
    w_u32 (ro_numa_node m); w_u32 (ro_alignment m); w_u32 (ro_priority m);
    w_u64 (ro_flags m); w_str (ro_debug_name m)].
Definition read_RequestOffloadRequest : reader RequestOffloadRequest :=
  rank_id <- r_u32;; rank_epoch <- r_u64;; tensor_id <- r_u64;; version <- r_u64;;
  nbytes <- r_u64;; gpu_id <- r_u32;; numa_node <- r_u32;; alignment <- r_u32;;
  priority <- r_u32;; flags <- r_u64;; debug_name <- r_str;;
  r_ret (mkRequestOffloadRequest
    rank_id rank_epoch tensor_id version nbytes gpu_id numa_node alignment priority
    flags debug_name).
Definition decode_RequestOffloadRequest (bs : list byte) : res RequestOffloadRequest := decode_with read_RequestOffloadRequest bs.
Definition wf_RequestOffloadRequest (m : RequestOffloadRequest) : Prop :=
  in_u32 (ro_rank_id m) /\ in_u64 (ro_rank_epoch m) /\ in_u64 (ro_tensor_id m) /\
  in_u64 (ro_version m) /\ in_u64 (ro_nbytes m) /\ in_u32 (ro_gpu_id m) /\
  in_u32 (ro_numa_node m) /\ in_u32 (ro_alignment m) /\ in_u32 (ro_priority m) /\
  in_u64 (ro_flags m) /\ in_str (ro_debug_name m).
Lemma codec_RequestOffloadRequest m : wf_RequestOffloadRequest m -> codec (encode_RequestOffloadRequest m) read_RequestOffloadRequest m.
Proof. solve_codec. Qed.
#[export] Hint Resolve codec_RequestOffloadRequest : codec.

(** [RequestOffloadResponse] *)
Record RequestOffloadResponse := mkRequestOffloadResponse {
  ros_ok : bool; ros_message : string; ros_lease_id : Z; ros_slot_id : Z;
  ros_arena_id : Z; ros_arena_offset : Z; ros_capacity : Z; ros_state : Z;
  ros_blocked : bool }.
#[export] Instance eta_RequestOffloadResponse : Eta RequestOffloadResponse := fun m =>
  mkRequestOffloadResponse
    (ros_ok m) (ros_message m) (ros_lease_id m) (ros_slot_id m) (ros_arena_id m)
    (ros_arena_offset m) (ros_capacity m) (ros_state m) (ros_blocked m).
Definition encode_RequestOffloadResponse (m : RequestOffloadResponse) : writer :=
  w_seq [
    w_b (ros_ok m); w_str (ros_message m); w_u64 (ros_lease_id m);
    w_u32 (ros_slot_id m); w_u64 (ros_arena_id m); w_u64 (ros_arena_offset m);
    w_u64 (ros_capacity m); w_u32 (ros_state m); w_b (ros_blocked m)].
Definition read_RequestOffloadResponse : reader RequestOffloadResponse :=
  ok <- r_b;; message <- r_str;; lease_id <- r_u64;; slot_id <- r_u32;;
  arena_id <- r_u64;; arena_offset <- r_u64;; capacity <- r_u64;; state <- r_u32;;
  blocked <- r_b;;
  r_ret (mkRequestOffloadResponse
    ok message lease_id slot_id arena_id arena_offset capacity state blocked).
Definition decode_RequestOffloadResponse (bs : list byte) : res RequestOffloadResponse := decode_with read_RequestOffloadResponse bs.
Definition wf_RequestOffloadResponse (m : RequestOffloadResponse) : Prop :=
  in_str (ros_message m) /\ in_u64 (ros_lease_id m) /\ in_u32 (ros_slot_id m) /\
  in_u64 (ros_arena_id m) /\ in_u64 (ros_arena_offset m) /\
  in_u64 (ros_capacity m) /\ in_u32 (ros_state m).
Lemma codec_RequestOffloadResponse m : wf_RequestOffloadResponse m -> codec (encode_RequestOffloadResponse m) read_RequestOffloadResponse m.
Proof. solve_codec. Qed.
#[export] Hint Resolve codec_RequestOffloadResponse : codec.

(** [MarkD2HSubmittedRequest] *)
Record MarkD2HSubmittedRequest := mkMarkD2HSubmittedRequest {
  ds_rank_id : Z; ds_rank_epoch : Z; ds_lease_id : Z; ds_tensor_id : Z;
  ds_version : Z; ds_slot_id : Z; ds_submit_seq : Z; ds_timestamp_ns : Z }.
#[export] Instance eta_MarkD2HSubmittedRequest : Eta MarkD2HSubmittedRequest := fun m =>
  mkMarkD2HSubmittedRequest
    (ds_rank_id m) (ds_rank_epoch m) (ds_lease_id m) (ds_tensor_id m) (ds_version m)
    (ds_slot_id m) (ds_submit_seq m) (ds_timestamp_ns m).
Definition encode_MarkD2HSubmittedRequest (m : MarkD2HSubmittedRequest) : writer :=
  w_seq [
    w_u32 (ds_rank_id m); w_u64 (ds_rank_epoch m); w_u64 (ds_lease_id m);
    w_u64 (ds_tensor_id m); w_u64 (ds_version m); w_u32 (ds_slot_id m);
    w_u64 (ds_submit_seq m); w_u64 (ds_timestamp_ns m)].
Definition read_MarkD2HSubmittedRequest : reader MarkD2HSubmittedRequest :=
  rank_id <- r_u32;; rank_epoch <- r_u64;; lease_id <- r_u64;; tensor_id <- r_u64;;
  version <- r_u64;; slot_id <- r_u32;; submit_seq <- r_u64;; timestamp_ns <- r_u64;;
  r_ret (mkMarkD2HSubmittedRequest
    rank_id rank_epoch lease_id tensor_id version slot_id submit_seq timestamp_ns).
Definition decode_MarkD2HSubmittedRequest (bs : list byte) : res MarkD2HSubmittedRequest := decode_with read_MarkD2HSubmittedRequest bs.
Definition wf_MarkD2HSubmittedRequest (m : MarkD2HSubmittedRequest) : Prop :=
  in_u32 (ds_rank_id m) /\ in_u64 (ds_rank_epoch m) /\ in_u64 (ds_lease_id m) /\
  in_u64 (ds_tensor_id m) /\ in_u64 (ds_version m) /\ in_u32 (ds_slot_id m) /\
  in_u64 (ds_submit_seq m) /\ in_u64 (ds_timestamp_ns m).
Lemma codec_MarkD2HSubmittedRequest m : wf_MarkD2HSubmittedRequest m -> codec (encode_MarkD2HSubmittedRequest m) read_MarkD2HSubmittedRequest m.
Proof. solve_codec. Qed.
#[export] Hint Resolve codec_MarkD2HSubmittedRequest : codec.

(** [MarkD2HSubmittedResponse] *)
Record MarkD2HSubmittedResponse := mkMarkD2HSubmittedResponse {
  dss_ok : bool; dss_message : string }.
#[export] Instance eta_MarkD2HSubmittedResponse : Eta MarkD2HSubmittedResponse := fun m =>
  mkMarkD2HSubmittedResponse
    (dss_ok m) (dss_message m).
Definition encode_MarkD2HSubmittedResponse (m : MarkD2HSubmittedResponse) : writer :=
  w_seq [
    w_b (dss_ok m); w_str (dss_message m)].
Definition read_MarkD2HSubmittedResponse : reader MarkD2HSubmittedResponse :=
  ok <- r_b;; message <- r_str;;
  r_ret (mkMarkD2HSubmittedResponse
    ok message).
Definition decode_MarkD2HSubmittedResponse (bs : list byte) : res MarkD2HSubmittedResponse := decode_with read_MarkD2HSubmittedResponse bs.
Definition wf_MarkD2HSubmittedResponse (m : MarkD2HSubmittedResponse) : Prop :=
  in_str (dss_message m).
Lemma codec_MarkD2HSubmittedResponse m : wf_MarkD2HSubmittedResponse m -> codec (encode_MarkD2HSubmittedResponse m) read_MarkD2HSubmittedResponse m.
Proof. solve_codec. Qed.
#[export] Hint Resolve codec_MarkD2HSubmittedResponse : codec.

(** [MarkD2HCompleteRequest] *)
Record MarkD2HCompleteRequest := mkMarkD2HCompleteRequest {
  dc_rank_id : Z; dc_rank_epoch : Z; dc_lease_id : Z; dc_tensor_id : Z;
  dc_version : Z; dc_slot_id : Z; dc_complete_seq : Z; dc_timestamp_ns : Z }.
#[export] Instance eta_MarkD2HCompleteRequest : Eta MarkD2HCompleteRequest := fun m =>
  mkMarkD2HCompleteRequest
    (dc_rank_id m) (dc_rank_epoch m) (dc_lease_id m) (dc_tensor_id m) (dc_version m)
    (dc_slot_id m) (dc_complete_seq m) (dc_timestamp_ns m).
Definition encode_MarkD2HCompleteRequest (m : MarkD2HCompleteRequest) : writer :=
  w_seq [
    w_u32 (dc_rank_id m); w_u64 (dc_rank_epoch m); w_u64 (dc_lease_id m);
    w_u64 (dc_tensor_id m); w_u64 (dc_version m); w_u32 (dc_slot_id m);
    w_u64 (dc_complete_seq m); w_u64 (dc_timestamp_ns m)].
Definition read_MarkD2HCompleteRequest : reader MarkD2HCompleteRequest :=
  rank_id <- r_u32;; rank_epoch <- r_u64;; lease_id <- r_u64;; tensor_id <- r_u64;;
  version <- r_u64;; slot_id <- r_u32;; complete_seq <- r_u64;;
  timestamp_ns <- r_u64;;
  r_ret (mkMarkD2HCompleteRequest
    rank_id rank_epoch lease_id tensor_id version slot_id complete_seq timestamp_ns).
Definition decode_MarkD2HCompleteRequest (bs : list byte) : res MarkD2HCompleteRequest := decode_with read_MarkD2HCompleteRequest bs.
Definition wf_MarkD2HCompleteRequest (m : MarkD2HCompleteRequest) : Prop :=
  in_u32 (dc_rank_id m) /\ in_u64 (dc_rank_epoch m) /\ in_u64 (dc_lease_id m) /\
  in_u64 (dc_tensor_id m) /\ in_u64 (dc_version m) /\ in_u32 (dc_slot_id m) /\
  in_u64 (dc_complete_seq m) /\ in_u64 (dc_timestamp_ns m).
Lemma codec_MarkD2HCompleteRequest m : wf_MarkD2HCompleteRequest m -> codec (encode_MarkD2HCompleteRequest m) read_MarkD2HCompleteRequest m.
Proof. solve_codec. Qed.
#[export] Hint Resolve codec_MarkD2HCompleteRequest : codec.

(** [MarkD2HCompleteResponse] *)
Record MarkD2HCompleteResponse := mkMarkD2HCompleteResponse {
  dcs_ok : bool; dcs_message : string; dcs_latest_version : bool;
  dcs_drain_enqueued : bool }.
#[export] Instance eta_MarkD2HCompleteResponse : Eta MarkD2HCompleteResponse := fun m =>
  mkMarkD2HCompleteResponse
    (dcs_ok m) (dcs_message m) (dcs_latest_version m) (dcs_drain_enqueued m).
Definition encode_MarkD2HCompleteResponse (m : MarkD2HCompleteResponse) : writer :=
  w_seq [
    w_b (dcs_ok m); w_str (dcs_message m); w_b (dcs_latest_version m);
    w_b (dcs_drain_enqueued m)].
Definition read_MarkD2HCompleteResponse : reader MarkD2HCompleteResponse :=
  ok <- r_b;; message <- r_str;; latest_version <- r_b;; drain_enqueued <- r_b;;
  r_ret (mkMarkD2HCompleteResponse
    ok message latest_version drain_enqueued).
Definition decode_MarkD2HCompleteResponse (bs : list byte) : res MarkD2HCompleteResponse := decode_with read_MarkD2HCompleteResponse bs.
Definition wf_MarkD2HCompleteResponse (m : MarkD2HCompleteResponse) : Prop :=
  in_str (dcs_message m).
Lemma codec_MarkD2HCompleteResponse m : wf_MarkD2HCompleteResponse m -> codec (encode_MarkD2HCompleteResponse m) read_MarkD2HCompleteResponse m.
Proof. solve_codec. Qed.
#[export] Hint Resolve codec_MarkD2HCompleteResponse : codec.

(** [RequestPrefetchRequest] *)
Record RequestPrefetchRequest := mkRequestPrefetchRequest {
  rp_rank_id : Z; rp_rank_epoch : Z; rp_tensor_id : Z; rp_version : Z; rp_nbytes : Z;
  rp_gpu_id : Z; rp_numa_node : Z; rp_priority : Z; rp_flags : Z }.
#[export] Instance eta_RequestPrefetchRequest : Eta RequestPrefetchRequest := fun m =>
  mkRequestPrefetchRequest
    (rp_rank_id m) (rp_rank_epoch m) (rp_tensor_id m) (rp_version m) (rp_nbytes m)
    (rp_gpu_id m) (rp_numa_node m) (rp_priority m) (rp_flags m).
Definition encode_RequestPrefetchRequest (m : RequestPrefetchRequest) : writer :=
  w_seq [
    w_u32 (rp_rank_id m); w_u64 (rp_rank_epoch m); w_u64 (rp_tensor_id m);
    w_u64 (rp_version m); w_u64 (rp_nbytes m); w_u32 (rp_gpu_id m);
    w_u32 (rp_numa_node m); w_u32 (rp_priority m); w_u64 (rp_flags m)].
Definition read_RequestPrefetchRequest : reader RequestPrefetchRequest :=
  rank_id <- r_u32;; rank_epoch <- r_u64;; tensor_id <- r_u64;; version <- r_u64;;
  nbytes <- r_u64;; gpu_id <- r_u32;; numa_node <- r_u32;; priority <- r_u32;;
  flags <- r_u64;;
  r_ret (mkRequestPrefetchRequest
    rank_id rank_epoch tensor_id version nbytes gpu_id numa_node priority flags).
Definition decode_RequestPrefetchRequest (bs : list byte) : res RequestPrefetchRequest := decode_with read_RequestPrefetchRequest bs.
Definition wf_RequestPrefetchRequest (m : RequestPrefetchRequest) : Prop :=
  in_u32 (rp_rank_id m) /\ in_u64 (rp_rank_epoch m) /\ in_u64 (rp_tensor_id m) /\
  in_u64 (rp_version m) /\ in_u64 (rp_nbytes m) /\ in_u32 (rp_gpu_id m) /\
  in_u32 (rp_numa_node m) /\ in_u32 (rp_priority m) /\ in_u64 (rp_flags m).
Lemma codec_RequestPrefetchRequest m : wf_RequestPrefetchRequest m -> codec (encode_RequestPrefetchRequest m) read_RequestPrefetchRequest m.
Proof. solve_codec. Qed.
#[export] Hint Resolve codec_RequestPrefetchRequest : codec.

(** [RequestPrefetchResponse] *)
Record RequestPrefetchResponse := mkRequestPrefetchResponse {
  rps_ok : bool; rps_message : string; rps_lease_id : Z; rps_slot_id : Z;
  rps_arena_id : Z; rps_arena_offset : Z; rps_nbytes : Z; rps_state : Z;
  rps_ready : bool; rps_version : Z }.
#[export] Instance eta_RequestPrefetchResponse : Eta RequestPrefetchResponse := fun m =>
  mkRequestPrefetchResponse
    (rps_ok m) (rps_message m) (rps_lease_id m) (rps_slot_id m) (rps_arena_id m)
    (rps_arena_offset m) (rps_nbytes m) (rps_state m) (rps_ready m) (rps_version m).
Definition encode_RequestPrefetchResponse (m : RequestPrefetchResponse) : writer :=
  w_seq [
    w_b (rps_ok m); w_str (rps_message m); w_u64 (rps_lease_id m);
    w_u32 (rps_slot_id m); w_u64 (rps_arena_id m); w_u64 (rps_arena_offset m);
    w_u64 (rps_nbytes m); w_u32 (rps_state m); w_b (rps_ready m);
    w_u64 (rps_version m)].
Definition read_RequestPrefetchResponse : reader RequestPrefetchResponse :=
  ok <- r_b;; message <- r_str;; lease_id <- r_u64;; slot_id <- r_u32;;
  arena_id <- r_u64;; arena_offset <- r_u64;; nbytes <- r_u64;; state <- r_u32;;
  ready <- r_b;; version <- r_u64;;
  r_ret (mkRequestPrefetchResponse
    ok message lease_id slot_id arena_id arena_offset nbytes state ready version).
Definition decode_RequestPrefetchResponse (bs : list byte) : res RequestPrefetchResponse := decode_with read_RequestPrefetchResponse bs.
Definition wf_RequestPrefetchResponse (m : RequestPrefetchResponse) : Prop :=
  in_str (rps_message m) /\ in_u64 (rps_lease_id m) /\ in_u32 (rps_slot_id m) /\
  in_u64 (rps_arena_id m) /\ in_u64 (rps_arena_offset m) /\ in_u64 (rps_nbytes m) /\
  in_u32 (rps_state m) /\ in_u64 (rps_version m).
Lemma codec_RequestPrefetchResponse m : wf_RequestPrefetchResponse m -> codec (encode_RequestPrefetchResponse m) read_RequestPrefetchResponse m.
Proof. solve_codec. Qed.
#[export] Hint Resolve codec_RequestPrefetchResponse : codec.

(** [MarkH2DSubmittedRequest] *)
Record MarkH2DSubmittedRequest := mkMarkH2DSubmittedRequest {
  hs_rank_id : Z; hs_rank_epoch : Z; hs_lease_id : Z; hs_tensor_id : Z;
  hs_version : Z; hs_slot_id : Z; hs_submit_seq : Z; hs_timestamp_ns : Z }.
#[export] Instance eta_MarkH2DSubmittedRequest : Eta MarkH2DSubmittedRequest := fun m =>
  mkMarkH2DSubmittedRequest
    (hs_rank_id m) (hs_rank_epoch m) (hs_lease_id m) (hs_tensor_id m) (hs_version m)
    (hs_slot_id m) (hs_submit_seq m) (hs_timestamp_ns m).
Definition encode_MarkH2DSubmittedRequest (m : MarkH2DSubmittedRequest) : writer :=
  w_seq [
    w_u32 (hs_rank_id m); w_u64 (hs_rank_epoch m); w_u64 (hs_lease_id m);
    w_u64 (hs_tensor_id m); w_u64 (hs_version m); w_u32 (hs_slot_id m);
    w_u64 (hs_submit_seq m); w_u64 (hs_timestamp_ns m)].
Definition read_MarkH2DSubmittedRequest : reader MarkH2DSubmittedRequest :=
  rank_id <- r_u32;; rank_epoch <- r_u64;; lease_id <- r_u64;; tensor_id <- r_u64;;
  version <- r_u64;; slot_id <- r_u32;; submit_seq <- r_u64;; timestamp_ns <- r_u64;;
  r_ret (mkMarkH2DSubmittedRequest
    rank_id rank_epoch lease_id tensor_id version slot_id submit_seq timestamp_ns).
Definition decode_MarkH2DSubmittedRequest (bs : list byte) : res MarkH2DSubmittedRequest := decode_with read_MarkH2DSubmittedRequest bs.
Definition wf_MarkH2DSubmittedRequest (m : MarkH2DSubmittedRequest) : Prop :=
  in_u32 (hs_rank_id m) /\ in_u64 (hs_rank_epoch m) /\ in_u64 (hs_lease_id m) /\
  in_u64 (hs_tensor_id m) /\ in_u64 (hs_version m) /\ in_u32 (hs_slot_id m) /\
  in_u64 (hs_submit_seq m) /\ in_u64 (hs_timestamp_ns m).
Lemma codec_MarkH2DSubmittedRequest m : wf_MarkH2DSubmittedRequest m -> codec (encode_MarkH2DSubmittedRequest m) read_MarkH2DSubmittedRequest m.
Proof. solve_codec. Qed.
#[export] Hint Resolve codec_MarkH2DSubmittedRequest : codec.

(** [MarkH2DSubmittedResponse] *)
Record MarkH2DSubmittedResponse := mkMarkH2DSubmittedResponse {
  hss_ok : bool; hss_message : string }.
#[export] Instance eta_MarkH2DSubmittedResponse : Eta MarkH2DSubmittedResponse := fun m =>
  mkMarkH2DSubmittedResponse
    (hss_ok m) (hss_message m).
Definition encode_MarkH2DSubmittedResponse (m : MarkH2DSubmittedResponse) : writer :=
  w_seq [
    w_b (hss_ok m); w_str (hss_message m)].
Definition read_MarkH2DSubmittedResponse : reader MarkH2DSubmittedResponse :=
  ok <- r_b;; message <- r_str;;
  r_ret (mkMarkH2DSubmittedResponse
    ok message).
Definition decode_MarkH2DSubmittedResponse (bs : list byte) : res MarkH2DSubmittedResponse := decode_with read_MarkH2DSubmittedResponse bs.
Definition wf_MarkH2DSubmittedResponse (m : MarkH2DSubmittedResponse) : Prop :=
  in_str (hss_message m).
Lemma codec_MarkH2DSubmittedResponse m : wf_MarkH2DSubmittedResponse m -> codec (encode_MarkH2DSubmittedResponse m) read_MarkH2DSubmittedResponse m.
Proof. solve_codec. Qed.
#[export] Hint Resolve codec_MarkH2DSubmittedResponse : codec.

(** [MarkH2DCompleteRequest] *)
Record MarkH2DCompleteRequest := mkMarkH2DCompleteRequest {
  hc_rank_id : Z; hc_rank_epoch : Z; hc_lease_id : Z; hc_tensor_id : Z;
  hc_version : Z; hc_slot_id : Z; hc_keep_pinned : bool; hc_complete_seq : Z;
  hc_timestamp_ns : Z }.
#[export] Instance eta_MarkH2DCompleteRequest : Eta MarkH2DCompleteRequest := fun m =>
  mkMarkH2DCompleteRequest
    (hc_rank_id m) (hc_rank_epoch m) (hc_lease_id m) (hc_tensor_id m) (hc_version m)
    (hc_slot_id m) (hc_keep_pinned m) (hc_complete_seq m) (hc_timestamp_ns m).
Definition encode_MarkH2DCompleteRequest (m : MarkH2DCompleteRequest) : writer :=
  w_seq [
    w_u32 (hc_rank_id m); w_u64 (hc_rank_epoch m); w_u64 (hc_lease_id m);
    w_u64 (hc_tensor_id m); w_u64 (hc_version m); w_u32 (hc_slot_id m);
    w_b (hc_keep_pinned m); w_u64 (hc_complete_seq m); w_u64 (hc_timestamp_ns m)].
Definition read_MarkH2DCompleteRequest : reader MarkH2DCompleteRequest :=
  rank_id <- r_u32;; rank_epoch <- r_u64;; lease_id <- r_u64;; tensor_id <- r_u64;;
  version <- r_u64;; slot_id <- r_u32;; keep_pinned <- r_b;; complete_seq <- r_u64;;
  timestamp_ns <- r_u64;;
  r_ret (mkMarkH2DCompleteRequest
    rank_id rank_epoch lease_id tensor_id version slot_id keep_pinned complete_seq
    timestamp_ns).
Definition decode_MarkH2DCompleteRequest (bs : list byte) : res MarkH2DCompleteRequest := decode_with read_MarkH2DCompleteRequest bs.
Definition wf_MarkH2DCompleteRequest (m : MarkH2DCompleteRequest) : Prop :=
  in_u32 (hc_rank_id m) /\ in_u64 (hc_rank_epoch m) /\ in_u64 (hc_lease_id m) /\
  in_u64 (hc_tensor_id m) /\ in_u64 (hc_version m) /\ in_u32 (hc_slot_id m) /\
  in_u64 (hc_complete_seq m) /\ in_u64 (hc_timestamp_ns m).
Lemma codec_MarkH2DCompleteRequest m : wf_MarkH2DCompleteRequest m -> codec (encode_MarkH2DCompleteRequest m) read_MarkH2DCompleteRequest m.
Proof. solve_codec. Qed.
#[export] Hint Resolve codec_MarkH2DCompleteRequest : codec.

(** [MarkH2DCompleteResponse] *)
Record MarkH2DCompleteResponse := mkMarkH2DCompleteResponse {
  hcs_ok : bool; hcs_message : string }.
#[export] Instance eta_MarkH2DCompleteResponse : Eta MarkH2DCompleteResponse := fun m =>
  mkMarkH2DCompleteResponse
    (hcs_ok m) (hcs_message m).
Definition encode_MarkH2DCompleteResponse (m : MarkH2DCompleteResponse) : writer :=
  w_seq [
    w_b (hcs_ok m); w_str (hcs_message m)].
Definition read_MarkH2DCompleteResponse : reader MarkH2DCompleteResponse :=
  ok <- r_b;; message <- r_str;;
  r_ret (mkMarkH2DCompleteResponse
    ok message).
Definition decode_MarkH2DCompleteResponse (bs : list byte) : res MarkH2DCompleteResponse := decode_with read_MarkH2DCompleteResponse bs.
Definition wf_MarkH2DCompleteResponse (m : MarkH2DCompleteResponse) : Prop :=
  in_str (hcs_message m).
Lemma codec_MarkH2DCompleteResponse m : wf_MarkH2DCompleteResponse m -> codec (encode_MarkH2DCompleteResponse m) read_MarkH2DCompleteResponse m.
Proof. solve_codec. Qed.
#[export] Hint Resolve codec_MarkH2DCompleteResponse : codec.

(** [ReleaseLeaseRequest] *)
Record ReleaseLeaseRequest := mkReleaseLeaseRequest {
  rl_rank_id : Z; rl_rank_epoch : Z; rl_lease_id : Z; rl_slot_id : Z;
  rl_reason : string }.
#[export] Instance eta_ReleaseLeaseRequest : Eta ReleaseLeaseRequest := fun m =>
  mkReleaseLeaseRequest
    (rl_rank_id m) (rl_rank_epoch m) (rl_lease_id m) (rl_slot_id m) (rl_reason m).
Definition encode_ReleaseLeaseRequest (m : ReleaseLeaseRequest) : writer :=
  w_seq [
    w_u32 (rl_rank_id m); w_u64 (rl_rank_epoch m); w_u64 (rl_lease_id m);
    w_u32 (rl_slot_id m); w_str (rl_reason m)].
Definition read_ReleaseLeaseRequest : reader ReleaseLeaseRequest :=
  rank_id <- r_u32;; rank_epoch <- r_u64;; lease_id <- r_u64;; slot_id <- r_u32;;
  reason <- r_str;;
  r_ret (mkReleaseLeaseRequest
    rank_id rank_epoch lease_id slot_id reason).
Definition decode_ReleaseLeaseRequest (bs : list byte) : res ReleaseLeaseRequest := decode_with read_ReleaseLeaseRequest bs.
Definition wf_ReleaseLeaseRequest (m : ReleaseLeaseRequest) : Prop :=
  in_u32 (rl_rank_id m) /\ in_u64 (rl_rank_epoch m) /\ in_u64 (rl_lease_id m) /\
  in_u32 (rl_slot_id m) /\ in_str (rl_reason m).
Lemma codec_ReleaseLeaseRequest m : wf_ReleaseLeaseRequest m -> codec (encode_ReleaseLeaseRequest m) read_ReleaseLeaseRequest m.
Proof. solve_codec. Qed.
#[export] Hint Resolve codec_ReleaseLeaseRequest : codec.

(** [ReleaseLeaseResponse] *)
Record ReleaseLeaseResponse := mkReleaseLeaseResponse {
  rls_ok : bool; rls_message : string }.
#[export] Instance eta_ReleaseLeaseResponse : Eta ReleaseLeaseResponse := fun m =>
  mkReleaseLeaseResponse
    (rls_ok m) (rls_message m).
Definition encode_ReleaseLeaseResponse (m : ReleaseLeaseResponse) : writer :=
  w_seq [
    w_b (rls_ok m); w_str (rls_message m)].
Definition read_ReleaseLeaseResponse : reader ReleaseLeaseResponse :=
  ok <- r_b;; message <- r_str;;
  r_ret (mkReleaseLeaseResponse
    ok message).
Definition decode_ReleaseLeaseResponse (bs : list byte) : res ReleaseLeaseResponse := decode_with read_ReleaseLeaseResponse bs.
Definition wf_ReleaseLeaseResponse (m : ReleaseLeaseResponse) : Prop :=
  in_str (rls_message m).
Lemma codec_ReleaseLeaseResponse m : wf_ReleaseLeaseResponse m -> codec (encode_ReleaseLeaseResponse m) read_ReleaseLeaseResponse m.
Proof. solve_codec. Qed.
#[export] Hint Resolve codec_ReleaseLeaseResponse : codec.

(** [LocationQueryRequest] *)
Record LocationQueryRequest := mkLocationQueryRequest {
  lq_tensor_id : Z; lq_version : Z }.
#[export] Instance eta_LocationQueryRequest : Eta LocationQueryRequest := fun m =>
  mkLocationQueryRequest
    (lq_tensor_id m) (lq_version m).
Definition encode_LocationQueryRequest (m : LocationQueryRequest) : writer :=
  w_seq [
    w_u64 (lq_tensor_id m); w_u64 (lq_version m)].
Definition read_LocationQueryRequest : reader LocationQueryRequest :=
  tensor_id <- r_u64;; version <- r_u64;;
  r_ret (mkLocationQueryRequest
    tensor_id version).
Definition decode_LocationQueryRequest (bs : list byte) : res LocationQueryRequest := decode_with read_LocationQueryRequest bs.
Definition wf_LocationQueryRequest (m : LocationQueryRequest) : Prop :=
  in_u64 (lq_tensor_id m) /\ in_u64 (lq_version m).
Lemma codec_LocationQueryRequest m : wf_LocationQueryRequest m -> codec (encode_LocationQueryRequest m) read_LocationQueryRequest m.
Proof. solve_codec. Qed.
#[export] Hint Resolve codec_LocationQueryRequest : codec.

(** [LocationQueryResponse] *)
Record LocationQueryResponse := mkLocationQueryResponse {
  lqs_ok : bool; lqs_message : string; lqs_location_kind : Z; lqs_slot_id : Z;
  lqs_nbytes : Z; lqs_version : Z }.
#[export] Instance eta_LocationQueryResponse : Eta LocationQueryResponse := fun m =>
  mkLocationQueryResponse
    (lqs_ok m) (lqs_message m) (lqs_location_kind m) (lqs_slot_id m) (lqs_nbytes m)
    (lqs_version m).
Definition encode_LocationQueryResponse (m : LocationQueryResponse) : writer :=
  w_seq [
    w_b (lqs_ok m); w_str (lqs_message m); w_u32 (lqs_location_kind m);
    w_u32 (lqs_slot_id m); w_u64 (lqs_nbytes m); w_u64 (lqs_version m)].
Definition read_LocationQueryResponse : reader LocationQueryResponse :=
  ok <- r_b;; message <- r_str;; location_kind <- r_u32;; slot_id <- r_u32;;
  nbytes <- r_u64;; version <- r_u64;;
  r_ret (mkLocationQueryResponse
    ok message location_kind slot_id nbytes version).
Definition decode_LocationQueryResponse (bs : list byte) : res LocationQueryResponse := decode_with read_LocationQueryResponse bs.
Definition wf_LocationQueryResponse (m : LocationQueryResponse) : Prop :=
  in_str (lqs_message m) /\ in_u32 (lqs_location_kind m) /\ in_u32 (lqs_slot_id m) /\
  in_u64 (lqs_nbytes m) /\ in_u64 (lqs_version m).
Lemma codec_LocationQueryResponse m : wf_LocationQueryResponse m -> codec (encode_LocationQueryResponse m) read_LocationQueryResponse m.
Proof. solve_codec. Qed.
#[export] Hint Resolve codec_LocationQueryResponse : codec.

(** [BatchCompletion] *)
Record BatchCompletion := mkBatchCompletion {
  bc_event_type : Z; bc_lease_id : Z; bc_tensor_id : Z; bc_version : Z;
  bc_slot_id : Z; bc_seq : Z; bc_timestamp_ns : Z; bc_keep_pinned : bool }.
#[export] Instance eta_BatchCompletion : Eta BatchCompletion := fun m =>
  mkBatchCompletion
    (bc_event_type m) (bc_lease_id m) (bc_tensor_id m) (bc_version m) (bc_slot_id m)
    (bc_seq m) (bc_timestamp_ns m) (bc_keep_pinned m).
Definition put_BatchCompletion (m : BatchCompletion) : writer :=
  w_seq [
    w_u32 (bc_event_type m); w_u64 (bc_lease_id m); w_u64 (bc_tensor_id m);
    w_u64 (bc_version m); w_u32 (bc_slot_id m); w_u64 (bc_seq m);
    w_u64 (bc_timestamp_ns m); w_b (bc_keep_pinned m)].
Definition get_BatchCompletion : reader BatchCompletion :=
  event_type <- r_u32;; lease_id <- r_u64;; tensor_id <- r_u64;; version <- r_u64;;
  slot_id <- r_u32;; seq <- r_u64;; timestamp_ns <- r_u64;; keep_pinned <- r_b;;
  r_ret (mkBatchCompletion
    event_type lease_id tensor_id version slot_id seq timestamp_ns keep_pinned).
Definition wf_BatchCompletion (m : BatchCompletion) : Prop :=
  in_u32 (bc_event_type m) /\ in_u64 (bc_lease_id m) /\ in_u64 (bc_tensor_id m) /\
  in_u64 (bc_version m) /\ in_u32 (bc_slot_id m) /\ in_u64 (bc_seq m) /\
  in_u64 (bc_timestamp_ns m).
Lemma codec_BatchCompletion m : wf_BatchCompletion m -> codec (put_BatchCompletion m) get_BatchCompletion m.
Proof. solve_codec. Qed.
#[export] Hint Resolve codec_BatchCompletion : codec.

(** [BatchCompleteRequest] *)
Record BatchCompleteRequest := mkBatchCompleteRequest {
  bq_rank_id : Z; bq_rank_epoch : Z; bq_completions : list BatchCompletion }.
#[export] Instance eta_BatchCompleteRequest : Eta BatchCompleteRequest := fun m =>
  mkBatchCompleteRequest
    (bq_rank_id m) (bq_rank_epoch m) (bq_completions m).
Definition encode_BatchCompleteRequest (m : BatchCompleteRequest) : writer :=
  w_seq [
    w_u32 (bq_rank_id m); w_u64 (bq_rank_epoch m);
    w_vec put_BatchCompletion (bq_completions m)].
Definition read_BatchCompleteRequest : reader BatchCompleteRequest :=
  rank_id <- r_u32;; rank_epoch <- r_u64;; completions <- r_vec get_BatchCompletion;;
  r_ret (mkBatchCompleteRequest
    rank_id rank_epoch completions).
Definition decode_BatchCompleteRequest (bs : list byte) : res BatchCompleteRequest := decode_with read_BatchCompleteRequest bs.
Definition wf_BatchCompleteRequest (m : BatchCompleteRequest) : Prop :=
  in_u32 (bq_rank_id m) /\ in_u64 (bq_rank_epoch m) /\
  in_vec wf_BatchCompletion (bq_completions m).
Lemma codec_BatchCompleteRequest m : wf_BatchCompleteRequest m -> codec (encode_BatchCompleteRequest m) read_BatchCompleteRequest m.
Proof. solve_codec. Qed.
#[export] Hint Resolve codec_BatchCompleteRequest : codec.

(** [BatchCompleteResponse] *)
Record BatchCompleteResponse := mkBatchCompleteResponse {
  bqs_ok : bool; bqs_message : string; bqs_accepted : Z; bqs_rejected : Z }.
#[export] Instance eta_BatchCompleteResponse : Eta BatchCompleteResponse := fun m =>
  mkBatchCompleteResponse
    (bqs_ok m) (bqs_message m) (bqs_accepted m) (bqs_rejected m).
Definition encode_BatchCompleteResponse (m : BatchCompleteResponse) : writer :=
  w_seq [
    w_b (bqs_ok m); w_str (bqs_message m); w_u32 (bqs_accepted m);
    w_u32 (bqs_rejected m)].
Definition read_BatchCompleteResponse : reader BatchCompleteResponse :=
  ok <- r_b;; message <- r_str;; accepted <- r_u32;; rejected <- r_u32;;
  r_ret (mkBatchCompleteResponse
    ok message accepted rejected).
Definition decode_BatchCompleteResponse (bs : list byte) : res BatchCompleteResponse := decode_with read_BatchCompleteResponse bs.
Definition wf_BatchCompleteResponse (m : BatchCompleteResponse) : Prop :=
  in_str (bqs_message m) /\ in_u32 (bqs_accepted m) /\ in_u32 (bqs_rejected m).
Lemma codec_BatchCompleteResponse m : wf_BatchCompleteResponse m -> codec (encode_BatchCompleteResponse m) read_BatchCompleteResponse m.
Proof. solve_codec. Qed.
#[export] Hint Resolve codec_BatchCompleteResponse : codec.

(** [GetStatsRequest] *)
Record GetStatsRequest := mkGetStatsRequest {
  gs_rank_id : Z }.
#[export] Instance eta_GetStatsRequest : Eta GetStatsRequest := fun m =>
  mkGetStatsRequest
    (gs_rank_id m).
Definition encode_GetStatsRequest (m : GetStatsRequest) : writer :=
  w_seq [
    w_u32 (gs_rank_id m)].
Definition read_GetStatsRequest : reader GetStatsRequest :=
  rank_id <- r_u32;;
  r_ret (mkGetStatsRequest
    rank_id).
Definition decode_GetStatsRequest (bs : list byte) : res GetStatsRequest := decode_with read_GetStatsRequest bs.
Definition wf_GetStatsRequest (m : GetStatsRequest) : Prop :=
  in_u32 (gs_rank_id m).
Lemma codec_GetStatsRequest m : wf_GetStatsRequest m -> codec (encode_GetStatsRequest m) read_GetStatsRequest m.
Proof. solve_codec. Qed.
#[export] Hint Resolve codec_GetStatsRequest : codec.

(** [GetStatsResponse] *)
Record GetStatsResponse := mkGetStatsResponse {
  gss_ok : bool; gss_message : string; gss_keys : list string; gss_values : list Z }.
#[export] Instance eta_GetStatsResponse : Eta GetStatsResponse := fun m =>
  mkGetStatsResponse
    (gss_ok m) (gss_message m) (gss_keys m) (gss_values m).
(** [m.values[i]] is read for every index of [m.keys]; past the end of
    [m.values] the behaviour is undefined, shown here as a throw. *)
Definition put_stats_pair (values : list Z) (ik : nat * string) : writer :=
  match values !! ik.1 with
  | Some v => w_seq [w_str ik.2; w_u64 v]
  | None => Throw "undefined behaviour: values[i] out of range"
  end.
Definition get_stats_pair : reader (string * Z) :=
  k <- r_str;; v <- r_u64;; r_ret (k, v).
Definition encode_GetStatsResponse (m : GetStatsResponse) : writer :=
  w_seq [w_b (gss_ok m); w_str (gss_message m);
         w_vec (put_stats_pair (gss_values m)) (imap (fun i k => (i, k)) (gss_keys m))].
Definition read_GetStatsResponse : reader GetStatsResponse :=
  ok <- r_b;; message <- r_str;; kvs <- r_vec get_stats_pair;;
  r_ret (mkGetStatsResponse ok message (kvs.*1) (kvs.*2)).
Definition decode_GetStatsResponse (bs : list byte) : res GetStatsResponse :=
  decode_with read_GetStatsResponse bs.
Definition wf_GetStatsResponse (m : GetStatsResponse) : Prop :=
  in_str (gss_message m) /\ in_vec in_str (gss_keys m) /\ in_vec in_u64 (gss_values m) /\
  length (gss_values m) = length (gss_keys m).

(** [ShutdownRequest] *)
Record ShutdownRequest := mkShutdownRequest {
  sd_token : Z }.
#[export] Instance eta_ShutdownRequest : Eta ShutdownRequest := fun m =>
  mkShutdownRequest
    (sd_token m).
Definition encode_ShutdownRequest (m : ShutdownRequest) : writer :=
  w_seq [
    w_u64 (sd_token m)].
Definition read_ShutdownRequest : reader ShutdownRequest :=
  token <- r_u64;;
  r_ret (mkShutdownRequest
    token).
Definition decode_ShutdownRequest (bs : list byte) : res ShutdownRequest := decode_with read_ShutdownRequest bs.
Definition wf_ShutdownRequest (m : ShutdownRequest) : Prop :=
  in_u64 (sd_token m).
Lemma codec_ShutdownRequest m : wf_ShutdownRequest m -> codec (encode_ShutdownRequest m) read_ShutdownRequest m.
Proof. solve_codec. Qed.
#[export] Hint Resolve codec_ShutdownRequest : codec.

(** [ShutdownResponse] *)
Record ShutdownResponse := mkShutdownResponse {
  sds_ok : bool; sds_message : string }.
#[export] Instance eta_ShutdownResponse : Eta ShutdownResponse := fun m =>
  mkShutdownResponse
    (sds_ok m) (sds_message m).
Definition encode_ShutdownResponse (m : ShutdownResponse) : writer :=
  w_seq [
    w_b (sds_ok m); w_str (sds_message m)].
Definition read_ShutdownResponse : reader ShutdownResponse :=
  ok <- r_b;; message <- r_str;;
  r_ret (mkShutdownResponse
    ok message).
Definition decode_ShutdownResponse (bs : list byte) : res ShutdownResponse := decode_with read_ShutdownResponse bs.
Definition wf_ShutdownResponse (m : ShutdownResponse) : Prop :=
  in_str (sds_message m).
Lemma codec_ShutdownResponse m : wf_ShutdownResponse m -> codec (encode_ShutdownResponse m) read_ShutdownResponse m.
Proof. solve_codec. Qed.
#[export] Hint Resolve codec_ShutdownResponse : codec.

(** ** GetStats: parallel key and value vectors *)
Lemma codec_stats_pairs vs ks :
  length vs = length ks -> in_vec in_str ks -> in_vec in_u64 vs ->
  codec (w_vec (put_stats_pair vs) (imap (fun i k => (i, k)) ks)) (r_vec get_stats_pair)
        (zip ks vs).
Proof.
  intros Hlen [Hk Hks] [_ Hvs].
  enough (H : codec (w_seq (map (put_stats_pair vs) (imap (fun i k => (i, k)) ks)))
                (r_loop get_stats_pair (length ks)) (zip ks vs)).
  { unfold w_vec. rewrite length_imap, u32_small by (split; lia).
    eapply codec_cons; [apply codec_u32; split; lia|]. by rewrite Nat2Z.id. }
  rewrite Forall_lookup in Hks. rewrite Forall_lookup in Hvs. clear Hk.
  assert (Hdrop : forall n ks', drop n ks = ks' ->
    codec (w_seq (map (put_stats_pair vs) (imap (fun i k => (n + i, k)%nat) ks')))
          (r_loop get_stats_pair (length ks')) (zip ks' (drop n vs))).
  2:{ apply (Hdrop 0%nat ks). done. }
  intros n ks'. revert n. induction ks' as [|k ks' IH]; intros n Hn.
  - apply codec_nil.
  - assert (Hkn : ks !! n = Some k) by (by rewrite <- (Nat.add_0_r n), <- lookup_drop, Hn).
    destruct (lookup_lt_is_Some_2 vs n) as [v Hv];
      [rewrite Hlen; by eapply lookup_lt_Some|].
    assert (Hn' : drop (S n) ks = ks').
    { rewrite (drop_S ks k n Hkn) in Hn. congruence. }
    specialize (IH (S n) Hn'). rewrite (drop_S vs v n Hv).
    cbn [imap map r_loop length zip zip_with]. eapply codec_cons.
    + instantiate (1 := (k, v)). unfold put_stats_pair. cbn [fst snd].
      rewrite Nat.add_0_r, Hv. unfold get_stats_pair.
      eapply codec_cons; [eauto with codec|]. eapply codec_cons; [eauto with codec|].
      apply codec_nil.
    + destruct IH as (b & E & Hb). exists b. split.
      * rewrite <- E. do 2 f_equal. apply imap_ext. intros i x _. cbn.
        f_equal. lia.
      * by apply (parses_fmap _ (cons (k, v))).
Qed.
Lemma codec_GetStatsResponse m :
  wf_GetStatsResponse m -> codec (encode_GetStatsResponse m) read_GetStatsResponse m.
Proof.
  destruct m as [ok msg ks vs]. intros (Hm & Hk & Hv & Hlen).
  cbn [gss_ok gss_message gss_keys gss_values] in Hm, Hk, Hv, Hlen.
  unfold encode_GetStatsResponse, read_GetStatsResponse. cbn [gss_ok gss_message gss_keys gss_values].
  eapply codec_cons; [apply codec_b|]. eapply codec_cons; [by apply codec_str|].
  eapply codec_cons; [by apply codec_stats_pairs|].
  rewrite (fst_zip ks vs) by lia. rewrite (snd_zip ks vs) by lia. apply codec_nil.
Qed.
#[export] Hint Resolve codec_GetStatsResponse : codec.
