(* ===== verification/ProtocolV2.v ===== *)
(** * v2 canonical model-state messages

    The message structs of [src/common/protocol_v2.h] and their codecs of
    [src/common/wire_v2.cpp]; same conventions as [Protocol]. *)
From stdpp Require Import base strings list list_numbers.
From Stdlib Require Import ZArith Lia Strings.Byte.
From S2P Require Import Prelude.
From S2P Require Import Wire.
Open Scope Z_scope.
Open Scope offload_scope.

(** [JobKeyWire] *)
Record JobKeyWire := mkJobKeyWire {
  jk_tenant_id : Z; jk_job_id : Z; jk_launch_epoch : Z; jk_job_name : string }.
#[export] Instance eta_JobKeyWire : Eta JobKeyWire := fun m =>
  mkJobKeyWire
    (jk_tenant_id m) (jk_job_id m) (jk_launch_epoch m) (jk_job_name m).
Definition put_jobkey (m : JobKeyWire) : writer :=
  w_seq [
    w_u64 (jk_tenant_id m); w_u64 (jk_job_id m); w_u64 (jk_launch_epoch m);
    w_str (jk_job_name m)].
Definition get_jobkey : reader JobKeyWire :=
  tenant_id <- r_u64;; job_id <- r_u64;; launch_epoch <- r_u64;; job_name <- r_str;;
  r_ret (mkJobKeyWire
    tenant_id job_id launch_epoch job_name).
Definition wf_JobKeyWire (m : JobKeyWire) : Prop :=
  in_u64 (jk_tenant_id m) /\ in_u64 (jk_job_id m) /\ in_u64 (jk_launch_epoch m) /\
  in_str (jk_job_name m).
Lemma codec_JobKeyWire m : wf_JobKeyWire m -> codec (put_jobkey m) get_jobkey m.
Proof. solve_codec. Qed.
#[export] Hint Resolve codec_JobKeyWire : codec.

(** [CanonicalTensorKeyWire] *)
Record CanonicalTensorKeyWire := mkCanonicalTensorKeyWire {
  k_job : JobKeyWire; k_model_role : Z; k_model_version : Z; k_param_id : Z;
  k_param_fqn_hash : Z; k_param_fqn_debug : string; k_dtype : Z; k_layout : Z;
  k_nbytes : Z; k_shape_hash : Z; k_stride_hash : Z; k_pp_rank : Z; k_tp_rank : Z;
  k_ep_rank : Z; k_etp_rank : Z; k_expert_id : Z; k_shard_offset : Z;
  k_shard_nbytes : Z }.
#[export] Instance eta_CanonicalTensorKeyWire : Eta CanonicalTensorKeyWire := fun m =>
  mkCanonicalTensorKeyWire
    (k_job m) (k_model_role m) (k_model_version m) (k_param_id m)
    (k_param_fqn_hash m) (k_param_fqn_debug m) (k_dtype m) (k_layout m) (k_nbytes m)
    (k_shape_hash m) (k_stride_hash m) (k_pp_rank m) (k_tp_rank m) (k_ep_rank m)
    (k_etp_rank m) (k_expert_id m) (k_shard_offset m) (k_shard_nbytes m).
Definition put_key (m : CanonicalTensorKeyWire) : writer :=
  w_seq [
    put_jobkey (k_job m); w_u32 (k_model_role m); w_u64 (k_model_version m);
    w_u64 (k_param_id m); w_u64 (k_param_fqn_hash m); w_str (k_param_fqn_debug m);
    w_u32 (k_dtype m); w_u32 (k_layout m); w_u64 (k_nbytes m);
    w_u64 (k_shape_hash m); w_u64 (k_stride_hash m); w_u32 (k_pp_rank m);
    w_u32 (k_tp_rank m); w_u32 (k_ep_rank m); w_u32 (k_etp_rank m);
    w_u32 (u32 (k_expert_id m)); w_u64 (k_shard_offset m); w_u64 (k_shard_nbytes m)].
Definition get_key : reader CanonicalTensorKeyWire :=
  job <- get_jobkey;; model_role <- r_u32;; model_version <- r_u64;;
  param_id <- r_u64;; param_fqn_hash <- r_u64;; param_fqn_debug <- r_str;;
  dtype <- r_u32;; layout <- r_u32;; nbytes <- r_u64;; shape_hash <- r_u64;;
  stride_hash <- r_u64;; pp_rank <- r_u32;; tp_rank <- r_u32;; ep_rank <- r_u32;;
  etp_rank <- r_u32;; expert_id <- r_i32;; shard_offset <- r_u64;;
  shard_nbytes <- r_u64;;
  r_ret (mkCanonicalTensorKeyWire
    job model_role model_version param_id param_fqn_hash param_fqn_debug dtype layout
    nbytes shape_hash stride_hash pp_rank tp_rank ep_rank etp_rank expert_id
    shard_offset shard_nbytes).
Definition wf_CanonicalTensorKeyWire (m : CanonicalTensorKeyWire) : Prop :=
  wf_JobKeyWire (k_job m) /\ in_u32 (k_model_role m) /\ in_u64 (k_model_version m) /\
  in_u64 (k_param_id m) /\ in_u64 (k_param_fqn_hash m) /\
  in_str (k_param_fqn_debug m) /\ in_u32 (k_dtype m) /\ in_u32 (k_layout m) /\
  in_u64 (k_nbytes m) /\ in_u64 (k_shape_hash m) /\ in_u64 (k_stride_hash m) /\
  in_u32 (k_pp_rank m) /\ in_u32 (k_tp_rank m) /\ in_u32 (k_ep_rank m) /\
  in_u32 (k_etp_rank m) /\ in_i32 (k_expert_id m) /\ in_u64 (k_shard_offset m) /\
  in_u64 (k_shard_nbytes m).
Lemma codec_CanonicalTensorKeyWire m : wf_CanonicalTensorKeyWire m -> codec (put_key m) get_key m.
Proof. solve_codec. Qed.
#[export] Hint Resolve codec_CanonicalTensorKeyWire : codec.

(** [RegisterJobRequest] *)
Record RegisterJobRequest := mkRegisterJobRequest {
  rj_tenant_id : Z; rj_job_name : string; rj_scheduler_job_id : Z;
  rj_label_keys : list string; rj_label_values : list string }.
#[export] Instance eta_RegisterJobRequest : Eta RegisterJobRequest := fun m =>
  mkRegisterJobRequest
    (rj_tenant_id m) (rj_job_name m) (rj_scheduler_job_id m) (rj_label_keys m)
    (rj_label_values m).
Definition encode_RegisterJobRequest (m : RegisterJobRequest) : writer :=
  w_seq [
    w_u64 (rj_tenant_id m); w_str (rj_job_name m); w_u64 (rj_scheduler_job_id m);
    w_vec w_str (rj_label_keys m); w_vec w_str (rj_label_values m)].
Definition read_RegisterJobRequest : reader RegisterJobRequest :=
  tenant_id <- r_u64;; job_name <- r_str;; scheduler_job_id <- r_u64;;
  label_keys <- r_vec r_str;; label_values <- r_vec r_str;;
  r_ret (mkRegisterJobRequest
    tenant_id job_name scheduler_job_id label_keys label_values).
Definition decode_RegisterJobRequest (bs : list byte) : res RegisterJobRequest := decode_with read_RegisterJobRequest bs.
Definition wf_RegisterJobRequest (m : RegisterJobRequest) : Prop :=
  in_u64 (rj_tenant_id m) /\ in_str (rj_job_name m) /\
  in_u64 (rj_scheduler_job_id m) /\ in_vec in_str (rj_label_keys m) /\
  in_vec in_str (rj_label_values m).
Lemma codec_RegisterJobRequest m : wf_RegisterJobRequest m -> codec (encode_RegisterJobRequest m) read_RegisterJobRequest m.
Proof. solve_codec. Qed.
#[export] Hint Resolve codec_RegisterJobRequest : codec.

(** [RegisterJobResponse] *)
Record RegisterJobResponse := mkRegisterJobResponse {
  rjs_ok : bool; rjs_message : string; rjs_job : JobKeyWire;
  rjs_control_generation : Z }.
#[export] Instance eta_RegisterJobResponse : Eta RegisterJobResponse := fun m =>
  mkRegisterJobResponse
    (rjs_ok m) (rjs_message m) (rjs_job m) (rjs_control_generation m).
Definition encode_RegisterJobResponse (m : RegisterJobResponse) : writer :=
  w_seq [
    w_b (rjs_ok m); w_str (rjs_message m); put_jobkey (rjs_job m);
    w_u64 (rjs_control_generation m)].
Definition read_RegisterJobResponse : reader RegisterJobResponse :=
  ok <- r_b;; message <- r_str;; job <- get_jobkey;; control_generation <- r_u64;;
  r_ret (mkRegisterJobResponse
    ok message job control_generation).
Definition decode_RegisterJobResponse (bs : list byte) : res RegisterJobResponse := decode_with read_RegisterJobResponse bs.
Definition wf_RegisterJobResponse (m : RegisterJobResponse) : Prop :=
  in_str (rjs_message m) /\ wf_JobKeyWire (rjs_job m) /\
  in_u64 (rjs_control_generation m).
Lemma codec_RegisterJobResponse m : wf_RegisterJobResponse m -> codec (encode_RegisterJobResponse m) read_RegisterJobResponse m.
Proof. solve_codec. Qed.
#[export] Hint Resolve codec_RegisterJobResponse : codec.

(** [RequestCanonicalEvictRequest] *)
Record RequestCanonicalEvictRequest := mkRequestCanonicalEvictRequest {
  ce_rank_id : Z; ce_rank_epoch : Z; ce_key : CanonicalTensorKeyWire;
  ce_local_tensor_id : Z; ce_local_version : Z; ce_destructive : bool;
  ce_attach_if_exists : bool; ce_create_if_missing : bool; ce_dedup_mode : Z;
  ce_allow_duplicate_candidate : bool; ce_alignment : Z; ce_priority : Z;
  ce_gpu_id : Z; ce_numa_node : Z }.
#[export] Instance eta_RequestCanonicalEvictRequest : Eta RequestCanonicalEvictRequest := fun m =>
  mkRequestCanonicalEvictRequest
    (ce_rank_id m) (ce_rank_epoch m) (ce_key m) (ce_local_tensor_id m)
    (ce_local_version m) (ce_destructive m) (ce_attach_if_exists m)
    (ce_create_if_missing m) (ce_dedup_mode m) (ce_allow_duplicate_candidate m)
    (ce_alignment m) (ce_priority m) (ce_gpu_id m) (ce_numa_node m).
Definition encode_RequestCanonicalEvictRequest (m : RequestCanonicalEvictRequest) : writer :=
  w_seq [
    w_u32 (ce_rank_id m); w_u64 (ce_rank_epoch m); put_key (ce_key m);
    w_u64 (ce_local_tensor_id m); w_u64 (ce_local_version m); w_b (ce_destructive m);
    w_b (ce_attach_if_exists m); w_b (ce_create_if_missing m);
    w_u32 (ce_dedup_mode m); w_b (ce_allow_duplicate_candidate m);
    w_u32 (ce_alignment m); w_u32 (ce_priority m); w_u32 (ce_gpu_id m);
    w_u32 (ce_numa_node m)].
Definition read_RequestCanonicalEvictRequest : reader RequestCanonicalEvictRequest :=
  rank_id <- r_u32;; rank_epoch <- r_u64;; key <- get_key;;
  local_tensor_id <- r_u64;; local_version <- r_u64;; destructive <- r_b;;
  attach_if_exists <- r_b;; create_if_missing <- r_b;; dedup_mode <- r_u32;;
  allow_duplicate_candidate <- r_b;; alignment <- r_u32;; priority <- r_u32;;
  gpu_id <- r_u32;; numa_node <- r_u32;;
  r_ret (mkRequestCanonicalEvictRequest
    rank_id rank_epoch key local_tensor_id local_version destructive attach_if_exists
    create_if_missing dedup_mode allow_duplicate_candidate alignment priority gpu_id
    numa_node).
Definition decode_RequestCanonicalEvictRequest (bs : list byte) : res RequestCanonicalEvictRequest := decode_with read_RequestCanonicalEvictRequest bs.
Definition wf_RequestCanonicalEvictRequest (m : RequestCanonicalEvictRequest) : Prop :=
  in_u32 (ce_rank_id m) /\ in_u64 (ce_rank_epoch m) /\
  wf_CanonicalTensorKeyWire (ce_key m) /\ in_u64 (ce_local_tensor_id m) /\
  in_u64 (ce_local_version m) /\ in_u32 (ce_dedup_mode m) /\
  in_u32 (ce_alignment m) /\ in_u32 (ce_priority m) /\ in_u32 (ce_gpu_id m) /\
  in_u32 (ce_numa_node m).
Lemma codec_RequestCanonicalEvictRequest m : wf_RequestCanonicalEvictRequest m -> codec (encode_RequestCanonicalEvictRequest m) read_RequestCanonicalEvictRequest m.
Proof. solve_codec. Qed.
#[export] Hint Resolve codec_RequestCanonicalEvictRequest : codec.

(** [RequestCanonicalEvictResponse] *)
Record RequestCanonicalEvictResponse := mkRequestCanonicalEvictResponse {
  ces_ok : bool; ces_message : string; ces_action : Z; ces_object_id : Z;
  ces_lease_id : Z; ces_slot_id : Z; ces_arena_id : Z; ces_arena_offset : Z;
  ces_capacity : Z; ces_synthetic_tid : Z }.
#[export] Instance eta_RequestCanonicalEvictResponse : Eta RequestCanonicalEvictResponse := fun m =>
  mkRequestCanonicalEvictResponse
    (ces_ok m) (ces_message m) (ces_action m) (ces_object_id m) (ces_lease_id m)
    (ces_slot_id m) (ces_arena_id m) (ces_arena_offset m) (ces_capacity m)
    (ces_synthetic_tid m).
Definition encode_RequestCanonicalEvictResponse (m : RequestCanonicalEvictResponse) : writer :=
  w_seq [
    w_b (ces_ok m); w_str (ces_message m); w_u32 (ces_action m);
    w_u64 (ces_object_id m); w_u64 (ces_lease_id m); w_u32 (ces_slot_id m);
    w_u64 (ces_arena_id m); w_u64 (ces_arena_offset m); w_u64 (ces_capacity m);
    w_u64 (ces_synthetic_tid m)].
Definition read_RequestCanonicalEvictResponse : reader RequestCanonicalEvictResponse :=
  ok <- r_b;; message <- r_str;; action <- r_u32;; object_id <- r_u64;;
  lease_id <- r_u64;; slot_id <- r_u32;; arena_id <- r_u64;; arena_offset <- r_u64;;
  capacity <- r_u64;; synthetic_tid <- r_u64;;
  r_ret (mkRequestCanonicalEvictResponse
    ok message action object_id lease_id slot_id arena_id arena_offset capacity
    synthetic_tid).
Definition decode_RequestCanonicalEvictResponse (bs : list byte) : res RequestCanonicalEvictResponse := decode_with read_RequestCanonicalEvictResponse bs.
Definition wf_RequestCanonicalEvictResponse (m : RequestCanonicalEvictResponse) : Prop :=
  in_str (ces_message m) /\ in_u32 (ces_action m) /\ in_u64 (ces_object_id m) /\
  in_u64 (ces_lease_id m) /\ in_u32 (ces_slot_id m) /\ in_u64 (ces_arena_id m) /\
  in_u64 (ces_arena_offset m) /\ in_u64 (ces_capacity m) /\
  in_u64 (ces_synthetic_tid m).
Lemma codec_RequestCanonicalEvictResponse m : wf_RequestCanonicalEvictResponse m -> codec (encode_RequestCanonicalEvictResponse m) read_RequestCanonicalEvictResponse m.
Proof. solve_codec. Qed.
#[export] Hint Resolve codec_RequestCanonicalEvictResponse : codec.

(** [CommitCanonicalObjectRequest] *)
Record CommitCanonicalObjectRequest := mkCommitCanonicalObjectRequest {
  cc_rank_id : Z; cc_rank_epoch : Z; cc_object_id : Z; cc_lease_id : Z;
  cc_slot_id : Z; cc_content_hash_lo : Z; cc_content_hash_hi : Z }.
#[export] Instance eta_CommitCanonicalObjectRequest : Eta CommitCanonicalObjectRequest := fun m =>
  mkCommitCanonicalObjectRequest
    (cc_rank_id m) (cc_rank_epoch m) (cc_object_id m) (cc_lease_id m) (cc_slot_id m)
    (cc_content_hash_lo m) (cc_content_hash_hi m).
Definition encode_CommitCanonicalObjectRequest (m : CommitCanonicalObjectRequest) : writer :=
  w_seq [
    w_u32 (cc_rank_id m); w_u64 (cc_rank_epoch m); w_u64 (cc_object_id m);
    w_u64 (cc_lease_id m); w_u32 (cc_slot_id m); w_u64 (cc_content_hash_lo m);
    w_u64 (cc_content_hash_hi m)].
Definition read_CommitCanonicalObjectRequest : reader CommitCanonicalObjectRequest :=
  rank_id <- r_u32;; rank_epoch <- r_u64;; object_id <- r_u64;; lease_id <- r_u64;;
  slot_id <- r_u32;; content_hash_lo <- r_u64;; content_hash_hi <- r_u64;;
  r_ret (mkCommitCanonicalObjectRequest
    rank_id rank_epoch object_id lease_id slot_id content_hash_lo content_hash_hi).
Definition decode_CommitCanonicalObjectRequest (bs : list byte) : res CommitCanonicalObjectRequest := decode_with read_CommitCanonicalObjectRequest bs.
Definition wf_CommitCanonicalObjectRequest (m : CommitCanonicalObjectRequest) : Prop :=
  in_u32 (cc_rank_id m) /\ in_u64 (cc_rank_epoch m) /\ in_u64 (cc_object_id m) /\
  in_u64 (cc_lease_id m) /\ in_u32 (cc_slot_id m) /\ in_u64 (cc_content_hash_lo m) /\
  in_u64 (cc_content_hash_hi m).
Lemma codec_CommitCanonicalObjectRequest m : wf_CommitCanonicalObjectRequest m -> codec (encode_CommitCanonicalObjectRequest m) read_CommitCanonicalObjectRequest m.
Proof. solve_codec. Qed.
#[export] Hint Resolve codec_CommitCanonicalObjectRequest : codec.

(** [CommitCanonicalObjectResponse] *)
Record CommitCanonicalObjectResponse := mkCommitCanonicalObjectResponse {
  ccs_ok : bool; ccs_message : string; ccs_object_id : Z; ccs_won : bool }.
#[export] Instance eta_CommitCanonicalObjectResponse : Eta CommitCanonicalObjectResponse := fun m =>
  mkCommitCanonicalObjectResponse
    (ccs_ok m) (ccs_message m) (ccs_object_id m) (ccs_won m).
Definition encode_CommitCanonicalObjectResponse (m : CommitCanonicalObjectResponse) : writer :=
  w_seq [
    w_b (ccs_ok m); w_str (ccs_message m); w_u64 (ccs_object_id m); w_b (ccs_won m)].
Definition read_CommitCanonicalObjectResponse : reader CommitCanonicalObjectResponse :=
  ok <- r_b;; message <- r_str;; object_id <- r_u64;; won <- r_b;;
  r_ret (mkCommitCanonicalObjectResponse
    ok message object_id won).
Definition decode_CommitCanonicalObjectResponse (bs : list byte) : res CommitCanonicalObjectResponse := decode_with read_CommitCanonicalObjectResponse bs.
Definition wf_CommitCanonicalObjectResponse (m : CommitCanonicalObjectResponse) : Prop :=
  in_str (ccs_message m) /\ in_u64 (ccs_object_id m).
Lemma codec_CommitCanonicalObjectResponse m : wf_CommitCanonicalObjectResponse m -> codec (encode_CommitCanonicalObjectResponse m) read_CommitCanonicalObjectResponse m.
Proof. solve_codec. Qed.
#[export] Hint Resolve codec_CommitCanonicalObjectResponse : codec.

(** [SealModelVersionRequest] *)
Record SealModelVersionRequest := mkSealModelVersionRequest {
  sm_job : JobKeyWire; sm_model_role : Z; sm_model_version : Z;
  sm_fail_if_missing : bool; sm_expected_param_ids : list Z; sm_promote : bool }.
#[export] Instance eta_SealModelVersionRequest : Eta SealModelVersionRequest := fun m =>
  mkSealModelVersionRequest
    (sm_job m) (sm_model_role m) (sm_model_version m) (sm_fail_if_missing m)
    (sm_expected_param_ids m) (sm_promote m).
Definition encode_SealModelVersionRequest (m : SealModelVersionRequest) : writer :=
  w_seq [
    put_jobkey (sm_job m); w_u32 (sm_model_role m); w_u64 (sm_model_version m);
    w_b (sm_fail_if_missing m); w_vec w_u64 (sm_expected_param_ids m);
    w_b (sm_promote m)].
Definition read_SealModelVersionRequest : reader SealModelVersionRequest :=
  job <- get_jobkey;; model_role <- r_u32;; model_version <- r_u64;;
  fail_if_missing <- r_b;; expected_param_ids <- r_vec r_u64;; promote <- r_b;;
  r_ret (mkSealModelVersionRequest
    job model_role model_version fail_if_missing expected_param_ids promote).
Definition decode_SealModelVersionRequest (bs : list byte) : res SealModelVersionRequest := decode_with read_SealModelVersionRequest bs.
Definition wf_SealModelVersionRequest (m : SealModelVersionRequest) : Prop :=
  wf_JobKeyWire (sm_job m) /\ in_u32 (sm_model_role m) /\
  in_u64 (sm_model_version m) /\ in_vec in_u64 (sm_expected_param_ids m).
Lemma codec_SealModelVersionRequest m : wf_SealModelVersionRequest m -> codec (encode_SealModelVersionRequest m) read_SealModelVersionRequest m.
Proof. solve_codec. Qed.
#[export] Hint Resolve codec_SealModelVersionRequest : codec.

(** [SealModelVersionResponse] *)
Record SealModelVersionResponse := mkSealModelVersionResponse {
  sms_ok : bool; sms_message : string; sms_state : Z; sms_tensor_count : Z;
  sms_total_nbytes : Z; sms_manifest_hash_lo : Z; sms_manifest_hash_hi : Z }.
#[export] Instance eta_SealModelVersionResponse : Eta SealModelVersionResponse := fun m =>
  mkSealModelVersionResponse
    (sms_ok m) (sms_message m) (sms_state m) (sms_tensor_count m)
    (sms_total_nbytes m) (sms_manifest_hash_lo m) (sms_manifest_hash_hi m).
Definition encode_SealModelVersionResponse (m : SealModelVersionResponse) : writer :=
  w_seq [
    w_b (sms_ok m); w_str (sms_message m); w_u32 (sms_state m);
    w_u64 (sms_tensor_count m); w_u64 (sms_total_nbytes m);
    w_u64 (sms_manifest_hash_lo m); w_u64 (sms_manifest_hash_hi m)].
Definition read_SealModelVersionResponse : reader SealModelVersionResponse :=
  ok <- r_b;; message <- r_str;; state <- r_u32;; tensor_count <- r_u64;;
  total_nbytes <- r_u64;; manifest_hash_lo <- r_u64;; manifest_hash_hi <- r_u64;;
  r_ret (mkSealModelVersionResponse
    ok message state tensor_count total_nbytes manifest_hash_lo manifest_hash_hi).
Definition decode_SealModelVersionResponse (bs : list byte) : res SealModelVersionResponse := decode_with read_SealModelVersionResponse bs.
Definition wf_SealModelVersionResponse (m : SealModelVersionResponse) : Prop :=
  in_str (sms_message m) /\ in_u32 (sms_state m) /\ in_u64 (sms_tensor_count m) /\
  in_u64 (sms_total_nbytes m) /\ in_u64 (sms_manifest_hash_lo m) /\
  in_u64 (sms_manifest_hash_hi m).
Lemma codec_SealModelVersionResponse m : wf_SealModelVersionResponse m -> codec (encode_SealModelVersionResponse m) read_SealModelVersionResponse m.
Proof. solve_codec. Qed.
#[export] Hint Resolve codec_SealModelVersionResponse : codec.

(** [GetLatestSealedVersionRequest] *)
Record GetLatestSealedVersionRequest := mkGetLatestSealedVersionRequest {
  gl_job : JobKeyWire; gl_model_role : Z }.
#[export] Instance eta_GetLatestSealedVersionRequest : Eta GetLatestSealedVersionRequest := fun m =>
  mkGetLatestSealedVersionRequest
    (gl_job m) (gl_model_role m).
Definition encode_GetLatestSealedVersionRequest (m : GetLatestSealedVersionRequest) : writer :=
  w_seq [
    put_jobkey (gl_job m); w_u32 (gl_model_role m)].
Definition read_GetLatestSealedVersionRequest : reader GetLatestSealedVersionRequest :=
  job <- get_jobkey;; model_role <- r_u32;;
  r_ret (mkGetLatestSealedVersionRequest
    job model_role).
Definition decode_GetLatestSealedVersionRequest (bs : list byte) : res GetLatestSealedVersionRequest := decode_with read_GetLatestSealedVersionRequest bs.
Definition wf_GetLatestSealedVersionRequest (m : GetLatestSealedVersionRequest) : Prop :=
  wf_JobKeyWire (gl_job m) /\ in_u32 (gl_model_role m).
Lemma codec_GetLatestSealedVersionRequest m : wf_GetLatestSealedVersionRequest m -> codec (encode_GetLatestSealedVersionRequest m) read_GetLatestSealedVersionRequest m.
Proof. solve_codec. Qed.
#[export] Hint Resolve codec_GetLatestSealedVersionRequest : codec.

(** [GetLatestSealedVersionResponse] *)
Record GetLatestSealedVersionResponse := mkGetLatestSealedVersionResponse {
  gls_ok : bool; gls_message : string; gls_found : bool; gls_model_version : Z }.
#[export] Instance eta_GetLatestSealedVersionResponse : Eta GetLatestSealedVersionResponse := fun m =>
  mkGetLatestSealedVersionResponse
    (gls_ok m) (gls_message m) (gls_found m) (gls_model_version m).
Definition encode_GetLatestSealedVersionResponse (m : GetLatestSealedVersionResponse) : writer :=
  w_seq [
    w_b (gls_ok m); w_str (gls_message m); w_b (gls_found m);
    w_u64 (gls_model_version m)].
Definition read_GetLatestSealedVersionResponse : reader GetLatestSealedVersionResponse :=
  ok <- r_b;; message <- r_str;; found <- r_b;; model_version <- r_u64;;
  r_ret (mkGetLatestSealedVersionResponse
    ok message found model_version).
Definition decode_GetLatestSealedVersionResponse (bs : list byte) : res GetLatestSealedVersionResponse := decode_with read_GetLatestSealedVersionResponse bs.
Definition wf_GetLatestSealedVersionResponse (m : GetLatestSealedVersionResponse) : Prop :=
  in_str (gls_message m) /\ in_u64 (gls_model_version m).
Lemma codec_GetLatestSealedVersionResponse m : wf_GetLatestSealedVersionResponse m -> codec (encode_GetLatestSealedVersionResponse m) read_GetLatestSealedVersionResponse m.
Proof. solve_codec. Qed.
#[export] Hint Resolve codec_GetLatestSealedVersionResponse : codec.

(** [ManifestFilterWire] *)
Record ManifestFilterWire := mkManifestFilterWire {
  mf_pp_present : bool; mf_pp_rank : Z; mf_tp_present : bool; mf_tp_rank : Z;
  mf_ep_present : bool; mf_ep_rank : Z; mf_etp_present : bool; mf_etp_rank : Z;
  mf_expert_present : bool; mf_expert_id : Z }.
#[export] Instance eta_ManifestFilterWire : Eta ManifestFilterWire := fun m =>
  mkManifestFilterWire
    (mf_pp_present m) (mf_pp_rank m) (mf_tp_present m) (mf_tp_rank m)
    (mf_ep_present m) (mf_ep_rank m) (mf_etp_present m) (mf_etp_rank m)
    (mf_expert_present m) (mf_expert_id m).
Definition put_filter (m : ManifestFilterWire) : writer :=
  w_seq [
    w_b (mf_pp_present m); w_u32 (mf_pp_rank m); w_b (mf_tp_present m);
    w_u32 (mf_tp_rank m); w_b (mf_ep_present m); w_u32 (mf_ep_rank m);
    w_b (mf_etp_present m); w_u32 (mf_etp_rank m); w_b (mf_expert_present m);
    w_u32 (u32 (mf_expert_id m))].
Definition get_filter : reader ManifestFilterWire :=
  pp_present <- r_b;; pp_rank <- r_u32;; tp_present <- r_b;; tp_rank <- r_u32;;
  ep_present <- r_b;; ep_rank <- r_u32;; etp_present <- r_b;; etp_rank <- r_u32;;
  expert_present <- r_b;; expert_id <- r_i32;;
  r_ret (mkManifestFilterWire
    pp_present pp_rank tp_present tp_rank ep_present ep_rank etp_present etp_rank
    expert_present expert_id).
Definition wf_ManifestFilterWire (m : ManifestFilterWire) : Prop :=
  in_u32 (mf_pp_rank m) /\ in_u32 (mf_tp_rank m) /\ in_u32 (mf_ep_rank m) /\
  in_u32 (mf_etp_rank m) /\ in_i32 (mf_expert_id m).
Lemma codec_ManifestFilterWire m : wf_ManifestFilterWire m -> codec (put_filter m) get_filter m.
Proof. solve_codec. Qed.
#[export] Hint Resolve codec_ManifestFilterWire : codec.

(** [GetManifestRequest] *)
Record GetManifestRequest := mkGetManifestRequest {
  gm_job : JobKeyWire; gm_model_role : Z; gm_model_version : Z;
  gm_filter : ManifestFilterWire }.
#[export] Instance eta_GetManifestRequest : Eta GetManifestRequest := fun m =>
  mkGetManifestRequest
    (gm_job m) (gm_model_role m) (gm_model_version m) (gm_filter m).
Definition encode_GetManifestRequest (m : GetManifestRequest) : writer :=
  w_seq [
    put_jobkey (gm_job m); w_u32 (gm_model_role m); w_u64 (gm_model_version m);
    put_filter (gm_filter m)].
Definition read_GetManifestRequest : reader GetManifestRequest :=
  job <- get_jobkey;; model_role <- r_u32;; model_version <- r_u64;;
  filter <- get_filter;;
  r_ret (mkGetManifestRequest
    job model_role model_version filter).
Definition decode_GetManifestRequest (bs : list byte) : res GetManifestRequest := decode_with read_GetManifestRequest bs.
Definition wf_GetManifestRequest (m : GetManifestRequest) : Prop :=
  wf_JobKeyWire (gm_job m) /\ in_u32 (gm_model_role m) /\
  in_u64 (gm_model_version m) /\ wf_ManifestFilterWire (gm_filter m).
Lemma codec_GetManifestRequest m : wf_GetManifestRequest m -> codec (encode_GetManifestRequest m) read_GetManifestRequest m.
Proof. solve_codec. Qed.
#[export] Hint Resolve codec_GetManifestRequest : codec.

(** [TensorManifestEntryWire] *)
Record TensorManifestEntryWire := mkTensorManifestEntryWire {
  te_key : CanonicalTensorKeyWire; te_object_id : Z; te_nbytes : Z;
  te_content_hash_lo : Z; te_content_hash_hi : Z; te_location_hint : string }.
#[export] Instance eta_TensorManifestEntryWire : Eta TensorManifestEntryWire := fun m =>
  mkTensorManifestEntryWire
    (te_key m) (te_object_id m) (te_nbytes m) (te_content_hash_lo m)
    (te_content_hash_hi m) (te_location_hint m).
Definition put_TensorManifestEntryWire (m : TensorManifestEntryWire) : writer :=
  w_seq [
    put_key (te_key m); w_u64 (te_object_id m); w_u64 (te_nbytes m);
    w_u64 (te_content_hash_lo m); w_u64 (te_content_hash_hi m);
    w_str (te_location_hint m)].
Definition get_TensorManifestEntryWire : reader TensorManifestEntryWire :=
  key <- get_key;; object_id <- r_u64;; nbytes <- r_u64;; content_hash_lo <- r_u64;;
  content_hash_hi <- r_u64;; location_hint <- r_str;;
  r_ret (mkTensorManifestEntryWire
    key object_id nbytes content_hash_lo content_hash_hi location_hint).
Definition wf_TensorManifestEntryWire (m : TensorManifestEntryWire) : Prop :=
  wf_CanonicalTensorKeyWire (te_key m) /\ in_u64 (te_object_id m) /\
  in_u64 (te_nbytes m) /\ in_u64 (te_content_hash_lo m) /\
  in_u64 (te_content_hash_hi m) /\ in_str (te_location_hint m).
Lemma codec_TensorManifestEntryWire m : wf_TensorManifestEntryWire m -> codec (put_TensorManifestEntryWire m) get_TensorManifestEntryWire m.
Proof. solve_codec. Qed.
#[export] Hint Resolve codec_TensorManifestEntryWire : codec.

(** [GetManifestResponse] *)
Record GetManifestResponse := mkGetManifestResponse {
  gms_ok : bool; gms_message : string; gms_job : JobKeyWire; gms_model_role : Z;
  gms_model_version : Z; gms_state : Z; gms_tensors : list TensorManifestEntryWire }.
#[export] Instance eta_GetManifestResponse : Eta GetManifestResponse := fun m =>
  mkGetManifestResponse
    (gms_ok m) (gms_message m) (gms_job m) (gms_model_role m) (gms_model_version m)
    (gms_state m) (gms_tensors m).
Definition encode_GetManifestResponse (m : GetManifestResponse) : writer :=
  w_seq [
    w_b (gms_ok m); w_str (gms_message m); put_jobkey (gms_job m);
    w_u32 (gms_model_role m); w_u64 (gms_model_version m); w_u32 (gms_state m);
    w_vec put_TensorManifestEntryWire (gms_tensors m)].
Definition read_GetManifestResponse : reader GetManifestResponse :=
  ok <- r_b;; message <- r_str;; job <- get_jobkey;; model_role <- r_u32;;
  model_version <- r_u64;; state <- r_u32;;
  tensors <- r_vec get_TensorManifestEntryWire;;
  r_ret (mkGetManifestResponse
    ok message job model_role model_version state tensors).
Definition decode_GetManifestResponse (bs : list byte) : res GetManifestResponse := decode_with read_GetManifestResponse bs.
Definition wf_GetManifestResponse (m : GetManifestResponse) : Prop :=
  in_str (gms_message m) /\ wf_JobKeyWire (gms_job m) /\ in_u32 (gms_model_role m) /\
  in_u64 (gms_model_version m) /\ in_u32 (gms_state m) /\
  in_vec wf_TensorManifestEntryWire (gms_tensors m).
Lemma codec_GetManifestResponse m : wf_GetManifestResponse m -> codec (encode_GetManifestResponse m) read_GetManifestResponse m.
Proof. solve_codec. Qed.
#[export] Hint Resolve codec_GetManifestResponse : codec.

(** [PullTensorRequest] *)
Record PullTensorRequest := mkPullTensorRequest {
  pt_job : JobKeyWire; pt_model_role : Z; pt_model_version : Z; pt_object_id : Z;
  pt_transport : Z; pt_target_descriptor : string }.
#[export] Instance eta_PullTensorRequest : Eta PullTensorRequest := fun m =>
  mkPullTensorRequest
    (pt_job m) (pt_model_role m) (pt_model_version m) (pt_object_id m)
    (pt_transport m) (pt_target_descriptor m).
Definition encode_PullTensorRequest (m : PullTensorRequest) : writer :=
  w_seq [
    put_jobkey (pt_job m); w_u32 (pt_model_role m); w_u64 (pt_model_version m);
    w_u64 (pt_object_id m); w_u32 (pt_transport m); w_str (pt_target_descriptor m)].
Definition read_PullTensorRequest : reader PullTensorRequest :=
  job <- get_jobkey;; model_role <- r_u32;; model_version <- r_u64;;
  object_id <- r_u64;; transport <- r_u32;; target_descriptor <- r_str;;
  r_ret (mkPullTensorRequest
    job model_role model_version object_id transport target_descriptor).
Definition decode_PullTensorRequest (bs : list byte) : res PullTensorRequest := decode_with read_PullTensorRequest bs.
Definition wf_PullTensorRequest (m : PullTensorRequest) : Prop :=
  wf_JobKeyWire (pt_job m) /\ in_u32 (pt_model_role m) /\
  in_u64 (pt_model_version m) /\ in_u64 (pt_object_id m) /\
  in_u32 (pt_transport m) /\ in_str (pt_target_descriptor m).
Lemma codec_PullTensorRequest m : wf_PullTensorRequest m -> codec (encode_PullTensorRequest m) read_PullTensorRequest m.
Proof. solve_codec. Qed.
#[export] Hint Resolve codec_PullTensorRequest : codec.

(** [PullTensorResponse] *)
Record PullTensorResponse := mkPullTensorResponse {
  pts_ok : bool; pts_message : string; pts_object_id : Z; pts_nbytes : Z;
  pts_transport : Z; pts_content_hash_lo : Z; pts_content_hash_hi : Z;
  pts_transport_metadata : string }.
#[export] Instance eta_PullTensorResponse : Eta PullTensorResponse := fun m =>
  mkPullTensorResponse
    (pts_ok m) (pts_message m) (pts_object_id m) (pts_nbytes m) (pts_transport m)
    (pts_content_hash_lo m) (pts_content_hash_hi m) (pts_transport_metadata m).
Definition encode_PullTensorResponse (m : PullTensorResponse) : writer :=
  w_seq [
    w_b (pts_ok m); w_str (pts_message m); w_u64 (pts_object_id m);
    w_u64 (pts_nbytes m); w_u32 (pts_transport m); w_u64 (pts_content_hash_lo m);
    w_u64 (pts_content_hash_hi m); w_str (pts_transport_metadata m)].
Definition read_PullTensorResponse : reader PullTensorResponse :=
  ok <- r_b;; message <- r_str;; object_id <- r_u64;; nbytes <- r_u64;;
  transport <- r_u32;; content_hash_lo <- r_u64;; content_hash_hi <- r_u64;;
  transport_metadata <- r_str;;
  r_ret (mkPullTensorResponse
    ok message object_id nbytes transport content_hash_lo content_hash_hi
    transport_metadata).
Definition decode_PullTensorResponse (bs : list byte) : res PullTensorResponse := decode_with read_PullTensorResponse bs.
Definition wf_PullTensorResponse (m : PullTensorResponse) : Prop :=
  in_str (pts_message m) /\ in_u64 (pts_object_id m) /\ in_u64 (pts_nbytes m) /\
  in_u32 (pts_transport m) /\ in_u64 (pts_content_hash_lo m) /\
  in_u64 (pts_content_hash_hi m) /\ in_str (pts_transport_metadata m).
Lemma codec_PullTensorResponse m : wf_PullTensorResponse m -> codec (encode_PullTensorResponse m) read_PullTensorResponse m.
Proof. solve_codec. Qed.
#[export] Hint Resolve codec_PullTensorResponse : codec.

(** [RequestCanonicalRestoreRequest] *)
Record RequestCanonicalRestoreRequest := mkRequestCanonicalRestoreRequest {
  cr_rank_id : Z; cr_rank_epoch : Z; cr_object_id : Z; cr_gpu_id : Z;
  cr_numa_node : Z }.
#[export] Instance eta_RequestCanonicalRestoreRequest : Eta RequestCanonicalRestoreRequest := fun m =>
  mkRequestCanonicalRestoreRequest
    (cr_rank_id m) (cr_rank_epoch m) (cr_object_id m) (cr_gpu_id m) (cr_numa_node m).
Definition encode_RequestCanonicalRestoreRequest (m : RequestCanonicalRestoreRequest) : writer :=
  w_seq [
    w_u32 (cr_rank_id m); w_u64 (cr_rank_epoch m); w_u64 (cr_object_id m);
    w_u32 (cr_gpu_id m); w_u32 (cr_numa_node m)].
Definition read_RequestCanonicalRestoreRequest : reader RequestCanonicalRestoreRequest :=
  rank_id <- r_u32;; rank_epoch <- r_u64;; object_id <- r_u64;; gpu_id <- r_u32;;
  numa_node <- r_u32;;
  r_ret (mkRequestCanonicalRestoreRequest
    rank_id rank_epoch object_id gpu_id numa_node).
Definition decode_RequestCanonicalRestoreRequest (bs : list byte) : res RequestCanonicalRestoreRequest := decode_with read_RequestCanonicalRestoreRequest bs.
Definition wf_RequestCanonicalRestoreRequest (m : RequestCanonicalRestoreRequest) : Prop :=
  in_u32 (cr_rank_id m) /\ in_u64 (cr_rank_epoch m) /\ in_u64 (cr_object_id m) /\
  in_u32 (cr_gpu_id m) /\ in_u32 (cr_numa_node m).
Lemma codec_RequestCanonicalRestoreRequest m : wf_RequestCanonicalRestoreRequest m -> codec (encode_RequestCanonicalRestoreRequest m) read_RequestCanonicalRestoreRequest m.
Proof. solve_codec. Qed.
#[export] Hint Resolve codec_RequestCanonicalRestoreRequest : codec.

(** [RequestCanonicalRestoreResponse] *)
Record RequestCanonicalRestoreResponse := mkRequestCanonicalRestoreResponse {
  crs_ok : bool; crs_message : string; crs_retriable : bool; crs_object_id : Z;
  crs_nbytes : Z; crs_arena_id : Z; crs_arena_offset : Z }.
#[export] Instance eta_RequestCanonicalRestoreResponse : Eta RequestCanonicalRestoreResponse := fun m =>
  mkRequestCanonicalRestoreResponse
    (crs_ok m) (crs_message m) (crs_retriable m) (crs_object_id m) (crs_nbytes m)
    (crs_arena_id m) (crs_arena_offset m).
Definition encode_RequestCanonicalRestoreResponse (m : RequestCanonicalRestoreResponse) : writer :=
  w_seq [
    w_b (crs_ok m); w_str (crs_message m); w_b (crs_retriable m);
    w_u64 (crs_object_id m); w_u64 (crs_nbytes m); w_u64 (crs_arena_id m);
    w_u64 (crs_arena_offset m)].
Definition read_RequestCanonicalRestoreResponse : reader RequestCanonicalRestoreResponse :=
  ok <- r_b;; message <- r_str;; retriable <- r_b;; object_id <- r_u64;;
  nbytes <- r_u64;; arena_id <- r_u64;; arena_offset <- r_u64;;
  r_ret (mkRequestCanonicalRestoreResponse
    ok message retriable object_id nbytes arena_id arena_offset).
Definition decode_RequestCanonicalRestoreResponse (bs : list byte) : res RequestCanonicalRestoreResponse := decode_with read_RequestCanonicalRestoreResponse bs.
Definition wf_RequestCanonicalRestoreResponse (m : RequestCanonicalRestoreResponse) : Prop :=
  in_str (crs_message m) /\ in_u64 (crs_object_id m) /\ in_u64 (crs_nbytes m) /\
  in_u64 (crs_arena_id m) /\ in_u64 (crs_arena_offset m).
Lemma codec_RequestCanonicalRestoreResponse m : wf_RequestCanonicalRestoreResponse m -> codec (encode_RequestCanonicalRestoreResponse m) read_RequestCanonicalRestoreResponse m.
Proof. solve_codec. Qed.
#[export] Hint Resolve codec_RequestCanonicalRestoreResponse : codec.

(** [ReleaseCanonicalRestoreRequest] *)
Record ReleaseCanonicalRestoreRequest := mkReleaseCanonicalRestoreRequest {
  xr_rank_id : Z; xr_rank_epoch : Z; xr_object_id : Z }.
#[export] Instance eta_ReleaseCanonicalRestoreRequest : Eta ReleaseCanonicalRestoreRequest := fun m =>
  mkReleaseCanonicalRestoreRequest
    (xr_rank_id m) (xr_rank_epoch m) (xr_object_id m).
Definition encode_ReleaseCanonicalRestoreRequest (m : ReleaseCanonicalRestoreRequest) : writer :=
  w_seq [
    w_u32 (xr_rank_id m); w_u64 (xr_rank_epoch m); w_u64 (xr_object_id m)].
Definition read_ReleaseCanonicalRestoreRequest : reader ReleaseCanonicalRestoreRequest :=
  rank_id <- r_u32;; rank_epoch <- r_u64;; object_id <- r_u64;;
  r_ret (mkReleaseCanonicalRestoreRequest
    rank_id rank_epoch object_id).
Definition decode_ReleaseCanonicalRestoreRequest (bs : list byte) : res ReleaseCanonicalRestoreRequest := decode_with read_ReleaseCanonicalRestoreRequest bs.
Definition wf_ReleaseCanonicalRestoreRequest (m : ReleaseCanonicalRestoreRequest) : Prop :=
  in_u32 (xr_rank_id m) /\ in_u64 (xr_rank_epoch m) /\ in_u64 (xr_object_id m).
Lemma codec_ReleaseCanonicalRestoreRequest m : wf_ReleaseCanonicalRestoreRequest m -> codec (encode_ReleaseCanonicalRestoreRequest m) read_ReleaseCanonicalRestoreRequest m.
Proof. solve_codec. Qed.
#[export] Hint Resolve codec_ReleaseCanonicalRestoreRequest : codec.

(** [ReleaseCanonicalRestoreResponse] *)
Record ReleaseCanonicalRestoreResponse := mkReleaseCanonicalRestoreResponse {
  xrs_ok : bool; xrs_message : string }.
#[export] Instance eta_ReleaseCanonicalRestoreResponse : Eta ReleaseCanonicalRestoreResponse := fun m =>
  mkReleaseCanonicalRestoreResponse
    (xrs_ok m) (xrs_message m).
Definition encode_ReleaseCanonicalRestoreResponse (m : ReleaseCanonicalRestoreResponse) : writer :=
  w_seq [
    w_b (xrs_ok m); w_str (xrs_message m)].
Definition read_ReleaseCanonicalRestoreResponse : reader ReleaseCanonicalRestoreResponse :=
  ok <- r_b;; message <- r_str;;
  r_ret (mkReleaseCanonicalRestoreResponse
    ok message).
Definition decode_ReleaseCanonicalRestoreResponse (bs : list byte) : res ReleaseCanonicalRestoreResponse := decode_with read_ReleaseCanonicalRestoreResponse bs.
Definition wf_ReleaseCanonicalRestoreResponse (m : ReleaseCanonicalRestoreResponse) : Prop :=
  in_str (xrs_message m).
Lemma codec_ReleaseCanonicalRestoreResponse m : wf_ReleaseCanonicalRestoreResponse m -> codec (encode_ReleaseCanonicalRestoreResponse m) read_ReleaseCanonicalRestoreResponse m.
Proof. solve_codec. Qed.
#[export] Hint Resolve codec_ReleaseCanonicalRestoreResponse : codec.

(** [DropCanonicalVersionRequest] *)
Record DropCanonicalVersionRequest := mkDropCanonicalVersionRequest {
  dv_job : JobKeyWire; dv_model_role : Z; dv_model_version : Z }.
#[export] Instance eta_DropCanonicalVersionRequest : Eta DropCanonicalVersionRequest := fun m =>
  mkDropCanonicalVersionRequest
    (dv_job m) (dv_model_role m) (dv_model_version m).
Definition encode_DropCanonicalVersionRequest (m : DropCanonicalVersionRequest) : writer :=
  w_seq [
    put_jobkey (dv_job m); w_u32 (dv_model_role m); w_u64 (dv_model_version m)].
Definition read_DropCanonicalVersionRequest : reader DropCanonicalVersionRequest :=
  job <- get_jobkey;; model_role <- r_u32;; model_version <- r_u64;;
  r_ret (mkDropCanonicalVersionRequest
    job model_role model_version).
Definition decode_DropCanonicalVersionRequest (bs : list byte) : res DropCanonicalVersionRequest := decode_with read_DropCanonicalVersionRequest bs.
Definition wf_DropCanonicalVersionRequest (m : DropCanonicalVersionRequest) : Prop :=
  wf_JobKeyWire (dv_job m) /\ in_u32 (dv_model_role m) /\ in_u64 (dv_model_version m).
Lemma codec_DropCanonicalVersionRequest m : wf_DropCanonicalVersionRequest m -> codec (encode_DropCanonicalVersionRequest m) read_DropCanonicalVersionRequest m.
Proof. solve_codec. Qed.
#[export] Hint Resolve codec_DropCanonicalVersionRequest : codec.

(** [DropCanonicalVersionResponse] *)
Record DropCanonicalVersionResponse := mkDropCanonicalVersionResponse {
  dvs_ok : bool; dvs_message : string; dvs_dropped_count : Z;
  dvs_skipped_inflight : Z; dvs_bytes_freed : Z }.
#[export] Instance eta_DropCanonicalVersionResponse : Eta DropCanonicalVersionResponse := fun m =>
  mkDropCanonicalVersionResponse
    (dvs_ok m) (dvs_message m) (dvs_dropped_count m) (dvs_skipped_inflight m)
    (dvs_bytes_freed m).
Definition encode_DropCanonicalVersionResponse (m : DropCanonicalVersionResponse) : writer :=
  w_seq [
    w_b (dvs_ok m); w_str (dvs_message m); w_u64 (dvs_dropped_count m);
    w_u64 (dvs_skipped_inflight m); w_u64 (dvs_bytes_freed m)].
Definition read_DropCanonicalVersionResponse : reader DropCanonicalVersionResponse :=
  ok <- r_b;; message <- r_str;; dropped_count <- r_u64;; skipped_inflight <- r_u64;;
  bytes_freed <- r_u64;;
  r_ret (mkDropCanonicalVersionResponse
    ok message dropped_count skipped_inflight bytes_freed).
Definition decode_DropCanonicalVersionResponse (bs : list byte) : res DropCanonicalVersionResponse := decode_with read_DropCanonicalVersionResponse bs.
Definition wf_DropCanonicalVersionResponse (m : DropCanonicalVersionResponse) : Prop :=
  in_str (dvs_message m) /\ in_u64 (dvs_dropped_count m) /\
  in_u64 (dvs_skipped_inflight m) /\ in_u64 (dvs_bytes_freed m).
Lemma codec_DropCanonicalVersionResponse m : wf_DropCanonicalVersionResponse m -> codec (encode_DropCanonicalVersionResponse m) read_DropCanonicalVersionResponse m.
Proof. solve_codec. Qed.
#[export] Hint Resolve codec_DropCanonicalVersionResponse : codec.

(** [ReleaseCanonicalRequest] *)
Record ReleaseCanonicalRequest := mkReleaseCanonicalRequest {
  rc_rank_id : Z; rc_rank_epoch : Z; rc_job : JobKeyWire; rc_model_role : Z;
  rc_model_version : Z; rc_object_id : Z }.
#[export] Instance eta_ReleaseCanonicalRequest : Eta ReleaseCanonicalRequest := fun m =>
  mkReleaseCanonicalRequest
    (rc_rank_id m) (rc_rank_epoch m) (rc_job m) (rc_model_role m)
    (rc_model_version m) (rc_object_id m).
Definition encode_ReleaseCanonicalRequest (m : ReleaseCanonicalRequest) : writer :=
  w_seq [
    w_u32 (rc_rank_id m); w_u64 (rc_rank_epoch m); put_jobkey (rc_job m);
    w_u32 (rc_model_role m); w_u64 (rc_model_version m); w_u64 (rc_object_id m)].
Definition read_ReleaseCanonicalRequest : reader ReleaseCanonicalRequest :=
  rank_id <- r_u32;; rank_epoch <- r_u64;; job <- get_jobkey;; model_role <- r_u32;;
  model_version <- r_u64;; object_id <- r_u64;;
  r_ret (mkReleaseCanonicalRequest
    rank_id rank_epoch job model_role model_version object_id).
Definition decode_ReleaseCanonicalRequest (bs : list byte) : res ReleaseCanonicalRequest := decode_with read_ReleaseCanonicalRequest bs.
Definition wf_ReleaseCanonicalRequest (m : ReleaseCanonicalRequest) : Prop :=
  in_u32 (rc_rank_id m) /\ in_u64 (rc_rank_epoch m) /\ wf_JobKeyWire (rc_job m) /\
  in_u32 (rc_model_role m) /\ in_u64 (rc_model_version m) /\ in_u64 (rc_object_id m).
Lemma codec_ReleaseCanonicalRequest m : wf_ReleaseCanonicalRequest m -> codec (encode_ReleaseCanonicalRequest m) read_ReleaseCanonicalRequest m.
Proof. solve_codec. Qed.
#[export] Hint Resolve codec_ReleaseCanonicalRequest : codec.

(** [ReleaseCanonicalResponse] *)
Record ReleaseCanonicalResponse := mkReleaseCanonicalResponse {
  rcs_ok : bool; rcs_message : string; rcs_released_count : Z; rcs_freed_count : Z;
  rcs_bytes_freed : Z }.
#[export] Instance eta_ReleaseCanonicalResponse : Eta ReleaseCanonicalResponse := fun m =>
  mkReleaseCanonicalResponse
    (rcs_ok m) (rcs_message m) (rcs_released_count m) (rcs_freed_count m)
    (rcs_bytes_freed m).
Definition encode_ReleaseCanonicalResponse (m : ReleaseCanonicalResponse) : writer :=
  w_seq [
    w_b (rcs_ok m); w_str (rcs_message m); w_u64 (rcs_released_count m);
    w_u64 (rcs_freed_count m); w_u64 (rcs_bytes_freed m)].
Definition read_ReleaseCanonicalResponse : reader ReleaseCanonicalResponse :=
  ok <- r_b;; message <- r_str;; released_count <- r_u64;; freed_count <- r_u64;;
  bytes_freed <- r_u64;;
  r_ret (mkReleaseCanonicalResponse
    ok message released_count freed_count bytes_freed).
Definition decode_ReleaseCanonicalResponse (bs : list byte) : res ReleaseCanonicalResponse := decode_with read_ReleaseCanonicalResponse bs.
Definition wf_ReleaseCanonicalResponse (m : ReleaseCanonicalResponse) : Prop :=
  in_str (rcs_message m) /\ in_u64 (rcs_released_count m) /\
  in_u64 (rcs_freed_count m) /\ in_u64 (rcs_bytes_freed m).
Lemma codec_ReleaseCanonicalResponse m : wf_ReleaseCanonicalResponse m -> codec (encode_ReleaseCanonicalResponse m) read_ReleaseCanonicalResponse m.
Proof. solve_codec. Qed.
#[export] Hint Resolve codec_ReleaseCanonicalResponse : codec.
