(* ===== verification/Rpc.v ===== *)
(** * Opcodes, requests, responses and the RPC transport

    Models the [OpCode] enum of [src/common/protocol.h] and [op_name] of
    [src/common/wire.cpp]; the decode / handle / encode switch
    [OffloadDaemon::dispatch] of [src/daemon/daemon.cpp] with its handlers
    abstracted by the class [Handlers]; and the client's [round_trip] of
    [src/agent/rpc_client.cpp].  The refinement theorem says that a call over
    the wire behaves as a direct call of the handler. *)
From stdpp Require Import base strings list list_numbers.
From Stdlib Require Import ZArith Lia Strings.Byte.
From S2P Require Import Prelude.
From S2P Require Import Wire.
From S2P Require Import Protocol.
From S2P Require Import ProtocolV2.
Open Scope Z_scope.
Open Scope offload_scope.

Inductive OpCode : Type :=
  | kInvalid
  | kRegisterRank
  | kHeartbeat
  | kRequestOffload
  | kMarkD2HSubmitted
  | kMarkD2HComplete
  | kRequestPrefetch
  | kMarkH2DSubmitted
  | kMarkH2DComplete
  | kReleaseLease
  | kQueryLocation
  | kBatchComplete
  | kShutdown
  | kGetStats
  | kRegisterJob
  | kRequestCanonicalEvict
  | kCommitCanonicalObject
  | kSealModelVersion
  | kGetLatestSealedVersion
  | kGetManifest
  | kPullTensor
  | kRequestCanonicalRestore
  | kReleaseCanonicalRestore
  | kDropCanonicalVersion
  | kReleaseCanonical.
#[export] Instance OpCode_eq_dec : EqDecision OpCode.
Proof. solve_decision. Defined.

Definition op_value (op : OpCode) : Z :=
  match op with
  | kInvalid => 0
  | kRegisterRank => 1
  | kHeartbeat => 2
  | kRequestOffload => 3
  | kMarkD2HSubmitted => 4
  | kMarkD2HComplete => 5
  | kRequestPrefetch => 6
  | kMarkH2DSubmitted => 7
  | kMarkH2DComplete => 8
  | kReleaseLease => 9
  | kQueryLocation => 10
  | kBatchComplete => 11
  | kShutdown => 12
  | kGetStats => 13
  | kRegisterJob => 20
  | kRequestCanonicalEvict => 21
  | kCommitCanonicalObject => 22
  | kSealModelVersion => 23
  | kGetLatestSealedVersion => 24
  | kGetManifest => 25
  | kPullTensor => 26
  | kRequestCanonicalRestore => 27
  | kReleaseCanonicalRestore => 28
  | kDropCanonicalVersion => 29
  | kReleaseCanonical => 30
  end.
(** The enumerator with a given numeric value, when there is one: the code
    keeps any [uint16_t] and its switches have a default branch. *)
Definition op_of_value (v : Z) : option OpCode :=
  match v with
  | 0 => Some kInvalid
  | 1 => Some kRegisterRank
  | 2 => Some kHeartbeat
  | 3 => Some kRequestOffload
  | 4 => Some kMarkD2HSubmitted
  | 5 => Some kMarkD2HComplete
  | 6 => Some kRequestPrefetch
  | 7 => Some kMarkH2DSubmitted
  | 8 => Some kMarkH2DComplete
  | 9 => Some kReleaseLease
  | 10 => Some kQueryLocation
  | 11 => Some kBatchComplete
  | 12 => Some kShutdown
  | 13 => Some kGetStats
  | 20 => Some kRegisterJob
  | 21 => Some kRequestCanonicalEvict
  | 22 => Some kCommitCanonicalObject
  | 23 => Some kSealModelVersion
  | 24 => Some kGetLatestSealedVersion
  | 25 => Some kGetManifest
  | 26 => Some kPullTensor
  | 27 => Some kRequestCanonicalRestore
  | 28 => Some kReleaseCanonicalRestore
  | 29 => Some kDropCanonicalVersion
  | 30 => Some kReleaseCanonical
  | _ => None
  end.
Definition op_name (op : OpCode) : string :=
  match op with
  | kInvalid => "Invalid"
  | kRegisterRank => "RegisterRank"
  | kHeartbeat => "Heartbeat"
  | kRequestOffload => "RequestOffload"
  | kMarkD2HSubmitted => "MarkD2HSubmitted"
  | kMarkD2HComplete => "MarkD2HComplete"
  | kRequestPrefetch => "RequestPrefetch"
  | kMarkH2DSubmitted => "MarkH2DSubmitted"
  | kMarkH2DComplete => "MarkH2DComplete"
  | kReleaseLease => "ReleaseLease"
  | kQueryLocation => "QueryLocation"
  | kBatchComplete => "BatchComplete"
  | kShutdown => "Shutdown"
  | kGetStats => "GetStats"
  | kRegisterJob => "RegisterJob"
  | kRequestCanonicalEvict => "RequestCanonicalEvict"
  | kCommitCanonicalObject => "CommitCanonicalObject"
  | kSealModelVersion => "SealModelVersion"
  | kGetLatestSealedVersion => "GetLatestSealedVersion"
  | kGetManifest => "GetManifest"
  | kPullTensor => "PullTensor"
  | kRequestCanonicalRestore => "RequestCanonicalRestore"
  | kReleaseCanonicalRestore => "ReleaseCanonicalRestore"
  | kDropCanonicalVersion => "DropCanonicalVersion"
  | kReleaseCanonical => "ReleaseCanonical"
  end.

Inductive request : Type :=
  | ReqRegisterRank (m : RegisterRankRequest)
  | ReqHeartbeat (m : HeartbeatRequest)
  | ReqRequestOffload (m : RequestOffloadRequest)
  | ReqMarkD2HSubmitted (m : MarkD2HSubmittedRequest)
  | ReqMarkD2HComplete (m : MarkD2HCompleteRequest)
  | ReqRequestPrefetch (m : RequestPrefetchRequest)
  | ReqMarkH2DSubmitted (m : MarkH2DSubmittedRequest)
  | ReqMarkH2DComplete (m : MarkH2DCompleteRequest)
  | ReqReleaseLease (m : ReleaseLeaseRequest)
  | ReqQueryLocation (m : LocationQueryRequest)
  | ReqBatchComplete (m : BatchCompleteRequest)
  | ReqShutdown (m : ShutdownRequest)
  | ReqGetStats (m : GetStatsRequest)
  | ReqRegisterJob (m : RegisterJobRequest)
  | ReqRequestCanonicalEvict (m : RequestCanonicalEvictRequest)
  | ReqCommitCanonicalObject (m : CommitCanonicalObjectRequest)
  | ReqSealModelVersion (m : SealModelVersionRequest)
  | ReqGetLatestSealedVersion (m : GetLatestSealedVersionRequest)
  | ReqGetManifest (m : GetManifestRequest)
  | ReqPullTensor (m : PullTensorRequest)
  | ReqRequestCanonicalRestore (m : RequestCanonicalRestoreRequest)
  | ReqReleaseCanonicalRestore (m : ReleaseCanonicalRestoreRequest)
  | ReqDropCanonicalVersion (m : DropCanonicalVersionRequest)
  | ReqReleaseCanonical (m : ReleaseCanonicalRequest).
Definition op_of_request (r : request) : OpCode :=
  match r with
  | ReqRegisterRank _ => kRegisterRank
  | ReqHeartbeat _ => kHeartbeat
  | ReqRequestOffload _ => kRequestOffload
  | ReqMarkD2HSubmitted _ => kMarkD2HSubmitted
  | ReqMarkD2HComplete _ => kMarkD2HComplete
  | ReqRequestPrefetch _ => kRequestPrefetch
  | ReqMarkH2DSubmitted _ => kMarkH2DSubmitted
  | ReqMarkH2DComplete _ => kMarkH2DComplete
  | ReqReleaseLease _ => kReleaseLease
  | ReqQueryLocation _ => kQueryLocation
  | ReqBatchComplete _ => kBatchComplete
  | ReqShutdown _ => kShutdown
  | ReqGetStats _ => kGetStats
  | ReqRegisterJob _ => kRegisterJob
  | ReqRequestCanonicalEvict _ => kRequestCanonicalEvict
  | ReqCommitCanonicalObject _ => kCommitCanonicalObject
  | ReqSealModelVersion _ => kSealModelVersion
  | ReqGetLatestSealedVersion _ => kGetLatestSealedVersion
  | ReqGetManifest _ => kGetManifest
  | ReqPullTensor _ => kPullTensor
  | ReqRequestCanonicalRestore _ => kRequestCanonicalRestore
  | ReqReleaseCanonicalRestore _ => kReleaseCanonicalRestore
  | ReqDropCanonicalVersion _ => kDropCanonicalVersion
  | ReqReleaseCanonical _ => kReleaseCanonical
  end.
Definition encode_request (r : request) : writer :=
  match r with
  | ReqRegisterRank m => encode_RegisterRankRequest m
  | ReqHeartbeat m => encode_HeartbeatRequest m
  | ReqRequestOffload m => encode_RequestOffloadRequest m
  | ReqMarkD2HSubmitted m => encode_MarkD2HSubmittedRequest m
  | ReqMarkD2HComplete m => encode_MarkD2HCompleteRequest m
  | ReqRequestPrefetch m => encode_RequestPrefetchRequest m
  | ReqMarkH2DSubmitted m => encode_MarkH2DSubmittedRequest m
  | ReqMarkH2DComplete m => encode_MarkH2DCompleteRequest m
  | ReqReleaseLease m => encode_ReleaseLeaseRequest m
  | ReqQueryLocation m => encode_LocationQueryRequest m
  | ReqBatchComplete m => encode_BatchCompleteRequest m
  | ReqShutdown m => encode_ShutdownRequest m
  | ReqGetStats m => encode_GetStatsRequest m
  | ReqRegisterJob m => encode_RegisterJobRequest m
  | ReqRequestCanonicalEvict m => encode_RequestCanonicalEvictRequest m
  | ReqCommitCanonicalObject m => encode_CommitCanonicalObjectRequest m
  | ReqSealModelVersion m => encode_SealModelVersionRequest m
  | ReqGetLatestSealedVersion m => encode_GetLatestSealedVersionRequest m
  | ReqGetManifest m => encode_GetManifestRequest m
  | ReqPullTensor m => encode_PullTensorRequest m
  | ReqRequestCanonicalRestore m => encode_RequestCanonicalRestoreRequest m
  | ReqReleaseCanonicalRestore m => encode_ReleaseCanonicalRestoreRequest m
  | ReqDropCanonicalVersion m => encode_DropCanonicalVersionRequest m
  | ReqReleaseCanonical m => encode_ReleaseCanonicalRequest m
  end.
Definition wf_request (r : request) : Prop :=
  match r with
  | ReqRegisterRank m => wf_RegisterRankRequest m
  | ReqHeartbeat m => wf_HeartbeatRequest m
  | ReqRequestOffload m => wf_RequestOffloadRequest m
  | ReqMarkD2HSubmitted m => wf_MarkD2HSubmittedRequest m
  | ReqMarkD2HComplete m => wf_MarkD2HCompleteRequest m
  | ReqRequestPrefetch m => wf_RequestPrefetchRequest m
  | ReqMarkH2DSubmitted m => wf_MarkH2DSubmittedRequest m
  | ReqMarkH2DComplete m => wf_MarkH2DCompleteRequest m
  | ReqReleaseLease m => wf_ReleaseLeaseRequest m
  | ReqQueryLocation m => wf_LocationQueryRequest m
  | ReqBatchComplete m => wf_BatchCompleteRequest m
  | ReqShutdown m => wf_ShutdownRequest m
  | ReqGetStats m => wf_GetStatsRequest m
  | ReqRegisterJob m => wf_RegisterJobRequest m
  | ReqRequestCanonicalEvict m => wf_RequestCanonicalEvictRequest m
  | ReqCommitCanonicalObject m => wf_CommitCanonicalObjectRequest m
  | ReqSealModelVersion m => wf_SealModelVersionRequest m
  | ReqGetLatestSealedVersion m => wf_GetLatestSealedVersionRequest m
  | ReqGetManifest m => wf_GetManifestRequest m
  | ReqPullTensor m => wf_PullTensorRequest m
  | ReqRequestCanonicalRestore m => wf_RequestCanonicalRestoreRequest m
  | ReqReleaseCanonicalRestore m => wf_ReleaseCanonicalRestoreRequest m
  | ReqDropCanonicalVersion m => wf_DropCanonicalVersionRequest m
  | ReqReleaseCanonical m => wf_ReleaseCanonicalRequest m
  end.
Definition decode_request (op : OpCode) (bs : list byte) : res (option request) :=
  match op with
  | kInvalid => Ok None
  | kRegisterRank => res_bind (decode_RegisterRankRequest bs) (fun m => Ok (Some (ReqRegisterRank m)))
  | kHeartbeat => res_bind (decode_HeartbeatRequest bs) (fun m => Ok (Some (ReqHeartbeat m)))
  | kRequestOffload => res_bind (decode_RequestOffloadRequest bs) (fun m => Ok (Some (ReqRequestOffload m)))
  | kMarkD2HSubmitted => res_bind (decode_MarkD2HSubmittedRequest bs) (fun m => Ok (Some (ReqMarkD2HSubmitted m)))
  | kMarkD2HComplete => res_bind (decode_MarkD2HCompleteRequest bs) (fun m => Ok (Some (ReqMarkD2HComplete m)))
  | kRequestPrefetch => res_bind (decode_RequestPrefetchRequest bs) (fun m => Ok (Some (ReqRequestPrefetch m)))
  | kMarkH2DSubmitted => res_bind (decode_MarkH2DSubmittedRequest bs) (fun m => Ok (Some (ReqMarkH2DSubmitted m)))
  | kMarkH2DComplete => res_bind (decode_MarkH2DCompleteRequest bs) (fun m => Ok (Some (ReqMarkH2DComplete m)))
  | kReleaseLease => res_bind (decode_ReleaseLeaseRequest bs) (fun m => Ok (Some (ReqReleaseLease m)))
  | kQueryLocation => res_bind (decode_LocationQueryRequest bs) (fun m => Ok (Some (ReqQueryLocation m)))
  | kBatchComplete => res_bind (decode_BatchCompleteRequest bs) (fun m => Ok (Some (ReqBatchComplete m)))
  | kShutdown => res_bind (decode_ShutdownRequest bs) (fun m => Ok (Some (ReqShutdown m)))
  | kGetStats => res_bind (decode_GetStatsRequest bs) (fun m => Ok (Some (ReqGetStats m)))
  | kRegisterJob => res_bind (decode_RegisterJobRequest bs) (fun m => Ok (Some (ReqRegisterJob m)))
  | kRequestCanonicalEvict => res_bind (decode_RequestCanonicalEvictRequest bs) (fun m => Ok (Some (ReqRequestCanonicalEvict m)))
  | kCommitCanonicalObject => res_bind (decode_CommitCanonicalObjectRequest bs) (fun m => Ok (Some (ReqCommitCanonicalObject m)))
  | kSealModelVersion => res_bind (decode_SealModelVersionRequest bs) (fun m => Ok (Some (ReqSealModelVersion m)))
  | kGetLatestSealedVersion => res_bind (decode_GetLatestSealedVersionRequest bs) (fun m => Ok (Some (ReqGetLatestSealedVersion m)))
  | kGetManifest => res_bind (decode_GetManifestRequest bs) (fun m => Ok (Some (ReqGetManifest m)))
  | kPullTensor => res_bind (decode_PullTensorRequest bs) (fun m => Ok (Some (ReqPullTensor m)))
  | kRequestCanonicalRestore => res_bind (decode_RequestCanonicalRestoreRequest bs) (fun m => Ok (Some (ReqRequestCanonicalRestore m)))
  | kReleaseCanonicalRestore => res_bind (decode_ReleaseCanonicalRestoreRequest bs) (fun m => Ok (Some (ReqReleaseCanonicalRestore m)))
  | kDropCanonicalVersion => res_bind (decode_DropCanonicalVersionRequest bs) (fun m => Ok (Some (ReqDropCanonicalVersion m)))
  | kReleaseCanonical => res_bind (decode_ReleaseCanonicalRequest bs) (fun m => Ok (Some (ReqReleaseCanonical m)))
  end.

Inductive response : Type :=
  | RespRegisterRank (m : RegisterRankResponse)
  | RespHeartbeat (m : HeartbeatResponse)
  | RespRequestOffload (m : RequestOffloadResponse)
  | RespMarkD2HSubmitted (m : MarkD2HSubmittedResponse)
  | RespMarkD2HComplete (m : MarkD2HCompleteResponse)
  | RespRequestPrefetch (m : RequestPrefetchResponse)
  | RespMarkH2DSubmitted (m : MarkH2DSubmittedResponse)
  | RespMarkH2DComplete (m : MarkH2DCompleteResponse)
  | RespReleaseLease (m : ReleaseLeaseResponse)
  | RespQueryLocation (m : LocationQueryResponse)
  | RespBatchComplete (m : BatchCompleteResponse)
  | RespShutdown (m : ShutdownResponse)
  | RespGetStats (m : GetStatsResponse)
  | RespRegisterJob (m : RegisterJobResponse)
  | RespRequestCanonicalEvict (m : RequestCanonicalEvictResponse)
  | RespCommitCanonicalObject (m : CommitCanonicalObjectResponse)
  | RespSealModelVersion (m : SealModelVersionResponse)
  | RespGetLatestSealedVersion (m : GetLatestSealedVersionResponse)
  | RespGetManifest (m : GetManifestResponse)
  | RespPullTensor (m : PullTensorResponse)
  | RespRequestCanonicalRestore (m : RequestCanonicalRestoreResponse)
  | RespReleaseCanonicalRestore (m : ReleaseCanonicalRestoreResponse)
  | RespDropCanonicalVersion (m : DropCanonicalVersionResponse)
  | RespReleaseCanonical (m : ReleaseCanonicalResponse).
Definition op_of_response (r : response) : OpCode :=
  match r with
  | RespRegisterRank _ => kRegisterRank
  | RespHeartbeat _ => kHeartbeat
  | RespRequestOffload _ => kRequestOffload
  | RespMarkD2HSubmitted _ => kMarkD2HSubmitted
  | RespMarkD2HComplete _ => kMarkD2HComplete
  | RespRequestPrefetch _ => kRequestPrefetch
  | RespMarkH2DSubmitted _ => kMarkH2DSubmitted
  | RespMarkH2DComplete _ => kMarkH2DComplete
  | RespReleaseLease _ => kReleaseLease
  | RespQueryLocation _ => kQueryLocation
  | RespBatchComplete _ => kBatchComplete
  | RespShutdown _ => kShutdown
  | RespGetStats _ => kGetStats
  | RespRegisterJob _ => kRegisterJob
  | RespRequestCanonicalEvict _ => kRequestCanonicalEvict
  | RespCommitCanonicalObject _ => kCommitCanonicalObject
  | RespSealModelVersion _ => kSealModelVersion
  | RespGetLatestSealedVersion _ => kGetLatestSealedVersion
  | RespGetManifest _ => kGetManifest
  | RespPullTensor _ => kPullTensor
  | RespRequestCanonicalRestore _ => kRequestCanonicalRestore
  | RespReleaseCanonicalRestore _ => kReleaseCanonicalRestore
  | RespDropCanonicalVersion _ => kDropCanonicalVersion
  | RespReleaseCanonical _ => kReleaseCanonical
  end.
Definition encode_response (r : response) : writer :=
  match r with
  | RespRegisterRank m => encode_RegisterRankResponse m
  | RespHeartbeat m => encode_HeartbeatResponse m
  | RespRequestOffload m => encode_RequestOffloadResponse m
  | RespMarkD2HSubmitted m => encode_MarkD2HSubmittedResponse m
  | RespMarkD2HComplete m => encode_MarkD2HCompleteResponse m
  | RespRequestPrefetch m => encode_RequestPrefetchResponse m
  | RespMarkH2DSubmitted m => encode_MarkH2DSubmittedResponse m
  | RespMarkH2DComplete m => encode_MarkH2DCompleteResponse m
  | RespReleaseLease m => encode_ReleaseLeaseResponse m
  | RespQueryLocation m => encode_LocationQueryResponse m
  | RespBatchComplete m => encode_BatchCompleteResponse m
  | RespShutdown m => encode_ShutdownResponse m
  | RespGetStats m => encode_GetStatsResponse m
  | RespRegisterJob m => encode_RegisterJobResponse m
  | RespRequestCanonicalEvict m => encode_RequestCanonicalEvictResponse m
  | RespCommitCanonicalObject m => encode_CommitCanonicalObjectResponse m
  | RespSealModelVersion m => encode_SealModelVersionResponse m
  | RespGetLatestSealedVersion m => encode_GetLatestSealedVersionResponse m
  | RespGetManifest m => encode_GetManifestResponse m
  | RespPullTensor m => encode_PullTensorResponse m
  | RespRequestCanonicalRestore m => encode_RequestCanonicalRestoreResponse m
  | RespReleaseCanonicalRestore m => encode_ReleaseCanonicalRestoreResponse m
  | RespDropCanonicalVersion m => encode_DropCanonicalVersionResponse m
  | RespReleaseCanonical m => encode_ReleaseCanonicalResponse m
  end.
Definition wf_response (r : response) : Prop :=
  match r with
  | RespRegisterRank m => wf_RegisterRankResponse m
  | RespHeartbeat m => wf_HeartbeatResponse m
  | RespRequestOffload m => wf_RequestOffloadResponse m
  | RespMarkD2HSubmitted m => wf_MarkD2HSubmittedResponse m
  | RespMarkD2HComplete m => wf_MarkD2HCompleteResponse m
  | RespRequestPrefetch m => wf_RequestPrefetchResponse m
  | RespMarkH2DSubmitted m => wf_MarkH2DSubmittedResponse m
  | RespMarkH2DComplete m => wf_MarkH2DCompleteResponse m
  | RespReleaseLease m => wf_ReleaseLeaseResponse m
  | RespQueryLocation m => wf_LocationQueryResponse m
  | RespBatchComplete m => wf_BatchCompleteResponse m
  | RespShutdown m => wf_ShutdownResponse m
  | RespGetStats m => wf_GetStatsResponse m
  | RespRegisterJob m => wf_RegisterJobResponse m
  | RespRequestCanonicalEvict m => wf_RequestCanonicalEvictResponse m
  | RespCommitCanonicalObject m => wf_CommitCanonicalObjectResponse m
  | RespSealModelVersion m => wf_SealModelVersionResponse m
  | RespGetLatestSealedVersion m => wf_GetLatestSealedVersionResponse m
  | RespGetManifest m => wf_GetManifestResponse m
  | RespPullTensor m => wf_PullTensorResponse m
  | RespRequestCanonicalRestore m => wf_RequestCanonicalRestoreResponse m
  | RespReleaseCanonicalRestore m => wf_ReleaseCanonicalRestoreResponse m
  | RespDropCanonicalVersion m => wf_DropCanonicalVersionResponse m
  | RespReleaseCanonical m => wf_ReleaseCanonicalResponse m
  end.
Definition decode_response (op : OpCode) (bs : list byte) : res (option response) :=
  match op with
  | kInvalid => Ok None
  | kRegisterRank => res_bind (decode_RegisterRankResponse bs) (fun m => Ok (Some (RespRegisterRank m)))
  | kHeartbeat => res_bind (decode_HeartbeatResponse bs) (fun m => Ok (Some (RespHeartbeat m)))
  | kRequestOffload => res_bind (decode_RequestOffloadResponse bs) (fun m => Ok (Some (RespRequestOffload m)))
  | kMarkD2HSubmitted => res_bind (decode_MarkD2HSubmittedResponse bs) (fun m => Ok (Some (RespMarkD2HSubmitted m)))
  | kMarkD2HComplete => res_bind (decode_MarkD2HCompleteResponse bs) (fun m => Ok (Some (RespMarkD2HComplete m)))
  | kRequestPrefetch => res_bind (decode_RequestPrefetchResponse bs) (fun m => Ok (Some (RespRequestPrefetch m)))
  | kMarkH2DSubmitted => res_bind (decode_MarkH2DSubmittedResponse bs) (fun m => Ok (Some (RespMarkH2DSubmitted m)))
  | kMarkH2DComplete => res_bind (decode_MarkH2DCompleteResponse bs) (fun m => Ok (Some (RespMarkH2DComplete m)))
  | kReleaseLease => res_bind (decode_ReleaseLeaseResponse bs) (fun m => Ok (Some (RespReleaseLease m)))
  | kQueryLocation => res_bind (decode_LocationQueryResponse bs) (fun m => Ok (Some (RespQueryLocation m)))
  | kBatchComplete => res_bind (decode_BatchCompleteResponse bs) (fun m => Ok (Some (RespBatchComplete m)))
  | kShutdown => res_bind (decode_ShutdownResponse bs) (fun m => Ok (Some (RespShutdown m)))
  | kGetStats => res_bind (decode_GetStatsResponse bs) (fun m => Ok (Some (RespGetStats m)))
  | kRegisterJob => res_bind (decode_RegisterJobResponse bs) (fun m => Ok (Some (RespRegisterJob m)))
  | kRequestCanonicalEvict => res_bind (decode_RequestCanonicalEvictResponse bs) (fun m => Ok (Some (RespRequestCanonicalEvict m)))
  | kCommitCanonicalObject => res_bind (decode_CommitCanonicalObjectResponse bs) (fun m => Ok (Some (RespCommitCanonicalObject m)))
  | kSealModelVersion => res_bind (decode_SealModelVersionResponse bs) (fun m => Ok (Some (RespSealModelVersion m)))
  | kGetLatestSealedVersion => res_bind (decode_GetLatestSealedVersionResponse bs) (fun m => Ok (Some (RespGetLatestSealedVersion m)))
  | kGetManifest => res_bind (decode_GetManifestResponse bs) (fun m => Ok (Some (RespGetManifest m)))
  | kPullTensor => res_bind (decode_PullTensorResponse bs) (fun m => Ok (Some (RespPullTensor m)))
  | kRequestCanonicalRestore => res_bind (decode_RequestCanonicalRestoreResponse bs) (fun m => Ok (Some (RespRequestCanonicalRestore m)))
  | kReleaseCanonicalRestore => res_bind (decode_ReleaseCanonicalRestoreResponse bs) (fun m => Ok (Some (RespReleaseCanonicalRestore m)))
  | kDropCanonicalVersion => res_bind (decode_DropCanonicalVersionResponse bs) (fun m => Ok (Some (RespDropCanonicalVersion m)))
  | kReleaseCanonical => res_bind (decode_ReleaseCanonicalResponse bs) (fun m => Ok (Some (RespReleaseCanonical m)))
  end.

(** ** The daemon side of one RPC *)

(** What the transport needs from the daemon: for each request, the reply and
    the new state, or a failure.  [RegisterRank]'s out-of-band descriptors are not bytes of
    the stream and are left to the socket layer. *)
Class Handlers (D : Type) := handle : request -> D -> res (response * D).

(** [dispatch]: decode, run the handler, encode, frame.  An unknown opcode is
    logged and leaves the daemon unchanged and silent. *)
Definition dispatch {D} `{Handlers D} (op : Z) (payload : list byte) (d : D)
  : res (option (list byte) * D) :=
  match op_of_value op with
  | None => Ok (None, d)
  | Some o =>
    res_bind (decode_request o payload) (fun r =>
    match r with
    | None => Ok (None, d)
    | Some req =>
      res_bind (handle req d) (fun '(resp, d') =>
      res_bind (encode_response resp) (fun body =>
      res_bind (make_frame (op_value o) body 0) (fun frame => Ok (Some frame, d'))))
    end)
  end.

(** One turn of [serve_connection] on the bytes the client has sent. *)
Definition serve_one {D} `{Handlers D} (bs : list byte) (d : D)
  : res (option (list byte) * D) :=
  res_bind (recv_frame bs) (fun f =>
  match f with
  | None => Ok (None, d)
  | Some (op, payload, _) => dispatch op payload d
  end).

(** The client side: send the request frame, let the daemon answer, receive
    one reply frame and check that its opcode matches. *)
Definition round_trip {D} `{Handlers D} (op : OpCode) (body : list byte) (d : D)
  : res (list byte * D) :=
  res_bind (make_frame (op_value op) body 0) (fun frame =>
  res_bind (serve_one frame d) (fun '(reply, d') =>
  res_bind (recv_frame (match reply with Some f => f | None => [] end)) (fun f =>
  match f with
  | None => Throw ("rpc: connection closed while awaiting reply to " +:+ op_name op)
  | Some (rop, payload, _) =>
    if decide (rop = op_value op) then Ok (payload, d')
    else Throw ("rpc: reply opcode mismatch: sent " +:+ op_name op +:+ " got " +:+
                match op_of_value rop with Some o => op_name o | None => "Unknown" end)
  end))).

(** A whole client call: encode, round trip, decode the reply. *)
Definition rpc_call {D} `{Handlers D} (r : request) (d : D) : res (option response * D) :=
  res_bind (encode_request r) (fun body =>
  res_bind (round_trip (op_of_request r) body d) (fun '(payload, d') =>
  res_bind (decode_response (op_of_request r) payload) (fun resp => Ok (resp, d')))).

(** ** Lemmas *)
Lemma op_of_value_op_value op : op_of_value (op_value op) = Some op.
Proof. by destruct op. Qed.
Lemma op_value_u16 op : in_u16 (op_value op).
Proof. destruct op; unfold in_u16; simpl; lia. Qed.

Lemma parses_header op flags len :
  in_u16 op -> in_u16 flags -> in_u32 len ->
  parse_frame_header (le_bytes 4 OFLD_RPC_MAGIC ++ le_bytes 2 op ++ le_bytes 2 flags
                      ++ le_bytes 4 len)
  = Ok (mkFrameHeader OFLD_RPC_MAGIC op flags len).
Proof.
  intros Ho Hf Hl. unfold parse_frame_header.
  rewrite decide_False by (rewrite !length_app, !length_le_bytes; unfold kFrameHeaderSize; lia).
  unfold decode_with, r_bind.
  rewrite (proj1 (parses_u32 OFLD_RPC_MAGIC ltac:(by split))), decide_False by naive_solver.
  rewrite (proj1 (parses_u16 op Ho)), (proj1 (parses_u16 flags Hf)).
  rewrite <- (app_nil_r (le_bytes 4 len)), (proj1 (parses_u32 len Hl)). done.
Qed.

Lemma make_frame_ok op flags body :
  Z.of_nat (length body) < 2 ^ 32 ->
  make_frame op body flags =
  Ok ((le_bytes 4 OFLD_RPC_MAGIC ++ le_bytes 2 op ++ le_bytes 2 flags
       ++ le_bytes 4 (Z.of_nat (length body))) ++ body).
Proof.
  intros Hl. unfold make_frame. rewrite decide_False by lia.
  rewrite u32_small by (split; lia). cbn [w_seq w_u32 w_u16 res_bind].
  by rewrite app_nil_r, <- !app_assoc.
Qed.

(** A frame received from a stream that starts with it. *)
Lemma recv_make_frame op flags body rest frame :
  in_u16 op -> in_u16 flags -> Z.of_nat (length body) <= Z.shiftl 256 20 ->
  make_frame op body flags = Ok frame ->
  recv_frame (frame ++ rest) = Ok (Some (op, body, rest)).
Proof.
  intros Ho Hf Hl. rewrite Z.shiftl_mul_pow2 in Hl by lia.
  rewrite make_frame_ok by lia.
  set (hdr := le_bytes 4 OFLD_RPC_MAGIC ++ le_bytes 2 op ++ le_bytes 2 flags
              ++ le_bytes 4 (Z.of_nat (length body))).
  intros Hfr. assert (frame = hdr ++ body) as -> by congruence.
  assert (Hh : length hdr = 12%nat) by (unfold hdr; by rewrite !length_app, !length_le_bytes).
  assert (Hp : parse_frame_header hdr =
               Ok (mkFrameHeader OFLD_RPC_MAGIC op flags (Z.of_nat (length body))))
    by (apply parses_header; [done..|split; lia]).
  rewrite <- app_assoc. unfold recv_frame.
  destruct (hdr ++ body ++ rest) as [|x bs] eqn:E; [by destruct hdr|]. rewrite <- E.
  rewrite decide_False by (rewrite length_app; unfold kFrameHeaderSize; lia).
  rewrite take_app_length' by done. rewrite Hp. cbn [fh_payload_len fh_opcode].
  rewrite decide_False by (rewrite Z.shiftl_mul_pow2; lia).
  rewrite drop_app_length' by done. rewrite decide_False by (rewrite length_app; lia).
  by rewrite Nat2Z.id, take_app_length, drop_app_length.
Qed.

Lemma codec_request r : wf_request r -> forall b rest, encode_request r = Ok b ->
  decode_request (op_of_request r) (b ++ rest) = Ok (Some r).
Proof.
  intros Hwf b rest E. destruct r; cbn [wf_request encode_request op_of_request decode_request] in *;
    match goal with |- context [?f (b ++ rest)] => unfold f end;
    (erewrite codec_decode; [reflexivity|eauto with codec|exact E]).
Qed.
Lemma codec_response r : wf_response r -> forall b rest, encode_response r = Ok b ->
  decode_response (op_of_response r) (b ++ rest) = Ok (Some r).
Proof.
  intros Hwf b rest E.
  destruct r; cbn [wf_response encode_response op_of_response decode_response] in *;
    match goal with |- context [?f (b ++ rest)] => unfold f end;
    (erewrite codec_decode; [reflexivity|eauto with codec|exact E]).
Qed.
Lemma encode_request_total r : wf_request r -> exists b, encode_request r = Ok b.
Proof.
  intros Hwf. destruct r; cbn [wf_request encode_request] in *.
  all: match goal with |- exists b, ?e ?m = _ =>
         assert (exists g, codec (e m) g m) as (g & b & ? & _) by eauto with codec; eauto
       end.
Qed.

Lemma decode_request_truncated r b p s :
  wf_request r -> encode_request r = Ok b -> b = p ++ s -> s ≠ [] ->
  decode_request (op_of_request r) p = Throw "truncated wire message".
Proof.
  intros Hwf E Hb Hs.
  destruct r; cbn [wf_request encode_request op_of_request decode_request] in *;
    match goal with |- context [?f p] => unfold f end;
    (erewrite codec_truncated; [reflexivity|eauto with codec|exact E|exact Hb|exact Hs]).
Qed.

Lemma make_frame_total op body :
  Z.of_nat (length body) <= Z.shiftl 256 20 -> exists f, make_frame op body 0 = Ok f.
Proof.
  intros H. rewrite Z.shiftl_mul_pow2 in H by lia. rewrite make_frame_ok by lia. eauto.
Qed.
(** A frame alone on the stream. *)
Lemma recv_make_frame_nil op body frame :
  in_u16 op -> Z.of_nat (length body) <= Z.shiftl 256 20 ->
  make_frame op body 0 = Ok frame -> recv_frame frame = Ok (Some (op, body, [])).
Proof.
  intros Ho Hl E. rewrite <- (app_nil_r frame).
  by apply (recv_make_frame op 0 body [] frame).
Qed.

(** ** Properties *)

(** Refinement of the handler call by the wire.  For every request whose
    fields fit their wire widths, and every handler whose reply is the reply
    message of that request, fits the wire and stays below the 256 MiB frame
    limit, the client's call over the socket (encode, frame, receive, dispatch,
    handle, encode, frame, receive, opcode check, decode) succeeds, returns
    exactly the handler's reply, and leaves the daemon in exactly the handler's
    new state. *)
Theorem rpc_call_refines_handler {D} `{Handlers D} (r : request) (d d' : D) resp body rbody :
  wf_request r -> handle r d = Ok (resp, d') -> wf_response resp ->
  op_of_response resp = op_of_request r ->
  encode_request r = Ok body -> Z.of_nat (length body) <= Z.shiftl 256 20 ->
  encode_response resp = Ok rbody -> Z.of_nat (length rbody) <= Z.shiftl 256 20 ->
  rpc_call r d = Ok (Some resp, d').
Proof.
  intros Hr Eh Hw Hop Eb Lb Erb Lrb.
  destruct (make_frame_total (op_value (op_of_request r)) body Lb) as [f Ef].
  destruct (make_frame_total (op_value (op_of_request r)) rbody Lrb) as [rf Erf].
  unfold rpc_call, round_trip, serve_one. rewrite Eb. cbn [res_bind]. rewrite Ef. cbn [res_bind].
  rewrite (recv_make_frame_nil _ _ _ (op_value_u16 _) Lb Ef). cbn [res_bind].
  unfold dispatch. rewrite op_of_value_op_value.
  rewrite <- (app_nil_r body), (codec_request r Hr body [] Eb). cbn [res_bind].
  rewrite Eh. cbn [res_bind]. rewrite Erb. cbn [res_bind].
  rewrite Erf. cbn [res_bind].
  rewrite (recv_make_frame_nil _ _ _ (op_value_u16 _) Lrb Erf). cbn [res_bind].
  rewrite decide_True by done. cbn [res_bind]. rewrite <- (app_nil_r rbody), <- Hop.
  by rewrite (codec_response resp Hw rbody [] Erb).
Qed.

(** Codec robustness.  Every request whose fields fit their wire widths
    encodes without throwing; its decoder returns the same request whatever
    bytes follow the body (trailing bytes are ignored), and throws the
    truncation error on every strict prefix of the body. *)
Theorem request_codec_exact (r : request) :
  wf_request r ->
  exists body, encode_request r = Ok body /\
    (forall rest, decode_request (op_of_request r) (body ++ rest) = Ok (Some r)) /\
    (forall p s, body = p ++ s -> s ≠ [] ->
       decode_request (op_of_request r) p = Throw "truncated wire message").
Proof.
  intros Hwf. destruct (encode_request_total r Hwf) as [b E]. exists b.
  split; [done|]. split.
  - intros rest. by apply codec_request.
  - intros p s Hb Hs. by eapply decode_request_truncated.
Qed.

(** Framing on a stream.  When a body of at most 256 MiB has been framed,
    [recv_frame] on a stream that starts with that frame returns the opcode and
    the body, and leaves exactly the bytes that follow the frame: consecutive
    frames do not run into each other. *)
Theorem frame_stream_roundtrip (op flags : Z) (body frame rest : list byte) :
  in_u16 op -> in_u16 flags -> Z.of_nat (length body) <= Z.shiftl 256 20 ->
  make_frame op body flags = Ok frame ->
  recv_frame (frame ++ rest) = Ok (Some (op, body, rest)).
Proof. apply recv_make_frame. Qed.

(** ** Witnesses *)
Definition echo_handlers : Handlers Z := fun r d =>
  match r with
  | ReqHeartbeat m => Ok (RespHeartbeat (mkHeartbeatResponse true "ok"), d + hb_rank_id m)
  | _ => Throw "not served"
  end.
Definition hb_example : request := ReqHeartbeat (mkHeartbeatRequest 7 1 99).
Lemma rpc_call_refines_handler_witness :
  @rpc_call Z echo_handlers hb_example 5 =
  Ok (Some (RespHeartbeat (mkHeartbeatResponse true "ok")), 12).
Proof.
  refine (@rpc_call_refines_handler Z echo_handlers hb_example 5 12 _ _ _ _ _ _ _ _ _ _ _);
    try reflexivity; try (by vm_compute).
Defined.
Lemma request_codec_exact_witness :
  exists body, encode_request hb_example = Ok body /\
    decode_request kHeartbeat (body ++ [x00; x01]) = Ok (Some hb_example).
Proof.
  destruct (request_codec_exact hb_example) as (b & E & H & _).
  - repeat split; vm_compute; congruence.
  - exists b. split; [exact E|]. apply H.
Defined.
Lemma frame_stream_roundtrip_witness :
  recv_frame ((match make_frame 2 [x07; x08] 0 with Ok f => f | _ => [] end) ++ [x01])
  = Ok (Some (2, [x07; x08], [x01])).
Proof.
  apply (frame_stream_roundtrip 2 0); [split; lia|split; lia|vm_compute; congruence|reflexivity].
Defined.
