(* ===== verification/Ring.v ===== *)
(** * The shared-memory completion ring

    Models [src/common/completion_ring.h]: one single-producer single-consumer
    ring per rank session, in memory shared by the rank (producer) and the
    daemon (consumer).  [ring_push] and [ring_pop] are the two calls run
    without interference.  The step relation [rstep] interleaves the individual
    memory accesses of both sides; an acquire load may return any value the
    other side has published since the last load (coherence), so the model
    covers stale reads.  The indices are free-running 64-bit counters and the
    wrap-around of both the counters and the index mask is part of the model. *)
From stdpp Require Import base gmap list fin_maps list_numbers.
From Stdlib Require Import ZArith Lia.
From S2P Require Import Prelude.
Open Scope Z_scope.
Open Scope offload_scope.

(** [ofld_completion_entry_t] *)
Record completion_entry := mkEntry {
  e_lease_id : Z; e_tensor_id : Z; e_version : Z; e_slot_id : Z;
  e_event_type : Z; e_timestamp_ns : Z }.
#[export] Instance completion_entry_inhabited : Inhabited completion_entry :=
  populate (mkEntry 0 0 0 0 0 0).

(** [CompletionRingHeader] and the entries that follow it. *)
Record CompletionRing := mkRing {
  r_capacity : Z; r_owner_rank : Z; r_rank_epoch : Z;
  r_head : Z; r_tail : Z;
  r_entries : gmap Z completion_entry }.
#[export] Instance eta_CompletionRing : Eta CompletionRing := fun r =>
  mkRing (r_capacity r) (r_owner_rank r) (r_rank_epoch r) (r_head r) (r_tail r) (r_entries r).

Definition ring_index (r : CompletionRing) (i : Z) : Z := Z.land i (r_capacity r - 1).

Definition ring_push (r : CompletionRing) (e : completion_entry) : bool * CompletionRing :=
  let tail := r_tail r in
  let head := r_head r in
  if decide (u64 (tail - head) >= r_capacity r) then (false, r)
  else (true, r <| r_entries ::= <[ring_index r tail := e]> |>
                <| r_tail := u64 (tail + 1) |>).

Definition ring_pop (r : CompletionRing) : option completion_entry * CompletionRing :=
  let head := r_head r in
  let tail := r_tail r in
  if decide (head = tail) then (None, r)
  else (Some (r_entries r !!! ring_index r head), r <| r_head := u64 (head + 1) |>).

Definition ring_pending (r : CompletionRing) : Z := u64 (r_tail r - r_head r).

(** ** Interleaved accesses *)

(** Where each side is in its call, with its local variables. *)
Inductive producer_pc :=
  | PIdle
  | PTail (e : completion_entry) (tail : Z)
  | PHead (e : completion_entry) (tail head : Z)
  | PWritten (e : completion_entry) (tail : Z).
Inductive consumer_pc :=
  | CIdle
  | CHead (head : Z)
  | CTail (head tail : Z)
  | CRead (head : Z) (e : completion_entry).

(** The shared ring, both program counters, and auxiliary history: every entry
    published and consumed so far, and how much of the other side's index each
    side has observed. *)
Record ring_sys := mkSys {
  s_ring : CompletionRing; s_p : producer_pc; s_c : consumer_pc;
  s_pushed : list completion_entry; s_popped : list completion_entry;
  s_p_seen : Z; s_c_seen : Z }.
#[export] Instance eta_ring_sys : Eta ring_sys := fun s =>
  mkSys (s_ring s) (s_p s) (s_c s) (s_pushed s) (s_popped s) (s_p_seen s) (s_c_seen s).

Definition count (l : list completion_entry) : Z := Z.of_nat (length l).

Inductive rstep : ring_sys -> ring_sys -> Prop :=
  | p_load_tail s e :
      s_p s = PIdle ->
      rstep s (s <| s_p := PTail e (r_tail (s_ring s)) |>)
  | p_load_head s e tail h :
      s_p s = PTail e tail -> s_p_seen s <= h <= count (s_popped s) ->
      rstep s (s <| s_p := PHead e tail (u64 h) |> <| s_p_seen := h |>)
  | p_full s e tail head :
      s_p s = PHead e tail head -> u64 (tail - head) >= r_capacity (s_ring s) ->
      rstep s (s <| s_p := PIdle |>)
  | p_write s e tail head :
      s_p s = PHead e tail head -> u64 (tail - head) < r_capacity (s_ring s) ->
      rstep s (s <| s_ring ::= (fun r => r <| r_entries ::= <[ring_index r tail := e]> |>) |>
                 <| s_p := PWritten e tail |>)
  | p_publish s e tail :
      s_p s = PWritten e tail ->
      rstep s (s <| s_ring ::= (fun r => r <| r_tail := u64 (tail + 1) |>) |>
                 <| s_p := PIdle |> <| s_pushed ::= (fun l => l ++ [e]) |>)
  | c_load_head s :
      s_c s = CIdle ->
      rstep s (s <| s_c := CHead (r_head (s_ring s)) |>)
  | c_load_tail s head t :
      s_c s = CHead head -> s_c_seen s <= t <= count (s_pushed s) ->
      rstep s (s <| s_c := CTail head (u64 t) |> <| s_c_seen := t |>)
  | c_empty s head tail :
      s_c s = CTail head tail -> head = tail ->
      rstep s (s <| s_c := CIdle |>)
  | c_read s head tail :
      s_c s = CTail head tail -> head ≠ tail ->
      rstep s (s <| s_c := CRead head (r_entries (s_ring s) !!! ring_index (s_ring s) head) |>)
  | c_release s head e :
      s_c s = CRead head e ->
      rstep s (s <| s_ring ::= (fun r => r <| r_head := u64 (head + 1) |>) |>
                 <| s_c := CIdle |> <| s_popped ::= (fun l => l ++ [e]) |>).

(** The initialised ring of [build_arenas_and_control], with a capacity that is
    a power of two. *)
Definition ring_init (cap : Z) : CompletionRing := mkRing cap NO_U32 0 0 0 ∅.
Definition sys_init (cap : Z) : ring_sys := mkSys (ring_init cap) PIdle CIdle [] [] 0 0.
Definition reachable (cap : Z) (s : ring_sys) : Prop := rtc rstep (sys_init cap) s.

(** ** The invariant *)
Definition pow2_cap (cap : Z) : Prop := exists k, 0 <= k <= 31 /\ cap = 2 ^ k.

Record ring_inv (cap : Z) (s : ring_sys) : Prop := {
  ri_cap : r_capacity (s_ring s) = cap;
  ri_tail : r_tail (s_ring s) = u64 (count (s_pushed s));
  ri_head : r_head (s_ring s) = u64 (count (s_popped s));
  ri_prefix : s_popped s `prefix_of` s_pushed s;
  ri_p_seen : 0 <= s_p_seen s <= count (s_popped s);
  ri_c_seen : count (s_popped s) <= s_c_seen s <= count (s_pushed s);
  ri_room : count (s_pushed s) - s_p_seen s <= cap;
  ri_entries : forall i e, s_pushed s !! i = Some e -> count (s_popped s) <= Z.of_nat i ->
      r_entries (s_ring s) !! (Z.of_nat i mod cap) = Some e;
  ri_p : match s_p s with
         | PIdle => True
         | PTail _ tail => tail = u64 (count (s_pushed s))
         | PHead _ tail head => tail = u64 (count (s_pushed s)) /\ head = u64 (s_p_seen s)
         | PWritten e tail => tail = u64 (count (s_pushed s)) /\
             count (s_pushed s) - s_p_seen s < cap /\
             r_entries (s_ring s) !! (count (s_pushed s) mod cap) = Some e
         end;
  ri_c : match s_c s with
         | CIdle => True
         | CHead head => head = u64 (count (s_popped s))
         | CTail head tail => head = u64 (count (s_popped s)) /\ tail = u64 (s_c_seen s)
         | CRead head e => head = u64 (count (s_popped s)) /\
             s_pushed s !! length (s_popped s) = Some e /\ count (s_popped s) < s_c_seen s
         end }.

(** ** Index arithmetic *)
Lemma ring_mask cap n : pow2_cap cap -> Z.land (u64 n) (cap - 1) = n mod cap.
Proof.
  intros (k & Hk & ->). replace (2 ^ k - 1) with (Z.ones k) by (rewrite Z.ones_equiv; lia).
  rewrite Z.land_ones by lia. unfold u64.
  apply Z.mod_mod_divide. exists (2 ^ (64 - k)). rewrite <- Z.pow_add_r by lia. f_equal. lia.
Qed.
Lemma pow2_cap_range cap : pow2_cap cap -> 1 <= cap <= 2 ^ 31.
Proof.
  intros (k & Hk & ->). split; [|apply Z.pow_le_mono_r; lia].
  pose proof (Z.pow_pos_nonneg 2 k). lia.
Qed.
(** The distance of two counters that differ by less than [2^64]. *)
Lemma u64_sub a b : 0 <= a - b < 2 ^ 64 -> u64 (u64 a - u64 b) = a - b.
Proof.
  intros H. unfold u64. rewrite <- Zminus_mod. by apply Z.mod_small.
Qed.
Lemma u64_inj a b : 0 <= a - b < 2 ^ 64 -> u64 a = u64 b -> a = b.
Proof. intros H E. pose proof (u64_sub a b H) as E'. rewrite E, Z.sub_diag in E'.
  change (u64 0) with 0 in E'. lia. Qed.
Lemma mod_inj cap a b : 0 < cap -> 0 <= b - a < cap -> a mod cap = b mod cap -> a = b.
Proof.
  intros Hc H E. assert ((b - a) mod cap = 0) as E2
    by (by rewrite Zminus_mod, E, Z.sub_diag).
  rewrite Z.mod_small in E2 by lia. lia.
Qed.
Lemma u64_succ a : u64 (u64 a + 1) = u64 (a + 1).
Proof. unfold u64. by rewrite Zplus_mod_idemp_l. Qed.
Lemma count_app l e : count (l ++ [e]) = count l + 1.
Proof. unfold count. rewrite length_app. simpl. lia. Qed.

(** ** The invariant is inductive *)
Lemma ring_inv_init cap : pow2_cap cap -> ring_inv cap (sys_init cap).
Proof.
  intros Hc. pose proof (pow2_cap_range _ Hc).
  split; cbn; try done; try (unfold count; simpl; lia).
Qed.

Lemma seen_bounds cap s : ring_inv cap s -> pow2_cap cap ->
  0 <= count (s_pushed s) - count (s_popped s) <= cap /\
  0 <= count (s_pushed s) - s_p_seen s < 2 ^ 64 /\
  0 <= s_c_seen s - count (s_popped s) < 2 ^ 64 /\ 1 <= cap <= 2 ^ 31.
Proof.
  intros I Hc. pose proof (pow2_cap_range _ Hc). destruct I. lia.
Qed.

Lemma popped_lookup cap s i : ring_inv cap s -> Z.of_nat i < count (s_popped s) ->
  s_popped s !! i = s_pushed s !! i.
Proof.
  intros I Hi. destruct (ri_prefix _ _ I) as [k Hk]. rewrite Hk.
  symmetry. apply lookup_app_l. unfold count in Hi. lia.
Qed.

(** The slot of the entry being written holds no unconsumed entry. *)
Lemma write_slot_free cap s i : ring_inv cap s -> pow2_cap cap ->
  count (s_pushed s) - s_p_seen s < cap -> Z.of_nat i < count (s_pushed s) ->
  count (s_popped s) <= Z.of_nat i -> Z.of_nat i mod cap ≠ count (s_pushed s) mod cap.
Proof.
  intros I Hc Hroom Hi Hp E. destruct (seen_bounds _ _ I Hc) as (? & ? & ? & ?).
  destruct I. apply mod_inj in E; lia.
Qed.

(** Steps that move only a program counter or an observation keep the rest. *)
Ltac ring_frame := split; cbn; try done; try lia.

Lemma ring_inv_step cap s s' : pow2_cap cap -> ring_inv cap s -> rstep s s' -> ring_inv cap s'.
Proof.
  intros Hc I Hstep. destruct (seen_bounds _ _ I Hc) as (B1 & B2 & B3 & B4).
  inversion Hstep; subst; clear Hstep;
    pose proof I as [Icap Itail Ihead Ipre Ips Ics Iroom Ient Ip Ic].
  - ring_frame.
  - rewrite H in Ip. ring_frame.
  - ring_frame.
  - rewrite H in Ip. destruct Ip as [-> ->]. rewrite u64_sub in H0 by lia.
    assert (Hm : ring_index (s_ring s) (u64 (count (s_pushed s))) = count (s_pushed s) mod cap)
      by (unfold ring_index; rewrite Icap; by apply ring_mask).
    ring_frame.
    + intros i e' Hi Hge. rewrite Hm. rewrite lookup_insert_ne; [by apply Ient|].
      intros E. symmetry in E. revert E. eapply write_slot_free; eauto; [lia|].
      unfold count. apply lookup_lt_Some in Hi. lia.
    + rewrite Hm, lookup_insert_eq. repeat split. lia.
  - rewrite H in Ip. destruct Ip as (-> & Hroom & He). ring_frame.
    + by rewrite u64_succ, count_app.
    + by apply prefix_app_r.
    + rewrite count_app. lia.
    + rewrite count_app. lia.
    + intros i e' Hi Hge. apply lookup_snoc_Some in Hi as [[Hlt Hi]|[-> ->]]; [by apply Ient|].
      apply He.
    + destruct (s_c s) as [| | |h0 e0]; try done. destruct Ic as (? & Hl & ?). split_and!; try done.
      by apply lookup_app_l_Some.
  - ring_frame.
  - rewrite H in Ic. ring_frame.
  - ring_frame.
  - rewrite H in Ic. destruct Ic as [-> ->].
    assert (Hne : count (s_popped s) ≠ s_c_seen s) by (intros E; apply H0; by rewrite E).
    destruct (lookup_lt_is_Some_2 (s_pushed s) (length (s_popped s))) as [e He];
      [unfold count in *; lia|].
    ring_frame. split_and!; [done| |lia]. rewrite He. f_equal.
    unfold ring_index. rewrite Icap, ring_mask by done.
    symmetry. apply lookup_total_correct, Ient; [done|]. unfold count. lia.
  - rewrite H in Ic. destruct Ic as (-> & Hl & Hlt). ring_frame.
    + by rewrite u64_succ, count_app.
    + destruct Ipre as [k Hk]. rewrite Hk in Hl |- *.
      rewrite lookup_app_r, Nat.sub_diag in Hl by lia. destruct k as [|x k]; [done|].
      injection Hl as ->. exists k. by rewrite <- app_assoc.
    + rewrite count_app. lia.
    + rewrite count_app. lia.
    + intros i e' Hi Hge. rewrite count_app in Hge. apply Ient; [done|lia].
Qed.

Lemma rtc_invariant {S} (R : S -> S -> Prop) (P : S -> Prop) x y :
  (forall a b, P a -> R a b -> P b) -> rtc R x y -> P x -> P y.
Proof. induction 2; eauto. Qed.
Lemma ring_inv_reachable cap s : pow2_cap cap -> reachable cap s -> ring_inv cap s.
Proof.
  intros Hc Hr. eapply rtc_invariant; [|exact Hr|by apply ring_inv_init].
  intros a b I St. by eapply ring_inv_step.
Qed.

(** ** Abstract bounded queue and its implementation by the ring *)
Definition queue_push (cap : Z) (q : list completion_entry) (e : completion_entry)
  : bool * list completion_entry :=
  if decide (count q >= cap) then (false, q) else (true, q ++ [e]).
Definition queue_pop (q : list completion_entry)
  : option completion_entry * list completion_entry :=
  match q with [] => (None, []) | e :: q' => (Some e, q') end.

(** [ring_repr r q]: the ring holds exactly the entries [q], oldest first, for
    some position [h] of the (wrapped) head counter. *)
Definition ring_repr (r : CompletionRing) (q : list completion_entry) : Prop :=
  exists h, 0 <= h /\ pow2_cap (r_capacity r) /\ count q <= r_capacity r /\
    r_head r = u64 h /\ r_tail r = u64 (h + count q) /\
    forall i e, q !! i = Some e ->
      r_entries r !! ((h + Z.of_nat i) mod r_capacity r) = Some e.

Lemma ring_repr_init cap : pow2_cap cap -> ring_repr (ring_init cap) [].
Proof.
  intros Hc. pose proof (pow2_cap_range _ Hc). exists 0. cbn. unfold count. simpl.
  split_and!; try done; lia.
Qed.

Lemma ring_push_repr r q e :
  ring_repr r q ->
  (ring_push r e).1 = (queue_push (r_capacity r) q e).1 /\
  ring_repr (ring_push r e).2 (queue_push (r_capacity r) q e).2.
Proof.
  intros (h & Hh & Hc & Hl & Ehd & Etl & Hent). pose proof (pow2_cap_range _ Hc).
  unfold ring_push, queue_push. rewrite Ehd, Etl, u64_sub by (unfold count in *; lia).
  replace (h + count q - h) with (count q) by lia.
  destruct (decide (count q >= r_capacity r)) as [Hf|Hf]; cbn.
  - split; [done|]. exists h. by split_and!.
  - split; [done|]. exists h. cbn. rewrite count_app. split_and!; try done; try lia.
    + rewrite ?Etl, u64_succ. f_equal. lia.
    + unfold ring_index. rewrite ?Etl, ring_mask by done.
      intros i e' [[Hlt Hi]|[-> ->]]%lookup_snoc_Some.
      * rewrite lookup_insert_ne; [by apply Hent|]. intros E. symmetry in E.
        apply mod_inj in E; unfold count in *; lia.
      * unfold count. by rewrite lookup_insert_eq.
Qed.

Lemma ring_pop_repr r q :
  ring_repr r q ->
  (ring_pop r).1 = (queue_pop q).1 /\ ring_repr (ring_pop r).2 (queue_pop q).2.
Proof.
  intros (h & Hh & Hc & Hl & Ehd & Etl & Hent). pose proof (pow2_cap_range _ Hc).
  unfold ring_pop. destruct q as [|e q]; cbn [queue_pop fst snd].
  - unfold count in *; simpl in *. rewrite decide_True; [|rewrite Ehd, Etl; f_equal; lia].
    split; [done|]. exists h. by split_and!.
  - rewrite decide_False; cbn [fst snd].
    2:{ rewrite Ehd, Etl. intros E. symmetry in E.
        apply u64_inj in E; unfold count in *; simpl in *; lia. }
    split.
    + f_equal. apply lookup_total_correct. unfold ring_index. rewrite Ehd, ring_mask by done.
      rewrite <- (Z.add_0_r h). by apply (Hent 0%nat).
    + exists (h + 1). cbn. unfold count in *. simpl in *. split_and!; try done; try lia.
      * by rewrite Ehd, u64_succ.
      * rewrite Etl. f_equal. lia.
      * intros i e' Hi. rewrite <- (Hent (S i) e' Hi). do 2 f_equal. lia.
Qed.

(** A sequence of calls: [Some e] pushes [e], [None] pops. *)
Fixpoint ring_run (r : CompletionRing) (ops : list (option completion_entry))
  : list (bool * option completion_entry) * CompletionRing :=
  match ops with
  | [] => ([], r)
  | Some e :: ops' => let '(ok, r') := ring_push r e in
                      let '(out, r'') := ring_run r' ops' in ((ok, None) :: out, r'')
  | None :: ops' => let '(x, r') := ring_pop r in
                    let '(out, r'') := ring_run r' ops' in ((bool_decide (is_Some x), x) :: out, r'')
  end.
Fixpoint queue_run (cap : Z) (q : list completion_entry) (ops : list (option completion_entry))
  : list (bool * option completion_entry) * list completion_entry :=
  match ops with
  | [] => ([], q)
  | Some e :: ops' => let '(ok, q') := queue_push cap q e in
                      let '(out, q'') := queue_run cap q' ops' in ((ok, None) :: out, q'')
  | None :: ops' => let '(x, q') := queue_pop q in
                    let '(out, q'') := queue_run cap q' ops' in
                    ((bool_decide (is_Some x), x) :: out, q'')
  end.
Lemma ring_push_capacity r e : r_capacity (ring_push r e).2 = r_capacity r.
Proof. unfold ring_push. by case_decide. Qed.
Lemma ring_pop_capacity r : r_capacity (ring_pop r).2 = r_capacity r.
Proof. unfold ring_pop. by case_decide. Qed.

(** ** Properties *)

(** No loss, duplication or reordering under every interleaving.  Start from
    an initialised ring whose capacity is a power of two and let the rank and
    the daemon interleave their memory accesses arbitrarily, with stale acquire
    loads and indices that wrap at 2^64.  At every reachable state the entries
    the daemon has consumed are a prefix of the entries the rank has published,
    at most [cap] entries are pending, and every pending entry is intact in its
    slot of the ring. *)
Theorem ring_fifo (cap : Z) (s : ring_sys) :
  pow2_cap cap -> reachable cap s ->
  s_popped s `prefix_of` s_pushed s /\
  count (s_pushed s) - count (s_popped s) <= cap /\
  (forall i e, s_pushed s !! i = Some e -> count (s_popped s) <= Z.of_nat i ->
     r_entries (s_ring s) !! ring_index (s_ring s) (u64 (Z.of_nat i)) = Some e).
Proof.
  intros Hc Hr. pose proof (ring_inv_reachable _ _ Hc Hr) as I.
  destruct (seen_bounds _ _ I Hc) as (B & _). split_and!; [apply I|lia|].
  intros i e Hi Hp. unfold ring_index. rewrite (ri_cap _ _ I), ring_mask by done.
  by apply (ri_entries _ _ I).
Qed.

(** C32. Data-race freedom.  Whenever the daemon is about to read an entry, the slot
    it addresses holds an entry the rank has published and the daemon has not
    consumed, the oldest one; and if the rank is about to write an entry at the same
    time, it addresses a different slot, so the non-atomic entry accesses never
    conflict. *)
Theorem ring_race_free (cap : Z) (s : ring_sys) (head' tail' : Z) :
  pow2_cap cap -> reachable cap s -> s_c s = CTail head' tail' -> head' ≠ tail' ->
  (exists x, s_pushed s !! length (s_popped s) = Some x /\
     r_entries (s_ring s) !! ring_index (s_ring s) head' = Some x) /\
  (forall e tail head, s_p s = PHead e tail head -> u64 (tail - head) < r_capacity (s_ring s) ->
     ring_index (s_ring s) tail ≠ ring_index (s_ring s) head').
Proof.
  intros Hc Hr Hcc Hne. pose proof (ring_inv_reachable _ _ Hc Hr) as I.
  destruct (seen_bounds _ _ I Hc) as (B1 & B2 & B3 & B4).
  pose proof (ri_c _ _ I) as Ic. rewrite Hcc in Ic. destruct Ic as [-> ->].
  assert (Hlt : count (s_popped s) < s_c_seen s).
  { pose proof (ri_c_seen _ _ I). assert (count (s_popped s) ≠ s_c_seen s); [|lia].
    intros E. apply Hne. by rewrite E. }
  pose proof (ri_c_seen _ _ I). pose proof (ri_p_seen _ _ I).
  unfold ring_index. rewrite (ri_cap _ _ I), ring_mask by done. split.
  - destruct (lookup_lt_is_Some_2 (s_pushed s) (length (s_popped s))) as [x Hx]; [unfold count in *; lia|].
    exists x. split; [done|]. apply (ri_entries _ _ I); [done|]. unfold count. lia.
  - intros e tail head Hp Hroom. pose proof (ri_p _ _ I) as Ip. rewrite Hp in Ip. destruct Ip as [-> ->].
    rewrite u64_sub in Hroom by lia. rewrite ring_mask by done.
    intros E. symmetry in E. apply mod_inj in E; lia.
Qed.

(** C31. Refinement.  Any sequence of pushes and pops on a freshly initialised
    ring gives the results of the same sequence on an unbounded list used as a
    bounded FIFO queue of [cap] entries: a push fails exactly when [cap] entries
    are pending, a pop returns the oldest pending entry. *)
Theorem ring_refines_queue (cap : Z) (ops : list (option completion_entry)) :
  pow2_cap cap ->
  (ring_run (ring_init cap) ops).1 = (queue_run cap [] ops).1 /\
  ring_pending (ring_run (ring_init cap) ops).2 = count (queue_run cap [] ops).2.
Proof.
  intros Hc.
  enough (H : forall r q, r_capacity r = cap -> ring_repr r q ->
    (ring_run r ops).1 = (queue_run cap q ops).1 /\
    ring_repr (ring_run r ops).2 (queue_run cap q ops).2).
  { destruct (H (ring_init cap) [] eq_refl (ring_repr_init _ Hc)) as [E (h & ? & Hc' & ? & Eh & Et & _)].
    split; [exact E|]. pose proof (pow2_cap_range _ Hc'). unfold ring_pending.
    rewrite Eh, Et, u64_sub by (unfold count in *; lia). lia. }
  induction ops as [|[e|] ops IH]; intros r q Er Hr; [done| |].
  - cbn [ring_run queue_run]. destruct (ring_push_repr r q e Hr) as [E1 E2].
    pose proof (ring_push_capacity r e) as E3. rewrite Er in *.
    destruct (ring_push r e) as [ok r'], (queue_push cap q e) as [ok' q']. cbn in *. subst ok'.
    destruct (IH r' q' E3 E2) as [I1 I2].
    destruct (ring_run r' ops), (queue_run cap q' ops). cbn in *. by subst.
  - cbn [ring_run queue_run]. destruct (ring_pop_repr r q Hr) as [E1 E2].
    pose proof (ring_pop_capacity r) as E3. rewrite Er in *.
    destruct (ring_pop r) as [x r'], (queue_pop q) as [x' q']. cbn in *. subst x'.
    destruct (IH r' q' E3 E2) as [I1 I2].
    destruct (ring_run r' ops), (queue_run cap q' ops). cbn in *. by subst.
Qed.

(** ** Witnesses *)
Definition entry_a : completion_entry := mkEntry 1 2 3 4 1 0.
Definition entry_b : completion_entry := mkEntry 5 6 7 8 2 0.
Lemma pow2_cap_2 : pow2_cap 2.
Proof. exists 1. split; [lia|reflexivity]. Qed.
(** The rank has published one entry, is about to write a second, and the
    daemon is about to read the first. *)
Definition busy_sys : ring_sys :=
  mkSys (mkRing 2 NO_U32 0 0 1 {[0 := entry_a]}) (PHead entry_b 1 0) (CTail 0 1)
        [entry_a] [] 0 1.
Lemma busy_sys_reachable : reachable 2 busy_sys.
Proof.
  unfold reachable.
  eapply rtc_l; [apply (p_load_tail _ entry_a); reflexivity|].
  eapply rtc_l; [eapply (p_load_head _ _ _ 0); [reflexivity|vm_compute; split; congruence]|].
  eapply rtc_l; [eapply p_write; [reflexivity|vm_compute; reflexivity]|].
  eapply rtc_l; [eapply p_publish; reflexivity|].
  eapply rtc_l; [apply (p_load_tail _ entry_b); reflexivity|].
  eapply rtc_l; [eapply (p_load_head _ _ _ 0); [reflexivity|vm_compute; split; congruence]|].
  eapply rtc_l; [apply c_load_head; reflexivity|].
  eapply rtc_l; [eapply (c_load_tail _ _ 1); [reflexivity|vm_compute; split; congruence]|].
  apply rtc_refl.
Defined.
Lemma ring_fifo_witness :
  s_popped busy_sys `prefix_of` s_pushed busy_sys /\
  r_entries (s_ring busy_sys) !! ring_index (s_ring busy_sys) (u64 0) = Some entry_a.
Proof.
  destruct (ring_fifo 2 busy_sys pow2_cap_2 busy_sys_reachable) as (H1 & _ & H2).
  split; [exact H1|]. apply (H2 0%nat entry_a); [reflexivity|vm_compute; congruence].
Defined.
Lemma ring_race_free_witness :
  r_entries (s_ring busy_sys) !! ring_index (s_ring busy_sys) 0 = Some entry_a /\
  ring_index (s_ring busy_sys) 1 ≠ ring_index (s_ring busy_sys) 0.
Proof.
  destruct (ring_race_free 2 busy_sys 0 1 pow2_cap_2 busy_sys_reachable) as [(x & Hx & He) Hw];
    [reflexivity|congruence|].
  split; [|apply (Hw entry_b 1 0); [reflexivity|vm_compute; reflexivity]].
  rewrite He. symmetry. exact Hx.
Defined.
Lemma ring_refines_queue_witness :
  (ring_run (ring_init 2) [Some entry_a; Some entry_b; Some entry_a; None; None; None]).1 =
  [(true, None); (true, None); (false, None); (true, Some entry_a); (true, Some entry_b);
   (false, None)].
Proof.
  rewrite (proj1 (ring_refines_queue 2 _ pow2_cap_2)). reflexivity.
Defined.
