(* ===== verification/Layout.v ===== *)
(** * Layout of the shared control region

    Models [src/common/control_layout.h], the size computations of
    [src/common/completion_ring.h] and the ring sizing of
    [OffloadDaemon::build_arenas_and_control] ([src/daemon/daemon.cpp]), with
    every [uint32_t] and [uint64_t] computation at its width.  Structure sizes
    are those of [abi/offload_abi.h] under the x86-64 ABI. *)
From stdpp Require Import base list list_numbers.
From Stdlib Require Import ZArith Lia.
From S2P Require Import Prelude.
From S2P Require Import Ring.
Open Scope Z_scope.
Open Scope offload_scope.

Definition OFLD_MAGIC : Z := 0x4F464C44.
Definition OFLD_ABI_VERSION : Z := 1.
Definition OFLD_CACHELINE : Z := 64.
(** [sizeof(ofld_slot_table_header_t)]: 144 bytes of fields, aligned to 64. *)
Definition sizeof_slot_table_header : Z := 192.
(** [sizeof(ofld_arena_desc_t)]: 44 bytes of fields, 4 of padding, 32 more. *)
Definition sizeof_arena_desc : Z := 80.
(** [sizeof(ofld_slot_entry_t)]: 208 bytes of fields, aligned to 64. *)
Definition sizeof_slot_entry : Z := 256.
Definition sizeof_completion_entry : Z := 40.
(** [sizeof(CompletionRingHeader)]: three cachelines. *)
Definition sizeof_ring_header : Z := 192.

Definition align_up (v a : Z) : Z := u64 (u64 (u64 (v + a) - 1) / a * a).

Record ControlLayout := mkLayout {
  l_header_offset : Z; l_arena_desc_offset : Z; l_slot_entries_offset : Z;
  l_control_ring_offset : Z; l_control_ring_bytes : Z; l_total_bytes : Z;
  l_num_arenas : Z; l_num_slots : Z; l_max_ranks : Z; l_ring_stride : Z }.
#[export] Instance eta_ControlLayout : Eta ControlLayout := fun l =>
  mkLayout (l_header_offset l) (l_arena_desc_offset l) (l_slot_entries_offset l)
    (l_control_ring_offset l) (l_control_ring_bytes l) (l_total_bytes l)
    (l_num_arenas l) (l_num_slots l) (l_max_ranks l) (l_ring_stride l).

Definition compute_control_layout (num_arenas num_slots ring_bytes : Z) : ControlLayout :=
  let off0 := 0 in
  let off1 := align_up (u64 (off0 + sizeof_slot_table_header)) OFLD_CACHELINE in
  let off2 := align_up (u64 (off1 + u64 (num_arenas * sizeof_arena_desc))) OFLD_CACHELINE in
  let off3 := align_up (u64 (off2 + u64 (num_slots * sizeof_slot_entry))) OFLD_CACHELINE in
  let off4 := align_up (u64 (off3 + ring_bytes)) 4096 in
  mkLayout off0 off1 off2 off3 ring_bytes off4 num_arenas num_slots 0 0.

Definition completion_ring_bytes (capacity : Z) : Z :=
  let total := u64 (sizeof_ring_header + u64 (capacity * sizeof_completion_entry)) in
  u64 (u64 (u64 (total + OFLD_CACHELINE) - 1) / OFLD_CACHELINE * OFLD_CACHELINE).

(** [while (p < ring_cap) p <<= 1;] on [uint32_t]; [None] when the loop has not
    ended after [fuel] iterations. *)
Fixpoint round_up_loop (fuel : nat) (p ring_cap : Z) : option Z :=
  match fuel with
  | O => None
  | S fuel' => if decide (p < ring_cap) then round_up_loop fuel' (u32 (Z.shiftl p 1)) ring_cap
               else Some p
  end.
(** [if (ring_cap < 2) ring_cap = 2; { uint32_t p = 1; while ... }] *)
Definition round_ring_capacity (fuel : nat) (cfg_capacity : Z) : option Z :=
  let ring_cap := if decide (cfg_capacity < 2) then 2 else cfg_capacity in
  round_up_loop fuel 1 ring_cap.

(** The control layout of [build_arenas_and_control] for a rounded capacity. *)
Definition build_layout (num_arenas total_slots ring_cap ring_max : Z) : ControlLayout :=
  let ring_stride := u32 (completion_ring_bytes ring_cap) in
  let ring_area := if decide (ring_max = 0) then 0 else u64 (ring_max * ring_stride) in
  (compute_control_layout num_arenas total_slots ring_area)
    <| l_max_ranks := ring_max |> <| l_ring_stride := ring_stride |>.

(** [ring_for_index]: the offset of a rank's ring, when rings are configured
    and the index is in range. *)
Definition ring_for_index (l : ControlLayout) (index : Z) : option Z :=
  if decide (l_max_ranks l = 0 \/ index >= l_max_ranks l) then None
  else Some (l_control_ring_offset l + index * l_ring_stride l).

(** ** Lemmas *)
Lemma align_up_spec v a :
  0 <= v < 2 ^ 63 -> (a = 64 \/ a = 4096) ->
  v <= align_up v a < v + a /\ (a | align_up v a).
Proof.
  intros Hv Ha. unfold align_up.
  rewrite (u64_small (v + a)) by (split; lia). rewrite (u64_small (v + a - 1)) by (split; lia).
  pose proof (Z.div_mod (v + a - 1) a ltac:(lia)) as E.
  pose proof (Z.mod_pos_bound (v + a - 1) a ltac:(lia)) as B.
  rewrite u64_small by (split; lia). split; [lia|]. exists ((v + a - 1) / a). lia.
Qed.

Lemma completion_ring_bytes_spec c :
  0 <= c <= 2 ^ 32 ->
  sizeof_ring_header + c * sizeof_completion_entry <= completion_ring_bytes c
    < sizeof_ring_header + c * sizeof_completion_entry + 64 /\
  (64 | completion_ring_bytes c).
Proof.
  intros Hc. unfold completion_ring_bytes, sizeof_ring_header, sizeof_completion_entry.
  rewrite (u64_small (c * 40)) by (split; lia). rewrite (u64_small (192 + c * 40)) by (split; lia).
  apply (align_up_spec (192 + c * 40) 64); [lia|auto].
Qed.

(** The layout's offsets, when the ring area does not overflow. *)
Lemma layout_spec na ns rb :
  in_u32 na -> in_u32 ns -> 0 <= rb < 2 ^ 62 ->
  let l := compute_control_layout na ns rb in
  (l_arena_desc_offset l = 192 /\
   l_arena_desc_offset l + na * sizeof_arena_desc <= l_slot_entries_offset l
     < l_arena_desc_offset l + na * sizeof_arena_desc + 64 /\
   l_slot_entries_offset l + ns * sizeof_slot_entry <= l_control_ring_offset l
     < l_slot_entries_offset l + ns * sizeof_slot_entry + 64 /\
   l_control_ring_offset l + rb <= l_total_bytes l < l_control_ring_offset l + rb + 4096) /\
  (64 | l_slot_entries_offset l) /\ (64 | l_control_ring_offset l) /\ (4096 | l_total_bytes l).
Proof.
  intros Ha Hs Hr l. unfold in_u32 in *.
  unfold l, compute_control_layout, sizeof_arena_desc, sizeof_slot_entry, sizeof_slot_table_header,
    OFLD_CACHELINE. cbn [l_arena_desc_offset l_slot_entries_offset l_control_ring_offset l_total_bytes].
  change (align_up (u64 (0 + 192)) 64) with 192.
  rewrite (u64_small (na * 80)) by (split; lia). rewrite (u64_small (192 + na * 80)) by (split; lia).
  destruct (align_up_spec (192 + na * 80) 64) as [A1 D1]; [lia|auto|].
  set (o2 := align_up (192 + na * 80) 64) in *.
  rewrite (u64_small (ns * 256)) by (split; lia). rewrite (u64_small (o2 + ns * 256)) by (split; lia).
  destruct (align_up_spec (o2 + ns * 256) 64) as [A2 D2]; [lia|auto|].
  set (o3 := align_up (o2 + ns * 256) 64) in *.
  rewrite (u64_small (o3 + rb)) by (split; lia).
  destruct (align_up_spec (o3 + rb) 4096) as [A3 D3]; [lia|auto|].
  split_and!; try done; lia.
Qed.

Lemma round_up_loop_pow2 fuel k cap :
  0 <= k <= 31 -> cap <= 2 ^ 31 -> (k = 0 \/ 2 ^ (k - 1) < cap) ->
  (32 - k <= Z.of_nat fuel) ->
  exists j, round_up_loop fuel (2 ^ k) cap = Some (2 ^ j) /\ k <= j <= 31 /\ cap <= 2 ^ j /\
            (j = 0 \/ 2 ^ (j - 1) < cap).
Proof.
  revert k. induction fuel as [|fuel IH]; intros k Hk Hcap Hlow Hf; [lia|].
  cbn [round_up_loop]. case_decide as Hlt.
  - assert (k <> 31) by (intros ->; lia).
    replace (u32 (Z.shiftl (2 ^ k) 1)) with (2 ^ (k + 1)).
    + destruct (IH (k + 1)) as (j & E & ? & ? & ?); [lia..| |lia|].
      * right. by replace (k + 1 - 1) with k by lia.
      * exists j. split_and!; try done; lia.
    + rewrite Z.shiftl_mul_pow2, <- Z.pow_add_r by lia. symmetry. apply u32_small.
      split; [apply Z.pow_nonneg; lia|]. apply Z.pow_lt_mono_r; lia.
  - exists k. split_and!; try done; lia.
Qed.

(** Past [2^31] the doubling wraps to zero and the loop never ends. *)
Lemma round_up_loop_zero fuel cap : 0 < cap -> round_up_loop fuel 0 cap = None.
Proof.
  intros Hc. induction fuel as [|fuel IH]; [done|]. cbn [round_up_loop].
  rewrite decide_True by lia. apply IH.
Qed.
Lemma round_up_loop_diverges fuel k cap :
  0 <= k <= 31 -> 2 ^ 31 < cap -> round_up_loop fuel (2 ^ k) cap = None.
Proof.
  revert k. induction fuel as [|fuel IH]; intros k Hk Hc; [done|]. cbn [round_up_loop].
  assert (2 ^ k <= 2 ^ 31) by (apply Z.pow_le_mono_r; lia). rewrite decide_True by lia.
  rewrite Z.shiftl_mul_pow2, <- Z.pow_add_r by lia.
  destruct (decide (k = 31)) as [->|].
  - change (u32 (2 ^ (31 + 1))) with 0. apply round_up_loop_zero. lia.
  - rewrite u32_small; [apply IH; lia|].
    split; [apply Z.pow_nonneg; lia|]. apply Z.pow_lt_mono_r; lia.
Qed.

(** ** Properties *)

(** Ring sizing terminates and is correct.  For a configured capacity of at
    most 2^31 the rounding loop ends within 32 iterations and yields the least
    power of two that is at least the capacity (and at least 2), as the ring
    requires. *)
Theorem round_ring_capacity_correct (cap : Z) :
  0 <= cap <= 2 ^ 31 ->
  exists c, round_ring_capacity 32 cap = Some c /\ pow2_cap c /\ cap <= c /\ 2 <= c /\
    (forall k, 0 <= k -> cap <= 2 ^ k -> 2 <= 2 ^ k -> c <= 2 ^ k).
Proof.
  intros Hc. unfold round_ring_capacity.
  set (rc := if decide (cap < 2) then 2 else cap).
  assert (Hrc : 2 <= rc <= 2 ^ 31 /\ cap <= rc /\ (rc = 2 \/ rc = cap))
    by (unfold rc; case_decide; lia).
  destruct (round_up_loop_pow2 32 0 rc) as (j & E & Hj & Hge & Hlow); [lia..|auto|lia|].
  exists (2 ^ j). split_and!; [exact E|exists j; split; [lia|done]|lia|lia|].
  intros k Hk H1 H2. destruct Hlow as [->|Hlow]; [lia|].
  apply Z.pow_le_mono_r; [lia|]. destruct (decide (j <= k)) as [|Hn]; [done|].
  assert (2 ^ k <= 2 ^ (j - 1)) by (apply Z.pow_le_mono_r; lia). lia.
Qed.

(** A configured ring capacity above 2^31 makes the daemon's startup loop
    forever: no number of iterations is enough. *)
Theorem round_ring_capacity_diverges (cap : Z) :
  2 ^ 31 < cap < 2 ^ 32 -> forall fuel, round_ring_capacity fuel cap = None.
Proof.
  intros Hc fuel. unfold round_ring_capacity. rewrite decide_False by lia.
  apply (round_up_loop_diverges fuel 0); lia.
Qed.

(** The control region is well laid out.  With at most 2^26 entries per ring
    and at most 2^20 rings, the header, the arena descriptors, the slot table
    and the rings occupy pairwise disjoint byte ranges of the mapping, in this
    order; slot table and rings are cacheline aligned, the mapping is a whole
    number of pages, and the rings of two different ranks do not overlap. *)
Theorem control_layout_disjoint (na ns cap rmax i j : Z) :
  in_u32 na -> in_u32 ns -> 2 <= cap <= 2 ^ 26 -> 0 < rmax <= 2 ^ 20 ->
  0 <= i < j -> j < rmax ->
  let l := build_layout na ns cap rmax in
  exists ri rj, ring_for_index l i = Some ri /\ ring_for_index l j = Some rj /\
    sizeof_slot_table_header <= l_arena_desc_offset l /\
    l_arena_desc_offset l + na * sizeof_arena_desc <= l_slot_entries_offset l /\
    l_slot_entries_offset l + ns * sizeof_slot_entry <= ri /\
    ri + sizeof_ring_header + cap * sizeof_completion_entry <= rj /\
    rj + sizeof_ring_header + cap * sizeof_completion_entry <= l_total_bytes l /\
    (64 | l_slot_entries_offset l) /\ (64 | ri) /\ (64 | rj) /\ (4096 | l_total_bytes l).
Proof.
  intros Ha Hs Hc Hm Hij Hj l.
  destruct (completion_ring_bytes_spec cap) as [B D]; [lia|].
  unfold sizeof_ring_header, sizeof_completion_entry in *.
  assert (Est : u32 (completion_ring_bytes cap) = completion_ring_bytes cap)
    by (apply u32_small; split; lia).
  set (st := completion_ring_bytes cap) in *.
  assert (Harea : 0 <= rmax * st < 2 ^ 62) by nia.
  destruct (layout_spec na ns (rmax * st) Ha Hs Harea) as ((E1 & E2 & E3 & E4) & D1 & D2 & D3).
  assert (El : l = (compute_control_layout na ns (rmax * st))
                     <| l_max_ranks := rmax |> <| l_ring_stride := st |>).
  { unfold l, build_layout. fold st. rewrite Est, decide_False by lia.
    by rewrite u64_small by (split; lia). }
  set (l0 := compute_control_layout na ns (rmax * st)) in *. rewrite El. clear El l Est.
  clearbody l0 st.
  exists (l_control_ring_offset l0 + i * st), (l_control_ring_offset l0 + j * st).
  unfold ring_for_index, sizeof_slot_table_header, sizeof_arena_desc, sizeof_slot_entry in *. cbn.
  rewrite !decide_False by lia.
  assert (i * st + st <= j * st) by nia. assert (j * st + st <= rmax * st) by nia.
  assert (0 <= i * st) by nia.
  assert (Di : forall n, (64 | l_control_ring_offset l0 + n * st))
    by (intros n; apply Z.divide_add_r; [exact D2|]; by apply Z.divide_mul_r).
  split_and!; first [reflexivity | assumption | apply Di | lia].
Qed.

(** ** Witnesses *)
Lemma round_ring_capacity_correct_witness :
  exists c, round_ring_capacity 32 1000 = Some c /\ pow2_cap c /\ 1000 <= c.
Proof.
  destruct (round_ring_capacity_correct 1000) as (c & H1 & H2 & H3 & _); [lia|]. eauto.
Defined.
Lemma round_ring_capacity_diverges_witness : round_ring_capacity 1000 3000000000 = None.
Proof. apply round_ring_capacity_diverges. lia. Defined.
Lemma control_layout_disjoint_witness :
  exists ri rj, ring_for_index (build_layout 2 512 1024 64) 0 = Some ri /\
                ring_for_index (build_layout 2 512 1024 64) 1 = Some rj /\
                ri + sizeof_ring_header + 1024 * sizeof_completion_entry <= rj.
Proof.
  destruct (control_layout_disjoint 2 512 1024 64 0 1) as (ri & rj & H1 & H2 & _ & _ & _ & H3 & _);
    try lia; try (unfold in_u32; lia). eauto.
Defined.

(** Above 2^26 entries the 32-bit stride no longer holds a whole ring. *)
Lemma ring_stride_truncated : u32 (completion_ring_bytes (2 ^ 27)) < completion_ring_bytes (2 ^ 27).
Proof. vm_compute. reflexivity. Qed.
