(* ===== verification/State.v ===== *)
(** * Daemon state

    The data model of [OffloadDaemon] ([src/daemon/daemon.h]), of the slot table
    ([abi/offload_abi.h]), of the canonical store ([src/daemon/canonical.h],
    [abi/offload_canonical_abi.hpp]), of the configuration ([src/daemon/config.h])
    and of the metrics ([src/common/metrics.h]), with the basic accessors every
    handler uses.

    Every table guarded by [mu_] is a field of the record [Daemon]; an
    [unordered_map] is a [gmap], iterated in the order of [map_to_list] (the
    iteration order of the code is unspecified).  [slots_] is the shared slot
    array, a map from slot id to entry; an access outside it is undefined
    behaviour in the code, a default read or an ignored write here.

    An identifier counter ([next_lease_id], [next_rank_epoch], [next_cold_ref],
    [next_object_id], [next_launch_epoch]) is the number of the next identifier,
    counted without bound; the [uint64_t] of the code is its [u64], and that is
    what every operation takes as the identifier, so identifiers wrap around as
    they do in the code.  The bytes of the data arenas are not tables:
    [arena_writes] logs the copies the daemon itself makes into them, the latest
    first, each as the slot it starts at and its length. *)
From stdpp Require Import base gmap strings list fin_maps fin_sets list_numbers functions.
From Stdlib Require Import ZArith Lia SpecFloat.
From S2P Require Import Prelude.
From S2P Require Import Ring.
From S2P Require Import ProtocolV2.
Open Scope Z_scope.
Open Scope offload_scope.

(** ** Enumerations of the ABI *)
Inductive slot_state_t :=
  | SLOT_FREE | SLOT_RESERVED_D2H | SLOT_D2H_IN_FLIGHT | SLOT_PINNED_VALID
  | SLOT_DRAIN_IN_FLIGHT | SLOT_COLD_VALID | SLOT_RESERVED_H2D | SLOT_READBACK_IN_FLIGHT
  | SLOT_H2D_IN_FLIGHT | SLOT_GPU_VALID | SLOT_ERROR.
#[export] Instance slot_state_eq_dec : EqDecision slot_state_t.
Proof. solve_decision. Defined.
Definition slot_state_value (s : slot_state_t) : Z :=
  match s with
  | SLOT_FREE => 0 | SLOT_RESERVED_D2H => 1 | SLOT_D2H_IN_FLIGHT => 2 | SLOT_PINNED_VALID => 3
  | SLOT_DRAIN_IN_FLIGHT => 4 | SLOT_COLD_VALID => 5 | SLOT_RESERVED_H2D => 6
  | SLOT_READBACK_IN_FLIGHT => 7 | SLOT_H2D_IN_FLIGHT => 8 | SLOT_GPU_VALID => 9
  | SLOT_ERROR => 255
  end.

Inductive location_kind_t :=
  | LOC_NONE | LOC_GPU | LOC_PINNED | LOC_PAGEABLE | LOC_NVME | LOC_DELETED | LOC_ERROR.
#[export] Instance location_kind_eq_dec : EqDecision location_kind_t.
Proof. solve_decision. Defined.
Definition location_kind_value (k : location_kind_t) : Z :=
  match k with
  | LOC_NONE => 0 | LOC_GPU => 1 | LOC_PINNED => 2 | LOC_PAGEABLE => 3 | LOC_NVME => 4
  | LOC_DELETED => 5 | LOC_ERROR => 255
  end.

Definition OFLD_ARENA_DATA_PINNED : Z := 1.
Definition OFLD_FLAG_ALLOW_OVERFLOW : Z := Z.shiftl 1 0.
Definition OFLD_FLAG_ALLOW_REMOTE_NUMA : Z := Z.shiftl 1 1.
Definition OFLD_FLAG_BORROWABLE : Z := Z.shiftl 1 2.
Definition OFLD_FLAG_DESTRUCTIVE : Z := Z.shiftl 1 3.

(** [EventType] of [protocol.h] *)
Definition EVENT_D2H_COMPLETE : Z := 1.
Definition EVENT_H2D_COMPLETE : Z := 2.

(** [CanonicalObjectState], [ManifestState], [DedupMode], [AttachCreateAction] *)
Inductive object_state_t :=
  | OBJ_MISSING | OBJ_CREATING | OBJ_VALID_PINNED | OBJ_VALID_PAGEABLE | OBJ_VALID_NVME
  | OBJ_VALID_MULTI_TIER | OBJ_SEALED | OBJ_EXPORT_IN_FLIGHT | OBJ_DELETED | OBJ_ERROR.
#[export] Instance object_state_eq_dec : EqDecision object_state_t.
Proof. solve_decision. Defined.
Inductive manifest_state_t :=
  | MANIFEST_OPEN | MANIFEST_SEALING | MANIFEST_SEALED | MANIFEST_REVOKED | MANIFEST_ERROR.
#[export] Instance manifest_state_eq_dec : EqDecision manifest_state_t.
Proof. solve_decision. Defined.
Definition manifest_state_value (s : manifest_state_t) : Z :=
  match s with
  | MANIFEST_OPEN => 0 | MANIFEST_SEALING => 1 | MANIFEST_SEALED => 2
  | MANIFEST_REVOKED => 3 | MANIFEST_ERROR => 255
  end.
Definition DEDUP_HASH_VERIFIED : Z := 2.
Definition DEDUP_SAMPLED_HASH : Z := 3.
Definition ATTACH_ACTION_ATTACHED_EXISTING : Z := 0.
Definition ATTACH_ACTION_NEED_D2H_CREATE : Z := 1.
Definition ATTACH_ACTION_WAIT_FOR_CREATOR : Z := 2.
Definition ATTACH_ACTION_DUPLICATE_CANDIDATE : Z := 3.
Definition ATTACH_ACTION_REJECTED_STALE_VERSION : Z := 4.
Definition ATTACH_ACTION_QUOTA_EXCEEDED : Z := 5.
Definition ATTACH_ACTION_ERROR : Z := 255.

(** ** Configuration *)
Inductive DrainTarget := kPageableOnly | kNvmeOnly | kPageableThenNvme.
Record GpuWindowConfig := mkGpuWindow { gw_gpu : Z; gw_size_bytes : Z }.
Record NumaArenaConfig := mkNumaArena {
  na_numa_node : Z; na_size_bytes : Z; na_gpu_windows : list GpuWindowConfig;
  na_overflow_bytes : Z }.
(** [DaemonConfig].  [double] values are IEEE 754 binary64 numbers. *)
Record DaemonConfig := mkConfig {
  c_socket_path : string;
  c_control_shm_name : string;
  c_heartbeat_timeout_ms : Z;
  c_registration_policy : string;
  c_registration_chunk_bytes : Z;
  c_allocation_granularity_bytes : Z;
  c_per_numa : list NumaArenaConfig;
  c_drain_target : DrainTarget;
  c_drain_on_d2h_complete : bool;
  c_normal_threshold : spec_float;
  c_priority_threshold : spec_float;
  c_aggressive_threshold : spec_float;
  c_nvme_enabled : bool;
  c_nvme_path : string;
  c_nvme_io_engine : string;
  c_nvme_direct_io : bool;
  c_nvme_stripe : bool;
  c_nvme_stripe_count : Z;
  c_nvme_block_bytes : Z;
  c_nvme_queue_depth : Z;
  c_nvme_stripe_dirs : list string;
  c_default_invalidate : string;
  c_require_own_storage : bool;
  c_allow_views : bool;
  c_unsafe_autograd : bool;
  c_drain_workers : Z;
  c_nvme_workers : Z;
  c_completion_ring_max_ranks : Z;
  c_completion_ring_capacity : Z;
  c_ring_poll_us : Z;
  c_v2_enable_canonical_store : bool;
  c_v2_enable_manifests : bool;
  c_v2_enable_rollout_export : bool;
  c_v2_default_tenant_id : Z;
  c_v2_require_job_registration : bool;
  c_v2_include_launch_epoch : bool;
  c_v2_dedup_default_mode : Z;
  c_v2_cross_job_dedup : bool;
  c_v2_creating_policy : Z;
  c_v2_duplicate_candidate_gpu_pressure_threshold : spec_float;
  c_v2_sampled_hash_bytes_per_gib : Z;
  c_v2_seal_requires_all_objects_valid : bool;
  c_v2_retain_sealed_versions : Z;
  c_v2_default_transport : Z;
  c_v2_fallback_transport : Z;
  c_v2_use_dedicated_export_buffers : bool;
  c_v2_require_export_refcount : bool;
  c_v2_max_concurrent_exports_per_job : Z;
  c_v2_control_tcp_port : Z;
  c_v2_quota_max_pinned_bytes : Z;
  c_v2_quota_max_pageable_bytes : Z;
  c_v2_quota_max_nvme_bytes : Z;
  c_v2_quota_max_inflight_d2h_bytes : Z;
  c_v2_quota_max_inflight_export_bytes : Z }.
#[export] Instance eta_DaemonConfig : Eta DaemonConfig := fun c => mkConfig
  (c_socket_path c) (c_control_shm_name c) (c_heartbeat_timeout_ms c) (c_registration_policy c)
  (c_registration_chunk_bytes c) (c_allocation_granularity_bytes c) (c_per_numa c)
  (c_drain_target c) (c_drain_on_d2h_complete c) (c_normal_threshold c) (c_priority_threshold c)
  (c_aggressive_threshold c) (c_nvme_enabled c) (c_nvme_path c) (c_nvme_io_engine c)
  (c_nvme_direct_io c) (c_nvme_stripe c) (c_nvme_stripe_count c) (c_nvme_block_bytes c)
  (c_nvme_queue_depth c) (c_nvme_stripe_dirs c) (c_default_invalidate c) (c_require_own_storage c)
  (c_allow_views c) (c_unsafe_autograd c) (c_drain_workers c) (c_nvme_workers c)
  (c_completion_ring_max_ranks c) (c_completion_ring_capacity c) (c_ring_poll_us c)
  (c_v2_enable_canonical_store c) (c_v2_enable_manifests c) (c_v2_enable_rollout_export c)
  (c_v2_default_tenant_id c) (c_v2_require_job_registration c) (c_v2_include_launch_epoch c)
  (c_v2_dedup_default_mode c) (c_v2_cross_job_dedup c) (c_v2_creating_policy c)
  (c_v2_duplicate_candidate_gpu_pressure_threshold c) (c_v2_sampled_hash_bytes_per_gib c)
  (c_v2_seal_requires_all_objects_valid c) (c_v2_retain_sealed_versions c)
  (c_v2_default_transport c) (c_v2_fallback_transport c) (c_v2_use_dedicated_export_buffers c)
  (c_v2_require_export_refcount c) (c_v2_max_concurrent_exports_per_job c)
  (c_v2_control_tcp_port c) (c_v2_quota_max_pinned_bytes c) (c_v2_quota_max_pageable_bytes c)
  (c_v2_quota_max_nvme_bytes c) (c_v2_quota_max_inflight_d2h_bytes c)
  (c_v2_quota_max_inflight_export_bytes c).

(** ** Metrics *)
Inductive Metric :=
  | kD2HBytes | kH2DBytes | kPinnedToPageableBytes | kPageableToPinnedBytes
  | kNvmeWriteBytes | kNvmeReadBytes | kUsedPinnedBytes | kInflightD2HBytes
  | kInflightH2DBytes | kDrainingBytes | kPageableResidentBytes | kNvmeResidentBytes
  | kOffloadRequests | kLeasesGranted | kBlockedReservations | kRemoteNumaAllocs
  | kDrainsEnqueued | kDrainsCompleted | kPrefetchRequests | kReadbacksStarted
  | kReadbacksCompleted | kInvalidTransitionRejected | kStaleVersionRejected
  | kEpochMismatchRejected | kSlotOverlapPrevented | kLeaseOwnerMismatchRejected
  | kChecksumMismatch | kIoFailure | kRankSessionsInvalidated | kJobsRegistered
  | kCanonicalObjectsCreated | kCanonicalAttachExisting | kCanonicalAttachWait
  | kCanonicalDuplicateCandidate | kCanonicalDedupBytesSaved | kCanonicalD2HBytesAvoided
  | kCanonicalHashMismatch | kCanonicalStaleVersionReject | kCanonicalRestoreServed
  | kCanonicalObjectsDropped | kQuotaRejections | kManifestSealed | kManifestSealFailed
  | kRolloutGetManifest | kRolloutPullTensor | kRolloutPullBytes
  | kRolloutStaleManifestReject | kExportInflightBytes | kExportStagingBytes
  | kExportFromPinned | kExportFromPageable | kExportFromNvme | kExportTransportErrors.
Definition metric_index (m : Metric) : Z :=
  match m with
  | kD2HBytes => 0 | kH2DBytes => 1 | kPinnedToPageableBytes => 2
  | kPageableToPinnedBytes => 3 | kNvmeWriteBytes => 4 | kNvmeReadBytes => 5
  | kUsedPinnedBytes => 6 | kInflightD2HBytes => 7 | kInflightH2DBytes => 8
  | kDrainingBytes => 9 | kPageableResidentBytes => 10 | kNvmeResidentBytes => 11
  | kOffloadRequests => 12 | kLeasesGranted => 13 | kBlockedReservations => 14
  | kRemoteNumaAllocs => 15 | kDrainsEnqueued => 16 | kDrainsCompleted => 17
  | kPrefetchRequests => 18 | kReadbacksStarted => 19 | kReadbacksCompleted => 20
  | kInvalidTransitionRejected => 21 | kStaleVersionRejected => 22 | kEpochMismatchRejected => 23
  | kSlotOverlapPrevented => 24 | kLeaseOwnerMismatchRejected => 25 | kChecksumMismatch => 26
  | kIoFailure => 27 | kRankSessionsInvalidated => 28 | kJobsRegistered => 29
  | kCanonicalObjectsCreated => 30 | kCanonicalAttachExisting => 31 | kCanonicalAttachWait => 32
  | kCanonicalDuplicateCandidate => 33 | kCanonicalDedupBytesSaved => 34 | kCanonicalD2HBytesAvoided => 35
  | kCanonicalHashMismatch => 36 | kCanonicalStaleVersionReject => 37 | kCanonicalRestoreServed => 38
  | kCanonicalObjectsDropped => 39 | kQuotaRejections => 40 | kManifestSealed => 41
  | kManifestSealFailed => 42 | kRolloutGetManifest => 43 | kRolloutPullTensor => 44
  | kRolloutPullBytes => 45 | kRolloutStaleManifestReject => 46 | kExportInflightBytes => 47
  | kExportStagingBytes => 48 | kExportFromPinned => 49 | kExportFromPageable => 50
  | kExportFromNvme => 51 | kExportTransportErrors => 52
  end.
Definition metric_of_index (i : Z) : option Metric :=
  match i with
  | 0 => Some kD2HBytes | 1 => Some kH2DBytes | 2 => Some kPinnedToPageableBytes
  | 3 => Some kPageableToPinnedBytes | 4 => Some kNvmeWriteBytes | 5 => Some kNvmeReadBytes
  | 6 => Some kUsedPinnedBytes | 7 => Some kInflightD2HBytes | 8 => Some kInflightH2DBytes
  | 9 => Some kDrainingBytes | 10 => Some kPageableResidentBytes | 11 => Some kNvmeResidentBytes
  | 12 => Some kOffloadRequests | 13 => Some kLeasesGranted | 14 => Some kBlockedReservations
  | 15 => Some kRemoteNumaAllocs | 16 => Some kDrainsEnqueued | 17 => Some kDrainsCompleted
  | 18 => Some kPrefetchRequests | 19 => Some kReadbacksStarted | 20 => Some kReadbacksCompleted
  | 21 => Some kInvalidTransitionRejected | 22 => Some kStaleVersionRejected | 23 => Some kEpochMismatchRejected
  | 24 => Some kSlotOverlapPrevented | 25 => Some kLeaseOwnerMismatchRejected | 26 => Some kChecksumMismatch
  | 27 => Some kIoFailure | 28 => Some kRankSessionsInvalidated | 29 => Some kJobsRegistered
  | 30 => Some kCanonicalObjectsCreated | 31 => Some kCanonicalAttachExisting | 32 => Some kCanonicalAttachWait
  | 33 => Some kCanonicalDuplicateCandidate | 34 => Some kCanonicalDedupBytesSaved | 35 => Some kCanonicalD2HBytesAvoided
  | 36 => Some kCanonicalHashMismatch | 37 => Some kCanonicalStaleVersionReject | 38 => Some kCanonicalRestoreServed
  | 39 => Some kCanonicalObjectsDropped | 40 => Some kQuotaRejections | 41 => Some kManifestSealed
  | 42 => Some kManifestSealFailed | 43 => Some kRolloutGetManifest | 44 => Some kRolloutPullTensor
  | 45 => Some kRolloutPullBytes | 46 => Some kRolloutStaleManifestReject | 47 => Some kExportInflightBytes
  | 48 => Some kExportStagingBytes | 49 => Some kExportFromPinned | 50 => Some kExportFromPageable
  | 51 => Some kExportFromNvme | 52 => Some kExportTransportErrors
  | _ => None
  end.
Lemma metric_of_index_index m : metric_of_index (metric_index m) = Some m.
Proof. by destruct m. Qed.
#[export] Instance metric_index_inj : Inj (=) (=) metric_index.
Proof. intros x y E. apply (f_equal metric_of_index) in E. rewrite !metric_of_index_index in E. congruence. Qed.
#[export] Instance metric_eq_dec : EqDecision Metric.
Proof.
  refine (fun x y => cast_if (decide (metric_index x = metric_index y))).
  - abstract by apply metric_index_inj.
  - abstract congruence.
Defined.
Definition metric_name (m : Metric) : string :=
  match m with
  | kD2HBytes => "d2h_bytes"
  | kH2DBytes => "h2d_bytes"
  | kPinnedToPageableBytes => "pinned_to_pageable_bytes"
  | kPageableToPinnedBytes => "pageable_to_pinned_bytes"
  | kNvmeWriteBytes => "nvme_write_bytes"
  | kNvmeReadBytes => "nvme_read_bytes"
  | kUsedPinnedBytes => "used_pinned_bytes"
  | kInflightD2HBytes => "inflight_d2h_bytes"
  | kInflightH2DBytes => "inflight_h2d_bytes"
  | kDrainingBytes => "draining_bytes"
  | kPageableResidentBytes => "pageable_resident_bytes"
  | kNvmeResidentBytes => "nvme_resident_bytes"
  | kOffloadRequests => "offload_requests"
  | kLeasesGranted => "leases_granted"
  | kBlockedReservations => "blocked_reservation_count"
  | kRemoteNumaAllocs => "remote_numa_alloc_count"
  | kDrainsEnqueued => "drains_enqueued"
  | kDrainsCompleted => "drains_completed"
  | kPrefetchRequests => "prefetch_requests"
  | kReadbacksStarted => "readbacks_started"
  | kReadbacksCompleted => "readbacks_completed"
  | kInvalidTransitionRejected => "invalid_transition_rejected"
  | kStaleVersionRejected => "stale_version_completion_rejected"
  | kEpochMismatchRejected => "rank_epoch_mismatch_rejected"
  | kSlotOverlapPrevented => "slot_overlap_prevented"
  | kLeaseOwnerMismatchRejected => "lease_owner_mismatch_rejected"
  | kChecksumMismatch => "checksum_mismatch"
  | kIoFailure => "io_failure"
  | kRankSessionsInvalidated => "rank_sessions_invalidated"
  | kJobsRegistered => "jobs_registered_total"
  | kCanonicalObjectsCreated => "canonical_objects_created_total"
  | kCanonicalAttachExisting => "canonical_attach_existing_total"
  | kCanonicalAttachWait => "canonical_attach_wait_total"
  | kCanonicalDuplicateCandidate => "canonical_duplicate_candidate_total"
  | kCanonicalDedupBytesSaved => "canonical_dedup_bytes_saved"
  | kCanonicalD2HBytesAvoided => "canonical_d2h_bytes_avoided"
  | kCanonicalHashMismatch => "canonical_hash_mismatch_total"
  | kCanonicalStaleVersionReject => "canonical_stale_version_reject_total"
  | kCanonicalRestoreServed => "canonical_restore_served_total"
  | kCanonicalObjectsDropped => "canonical_objects_dropped_total"
  | kQuotaRejections => "quota_rejections"
  | kManifestSealed => "manifest_sealed_total"
  | kManifestSealFailed => "manifest_seal_failed_total"
  | kRolloutGetManifest => "rollout_get_manifest_total"
  | kRolloutPullTensor => "rollout_pull_tensor_total"
  | kRolloutPullBytes => "rollout_pull_bytes_total"
  | kRolloutStaleManifestReject => "rollout_stale_manifest_reject_total"
  | kExportInflightBytes => "export_inflight_bytes"
  | kExportStagingBytes => "export_staging_bytes"
  | kExportFromPinned => "export_from_pinned_total"
  | kExportFromPageable => "export_from_pageable_total"
  | kExportFromNvme => "export_from_nvme_total"
  | kExportTransportErrors => "export_transport_errors_total"
  end.
(** The counters in enumeration order, as [Metrics::snapshot] walks them. *)
Definition all_metrics : list Metric :=
  [kD2HBytes; kH2DBytes; kPinnedToPageableBytes; kPageableToPinnedBytes; 
   kNvmeWriteBytes; kNvmeReadBytes; kUsedPinnedBytes; kInflightD2HBytes; 
   kInflightH2DBytes; kDrainingBytes; kPageableResidentBytes; kNvmeResidentBytes; 
   kOffloadRequests; kLeasesGranted; kBlockedReservations; kRemoteNumaAllocs; 
   kDrainsEnqueued; kDrainsCompleted; kPrefetchRequests; kReadbacksStarted; 
   kReadbacksCompleted; kInvalidTransitionRejected; kStaleVersionRejected; 
   kEpochMismatchRejected; kSlotOverlapPrevented; kLeaseOwnerMismatchRejected; 
   kChecksumMismatch; kIoFailure; kRankSessionsInvalidated; kJobsRegistered; 
   kCanonicalObjectsCreated; kCanonicalAttachExisting; kCanonicalAttachWait; 
   kCanonicalDuplicateCandidate; kCanonicalDedupBytesSaved; 
   kCanonicalD2HBytesAvoided; kCanonicalHashMismatch; kCanonicalStaleVersionReject; 
   kCanonicalRestoreServed; kCanonicalObjectsDropped; kQuotaRejections; 
   kManifestSealed; kManifestSealFailed; kRolloutGetManifest; kRolloutPullTensor; 
   kRolloutPullBytes; kRolloutStaleManifestReject; kExportInflightBytes; 
   kExportStagingBytes; kExportFromPinned; kExportFromPageable; kExportFromNvme; 
   kExportTransportErrors].

(** ** Slots, windows, sessions, leases, locations, cold entries *)
(** [ofld_slot_entry_t] *)
Record slot_entry := mkSlot {
  sl_state : slot_state_t;
  sl_slot_id : Z;
  sl_numa_node : Z;
  sl_gpu_preferred : Z;
  sl_arena_id : Z;
  sl_arena_offset : Z;
  sl_capacity : Z;
  sl_nbytes : Z;
  sl_tensor_id : Z;
  sl_version : Z;
  sl_lease_id : Z;
  sl_owner_rank : Z;
  sl_owner_pid : Z;
  sl_rank_epoch : Z;
  sl_flags : Z;
  sl_cold_ref : Z;
  sl_checksum : Z;
  sl_last_touch_ns : Z;
  sl_submit_seq : Z;
  sl_complete_seq : Z }.
#[export] Instance eta_slot_entry : Eta slot_entry := fun r => mkSlot
  (sl_state r) (sl_slot_id r) (sl_numa_node r) (sl_gpu_preferred r) (sl_arena_id r)
  (sl_arena_offset r) (sl_capacity r) (sl_nbytes r) (sl_tensor_id r) (sl_version r)
  (sl_lease_id r) (sl_owner_rank r) (sl_owner_pid r) (sl_rank_epoch r) (sl_flags r)
  (sl_cold_ref r) (sl_checksum r) (sl_last_touch_ns r) (sl_submit_seq r)
  (sl_complete_seq r).
#[export] Instance slot_entry_inhabited : Inhabited slot_entry :=
  populate (mkSlot SLOT_FREE 0 0 0 0 0 0 0 0 0 0 0 0 0 0 0 0 0 0 0).

(** The arena bookkeeping, without its descriptor and mapping. *)
Record Arena := mkArena {
  ar_numa_node : Z;
  ar_size : Z;
  ar_arena_id : Z;
  ar_registration_granularity : Z;
  ar_allocation_granularity : Z }.
#[export] Instance eta_Arena : Eta Arena := fun r => mkArena
  (ar_numa_node r) (ar_size r) (ar_arena_id r) (ar_registration_granularity r)
  (ar_allocation_granularity r).
Definition kOverflowGpu : Z := 4294967295.
Record Window := mkWindow {
  w_numa_node : Z;
  w_gpu : Z;
  w_is_overflow : bool;
  w_slot_ids : list Z }.
#[export] Instance eta_Window : Eta Window := fun r => mkWindow
  (w_numa_node r) (w_gpu r) (w_is_overflow r) (w_slot_ids r).
Record Session := mkSession {
  se_rank_id : Z;
  se_rank_epoch : Z;
  se_pid : Z;
  se_gpu_id : Z;
  se_numa_node : Z;
  se_last_heartbeat_ns : Z;
  se_alive : bool;
  se_ring_index : Z }.
#[export] Instance eta_Session : Eta Session := fun r => mkSession
  (se_rank_id r) (se_rank_epoch r) (se_pid r) (se_gpu_id r) (se_numa_node r)
  (se_last_heartbeat_ns r) (se_alive r) (se_ring_index r).
Record Lease := mkLease {
  le_lease_id : Z;
  le_base_slot : Z;
  le_slot_count : Z;
  le_tensor_id : Z;
  le_version : Z;
  le_owner_rank : Z;
  le_owner_pid : Z;
  le_rank_epoch : Z;
  le_nbytes : Z;
  le_is_prefetch : bool }.
#[export] Instance eta_Lease : Eta Lease := fun r => mkLease
  (le_lease_id r) (le_base_slot r) (le_slot_count r) (le_tensor_id r) (le_version r)
  (le_owner_rank r) (le_owner_pid r) (le_rank_epoch r) (le_nbytes r)
  (le_is_prefetch r).
Record Location := mkLocation {
  lo_tensor_id : Z;
  lo_version : Z;
  lo_kind : location_kind_t;
  lo_slot_id : Z;
  lo_cold_ref : Z;
  lo_nbytes : Z }.
#[export] Instance eta_Location : Eta Location := fun r => mkLocation
  (lo_tensor_id r) (lo_version r) (lo_kind r) (lo_slot_id r) (lo_cold_ref r)
  (lo_nbytes r).
Definition default_location : Location := mkLocation 0 0 LOC_NONE 0 0 0.
Record NvmeChunk := mkChunk { ch_path : string; ch_offset : Z; ch_length : Z }.
(** [pageable] is the address of the heap buffer, [None] for a null pointer. *)
Record ColdEntry := mkCold {
  co_kind : location_kind_t;
  co_nbytes : Z;
  co_pageable : option Z;
  co_nvme_chunks : list NvmeChunk }.
#[export] Instance eta_ColdEntry : Eta ColdEntry := fun r => mkCold
  (co_kind r) (co_nbytes r) (co_pageable r) (co_nvme_chunks r).
Record DrainJob := mkDrainJob { dj_base_slot : Z; dj_slot_count : Z }.
Record ReadbackJob := mkReadbackJob {
  rj_base_slot : Z; rj_slot_count : Z; rj_cold_ref : Z; rj_nbytes : Z }.

(** ** Canonical store tables *)
Definition kCanonicalTidBit : Z := Z.shiftl 1 63.
Definition canonical_tid (object_id : Z) : Z := Z.lor kCanonicalTidBit object_id.
Definition is_canonical_tid (tid : Z) : bool := negb (Z.land tid kCanonicalTidBit =? 0).
(** [tid & ~kCanonicalTidBit] *)
Definition strip_canonical_bit (tid : Z) : Z := Z.ldiff tid kCanonicalTidBit.

Record JobUID := mkJobUID {
  ju_tenant_id : Z;
  ju_job_id : Z;
  ju_launch_epoch : Z }.
#[export] Instance eta_JobUID : Eta JobUID := fun r => mkJobUID
  (ju_tenant_id r) (ju_job_id r) (ju_launch_epoch r).
#[export] Instance JobUID_eq_dec : EqDecision JobUID.
Proof. solve_decision. Defined.
#[export] Instance JobUID_countable : Countable JobUID.
Proof.
  refine (inj_countable' (fun k => (ju_tenant_id k, ju_job_id k, ju_launch_epoch k))
    (fun '(x0, x1, x2) => mkJobUID x0 x1 x2) _).
  by intros [].
Defined.
Record VersionKey := mkVersionKey {
  vk_job : JobUID;
  vk_model_role : Z;
  vk_model_version : Z }.
#[export] Instance eta_VersionKey : Eta VersionKey := fun r => mkVersionKey
  (vk_job r) (vk_model_role r) (vk_model_version r).
#[export] Instance VersionKey_eq_dec : EqDecision VersionKey.
Proof. solve_decision. Defined.
#[export] Instance VersionKey_countable : Countable VersionKey.
Proof.
  refine (inj_countable' (fun k => (vk_job k, vk_model_role k, vk_model_version k))
    (fun '(x0, x1, x2) => mkVersionKey x0 x1 x2) _).
  by intros [].
Defined.
Record RoleKey := mkRoleKey {
  rk_job : JobUID;
  rk_model_role : Z }.
#[export] Instance eta_RoleKey : Eta RoleKey := fun r => mkRoleKey
  (rk_job r) (rk_model_role r).
#[export] Instance RoleKey_eq_dec : EqDecision RoleKey.
Proof. solve_decision. Defined.
#[export] Instance RoleKey_countable : Countable RoleKey.
Proof.
  refine (inj_countable' (fun k => (rk_job k, rk_model_role k))
    (fun '(x0, x1) => mkRoleKey x0 x1) _).
  by intros [].
Defined.
Inductive JobState :=
  | kRegistered | kRunning | kDraining | kTerminating | kTerminated | kJobError.
#[export] Instance JobState_eq_dec : EqDecision JobState.
Proof. solve_decision. Defined.
Record JobRecord := mkJob {
  jr_uid : JobUID;
  jr_job_name : string;
  jr_state : JobState;
  jr_priority : Z;
  jr_created_ns : Z;
  jr_heartbeat_ns : Z;
  jr_pinned_bytes : Z;
  jr_pageable_bytes : Z;
  jr_nvme_bytes : Z;
  jr_inflight_d2h_bytes : Z;
  jr_inflight_export_bytes : Z;
  jr_canonical_object_count : Z;
  jr_max_pinned_bytes : Z;
  jr_max_pageable_bytes : Z;
  jr_max_nvme_bytes : Z;
  jr_max_inflight_d2h_bytes : Z;
  jr_max_inflight_export_bytes : Z }.
#[export] Instance eta_JobRecord : Eta JobRecord := fun r => mkJob
  (jr_uid r) (jr_job_name r) (jr_state r) (jr_priority r) (jr_created_ns r)
  (jr_heartbeat_ns r) (jr_pinned_bytes r) (jr_pageable_bytes r) (jr_nvme_bytes r)
  (jr_inflight_d2h_bytes r) (jr_inflight_export_bytes r) (jr_canonical_object_count r)
  (jr_max_pinned_bytes r) (jr_max_pageable_bytes r) (jr_max_nvme_bytes r)
  (jr_max_inflight_d2h_bytes r) (jr_max_inflight_export_bytes r).
Record CanonicalObject := mkObject {
  ob_object_id : Z;
  ob_key : CanonicalTensorKeyWire;
  ob_key_str : string;
  ob_nbytes : Z;
  ob_state : object_state_t;
  ob_refcount : Z;
  ob_export_refcount : Z;
  ob_restore_refcount : Z;
  ob_producer_rank : Z;
  ob_flags : Z;
  ob_holders : gset Z;
  ob_content_hash_lo : Z;
  ob_content_hash_hi : Z;
  ob_synthetic_tid : Z;
  ob_version : Z;
  ob_lease_id : Z;
  ob_base_slot : Z;
  ob_slot_count : Z;
  ob_creating_rank : Z;
  ob_created_ns : Z;
  ob_sealed_ns : Z;
  ob_last_access_ns : Z }.
#[export] Instance eta_CanonicalObject : Eta CanonicalObject := fun r => mkObject
  (ob_object_id r) (ob_key r) (ob_key_str r) (ob_nbytes r) (ob_state r)
  (ob_refcount r) (ob_export_refcount r) (ob_restore_refcount r) (ob_producer_rank r)
  (ob_flags r) (ob_holders r) (ob_content_hash_lo r) (ob_content_hash_hi r)
  (ob_synthetic_tid r) (ob_version r) (ob_lease_id r) (ob_base_slot r)
  (ob_slot_count r) (ob_creating_rank r) (ob_created_ns r) (ob_sealed_ns r)
  (ob_last_access_ns r).
Record Manifest := mkManifest {
  ma_job : JobUID;
  ma_model_role : Z;
  ma_model_version : Z;
  ma_state : manifest_state_t;
  ma_object_ids : list Z;
  ma_total_nbytes : Z;
  ma_created_ns : Z;
  ma_sealed_ns : Z;
  ma_manifest_hash_lo : Z;
  ma_manifest_hash_hi : Z }.
#[export] Instance eta_Manifest : Eta Manifest := fun r => mkManifest
  (ma_job r) (ma_model_role r) (ma_model_version r) (ma_state r) (ma_object_ids r)
  (ma_total_nbytes r) (ma_created_ns r) (ma_sealed_ns r) (ma_manifest_hash_lo r)
  (ma_manifest_hash_hi r).

(** ** The daemon *)
(** [num_slots] and [control_size] are [layout_.num_slots] and
    [layout_.total_bytes]; [generation] and [header_heartbeat_ns] are fields of
    the shared header; [rings] are the completion rings of the control region. *)
Record Daemon := mkDaemon {
  cfg : DaemonConfig;
  num_slots : Z;
  control_size : Z;
  generation : Z;
  header_heartbeat_ns : Z;
  slots : gmap Z slot_entry;
  arenas : list Arena;
  windows : list Window;
  window_index : gmap Z Z;
  sessions : gmap Z Session;
  leases : gmap Z Lease;
  locations : gmap Z Location;
  cold_store : gmap Z ColdEntry;
  next_lease_id : Z;
  next_rank_epoch : Z;
  next_cold_ref : Z;
  jobs : gmap JobUID JobRecord;
  objects : gmap Z CanonicalObject;
  object_by_key : gmap string Z;
  manifests : gmap VersionKey Manifest;
  latest_sealed : gmap RoleKey Z;
  next_object_id : Z;
  next_launch_epoch : Z;
  drain_queue : list DrainJob;
  readback_queue : list ReadbackJob;
  ring_max_ranks : Z;
  ring_owner : list Z;
  rings : gmap Z CompletionRing;
  metrics : Metric -> Z;
  running : bool;
  arena_writes : list (Z * Z) }.
#[export] Instance eta_Daemon : Eta Daemon := fun r => mkDaemon
  (cfg r) (num_slots r) (control_size r) (generation r) (header_heartbeat_ns r)
  (slots r) (arenas r) (windows r) (window_index r) (sessions r) (leases r)
  (locations r) (cold_store r) (next_lease_id r) (next_rank_epoch r) (next_cold_ref r)
  (jobs r) (objects r) (object_by_key r) (manifests r) (latest_sealed r)
  (next_object_id r) (next_launch_epoch r) (drain_queue r) (readback_queue r)
  (ring_max_ranks r) (ring_owner r) (rings r) (metrics r) (running r) (arena_writes r).

(** ** Basic operations *)

(** [Metrics::instance().add / inc / sub]: relaxed 64-bit counters. *)
Definition metric_add (m : Metric) (v : Z) (d : Daemon) : Daemon :=
  d <| metrics ::= (fun f => <[m := u64 (f m + v)]> f) |>.
Definition metric_inc (m : Metric) (d : Daemon) : Daemon := metric_add m 1 d.
Definition metric_sub (m : Metric) (v : Z) (d : Daemon) : Daemon :=
  d <| metrics ::= (fun f => <[m := u64 (f m - v)]> f) |>.
Definition metric_get (d : Daemon) (m : Metric) : Z := metrics d m.

Definition slot (d : Daemon) (id : Z) : slot_entry := slots d !!! id.
Definition slot_state (d : Daemon) (id : Z) : slot_state_t := sl_state (slot d id).
Definition set_slot_state (now id : Z) (st : slot_state_t) (d : Daemon) : Daemon :=
  d <| slots ::= alter (fun e => e <| sl_last_touch_ns := now |> <| sl_state := st |>) id |>.

(** [for (k = 0; k < count; ++k) { slots_[base + k] = f(k, slots_[base + k]); }] *)
Definition run_ids (base count : Z) : list Z := (fun k => u32 (base + k)) <$> seqZ 0 count.
Definition update_run (f : Z -> slot_entry -> slot_entry) (base count : Z)
  (s : gmap Z slot_entry) : gmap Z slot_entry :=
  foldl (fun s k => alter (f k) (u32 (base + k)) s) s (seqZ 0 count).
(** [for (k...) set_slot_state(base + k, st);] *)
Definition set_run_state (now base count : Z) (st : slot_state_t) (d : Daemon) : Daemon :=
  d <| slots ::= update_run (fun _ e => e <| sl_last_touch_ns := now |> <| sl_state := st |>)
                   base count |>.

Definition slots_for_bytes (d : Daemon) (nbytes : Z) : Z :=
  let gran := c_allocation_granularity_bytes (cfg d) in
  let n := u64 (u64 (nbytes + gran) - 1) / gran in
  let n := if decide (n = 0) then 1 else n in
  u32 n.

(** [pinned_pressure() >= threshold] on doubles: both integers are converted
    with rounding, divided, and compared. *)
Definition double_of_Z (z : Z) : spec_float := binary_normalize 53 1024 z 0 false.
Definition used_pinned_bytes (d : Daemon) : Z := metric_get d kUsedPinnedBytes.
Definition pinned_pressure (d : Daemon) : spec_float :=
  let total := u64 (num_slots d * c_allocation_granularity_bytes (cfg d)) in
  if decide (total = 0) then S754_zero false
  else SFdiv 53 1024 (double_of_Z (used_pinned_bytes d)) (double_of_Z total).
Definition double_geb (a b : spec_float) : bool := SFleb b a.

Definition epoch_valid (d : Daemon) (rank_id rank_epoch : Z) : bool :=
  match sessions d !! rank_id with
  | None => false
  | Some s => if negb (se_alive s) then false
              else if decide (se_rank_epoch s ≠ rank_epoch) then false else true
  end.
Definition find_lease (d : Daemon) (lease_id : Z) : option Lease := leases d !! lease_id.
Definition find_object (d : Daemon) (object_id : Z) : option CanonicalObject :=
  objects d !! object_id.
Definition latest_version (d : Daemon) (tensor_id : Z) : Z :=
  match locations d !! tensor_id with None => 0 | Some l => lo_version l end.

Definition update_location_if_latest (tensor_id version : Z) (kind : location_kind_t)
  (slot_id cold_ref nbytes : Z) (d : Daemon) : bool * Daemon :=
  let stale := match locations d !! tensor_id with
               | Some l => bool_decide (version < lo_version l)
               | None => false
               end in
  if stale then (false, metric_inc kStaleVersionRejected d)
  else (true, d <| locations ::=
                <[tensor_id := mkLocation tensor_id version kind slot_id cold_ref nbytes]> |>).

Definition should_drain (d : Daemon) : bool := c_drain_on_d2h_complete (cfg d).

(** ** Updates of a run of slots *)
Section UpdateRun.
  Context (f : Z -> slot_entry -> slot_entry).

Lemma elem_of_run_ids base count id :
  id ∈ run_ids base count <-> exists k, 0 <= k < count /\ id = u32 (base + k).
Proof.
  unfold run_ids. rewrite list_elem_of_fmap. setoid_rewrite elem_of_seqZ.
  split; intros (k & ? & ?); exists k; (split; [|done || lia]); lia || done.
Qed.

Lemma foldl_alter_ne base ks (s : gmap Z slot_entry) id :
  (forall k, k ∈ ks -> id ≠ u32 (base + k)) ->
  foldl (fun s k => alter (f k) (u32 (base + k)) s) s ks !! id = s !! id.
Proof.
  revert s. induction ks as [|k ks IH]; intros s Hne; [done|]. simpl.
  rewrite IH by (intros; apply Hne; by apply list_elem_of_further).
  by rewrite lookup_alter_ne by (apply not_eq_sym, Hne; apply list_elem_of_here).
Qed.

(** Slots outside the run keep their entry. *)
Lemma lookup_update_run_ne base count s id :
  id ∉ run_ids base count -> update_run f base count s !! id = s !! id.
Proof.
  rewrite elem_of_run_ids. intros Hn. apply foldl_alter_ne.
  intros k Hk%elem_of_seqZ ->. apply Hn. exists k. split; [lia|done].
Qed.

(** The [k]-th slot of a run that does not wrap is updated once. *)
Lemma lookup_update_run base count s k :
  0 <= base -> base + count <= 2 ^ 32 -> 0 <= k < count ->
  update_run f base count s !! (base + k) = f k <$> s !! (base + k).
Proof.
  intros Hb Hc Hk. unfold update_run.
  assert (E : seqZ 0 count = seqZ 0 k ++ k :: seqZ (k + 1) (count - k - 1)).
  { replace count with (k + (count - k)) at 1 by lia. rewrite seqZ_app by lia.
    f_equal. rewrite (seqZ_cons (0 + k)) by lia. f_equal; f_equal; lia. }
  rewrite E, foldl_app. simpl.
  rewrite foldl_alter_ne.
  - replace (u32 (base + k)) with (base + k) by (rewrite u32_small; unfold in_u32; lia).
    rewrite lookup_alter. simpl. rewrite decide_True by done. f_equal.
    apply foldl_alter_ne. intros j Hj%elem_of_seqZ. rewrite u32_small; unfold in_u32; lia.
  - intros j Hj%elem_of_seqZ. rewrite u32_small; unfold in_u32; lia.
Qed.

(** A preorder on entries that every single update respects relates the table
    before and after. *)
Lemma update_run_rel (R : relation slot_entry) `{!PreOrder R} base count s id :
  (forall k e, R e (f k e)) ->
  option_Forall2 R (s !! id) (update_run f base count s !! id).
Proof.
  intros Hf. unfold update_run. generalize (seqZ 0 count). intros ks. revert s.
  induction ks as [|k ks IH]; intros s; simpl; [reflexivity|].
  etrans; [|apply IH]. destruct (decide (u32 (base + k) = id)) as [->|Hne].
  - rewrite lookup_alter. rewrite decide_True by done.
    destruct (s !! id); constructor. apply Hf.
  - rewrite lookup_alter_ne by done. reflexivity.
Qed.
End UpdateRun.

Lemma run_ids_small base count :
  0 <= base -> base + count <= 2 ^ 32 -> run_ids base count = (fun k => base + k) <$> seqZ 0 count.
Proof.
  intros Hb Hc. unfold run_ids. apply list_fmap_ext. intros i k Hk.
  apply lookup_seqZ in Hk. apply u32_small. unfold in_u32. lia.
Qed.

Lemma slot_state_lookup d id e : slots d !! id = Some e -> slot_state d id = sl_state e.
Proof. intros H. unfold slot_state, slot. by rewrite (lookup_total_correct _ _ _ H). Qed.
