(* ===== verification/Structs.v ===== *)
(** * Structures in shared memory

    The shared control region is read and written by processes that agree only on
    the structures of [abi/offload_abi.h] and [src/common/completion_ring.h].  This
    file has the layout rule for such structures (each member at the next multiple
    of its alignment, the size rounded up to the largest alignment), a memory of
    bytes, and the members of a structure in that memory.  The lemmas say what an
    assignment to some members changes: exactly those members, at their width. *)
From stdpp Require Import base strings list.
From Stdlib Require Import ZArith Lia Init.Byte.
From S2P Require Import Prelude.
From S2P Require Import Wire.
Open Scope Z_scope.
Open Scope offload_scope.

(** ** Layout *)
(** A member: its size in bytes and its alignment ([alignas] included). *)
Record member := mkMember { mb_name : string; mb_size : nat; mb_align : Z }.
Definition mb_u32 (name : string) : member := mkMember name 4 4.
Definition mb_u64 (name : string) : member := mkMember name 8 8.
Definition mb_bytes (name : string) (n : nat) : member := mkMember name n 1.
Definition round_to (v a : Z) : Z := (v + a - 1) / a * a.
Definition field : Type := string * (Z * nat).
Fixpoint place (off : Z) (ms : list member) : list field :=
  match ms with
  | [] => []
  | x :: ms =>
      let o := round_to off (mb_align x) in
      (mb_name x, (o, mb_size x)) :: place (o + Z.of_nat (mb_size x)) ms
  end.
Fixpoint place_end (off : Z) (ms : list member) : Z :=
  match ms with
  | [] => off
  | x :: ms => place_end (round_to off (mb_align x) + Z.of_nat (mb_size x)) ms
  end.
(** The size of a structure that is itself declared with alignment [align]. *)
Definition sizeof (align : Z) (ms : list member) : Z :=
  round_to (place_end 0 ms) (foldr (fun x a => Z.max (mb_align x) a) align ms).
(** The integer members with their offsets; arrays of bytes are left out. *)
Definition integers (ms : list member) : list field :=
  filter (fun f => Nat.leb f.2.2 8 = true) (place 0 ms).
Fixpoint position (name : string) (fs : list field) : option (nat * (Z * nat)) :=
  match fs with
  | [] => None
  | (n, ow) :: fs =>
      if decide (n = name) then Some (0%nat, ow)
      else match position name fs with Some (i, ow) => Some (S i, ow) | None => None end
  end.
Definition offsetof (ms : list member) (name : string) : Z :=
  match position name (place 0 ms) with Some (_, (o, _)) => o | None => 0 end.

(** ** Memory *)
Definition Mem : Type := Z -> byte.
Definition zeroed : Mem := fun _ => x00.
Definition load (m : Mem) (a : Z) (n : nat) : list byte := (fun k => m (a + Z.of_nat k)) <$> seq 0 n.
Definition store (m : Mem) (a : Z) (bs : list byte) : Mem := fun x =>
  if decide (a <= x < a + Z.of_nat (length bs)) then default x00 (bs !! Z.to_nat (x - a)) else m x.
Definition load_int (m : Mem) (a : Z) (w : nat) : Z := le_value (load m a w).
Definition store_int (m : Mem) (a : Z) (w : nat) (v : Z) : Mem := store m a (le_bytes w v).
(** [s->name], and [s->name = v]. *)
Definition get_field (fs : list field) (base : Z) (name : string) (m : Mem) : Z :=
  match position name fs with Some (_, (o, w)) => load_int m (base + o) w | None => 0 end.
Definition set_field (fs : list field) (base : Z) (m : Mem) (nv : string * Z) : Mem :=
  match position nv.1 fs with Some (_, (o, w)) => store_int m (base + o) w nv.2 | None => m end.
(** Assignments, in order. *)
Definition set_fields (fs : list field) (base : Z) (nvs : list (string * Z)) (m : Mem) : Mem :=
  foldl (set_field fs base) m nvs.
(** All integer members. *)
Definition values (fs : list field) (base : Z) (m : Mem) : list Z :=
  (fun f => load_int m (base + f.2.1) f.2.2) <$> fs.

(** What assignments do to the list of values, before they are cut to their widths. *)
Definition assign (fs : list field) (vs : list Z) (nv : string * Z) : list Z :=
  match position nv.1 fs with Some (i, _) => <[i := nv.2]> vs | None => vs end.
Definition assigns (fs : list field) (nvs : list (string * Z)) (vs : list Z) : list Z := foldl (assign fs) vs nvs.
Definition cut (w : nat) (v : Z) : Z := v mod 2 ^ (8 * Z.of_nat w).
Definition cut_values (fs : list field) (vs : list Z) : list Z := zip_with (fun f v => cut f.2.2 v) fs vs.

(** ** Lemmas *)
(** The members lie in [off, size) one behind the other. *)
Fixpoint chain (off : Z) (size : Z) (fs : list field) : Prop :=
  match fs with
  | [] => off <= size
  | (_, (o, w)) :: fs => off <= o /\ chain (o + Z.of_nat w) size fs
  end.
Definition disjoint (a n b k : Z) : Prop := a + n <= b \/ b + k <= a.

Lemma load_length m a n : length (load m a n) = n.
Proof. unfold load. by rewrite length_fmap, length_seq. Qed.
Lemma load_lookup m a n i : (i < n)%nat -> load m a n !! i = Some (m (a + Z.of_nat i)).
Proof. intros H. unfold load. rewrite list_lookup_fmap, lookup_seq_lt by done. done. Qed.
Lemma load_store_same m a bs n : length bs = n -> load (store m a bs) a n = bs.
Proof.
  intros <-. apply list_eq_same_length with (n := length bs); [done|by rewrite load_length|]. intros i x y Hi.
  rewrite load_lookup by lia. intros [= <-] Hy. unfold store. rewrite decide_True by lia.
  replace (Z.to_nat (a + Z.of_nat i - a)) with i by lia. by rewrite Hy.
Qed.
Lemma load_store_other m a bs b n : disjoint a (Z.of_nat (length bs)) b (Z.of_nat n) ->
  load (store m a bs) b n = load m b n.
Proof.
  intros H. unfold load. apply list_fmap_ext. intros i k [-> Hk]%lookup_seq. unfold store.
  rewrite decide_False; [done|]. unfold disjoint in H. lia.
Qed.
Lemma load_int_same m a w v : load_int (store_int m a w v) a w = cut w v.
Proof. unfold load_int, store_int. rewrite load_store_same by apply length_le_bytes. apply le_value_bytes. Qed.
Lemma load_int_other m a w v b n : disjoint a (Z.of_nat w) b (Z.of_nat n) -> load_int (store_int m a w v) b n = load_int m b n.
Proof. intros H. unfold load_int, store_int. by rewrite load_store_other by (by rewrite length_le_bytes). Qed.
Lemma chain_end fs : forall off size, chain off size fs -> off <= size.
Proof. induction fs as [|[n [o w]] fs IH]; intros off size H; [done|]. destruct H as [H1 H2%IH]. lia. Qed.
Lemma chain_bounds fs : forall off size name i o w, chain off size fs -> position name fs = Some (i, (o, w)) ->
  off <= o /\ o + Z.of_nat w <= size.
Proof.
  induction fs as [|[n [o' w']] fs IH]; intros off size name i o w H; [done|]. destruct H as [H1 H2]. cbn [position].
  case_decide; [intros [= _ <- <-]; split; [done|]; by apply chain_end in H2|].
  destruct (position name fs) as [[j [a b]]|] eqn:E; [|done]. intros [= _ <- <-]. destruct (IH _ _ _ _ _ _ H2 E). lia.
Qed.
Lemma chain_lookup fs : forall off size i n o w, chain off size fs -> fs !! i = Some (n, (o, w)) ->
  off <= o /\ o + Z.of_nat w <= size.
Proof.
  induction fs as [|[n' [o' w']] fs IH]; intros off size i n o w Hc Hi; [done|]. destruct Hc as [H1 H2].
  destruct i as [|i]; [injection Hi as <- <- <-; apply chain_end in H2; lia|].
  specialize (IH (o' + Z.of_nat w') size i n o w H2 Hi). lia.
Qed.
(** An assignment to a member. *)
Lemma values_other fs : forall off size base a w v m, chain off size fs ->
  disjoint a (Z.of_nat w) (base + off) (size - off) -> values fs base (store_int m a w v) = values fs base m.
Proof.
  induction fs as [|[n [o k]] fs IH]; intros off size base a w v m H Hd; [done|]. destruct H as [H1 H2].
  pose proof (chain_end _ _ _ H2). unfold disjoint in Hd. cbn [values]. unfold values. cbn [fmap list_fmap]. f_equal.
  - cbn [fst snd]. apply load_int_other. unfold disjoint. lia.
  - apply (IH (o + Z.of_nat k) size); [done|]. unfold disjoint. lia.
Qed.
Lemma values_set fs : forall off size base name v m, chain off size fs ->
  values fs base (set_field fs base m (name, v)) =
  match position name fs with Some (i, (_, w)) => <[i := cut w v]> (values fs base m) | None => values fs base m end.
Proof.
  induction fs as [|[n [o k]] fs IH]; intros off size base name v m H; [done|]. destruct H as [H1 H2].
  unfold set_field. cbn [fst snd position]. case_decide.
  - unfold values. cbn [fmap list_fmap fst snd insert list_insert]. f_equal; [apply load_int_same|].
    apply (values_other fs (o + Z.of_nat k) size); [done|]. unfold disjoint. lia.
  - specialize (IH _ _ base name v m H2). unfold set_field in IH. cbn [fst snd] in IH.
    destruct (position name fs) as [[i [a b]]|] eqn:E; [|done].
    destruct (chain_bounds _ _ _ _ _ _ _ H2 E) as [Ha Hb].
    unfold values in *. cbn [fmap list_fmap fst snd insert list_insert]. f_equal; [|done].
    apply load_int_other. unfold disjoint. lia.
Qed.
Lemma cut_cut w v : cut w (cut w v) = cut w v.
Proof. apply Z.mod_mod. apply Z.pow_nonzero; lia. Qed.
Lemma position_lookup fs : forall name i o w, position name fs = Some (i, (o, w)) -> fs !! i = Some (name, (o, w)).
Proof.
  induction fs as [|[n [o' w']] fs IH]; intros name i o w; [done|]. cbn [position].
  case_decide; [subst; by intros [= <- <- <-]|]. destruct (position name fs) as [[j [a b]]|] eqn:E; [|done].
  intros [= <- <- <-]. by apply IH.
Qed.
Lemma cut_insert fs : forall vs i n o w v, length vs = length fs -> fs !! i = Some (n, (o, w)) ->
  <[i := cut w v]> (cut_values fs vs) = cut_values fs (<[i := v]> vs).
Proof.
  induction fs as [|f fs IH]; intros [|x vs] [|i] n o w v Hl; try done.
  - intros [= ->]. done.
  - intros Hi. cbn in Hl. unfold cut_values in *. cbn. f_equal. eapply IH; [lia|done].
Qed.
Lemma assign_length fs vs nv : length (assign fs vs nv) = length vs.
Proof. unfold assign. destruct (position nv.1 fs) as [[i ow]|]; [apply length_insert|done]. Qed.
Lemma assigns_length fs nvs : forall vs, length (assigns fs nvs vs) = length vs.
Proof. induction nvs as [|nv nvs IH]; intros vs; [done|]. unfold assigns in *. cbn [foldl]. by rewrite IH, assign_length. Qed.

(** What a sequence of assignments leaves in the structure. *)
Lemma values_set_fields fs size base nvs : chain 0 size fs -> forall vs m, length vs = length fs ->
  values fs base m = cut_values fs vs -> values fs base (set_fields fs base nvs m) = cut_values fs (assigns fs nvs vs).
Proof.
  intros Hc. induction nvs as [|[name v] nvs IH]; intros vs m Hl Hv; [done|]. unfold set_fields, assigns in *. cbn [foldl].
  apply IH; [by rewrite assign_length|]. rewrite (values_set fs 0 size base name v m Hc), Hv. unfold assign. cbn [fst snd].
  destruct (position name fs) as [[i [o w]]|] eqn:E; [|done]. eapply cut_insert; [done|by apply position_lookup].
Qed.
(** And around it. *)
Lemma set_fields_load fs size base nvs b n : chain 0 size fs -> disjoint base size b (Z.of_nat n) ->
  forall m, load_int (set_fields fs base nvs m) b n = load_int m b n.
Proof.
  intros Hc Hd. induction nvs as [|[name v] nvs IH]; intros m; [done|]. unfold set_fields in *. cbn [foldl]. rewrite IH.
  unfold set_field. cbn [fst snd]. destruct (position name fs) as [[i [o w]]|] eqn:E; [|done].
  destruct (chain_bounds _ _ _ _ _ _ _ Hc E). apply load_int_other. unfold disjoint in *. lia.
Qed.
Lemma set_fields_values fs size base nvs gs size' base' m : chain 0 size fs -> chain 0 size' gs -> disjoint base size base' size' ->
  values gs base' (set_fields fs base nvs m) = values gs base' m.
Proof.
  intros Hc Hc' Hd. revert m. induction nvs as [|[name v] nvs IH]; intros m; [done|]. unfold set_fields in *. cbn [foldl]. rewrite IH.
  unfold set_field. cbn [fst snd]. destruct (position name fs) as [[i [o w]]|] eqn:E; [|done].
  destruct (chain_bounds _ _ _ _ _ _ _ Hc E). apply (values_other gs 0 size' base'); [done|]. unfold disjoint in *. lia.
Qed.
Lemma set_fields_outside fs size base nvs x : chain 0 size fs -> ~ (base <= x < base + size) ->
  forall m, set_fields fs base nvs m x = m x.
Proof.
  intros Hc Hx. induction nvs as [|[name v] nvs IH]; intros m; [done|]. unfold set_fields in *. cbn [foldl]. rewrite IH.
  unfold set_field. cbn [fst snd]. destruct (position name fs) as [[i [o w]]|] eqn:E; [|done].
  destruct (chain_bounds _ _ _ _ _ _ _ Hc E). unfold store_int, store. rewrite length_le_bytes, decide_False by lia. done.
Qed.
(** Reading one member. *)
Lemma get_field_values fs base name m i o w : position name fs = Some (i, (o, w)) ->
  values fs base m !! i = Some (get_field fs base name m).
Proof.
  intros H. pose proof (position_lookup _ _ _ _ _ H) as Hl. unfold get_field, values. rewrite H. apply list_lookup_fmap_Some. exists (name, (o, w)). by split.
Qed.
Lemma values_zeroed fs base : values fs base zeroed = cut_values fs (replicate (length fs) 0).
Proof.
  induction fs as [|[n [o w]] fs IH]; [done|]. unfold values, cut_values in *. cbn [fmap list_fmap length replicate zip_with fst snd].
  f_equal; [|done]. unfold cut. rewrite Z.mod_0_l by (apply Z.pow_nonzero; lia). unfold load_int, load.
  generalize (seq 0 w). intros l. induction l as [|k l IHl]; [done|]. cbn [fmap list_fmap le_value] in *. rewrite IHl. done.
Qed.
(** Loaded values fit. *)
Lemma le_value_range bs : 0 <= le_value bs < 2 ^ (8 * Z.of_nat (length bs)).
Proof.
  induction bs as [|b bs IH]; cbn [le_value length]; [by vm_compute|].
  assert (0 <= byte_to_Z b < 256) by (by destruct b; vm_compute). replace (8 * Z.of_nat (S (length bs))) with (8 + 8 * Z.of_nat (length bs)) by lia.
  rewrite Z.pow_add_r by lia. change (2 ^ 8) with 256. lia.
Qed.
Lemma load_int_cut m a w : cut w (load_int m a w) = load_int m a w.
Proof.
  unfold cut, load_int. apply Z.mod_small. pose proof (le_value_range (load m a w)) as H. by rewrite load_length in H.
Qed.
Lemma values_cut fs base m : values fs base m = cut_values fs (values fs base m).
Proof.
  induction fs as [|[n [o w]] fs IH]; [done|]. unfold values, cut_values in *. cbn [fmap list_fmap zip_with fst snd].
  rewrite load_int_cut. by rewrite <- IH.
Qed.
