(* ===== verification/Alloc.v ===== *)
(** * Slot plan and pinned-slot allocator

    Models [OffloadDaemon::build_slot_plan], the arena table of
    [build_arenas_and_control], [slots_for_bytes], [try_alloc_in_window],
    [allocate_slots] and [free_slots] of [src/daemon/daemon.cpp].

    A window is a list of slot ids; a lease is a run of consecutive slots of one
    window, which the copy engines treat as one contiguous byte range of the
    window's arena.  The theorems show that the plan carves disjoint byte ranges
    inside the arenas, that the search of [try_alloc_in_window] finds a free run
    exactly when there is one although it skips past busy slots, and that the
    run [allocate_slots] returns is free, contiguous and large enough. *)
From stdpp Require Import base gmap strings list fin_maps list_numbers sorting pretty.
From Stdlib Require Import ZArith Lia SpecFloat.
From S2P Require Import Prelude.
From S2P Require Import Ring.
From S2P Require Import Layout.
From S2P Require Import State.
Open Scope Z_scope.
Open Scope offload_scope.

Definition kNoSlot : Z := NO_U32.
Definition window_key (numa gpu : Z) : Z := Z.lor (u64 (Z.shiftl numa 32)) gpu.

(** ** Building the plan *)
(** The arena table of [build_arenas_and_control] and [total_slots]. *)
Definition build_arena (c : DaemonConfig) (i : nat) (ac : NumaArenaConfig) : Arena :=
  mkArena (na_numa_node ac) (na_size_bytes ac) (Z.of_nat i)
    (u32 (Z.min (c_registration_chunk_bytes c) NO_U32))
    (u32 (c_allocation_granularity_bytes c)).
Definition build_arenas (c : DaemonConfig) : list Arena := imap (build_arena c) (c_per_numa c).
Definition count_slots (c : DaemonConfig) : Z :=
  foldl (fun total ac =>
    u32 (total + u32 (na_size_bytes ac / c_allocation_granularity_bytes c)))
    0 (c_per_numa c).

(** The state of [build_slot_plan]: the tables it fills, [global_slot] and [cursor]. *)
Record SlotPlan := mkPlan {
  p_slots : gmap Z slot_entry; p_windows : list Window; p_index : gmap Z Z;
  p_global_slot : Z; p_cursor : Z }.
#[export] Instance eta_SlotPlan : Eta SlotPlan := fun p =>
  mkPlan (p_slots p) (p_windows p) (p_index p) (p_global_slot p) (p_cursor p).

Definition carved_slot (gran : Z) (ac : NumaArenaConfig) (arena : Arena) (gpu : Z)
  (is_overflow : bool) (cursor id s : Z) : slot_entry :=
  mkSlot SLOT_FREE id (na_numa_node ac) gpu (ar_arena_id arena)
    (u64 (cursor + u64 (s * gran))) gran 0 0 0 0 0 0 0
    (if is_overflow then 0 else OFLD_FLAG_BORROWABLE) 0 0 0 0 0.

Definition carve_window (gran : Z) (ac : NumaArenaConfig) (arena : Arena)
  (p : SlotPlan) (win : Z * bool * Z) : SlotPlan :=
  let '(gpu0, is_overflow, bytes) := win in
  let nslots := bytes / gran in
  if decide (nslots = 0) then p
  else
    let gpu := if is_overflow then kOverflowGpu else gpu0 in
    let '(slots', ids, next) :=
      foldl (fun '(m, ids, next) s =>
        (<[next := carved_slot gran ac arena gpu is_overflow (p_cursor p) next s]> m,
         ids ++ [next], u32 (next + 1)))
        (p_slots p, [], p_global_slot p) (seqZ 0 nslots) in
    let idx := Z.of_nat (length (p_windows p)) in
    mkPlan slots'
      (p_windows p ++ [mkWindow (na_numa_node ac) gpu is_overflow ids])
      (<[window_key (na_numa_node ac) gpu := idx]> (p_index p))
      next (u64 (p_cursor p + u64 (nslots * gran))).

(** The windows of one arena, in the order they are carved. *)
Definition arena_windows (ac : NumaArenaConfig) : list (Z * bool * Z) :=
  ((fun gw => (gw_gpu gw, false, gw_size_bytes gw)) <$> na_gpu_windows ac)
  ++ [(kOverflowGpu, true, na_overflow_bytes ac)].
Definition carve_arena (gran : Z) (p : SlotPlan) (aca : NumaArenaConfig * Arena) : SlotPlan :=
  let '(ac, arena) := aca in
  foldl (carve_window gran ac arena) (p <| p_cursor := 0 |>) (arena_windows ac).
Definition build_slot_plan (c : DaemonConfig) (slots0 : gmap Z slot_entry) : SlotPlan :=
  foldl (carve_arena (c_allocation_granularity_bytes c)) (mkPlan slots0 [] ∅ 0 0)
    (zip (c_per_numa c) (build_arenas c)).

(** The checks [load_config] ends with ([src/daemon/config.cpp]). *)
Definition validate_arena (ac : NumaArenaConfig) : res unit :=
  let win_total := foldl (fun t gw => u64 (t + gw_size_bytes gw)) 0 (na_gpu_windows ac) in
  let needed := u64 (win_total + na_overflow_bytes ac) in
  if decide (na_size_bytes ac = 0) then
    Throw ("config: numa_node " +:+ pretty (na_numa_node ac) +:+ " size_gb must be > 0")
  else if decide (needed > na_size_bytes ac) then
    Throw ("config: numa_node " +:+ pretty (na_numa_node ac) +:+ " gpu_windows + overflow ("
           +:+ pretty needed +:+ " bytes) exceed arena size (" +:+ pretty (na_size_bytes ac)
           +:+ " bytes)")
  else Ok tt.
Definition validate_config (c : DaemonConfig) : res unit :=
  if decide (c_allocation_granularity_bytes c = 0) then
    Throw "config: allocation_granularity_mb must be > 0"
  else if bool_decide (length (c_per_numa c) = 0%nat) then
    Throw "config: at least one arenas.per_numa entry required"
  else foldl (fun r ac => res_bind r (fun _ => validate_arena ac)) (Ok tt) (c_per_numa c).

(** The member initialisers of [DaemonConfig] ([src/daemon/config.h]); [0.60],
    [0.80], [0.95] and [0.90] are the nearest binary64 numbers. *)
Definition default_config : DaemonConfig := {|
  c_socket_path := "/tmp/state_spectre.sock";
  c_control_shm_name := "/state_spectre_ctrl";
  c_heartbeat_timeout_ms := 5000;
  c_registration_policy := "lazy_chunked";
  c_registration_chunk_bytes := Z.shiftl 512 20;
  c_allocation_granularity_bytes := Z.shiftl 16 20;
  c_per_numa := [];
  c_drain_target := kPageableThenNvme;
  c_drain_on_d2h_complete := true;
  c_normal_threshold := S754_finite false 5404319552844595 (-53);
  c_priority_threshold := S754_finite false 7205759403792794 (-53);
  c_aggressive_threshold := S754_finite false 8556839292003942 (-53);
  c_nvme_enabled := true;
  c_nvme_path := "/nvme/state_spectre";
  c_nvme_io_engine := "io_uring";
  c_nvme_direct_io := true;
  c_nvme_stripe := true;
  c_nvme_stripe_count := 4;
  c_nvme_block_bytes := Z.shiftl 16 20;
  c_nvme_queue_depth := 8;
  c_nvme_stripe_dirs := [];
  c_default_invalidate := "set_empty";
  c_require_own_storage := true;
  c_allow_views := false;
  c_unsafe_autograd := false;
  c_drain_workers := 2;
  c_nvme_workers := 2;
  c_completion_ring_max_ranks := 64;
  c_completion_ring_capacity := 1024;
  c_ring_poll_us := 50;
  c_v2_enable_canonical_store := true;
  c_v2_enable_manifests := true;
  c_v2_enable_rollout_export := true;
  c_v2_default_tenant_id := 0;
  c_v2_require_job_registration := true;
  c_v2_include_launch_epoch := true;
  c_v2_dedup_default_mode := 1;
  c_v2_cross_job_dedup := false;
  c_v2_creating_policy := 0;
  c_v2_duplicate_candidate_gpu_pressure_threshold := S754_finite false 8106479329266893 (-53);
  c_v2_sampled_hash_bytes_per_gib := Z.shiftl 1 20;
  c_v2_seal_requires_all_objects_valid := true;
  c_v2_retain_sealed_versions := 4;
  c_v2_default_transport := 3;
  c_v2_fallback_transport := 1;
  c_v2_use_dedicated_export_buffers := true;
  c_v2_require_export_refcount := true;
  c_v2_max_concurrent_exports_per_job := 8;
  c_v2_control_tcp_port := 0;
  c_v2_quota_max_pinned_bytes := 0;
  c_v2_quota_max_pageable_bytes := 0;
  c_v2_quota_max_nvme_bytes := 0;
  c_v2_quota_max_inflight_d2h_bytes := 0;
  c_v2_quota_max_inflight_export_bytes := 0 |}.
Definition kMiB : Z := Z.shiftl 1 20.
Definition default_smoke_config (arena_bytes numa_node gpu_id : Z) : DaemonConfig :=
  let overflow := Z.max (arena_bytes / 8) (16 * kMiB) in
  let overflow := if decide (overflow >= arena_bytes) then arena_bytes / 2 else overflow in
  default_config
    <| c_allocation_granularity_bytes := 2 * kMiB |>
    <| c_registration_chunk_bytes := Z.min arena_bytes (512 * kMiB) |>
    <| c_nvme_enabled := false |>
    <| c_drain_workers := 1 |>
    <| c_nvme_workers := 1 |>
    <| c_drain_target := kPageableOnly |>
    <| c_per_numa := [mkNumaArena numa_node arena_bytes
                        [mkGpuWindow gpu_id (u64 (arena_bytes - overflow))] overflow] |>.

(** The [OffloadDaemon] constructor: the zeroed control region, the rings and
    the slot plan ([memset] leaves every slot entry zero, that is FREE). *)
Definition zero_slots (n : Z) : gmap Z slot_entry :=
  list_to_map ((fun id => (id, inhabitant)) <$> seqZ 0 n).
Definition daemon_init (c : DaemonConfig) (now : Z) : option Daemon :=
  ring_cap ← round_ring_capacity 33 (c_completion_ring_capacity c);
  let ring_max := c_completion_ring_max_ranks c in
  let total_slots := count_slots c in
  let layout := build_layout (Z.of_nat (length (c_per_numa c))) total_slots ring_cap ring_max in
  let p := build_slot_plan c (zero_slots total_slots) in
  Some {| cfg := c; num_slots := l_num_slots layout; control_size := l_total_bytes layout;
          generation := 1; header_heartbeat_ns := now; slots := p_slots p;
          arenas := build_arenas c; windows := p_windows p; window_index := p_index p;
          sessions := ∅; leases := ∅; locations := ∅; cold_store := ∅;
          next_lease_id := 1; next_rank_epoch := 1; next_cold_ref := 1;
          jobs := ∅; objects := ∅; object_by_key := ∅; manifests := ∅; latest_sealed := ∅;
          next_object_id := 1; next_launch_epoch := 1; drain_queue := []; readback_queue := [];
          ring_max_ranks := ring_max; ring_owner := [];
          rings := list_to_map ((fun i => (i, ring_init ring_cap)) <$> seqZ 0 ring_max);
          metrics := fun _ => 0; running := false; arena_writes := [] |}.

#[export] Instance daemon_inhabited : Inhabited Daemon := populate
  (mkDaemon default_config 0 0 0 0 ∅ [] [] ∅ ∅ ∅ ∅ ∅ 1 1 1 ∅ ∅ ∅ ∅ ∅ 1 1 [] [] 0 [] ∅
     (fun _ => 0) false []).
(** The daemon of a 32 MiB arena: eight slots in the window of GPU 0 and eight in
    the overflow window, with the first slots put in the given states. *)
Definition smoke_config : DaemonConfig :=
  (default_smoke_config (32 * kMiB) 0 0) <| c_completion_ring_max_ranks := 2 |>.
Definition smoke_daemon (states : list slot_state_t) : Daemon :=
  foldl (fun d x => set_slot_state 0 (Z.of_nat x.1) x.2 d) (default inhabitant (daemon_init smoke_config 0))
    (imap pair states).

(** ** Allocation *)
(** The inner loop: the first [k] whose slot is not free. *)
Fixpoint first_busy (d : Daemon) (run : list Z) (k : nat) : option nat :=
  match run with
  | [] => None
  | id :: run' => if decide (slot_state d id ≠ SLOT_FREE) then Some k
                  else first_busy d run' (S k)
  end.
(** The outer loop from index [i]; a busy slot at [i + k] moves it to [i + k + 1]. *)
Fixpoint try_alloc_loop (fuel : nat) (d : Daemon) (ids : list Z) (count i : nat) : option Z :=
  match fuel with
  | O => None
  | S fuel' =>
      if decide (i + count <= length ids)%nat then
        match first_busy d (take count (drop i ids)) 0 with
        | None => ids !! i
        | Some k => try_alloc_loop fuel' d ids count (i + k + 1)
        end
      else None
  end.
Definition try_alloc_in_window (d : Daemon) (w : Window) (count : Z) : option Z :=
  let ids := w_slot_ids w in
  if decide (Z.of_nat (length ids) < count) then None
  else try_alloc_loop (S (length ids)) d ids (Z.to_nat count) 0.

Definition try_win (d : Daemon) (count numa gpu : Z) : option Z :=
  match window_index d !! window_key numa gpu with
  | None => None
  | Some idx => w ← windows d !! Z.to_nat idx; try_alloc_in_window d w count
  end.
(** [for (const auto& w : windows_) { if (skip(w)) continue; if (try_alloc...) break; }] *)
Fixpoint first_window (d : Daemon) (count : Z) (skip : Window -> bool) (ws : list Window)
  : option Z :=
  match ws with
  | [] => None
  | w :: ws' =>
      if skip w then first_window d count skip ws'
      else match try_alloc_in_window d w count with
           | Some base => Some base
           | None => first_window d count skip ws'
           end
  end.
Definition skip_peer (gpu_id numa_node : Z) (w : Window) : bool :=
  bool_decide (w_numa_node w ≠ numa_node) || w_is_overflow w || bool_decide (w_gpu w = gpu_id).
Definition skip_local (numa_node : Z) (w : Window) : bool :=
  bool_decide (w_numa_node w = numa_node).

(** The preference chain: own window, overflow window, same-node peers, and,
    with [OFLD_FLAG_ALLOW_REMOTE_NUMA], any window of another node. *)
Definition allocate_base (d : Daemon) (gpu_id numa_node count flags : Z) : Z * bool :=
  match try_win d count numa_node gpu_id with
  | Some base => (base, false)
  | None =>
      match try_win d count numa_node kOverflowGpu with
      | Some base => (base, false)
      | None =>
          let base := default kNoSlot
            (first_window d count (skip_peer gpu_id numa_node) (windows d)) in
          if decide (base = kNoSlot) then
            if decide (Z.land flags OFLD_FLAG_ALLOW_REMOTE_NUMA ≠ 0) then
              match first_window d count (skip_local numa_node) (windows d) with
              | Some base => (base, true)
              | None => (base, false)
              end
            else (base, false)
          else (base, false)
      end
  end.
(** Returns the base slot and the slot count of the run. *)
Definition allocate_slots (gpu_id numa_node nbytes flags : Z) (d : Daemon)
  : option (Z * Z) * Daemon :=
  let count := slots_for_bytes d nbytes in
  let '(base, remote) := allocate_base d gpu_id numa_node count flags in
  if decide (base = kNoSlot) then (None, d)
  else (Some (base, count), if remote : bool then metric_inc kRemoteNumaAllocs d else d).

(** The entry a freed slot is left with. *)
Definition cleared_slot (now : Z) (e : slot_entry) : slot_entry :=
  e <| sl_nbytes := 0 |> <| sl_tensor_id := 0 |> <| sl_version := 0 |> <| sl_lease_id := 0 |>
    <| sl_owner_rank := 0 |> <| sl_owner_pid := 0 |> <| sl_rank_epoch := 0 |>
    <| sl_cold_ref := 0 |> <| sl_submit_seq := 0 |> <| sl_complete_seq := 0 |>
    <| sl_last_touch_ns := now |> <| sl_state := SLOT_FREE |>.
Definition free_slots (now base_slot slot_count : Z) (d : Daemon) : Daemon :=
  metric_sub kUsedPinnedBytes
    (u64 (slot_count * c_allocation_granularity_bytes (cfg d)))
    (d <| slots ::= update_run (fun _ => cleared_slot now) base_slot slot_count |>).

(** ** The window search *)
Definition free_run (d : Daemon) (ids : list Z) (i count : nat) : Prop :=
  (i + count <= length ids)%nat /\
  Forall (fun id => slot_state d id = SLOT_FREE) (take count (drop i ids)).

Lemma first_busy_None d run k :
  first_busy d run k = None <-> Forall (fun id => slot_state d id = SLOT_FREE) run.
Proof.
  revert k. induction run as [|id run IH]; intros k; simpl; [done|].
  case_decide as Hid; rewrite Forall_cons.
  - split; [done|]. by intros [? _].
  - rewrite IH. split; [|by intros [_ ?]]. intros ?. split; [|done].
    destruct (decide (slot_state d id = SLOT_FREE)); tauto.
Qed.
Lemma first_busy_Some d run k0 k :
  first_busy d run k0 = Some k ->
  exists j id, k = (k0 + j)%nat /\ run !! j = Some id /\ slot_state d id ≠ SLOT_FREE.
Proof.
  revert k0. induction run as [|id run IH]; intros k0; simpl; [done|].
  case_decide as Hid.
  - intros [= <-]. exists 0%nat, id. split; [lia|done].
  - intros (j & x & -> & ? & ?)%IH. exists (S j), x. split; [lia|done].
Qed.

Lemma busy_excludes d ids i count k id :
  take count (drop i ids) !! k = Some id -> slot_state d id ≠ SLOT_FREE ->
  forall j, (i <= j <= i + k)%nat -> ~ free_run d ids j count.
Proof.
  intros Hk Hbusy j Hj [Hl Hf]. apply lookup_take_Some in Hk as [Hk Hlt].
  rewrite lookup_drop in Hk.
  assert (Hx : take count (drop j ids) !! (i + k - j)%nat = Some id).
  { rewrite lookup_take_lt by lia. rewrite lookup_drop. by replace (j + (i + k - j))%nat with (i + k)%nat by lia. }
  rewrite Forall_lookup in Hf. by apply Hf in Hx.
Qed.

Lemma try_alloc_loop_first d ids count fuel i base :
  try_alloc_loop fuel d ids count i = Some base ->
  exists j, (i <= j)%nat /\ free_run d ids j count /\ ids !! j = Some base /\
    forall j', (i <= j' < j)%nat -> ~ free_run d ids j' count.
Proof.
  revert i. induction fuel as [|fuel IH]; intros i; simpl; [done|].
  case_decide as Hle; [|done]. destruct (first_busy d _ 0) as [k|] eqn:E.
  - apply first_busy_Some in E as (k' & id & -> & Hk & Hb). simpl.
    intros (j & Hj & Hf & Hbase & Hmin)%IH. exists j. split_and!; [lia|done|done|].
    intros j' Hj'. destruct (decide (j' <= i + k')%nat); [|apply Hmin; lia].
    eapply busy_excludes; [done..|lia].
  - intros Hb. apply first_busy_None in E. exists i. split_and!; [lia|done|done|]. intros j' Hj'. lia.
Qed.
Lemma try_alloc_loop_complete d ids count fuel i :
  (0 < count)%nat -> (length ids < fuel + i)%nat ->
  try_alloc_loop fuel d ids count i = None ->
  forall j, (i <= j)%nat -> ~ free_run d ids j count.
Proof.
  intros Hc. revert i. induction fuel as [|fuel IH]; intros i Hf; simpl.
  - intros _ j Hj [Hl _]. lia.
  - case_decide as Hle; [|intros _ j Hj [Hl _]; lia].
    destruct (first_busy d _ 0) as [k|] eqn:E.
    + apply first_busy_Some in E as (k' & id & -> & Hk & Hb). simpl. intros Hn j Hj.
      destruct (decide (j <= i + k')%nat).
      * eapply busy_excludes; [done..|lia].
      * apply (IH (i + k' + 1)%nat); [lia|done|lia].
    + intros Hn. apply lookup_ge_None in Hn. lia.
Qed.

(** The search returns a base exactly when the window holds a free run. *)
Lemma try_alloc_first d w count base :
  try_alloc_in_window d w count = Some base ->
  exists i, free_run d (w_slot_ids w) i (Z.to_nat count) /\ w_slot_ids w !! i = Some base /\
    forall j, (j < i)%nat -> ~ free_run d (w_slot_ids w) j (Z.to_nat count).
Proof.
  unfold try_alloc_in_window. case_decide; [done|].
  intros (j & _ & ? & ? & Hmin)%try_alloc_loop_first. exists j. split_and!; [done..|].
  intros j' Hj'. apply Hmin. lia.
Qed.
Lemma try_alloc_sound d w count base :
  try_alloc_in_window d w count = Some base ->
  exists i, free_run d (w_slot_ids w) i (Z.to_nat count) /\ w_slot_ids w !! i = Some base.
Proof. intros (i & ? & ? & _)%try_alloc_first. by exists i. Qed.
Lemma try_alloc_complete d w count i :
  0 < count -> free_run d (w_slot_ids w) i (Z.to_nat count) ->
  is_Some (try_alloc_in_window d w count).
Proof.
  intros Hc Hfr. apply not_eq_None_Some. unfold try_alloc_in_window. case_decide as Hlen.
  - destruct Hfr. lia.
  - intros Hn. eapply try_alloc_loop_complete in Hn; [by apply Hn| |..]; lia.
Qed.

(** C33. [try_alloc_in_window] is a first-fit search: although its outer loop jumps
    past the busy slot it met, it returns a base if and only if that is where the
    first run of [count] consecutive list positions whose slots are all FREE
    starts, and it returns none if and only if the window has no such run. *)
Theorem try_alloc_exact (d : Daemon) (w : Window) (count : Z) :
  0 < count ->
  (forall base, try_alloc_in_window d w count = Some base <->
     exists i, free_run d (w_slot_ids w) i (Z.to_nat count) /\ w_slot_ids w !! i = Some base /\
       forall j, (j < i)%nat -> ~ free_run d (w_slot_ids w) j (Z.to_nat count)) /\
  (try_alloc_in_window d w count = None <->
     forall i, ~ free_run d (w_slot_ids w) i (Z.to_nat count)).
Proof.
  intros Hc. split; [intros base; split; [apply try_alloc_first|]|split].
  - intros (i & Hf & Hb & Hmin). destruct (try_alloc_complete d w count i Hc Hf) as [base' E].
    rewrite E. destruct (try_alloc_first _ _ _ _ E) as (i' & Hf' & Hb' & Hmin').
    assert (i = i') as <-; [|congruence].
    destruct (lt_eq_lt_dec i i') as [[?|?]|?]; [by destruct (Hmin' i)|done|by destruct (Hmin i')].
  - intros E i Hf. destruct (try_alloc_complete d w count i Hc Hf). congruence.
  - intros Hn. destruct (try_alloc_in_window d w count) as [base|] eqn:E; [|done].
    destruct (try_alloc_first _ _ _ _ E) as (i & Hf & _). by destruct (Hn i).
Qed.

(** A window of four slots whose second one is busy holds a free run of two. *)
Definition witness_window : Window := mkWindow 0 0 false [0; 1; 2; 3].
Lemma try_alloc_exact_witness :
  let d := smoke_daemon [SLOT_FREE; SLOT_PINNED_VALID; SLOT_FREE; SLOT_FREE] in
  try_alloc_in_window d witness_window 2 = Some 2 /\
  exists i, free_run d [0; 1; 2; 3] i 2 /\ [0; 1; 2; 3] !! i = Some 2 /\
    forall j, (j < i)%nat -> ~ free_run d [0; 1; 2; 3] j 2.
Proof.
  intros d. assert (E : try_alloc_in_window d witness_window 2 = Some 2) by (vm_compute; reflexivity).
  split; [exact E|]. exact (proj1 (proj1 (try_alloc_exact d witness_window 2 eq_refl) 2) E).
Defined.

(** ** The plan is well formed *)
(** The immutable part of a slot entry: where its bytes are. *)
Definition slot_at (gran arena off id : Z) (e : slot_entry) : Prop :=
  sl_slot_id e = id /\ sl_arena_id e = arena /\ sl_arena_offset e = off /\ sl_capacity e = gran.
(** A window is a block of consecutive ids over a contiguous byte range. *)
Definition window_ok (gran : Z) (m : gmap Z slot_entry) (next : Z) (w : Window) : Prop :=
  exists first num arena off,
    w_slot_ids w = seqZ first num /\ 0 <= first /\ 0 < num /\ first + num <= next /\
    forall k, 0 <= k < num ->
      exists e, m !! (first + k) = Some e /\ slot_at gran arena (off + k * gran) (first + k) e.
Definition index_ok (ws : list Window) (idx : gmap Z Z) : Prop :=
  map_Forall (fun key i => exists w, ws !! Z.to_nat i = Some w /\
                key = window_key (w_numa_node w) (w_gpu w)) idx.
Definition sumZ (l : list Z) : Z := foldr Z.add 0 l.
Lemma sumZ_cons x l : sumZ (x :: l) = x + sumZ l.
Proof. done. Qed.
Lemma sumZ_nonneg {A} (f : A -> Z) l : Forall (fun x => 0 <= f x) l -> 0 <= sumZ (f <$> l).
Proof. induction 1; [done|]. rewrite fmap_cons, sumZ_cons. lia. Qed.
Lemma sumZ_fmap_le {A} (f g : A -> Z) l :
  Forall (fun x => f x <= g x) l -> sumZ (f <$> l) <= sumZ (g <$> l).
Proof. induction 1; [done|]. rewrite !fmap_cons, !sumZ_cons. lia. Qed.

Record plan_inv (gran : Z) (sizes : list Z) (cur : Z) (p : SlotPlan) : Prop := {
  pi_next : 0 <= p_global_slot p;
  pi_cursor : 0 <= p_cursor p;
  pi_partition : concat (w_slot_ids <$> p_windows p) = seqZ 0 (p_global_slot p);
  pi_windows : Forall (window_ok gran (p_slots p) (p_global_slot p)) (p_windows p);
  pi_index : index_ok (p_windows p) (p_index p);
  pi_entries : forall id, 0 <= id < p_global_slot p ->
    exists e arena off, p_slots p !! id = Some e /\ sl_state e = SLOT_FREE /\
      slot_at gran arena off id e /\ 0 <= arena <= cur /\ 0 <= off /\
      (arena = cur -> off + gran <= p_cursor p) /\
      (arena < cur -> exists sz, sizes !! Z.to_nat arena = Some sz /\ off + gran <= sz);
  pi_disjoint : forall i j ei ej, 0 <= i < j -> j < p_global_slot p ->
    p_slots p !! i = Some ei -> p_slots p !! j = Some ej ->
    sl_arena_id ei = sl_arena_id ej -> sl_arena_offset ei + gran <= sl_arena_offset ej }.

Section Carve.
  Context (gran : Z) (sizes : list Z) (ac : NumaArenaConfig) (arena : Arena).
  Context (Hgran : 0 < gran).

Lemma carve_fold gpu ov cursor (m : gmap Z slot_entry) next (n : nat) :
  0 <= next -> next + Z.of_nat n < 2 ^ 32 ->
  exists m',
    foldl (fun '(m, ids, next) s =>
        (<[next := carved_slot gran ac arena gpu ov cursor next s]> m, ids ++ [next], u32 (next + 1)))
      (m, [], next) (seqZ 0 (Z.of_nat n))
    = (m', seqZ next (Z.of_nat n), next + Z.of_nat n) /\
    (forall k, 0 <= k < Z.of_nat n ->
       m' !! (next + k) = Some (carved_slot gran ac arena gpu ov cursor (next + k) k)) /\
    (forall j, j < next -> m' !! j = m !! j).
Proof.
  intros Hn. induction n as [|n IH]; intros Hlt.
  - exists m. rewrite !seqZ_nil by lia. simpl. rewrite Z.add_0_r. split_and!; [done|lia|done].
  - destruct IH as (m' & E & Hin & Hout); [lia|].
    rewrite !seqZ_S, foldl_snoc, E. rewrite Z.add_0_l.
    eexists. split_and!; [rewrite u32_small by (split; lia); f_equal; lia|..].
    + intros k Hk. destruct (decide (k = Z.of_nat n)) as [->|].
      * by rewrite lookup_insert_eq.
      * rewrite lookup_insert_ne by lia. apply Hin. lia.
    + intros j Hj. rewrite lookup_insert_ne by lia. by apply Hout.
Qed.

Lemma window_ok_mono (m m' : gmap Z slot_entry) next next' w :
  (forall j, j < next -> m' !! j = m !! j) -> next <= next' ->
  window_ok gran m next w -> window_ok gran m' next' w.
Proof.
  intros Hm Hn (b & n & a & o & Hids & Hb & Hpos & Hle & He).
  exists b, n, a, o. split_and!; [done..|lia|]. intros k Hk.
  destruct (He k Hk) as (e & ? & ?). exists e. by rewrite Hm by lia.
Qed.

Lemma carved_offset cursor bytes k :
  0 <= cursor -> 0 <= bytes -> cursor + bytes < 2 ^ 64 -> 0 <= k <= bytes / gran ->
  u64 (cursor + u64 (k * gran)) = cursor + k * gran.
Proof.
  intros Hc Hb Hlim Hk. pose proof (Z.mul_div_le bytes gran Hgran).
  rewrite (u64_small (k * gran)) by (split; nia). apply u64_small. split; nia.
Qed.

Lemma carve_window_inv cur p gpu ov bytes :
  plan_inv gran sizes cur p -> ar_arena_id arena = cur -> 0 <= cur -> 0 <= bytes ->
  p_cursor p + bytes < 2 ^ 64 -> p_global_slot p + bytes / gran < 2 ^ 32 ->
  plan_inv gran sizes cur (carve_window gran ac arena p (gpu, ov, bytes)) /\
  p_global_slot (carve_window gran ac arena p (gpu, ov, bytes)) = p_global_slot p + bytes / gran /\
  p_cursor (carve_window gran ac arena p (gpu, ov, bytes)) = p_cursor p + bytes / gran * gran.
Proof.
  intros [Hn Hc Hpart Hwins Hidx Hent Hdis] Har Hcur Hb Hlim Hslots. unfold carve_window.
  pose proof (Z.div_pos bytes gran Hb Hgran) as Hq.
  pose proof (Z.mul_div_le bytes gran Hgran) as Hqg.
  case_decide as Hz; [rewrite Hz, Z.mul_0_l, !Z.add_0_r; by split|].
  set (n := bytes / gran) in *.
  destruct (carve_fold (if ov then kOverflowGpu else gpu) ov (p_cursor p) (p_slots p)
    (p_global_slot p) (Z.to_nat n)) as (m' & E & Hin & Hout); [done|lia|].
  rewrite Z2Nat.id in * by done. rewrite E. simpl.
  pose proof (fun k => carved_offset (p_cursor p) bytes k Hc Hb Hlim) as Hoff. fold n in Hoff.
  rewrite Hoff by lia. split; [|done]. split; simpl; [lia|nia|..].
  - rewrite fmap_app, concat_app, Hpart. simpl. rewrite app_nil_r.
    by rewrite seqZ_app, Z.add_0_l by lia.
  - apply Forall_app. split.
    + eapply Forall_impl; [exact Hwins|]. intros w. apply window_ok_mono; [done|lia].
    + apply Forall_singleton. exists (p_global_slot p), n, cur, (p_cursor p).
      split_and!; [done..|lia| |]; [lia|]. intros k Hk. eexists. split; [by apply Hin|].
      unfold slot_at, carved_slot; simpl. by rewrite Hoff by lia.
  - apply map_Forall_insert_2.
    + eexists. rewrite Nat2Z.id, lookup_app_r, Nat.sub_diag by lia. by split.
    + eapply map_Forall_impl; [exact Hidx|]. intros key i (w & Hw & ?). exists w.
      split; [|done]. by apply lookup_app_l_Some.
  - intros id Hid. destruct (decide (id < p_global_slot p)).
    + destruct (Hent id) as (e & a & o & He & Hst & Hat & Ha & Ho & Hcu & Hlt); [lia|].
      exists e, a, o. rewrite Hout by lia. split_and!; try done; [lia..|].
      intros Heq. specialize (Hcu Heq). nia.
    + replace id with (p_global_slot p + (id - p_global_slot p)) by lia.
      eexists _, cur, (p_cursor p + (id - p_global_slot p) * gran).
      unfold slot_at. split_and!; [apply Hin; lia|done|done|exact Har|apply Hoff; lia|done|lia|lia|nia|nia|lia].
  - intros i j ei ej Hij Hj Hi' Hj' Hae.
    destruct (decide (j < p_global_slot p)).
    + rewrite !Hout in * by lia. eapply Hdis; [exact Hij|lia|done..].
    + replace j with (p_global_slot p + (j - p_global_slot p)) in Hj' by lia.
      rewrite Hin in Hj' by lia. simplify_eq. simpl in *. rewrite Hoff by lia.
      destruct (decide (i < p_global_slot p)).
      * rewrite Hout in Hi' by lia.
        destruct (Hent i) as (e & a & o & He & _ & (_ & Ea & Eo & _) & _ & _ & Hcu & _); [lia|].
        simplify_eq. specialize (Hcu Hae). nia.
      * replace i with (p_global_slot p + (i - p_global_slot p)) in Hi' by lia.
        rewrite Hin in Hi' by lia. simplify_eq. simpl. rewrite Hoff by lia. nia.
Qed.

Lemma carve_windows_inv cur wins p :
  plan_inv gran sizes cur p -> ar_arena_id arena = cur -> 0 <= cur ->
  Forall (fun w => 0 <= w.2) wins ->
  p_cursor p + sumZ (wins.*2) < 2 ^ 64 ->
  p_global_slot p + sumZ ((fun b => b / gran) <$> wins.*2) < 2 ^ 32 ->
  let p' := foldl (carve_window gran ac arena) p wins in
  plan_inv gran sizes cur p' /\
  p_global_slot p' = p_global_slot p + sumZ ((fun b => b / gran) <$> wins.*2) /\
  p_cursor p' <= p_cursor p + sumZ (wins.*2).
Proof.
  intros Hp Ha Hcur Hw. revert p Hp. induction Hw as [|[[gpu ov] bytes] wins Hb Hw IH];
    intros p Hp Hc Hg; [unfold sumZ; simpl; rewrite !Z.add_0_r; done|].
  rewrite !fmap_cons, !sumZ_cons in *. cbn [foldl snd] in *. cbv zeta in *.
  pose proof (sumZ_nonneg snd wins Hw).
  assert (0 <= sumZ ((fun b => b / gran) <$> wins.*2)).
  { rewrite <- list_fmap_compose. apply sumZ_nonneg. eapply Forall_impl; [exact Hw|].
    intros w Hw0. by apply Z.div_pos. }
  destruct (carve_window_inv cur p gpu ov bytes Hp Ha Hcur Hb) as (Hp' & Eg & Ec); [lia..|].
  pose proof (Z.mul_div_le bytes gran Hgran).
  destruct (IH _ Hp') as (Hp'' & Eg' & Ec'); [lia|lia|]. split_and!; [done|lia|lia].
Qed.

Lemma next_arena_inv cur p sz :
  plan_inv gran sizes cur p -> 0 <= cur -> sizes !! Z.to_nat cur = Some sz -> p_cursor p <= sz ->
  plan_inv gran sizes (cur + 1) (p <| p_cursor := 0 |>).
Proof.
  intros [Hn Hc Hpart Hwins Hidx Hent Hdis] H0 Hsz Hle. split; simpl; try done; [].
  intros id Hid. destruct (Hent id Hid) as (e & a & o & He & Hst & Hat & Ha & Ho & Hcu & Hlt).
  exists e, a, o. split_and!; try done; [lia..|]. intros _.
  destruct (decide (a = cur)) as [->|]; [|apply Hlt; lia].
  exists sz. specialize (Hcu eq_refl). split; [done|lia].
Qed.
End Carve.

(** The exact byte sums of an arena's windows fit the arena. *)
Definition arena_fits (ac : NumaArenaConfig) : Prop :=
  Forall (fun w => 0 <= w.2) (arena_windows ac) /\
  sumZ (arena_windows ac).*2 <= na_size_bytes ac < 2 ^ 64.
Definition arena_slots (gran : Z) (ac : NumaArenaConfig) : Z :=
  sumZ ((fun b => b / gran) <$> (arena_windows ac).*2).

Lemma arena_slots_bound gran ac :
  0 < gran -> arena_fits ac -> 0 <= arena_slots gran ac <= na_size_bytes ac / gran.
Proof.
  intros Hg [Hw [Hs _]]. enough (0 <= arena_slots gran ac <= sumZ (arena_windows ac).*2 / gran).
  { pose proof (Z.div_le_mono _ _ gran Hg Hs). lia. }
  unfold arena_slots. clear Hs. induction Hw as [|w ws Hw0 Hws IH].
  - unfold sumZ; simpl. rewrite Z.div_0_l by lia. lia.
  - rewrite !fmap_cons, !sumZ_cons. pose proof (Z.div_pos w.2 gran Hw0 Hg). split; [lia|].
    apply Z.div_le_lower_bound; [lia|]. pose proof (Z.mul_div_le w.2 gran Hg).
    pose proof (Z.mul_div_le (sumZ ws.*2) gran Hg). nia.
Qed.

Lemma carve_arenas_inv gran sizes (l : list (NumaArenaConfig * Arena)) cur p :
  0 < gran -> 0 <= cur ->
  (forall i ac a, l !! i = Some (ac, a) ->
     ar_arena_id a = cur + Z.of_nat i /\
     sizes !! (Z.to_nat cur + i)%nat = Some (na_size_bytes ac) /\ arena_fits ac) ->
  plan_inv gran sizes cur (p <| p_cursor := 0 |>) ->
  p_global_slot p + sumZ ((fun x => arena_slots gran x.1) <$> l) < 2 ^ 32 ->
  let p' := foldl (carve_arena gran) p l in
  plan_inv gran sizes (cur + Z.of_nat (length l)) (p' <| p_cursor := 0 |>) /\
  p_global_slot p' = p_global_slot p + sumZ ((fun x => arena_slots gran x.1) <$> l).
Proof.
  intros Hg. revert cur p. induction l as [|[ac a] l IH]; intros cur p Hcur Hl Hp Hsum.
  { unfold sumZ; simpl. by rewrite !Z.add_0_r. }
  destruct (Hl 0%nat ac a eq_refl) as (Ha & Hsz & Hfit). rewrite Z.add_0_r in Ha.
  rewrite Nat.add_0_r in Hsz. rewrite fmap_cons, sumZ_cons in *. cbn [foldl]. simpl in Hsum.
  assert (0 <= sumZ ((fun x : NumaArenaConfig * Arena => arena_slots gran x.1) <$> l)).
  { apply sumZ_nonneg, Forall_lookup. intros i [ac' a'] Hi.
    apply arena_slots_bound; [done|]. by apply (Hl (S i) ac' a'). }
  change (carve_arena gran p (ac, a))
    with (foldl (carve_window gran ac a) (p <| p_cursor := 0 |>) (arena_windows ac)).
  destruct Hfit as [Hpos [Hle Hmax]].
  destruct (carve_windows_inv gran sizes ac a Hg cur (arena_windows ac) (p <| p_cursor := 0 |>))
    as (Hp' & Eg & Ec); [done..|simpl; lia| |].
  { fold (arena_slots gran ac). change (p_global_slot p + arena_slots gran ac < 2 ^ 32). lia. }
  rewrite Z.add_0_l in Ec. fold (arena_slots gran ac) in Eg. simpl in Eg.
  pose proof (next_arena_inv gran sizes cur _ _ Hp' Hcur Hsz ltac:(lia)) as Hnext.
  destruct (fun Hl' => IH (cur + 1) _ ltac:(lia) Hl' Hnext) as [Hfin Eg']; [|lia|].
  - intros i ac' a' Hi. destruct (Hl (S i) ac' a' Hi) as (? & Hs' & ?).
    split_and!; [lia| |done]. rewrite <- Hs'. f_equal. lia.
  - split; [|cbn [fst]; lia]. replace (cur + Z.of_nat (length ((ac, a) :: l)))
      with (cur + 1 + Z.of_nat (length l)) by (simpl; lia). exact Hfin.
Qed.

(** The sizes of a configuration fit their types, and the slot ids are 32-bit. *)
Record config_in_range (c : DaemonConfig) : Prop := {
  cr_gran : in_u64 (c_allocation_granularity_bytes c);
  cr_arenas : Forall (fun ac => in_u64 (na_size_bytes ac) /\
    Forall (fun w => 0 <= w.2) (arena_windows ac) /\
    sumZ (arena_windows ac).*2 < 2 ^ 64) (c_per_numa c);
  cr_slots : sumZ ((fun ac => na_size_bytes ac / c_allocation_granularity_bytes c)
                     <$> c_per_numa c) < 2 ^ 32 }.

Lemma foldl_u64_sum (l : list GpuWindowConfig) t :
  0 <= t -> Forall (fun gw => 0 <= gw_size_bytes gw) l -> t + sumZ (gw_size_bytes <$> l) < 2 ^ 64 ->
  foldl (fun t gw => u64 (t + gw_size_bytes gw)) t l = t + sumZ (gw_size_bytes <$> l).
Proof.
  intros Ht Hl. revert t Ht. induction Hl as [|gw l Hg Hl IH]; intros t Ht Hlt.
  { unfold sumZ; simpl; lia. }
  rewrite fmap_cons, sumZ_cons in *. cbn [foldl]. pose proof (sumZ_nonneg gw_size_bytes l Hl).
  rewrite u64_small by (split; lia). rewrite IH by lia. lia.
Qed.
Lemma sumZ_app l1 l2 : sumZ (l1 ++ l2) = sumZ l1 + sumZ l2.
Proof. induction l1 as [|x l1 IH]; [done|]. rewrite <- app_comm_cons, !sumZ_cons. lia. Qed.

Lemma arena_windows_sum ac :
  sumZ (arena_windows ac).*2 = sumZ (gw_size_bytes <$> na_gpu_windows ac) + na_overflow_bytes ac.
Proof.
  unfold arena_windows. rewrite fmap_app, sumZ_app, <- list_fmap_compose.
  unfold sumZ at 2. simpl. by rewrite Z.add_0_r.
Qed.
Lemma validate_arena_fits ac :
  in_u64 (na_size_bytes ac) -> Forall (fun w => 0 <= w.2) (arena_windows ac) ->
  sumZ (arena_windows ac).*2 < 2 ^ 64 -> validate_arena ac = Ok tt -> arena_fits ac.
Proof.
  intros Hsz Hpos Hsum. unfold validate_arena. case_decide; [done|].
  case_decide as Hgt; [done|]. intros _. split; [done|]. split; [|apply Hsz].
  rewrite arena_windows_sum in *. unfold arena_windows in Hpos.
  apply Forall_app in Hpos as [Hp1 Hp2].
  rewrite Forall_singleton in Hp2. simpl in Hp2. rewrite Forall_fmap in Hp1.
  pose proof (sumZ_nonneg gw_size_bytes _ Hp1).
  rewrite foldl_u64_sum in Hgt by (exact Hp1 || lia). rewrite u64_small in Hgt by (split; lia). lia.
Qed.

Lemma validate_config_ok c :
  validate_config c = Ok tt ->
  c_allocation_granularity_bytes c ≠ 0 /\
  Forall (fun ac => validate_arena ac = Ok tt) (c_per_numa c).
Proof.
  unfold validate_config. case_decide; [done|]. case_bool_decide; [done|]. intros Hf.
  split; [done|]. revert Hf. generalize (c_per_numa c) as l.
  assert (Hthrow : forall l m, foldl (fun r ac => res_bind r (fun _ => validate_arena ac))
    (Throw m) l = Throw m) by (induction l; simpl; done).
  induction l as [|ac l IH]; [done|]. simpl. destruct (validate_arena ac) as [[]|m] eqn:E.
  - intros ?. constructor; auto.
  - by rewrite Hthrow.
Qed.

Lemma count_slots_exact c :
  Forall arena_fits (c_per_numa c) -> config_in_range c -> 0 < c_allocation_granularity_bytes c ->
  count_slots c =
    sumZ ((fun ac => na_size_bytes ac / c_allocation_granularity_bytes c) <$> c_per_numa c).
Proof.
  intros _ [_ Har Hs] Hg. unfold count_slots. set (g := c_allocation_granularity_bytes c) in *.
  assert (Hpos : Forall (fun ac => 0 <= na_size_bytes ac / g) (c_per_numa c)).
  { eapply Forall_impl; [exact Har|]. intros ac [[? ?] _]. by apply Z.div_pos. }
  enough (forall t, 0 <= t -> t + sumZ ((fun ac => na_size_bytes ac / g) <$> c_per_numa c) < 2 ^ 32 ->
    foldl (fun total ac => u32 (total + u32 (na_size_bytes ac / g))) t (c_per_numa c)
    = t + sumZ ((fun ac => na_size_bytes ac / g) <$> c_per_numa c)) as E by (apply E; lia).
  clear Hs Har. induction Hpos as [|ac l Hac Hl IH]; intros t Ht Hlt.
  { unfold sumZ; simpl; lia. }
  rewrite fmap_cons, sumZ_cons in *. cbn [foldl].
  pose proof (sumZ_nonneg (fun ac => na_size_bytes ac / g) l Hl).
  rewrite (u32_small (na_size_bytes ac / g)) by (split; lia).
  rewrite u32_small by (split; lia). rewrite IH by lia. lia.
Qed.

Lemma build_slot_plan_inv c slots0 :
  Forall arena_fits (c_per_numa c) -> config_in_range c -> 0 < c_allocation_granularity_bytes c ->
  let gran := c_allocation_granularity_bytes c in
  let sizes := na_size_bytes <$> c_per_numa c in
  plan_inv gran sizes (Z.of_nat (length (c_per_numa c)))
    ((build_slot_plan c slots0) <| p_cursor := 0 |>) /\
  p_global_slot (build_slot_plan c slots0) <= count_slots c.
Proof.
  intros Hfit Hr Hg gran sizes. unfold build_slot_plan. fold gran.
  assert (Ezip : (fun x => arena_slots gran x.1) <$> zip (c_per_numa c) (build_arenas c)
                 = arena_slots gran <$> c_per_numa c).
  { rewrite <- (fst_zip (c_per_numa c) (build_arenas c)) at 2
      by (unfold build_arenas; rewrite length_imap; lia). by rewrite <- list_fmap_compose. }
  assert (Hle : sumZ (arena_slots gran <$> c_per_numa c)
                <= sumZ ((fun ac => na_size_bytes ac / gran) <$> c_per_numa c)).
  { apply sumZ_fmap_le. eapply Forall_impl; [exact Hfit|]. intros ac Hac.
    by apply arena_slots_bound. }
  destruct (carve_arenas_inv gran sizes (zip (c_per_numa c) (build_arenas c)) 0
    (mkPlan slots0 [] ∅ 0 0)) as [Hinv Eg]; [done|done| | | |].
  - intros i ac a [Hac Ha]%lookup_zip_Some. unfold build_arenas in Ha.
    rewrite list_lookup_imap, Hac in Ha. simplify_eq/=. split_and!; [done| |].
    + unfold sizes. by rewrite list_lookup_fmap, Hac.
    + rewrite Forall_lookup in Hfit. by eapply Hfit.
  - split; simpl; try done; lia.
  - rewrite Ezip. simpl. pose proof (cr_slots c Hr). fold gran in H. change (0 + sumZ (arena_slots gran <$> c_per_numa c) < 2 ^ 32). lia.
  - rewrite Ezip in Eg. simpl in Eg. rewrite Z.add_0_l in Hinv. split.
    + rewrite length_zip, Nat.min_l in Hinv; [done|].
      unfold build_arenas. rewrite length_imap. lia.
    + rewrite (count_slots_exact c Hfit Hr Hg). fold gran. lia.
Qed.

Lemma validated_fits c :
  validate_config c = Ok tt -> config_in_range c ->
  Forall arena_fits (c_per_numa c) /\ 0 < c_allocation_granularity_bytes c.
Proof.
  intros [Hg Hval]%validate_config_ok Hr. split.
  - pose proof (cr_arenas c Hr) as Ha. rewrite Forall_lookup in Ha, Hval |- *.
    intros i ac Hi. destruct (Ha i ac Hi) as (? & ? & ?). apply validate_arena_fits; eauto.
  - pose proof (cr_gran c Hr) as [? ?]. lia.
Qed.

(** C34. For every configuration [load_config] accepts whose sums do not wrap, the
    slot plan never writes past the reserved slot table, its windows partition
    the carved ids into blocks of consecutive slots over contiguous bytes, every
    carved slot is FREE and lies inside its arena, and two slots of one arena
    never share a byte. *)
Theorem slot_plan_disjoint (c : DaemonConfig) (slots0 : gmap Z slot_entry) :
  validate_config c = Ok tt -> config_in_range c ->
  let p := build_slot_plan c slots0 in
  let gran := c_allocation_granularity_bytes c in
  p_global_slot p <= count_slots c /\
  concat (w_slot_ids <$> p_windows p) = seqZ 0 (p_global_slot p) /\
  Forall (window_ok gran (p_slots p) (p_global_slot p)) (p_windows p) /\
  (forall id, 0 <= id < p_global_slot p -> exists e ac,
     p_slots p !! id = Some e /\ sl_state e = SLOT_FREE /\ sl_slot_id e = id /\
     c_per_numa c !! Z.to_nat (sl_arena_id e) = Some ac /\
     0 <= sl_arena_offset e /\ sl_arena_offset e + sl_capacity e <= na_size_bytes ac) /\
  (forall i j ei ej, 0 <= i < j -> j < p_global_slot p ->
     p_slots p !! i = Some ei -> p_slots p !! j = Some ej ->
     sl_arena_id ei = sl_arena_id ej ->
     sl_arena_offset ei + sl_capacity ei <= sl_arena_offset ej).
Proof.
  intros Hval Hr p gran. destruct (validated_fits c Hval Hr) as [Hfit Hpos]. fold gran in Hpos.
  destruct (build_slot_plan_inv c slots0 Hfit Hr Hpos) as [[_ _ Hpart Hw _ Hent Hdis] Hle].
  fold p in Hle, Hpart, Hw, Hent, Hdis. simpl in *. split_and!; [done..| |].
  - intros id Hid. destruct (Hent id Hid) as (e & a & o & He & Hst & Hat & Ha & Ho & Hcu & Hlt).
    destruct Hat as (Hid' & Ea & Eo & Ec).
    destruct (decide (a = Z.of_nat (length (c_per_numa c)))) as [Heq|Hne].
    { specialize (Hcu Heq). fold gran in Hcu. lia. }
    destruct Hlt as (sz & Hsz & Hin); [lia|]. rewrite list_lookup_fmap in Hsz.
    destruct (c_per_numa c !! Z.to_nat a) as [ac|] eqn:Hac; simplify_eq/=.
    exists e, ac. rewrite Ec. by split_and!.
  - intros i j ei ej Hij Hj Hi' Hj' Hae. destruct (Hent i ltac:(lia)) as
      (e & a & o & He & _ & (_ & _ & _ & Hcap) & _). simplify_eq. rewrite Hcap. eauto.
Qed.

Lemma smoke_config_arenas :
  c_per_numa smoke_config = [mkNumaArena 0 33554432 [mkGpuWindow 0 16777216] 16777216] /\
  c_allocation_granularity_bytes smoke_config = 2097152.
Proof. by vm_compute. Qed.
Lemma smoke_config_in_range : config_in_range smoke_config.
Proof.
  destruct smoke_config_arenas as [Ea Eg]. split; rewrite ?Ea, ?Eg; [split; lia| |].
  - constructor; [|constructor]. unfold arena_windows, sumZ; simpl.
    split_and!; [split; simpl; lia|repeat constructor; simpl; lia|lia].
  - unfold sumZ; simpl. by vm_compute.
Qed.
Lemma slot_plan_disjoint_witness :
  validate_config smoke_config = Ok tt /\
  p_global_slot (build_slot_plan smoke_config ∅) <= count_slots smoke_config.
Proof.
  split; [reflexivity|].
  apply (slot_plan_disjoint smoke_config ∅); [reflexivity|exact smoke_config_in_range].
Defined.

(** ** What [allocate_slots] returns *)
(** The window tables of a daemon are those of a plan. *)
Definition windows_wf (d : Daemon) : Prop :=
  exists next, next <= NO_U32 /\
    Forall (window_ok (c_allocation_granularity_bytes (cfg d)) (slots d) next) (windows d).

(** A run of [count] FREE slots [base .. base+count-1] over contiguous bytes. *)
Definition run_available (d : Daemon) (base count : Z) : Prop :=
  0 <= base /\ 0 < count /\ base + count <= NO_U32 /\
  exists arena off, forall k, 0 <= k < count ->
    exists e, slots d !! (base + k) = Some e /\ sl_state e = SLOT_FREE /\
      slot_at (c_allocation_granularity_bytes (cfg d)) arena
        (off + k * c_allocation_granularity_bytes (cfg d)) (base + k) e.

Lemma try_alloc_run d w count base :
  windows_wf d -> w ∈ windows d -> 0 < count ->
  try_alloc_in_window d w count = Some base -> run_available d base count.
Proof.
  intros (next & Hnext & Hws) Hw Hc (i & [Hlen Hfree] & Hbase)%try_alloc_sound.
  rewrite Forall_forall in Hws. destruct (Hws _ Hw) as (b & n & a & o & Hids & Hb & Hn & Hle & He).
  rewrite Hids in *. rewrite length_seqZ in Hlen. apply lookup_seqZ in Hbase as [-> Hi].
  split_and!; [lia..|]. exists a, (o + Z.of_nat i * c_allocation_granularity_bytes (cfg d)).
  intros k Hk. destruct (He (Z.of_nat i + k)) as (e & Hlk & Hat); [lia|].
  rewrite Z.add_assoc in Hlk. exists e. split_and!; [done| |].
  - rewrite <- (slot_state_lookup _ _ _ Hlk). rewrite Forall_lookup in Hfree.
    apply (Hfree (Z.to_nat k)). rewrite lookup_take_lt by lia. rewrite lookup_drop.
    apply lookup_seqZ. lia.
  - destruct Hat as (Hid & Ha & Ho & Hcap). unfold slot_at. split_and!; [lia|done|lia|done].
Qed.

Lemma first_window_elem d count skip ws base :
  first_window d count skip ws = Some base ->
  exists w, w ∈ ws /\ skip w = false /\ try_alloc_in_window d w count = Some base.
Proof.
  induction ws as [|w ws IH]; simpl; [done|]. destruct (skip w) eqn:Hs.
  - intros (w' & ? & ? & ?)%IH. exists w'. split_and!; [by apply list_elem_of_further|done..].
  - destruct (try_alloc_in_window d w count) eqn:E.
    + intros [= ->]. exists w. split_and!; [apply list_elem_of_here|done..].
    + intros (w' & ? & ? & ?)%IH. exists w'. split_and!; [by apply list_elem_of_further|done..].
Qed.
Lemma try_win_elem d count numa gpu base :
  try_win d count numa gpu = Some base ->
  exists w, w ∈ windows d /\ try_alloc_in_window d w count = Some base.
Proof.
  unfold try_win. destruct (window_index d !! _) as [idx|]; [|done].
  destruct (windows d !! Z.to_nat idx) as [w|] eqn:Hw; [|done]. simpl. intros E.
  exists w. split; [|done]. by eapply list_elem_of_lookup_2.
Qed.

Lemma allocate_base_elem d gpu numa count flags base remote :
  allocate_base d gpu numa count flags = (base, remote) -> base ≠ kNoSlot ->
  exists w, w ∈ windows d /\ try_alloc_in_window d w count = Some base /\
    (remote = true -> Z.land flags OFLD_FLAG_ALLOW_REMOTE_NUMA ≠ 0 /\ w_numa_node w ≠ numa).
Proof.
  unfold allocate_base. intros H Hne.
  destruct (try_win d count numa gpu) eqn:E1.
  { simplify_eq. apply try_win_elem in E1 as (w & ? & ?). by exists w. }
  destruct (try_win d count numa kOverflowGpu) eqn:E2.
  { simplify_eq. apply try_win_elem in E2 as (w & ? & ?). by exists w. }
  destruct (first_window d count (skip_peer gpu numa) (windows d)) eqn:E3; simpl in H.
  { case_decide as Hk.
    - repeat case_decide; repeat case_match; simplify_eq; try done.
      match goal with E : first_window _ _ (skip_local _) _ = _ |- _ =>
        apply first_window_elem in E as (w & ? & Hs & ?) end.
      exists w. split_and!; [done..|]. intros _. split; [done|]. by apply bool_decide_eq_false in Hs.
    - simplify_eq. apply first_window_elem in E3 as (w & ? & ? & ?). by exists w. }
  repeat case_decide; repeat case_match; simplify_eq; try done.
  match goal with E : first_window _ _ (skip_local _) _ = _ |- _ =>
    apply first_window_elem in E as (w & ? & Hs & ?) end.
  exists w. split_and!; [done..|]. intros _. split; [done|]. by apply bool_decide_eq_false in Hs.
Qed.

Lemma slots_for_bytes_spec d nbytes :
  0 < c_allocation_granularity_bytes (cfg d) ->
  0 <= nbytes -> nbytes + c_allocation_granularity_bytes (cfg d) <= 2 ^ 64 ->
  nbytes <= (2 ^ 32 - 1) * c_allocation_granularity_bytes (cfg d) ->
  let g := c_allocation_granularity_bytes (cfg d) in
  1 <= slots_for_bytes d nbytes < 2 ^ 32 /\ nbytes <= slots_for_bytes d nbytes * g /\
  (0 < nbytes -> slots_for_bytes d nbytes * g < nbytes + g).
Proof.
  intros Hg Hb Hlim Hmax g. unfold slots_for_bytes. fold g in Hg, Hlim, Hmax |- *.
  assert (E : u64 (u64 (nbytes + g) - 1) = nbytes + g - 1).
  { destruct (decide (nbytes + g = 2 ^ 64)) as [->|]; [done|].
    rewrite (u64_small (nbytes + g)) by (split; lia). apply u64_small. split; lia. }
  rewrite E. clear E. pose proof (Z.div_mod (nbytes + g - 1) g ltac:(lia)) as Hdm.
  pose proof (Z.mod_pos_bound (nbytes + g - 1) g Hg) as Hm.
  set (q := (nbytes + g - 1) / g) in *. assert (0 <= q <= 2 ^ 32 - 1) by nia.
  case_decide; rewrite u32_small by (split; lia); [|nia]. subst q. nia.
Qed.

(** The run [allocate_slots] grants is a run of FREE slots of one window:
    consecutive ids, contiguous bytes of one arena, no smaller than the tensor
    and larger by less than one granule; another NUMA node is used only when the
    request allows it, which is counted; nothing else of the daemon changes. *)
Theorem allocate_slots_spec (d : Daemon) (gpu numa nbytes flags base count : Z) (d' : Daemon) :
  windows_wf d -> 0 < c_allocation_granularity_bytes (cfg d) ->
  0 < nbytes -> nbytes + c_allocation_granularity_bytes (cfg d) <= 2 ^ 64 ->
  nbytes <= (2 ^ 32 - 1) * c_allocation_granularity_bytes (cfg d) ->
  allocate_slots gpu numa nbytes flags d = (Some (base, count), d') ->
  run_available d base count /\
  nbytes <= count * c_allocation_granularity_bytes (cfg d)
    < nbytes + c_allocation_granularity_bytes (cfg d) /\
  (d' = d \/ d' = metric_inc kRemoteNumaAllocs d /\
             Z.land flags OFLD_FLAG_ALLOW_REMOTE_NUMA ≠ 0).
Proof.
  intros Hwf Hg Hb Hlim Hmax. unfold allocate_slots.
  destruct (slots_for_bytes_spec d nbytes Hg ltac:(lia) Hlim Hmax) as (Hc & Hlo & Hhi).
  destruct (allocate_base d gpu numa (slots_for_bytes d nbytes) flags) as [b r] eqn:E.
  case_decide as Hk; [done|]. intros [= <- <- Hd'].
  destruct (allocate_base_elem _ _ _ _ _ _ _ E Hk) as (w & Hw & Ht & Hr).
  split_and!; [eapply try_alloc_run; eauto; lia|done|auto|].
  destruct r; [right|by left]. destruct Hr; done.
Qed.

Lemma daemon_init_windows_wf c now d :
  validate_config c = Ok tt -> config_in_range c -> daemon_init c now = Some d ->
  windows_wf d /\ cfg d = c.
Proof.
  intros Hval Hr. unfold daemon_init. destruct (round_ring_capacity 33 _); [|done]. simpl.
  intros [= <-]. split; [|done]. destruct (validated_fits c Hval Hr) as [Hfit Hpos].
  destruct (build_slot_plan_inv c (zero_slots (count_slots c)) Hfit Hr Hpos) as [[_ _ _ Hw _ _ _] Hle].
  exists (p_global_slot (build_slot_plan c (zero_slots (count_slots c)))). split; [|exact Hw].
  pose proof (count_slots_exact c Hfit Hr Hpos). pose proof (cr_slots c Hr). unfold NO_U32. lia.
Qed.

Lemma allocate_slots_spec_witness :
  let d := smoke_daemon [] in
  allocate_slots 0 0 5000000 0 d = (Some (0, 3), d) /\ run_available d 0 3.
Proof.
  intros d. assert (E : allocate_slots 0 0 5000000 0 d = (Some (0, 3), d)) by (vm_compute; reflexivity).
  split; [exact E|].
  destruct (daemon_init_windows_wf smoke_config 0 d) as [Hwf Hc];
    [reflexivity|exact smoke_config_in_range|vm_compute; reflexivity|].
  apply (allocate_slots_spec d 0 0 5000000 0 0 3 d); rewrite ?Hc;
    [exact Hwf|vm_compute; done..|exact E].
Defined.
