(* ===== verification/Yaml.v ===== *)
(** * The configuration parser

    Models the YAML subset of [src/daemon/config.cpp]: [rstrip], [strip],
    [strip_comment], [tokenize], [parse_map], [parse_seq] and [parse_node].

    A line is the list of its characters.  The vector [lines] with the position
    [i] is the list of the lines from [i] on: the parser never looks back, and
    [parse_seq] rewrites only the line at [i].  A [std::map] is an association
    list sorted by key ([map_insert] is [map[key] = v]).  The recursion takes
    fuel; [YamlProps] proves that [parse_fuel] is enough for every input. *)
From stdpp Require Import base strings list pretty.
From Stdlib Require Import ZArith Lia Ascii.
From S2P Require Import Prelude.
Open Scope Z_scope.

Definition text := list ascii.
Definition str (t : text) : string := String.string_of_list_ascii t.
Definition chars (s : string) : text := String.list_ascii_of_string s.
Lemma chars_app s t : chars (s +:+ t) = chars s ++ chars t.
Proof. induction s as [|a s IH]; [done|]. change (chars (String a s +:+ t)) with (a :: chars (s +:+ t)). by rewrite IH. Qed.
Lemma str_chars s : str (chars s) = s.
Proof. apply String.string_of_list_ascii_of_string. Qed.

(** ** Nodes *)
Inductive YamlNode :=
  | YEmpty (line : Z)
  | YScalar (scalar : string) (line : Z)
  | YMap (map : list (string * YamlNode)) (line : Z)
  | YSeq (seq : list YamlNode) (line : Z).
(** The fields of a node of another kind are empty. *)
Definition y_map (n : YamlNode) : list (string * YamlNode) := match n with YMap m _ => m | _ => [] end.
Definition y_seq (n : YamlNode) : list YamlNode := match n with YSeq l _ => l | _ => [] end.
Definition y_scalar (n : YamlNode) : string := match n with YScalar s _ => s | _ => EmptyString end.
Definition y_line (n : YamlNode) : Z :=
  match n with YEmpty l | YScalar _ l | YMap _ l | YSeq _ l => l end.
(** [YamlNode::find] *)
Fixpoint assoc {A} (k : string) (m : list (string * A)) : option A :=
  match m with
  | [] => None
  | (k', v) :: m => if decide (k = k') then Some v else assoc k m
  end.
Definition find (n : YamlNode) (key : string) : option YamlNode := assoc key (y_map n).
(** [map[key] = v], the keys compared as unsigned bytes. *)
Fixpoint map_insert {A} (k : string) (v : A) (m : list (string * A)) : list (string * A) :=
  match m with
  | [] => [(k, v)]
  | (k', v') :: m' =>
      match String.compare k k' with
      | Lt => (k, v) :: m
      | Eq => (k, v) :: m'
      | Gt => (k', v') :: map_insert k v m'
      end
  end.

(** ** Lines *)
Record SrcLine := mkLine { s_indent : Z; s_lineno : Z; s_text : text }.
Definition space : ascii := " "%char.
Definition tab : ascii := "009"%char.
Definition cr : ascii := "013"%char.
Definition newline : ascii := "010"%char.
Definition is_blank (c : ascii) : bool :=
  bool_decide (c = space) || bool_decide (c = tab) || bool_decide (c = cr).
Fixpoint drop_while (p : ascii -> bool) (t : text) : text :=
  match t with
  | [] => []
  | c :: t' => if p c then drop_while p t' else t
  end.
Definition rstrip (t : text) : text := reverse (drop_while is_blank (reverse t)).
Definition strip (t : text) : text := rstrip (drop_while is_blank t).
(** [s.substr(0, s.find('#'))] *)
Fixpoint strip_comment (t : text) : text :=
  match t with
  | [] => []
  | c :: t => if decide (c = "#"%char) then [] else c :: strip_comment t
  end.
(** The number of leading characters satisfying [p]. *)
Fixpoint count_while (p : ascii -> bool) (t : text) : nat :=
  match t with
  | [] => 0
  | c :: t => if p c then S (count_while p t) else 0
  end.
Definition is_space (c : ascii) : bool := bool_decide (c = space).
Definition is_space_or_tab (c : ascii) : bool := bool_decide (c = space) || bool_decide (c = tab).

(** The characters up to each newline; the last line ends with the content. *)
Fixpoint split_lines (content : text) (line : text) : list text :=
  match content with
  | [] => [reverse line]
  | c :: content => if decide (c = newline) then reverse line :: split_lines content []
                    else split_lines content (c :: line)
  end.
Definition tab_error (lineno : Z) : string :=
  "config parse error at line " +:+ pretty lineno +:+ ": tabs are not allowed for indentation".
(** One iteration of [tokenize] at the end of a line. *)
Definition tokenize_line (lineno : Z) (raw : text) : res (option SrcLine) :=
  let trimmed := rstrip (strip_comment raw) in
  match strip trimmed with
  | [] => Ok None
  | _ =>
      let indent := count_while is_space trimmed in
      if bool_decide (tab ∈ trimmed) && bool_decide (indent < count_while is_space_or_tab trimmed)%nat
      then Throw (tab_error lineno)
      else Ok (Some (mkLine (Z.of_nat indent) lineno (drop indent trimmed)))
  end.
Fixpoint tokenize_lines (lineno : Z) (raws : list text) : res (list SrcLine) :=
  match raws with
  | [] => Ok []
  | raw :: raws =>
      res_bind (tokenize_line lineno raw) (fun o =>
      res_bind (tokenize_lines (lineno + 1) raws) (fun out =>
      Ok (match o with Some l => l :: out | None => out end)))
  end.
Definition tokenize (content : text) : res (list SrcLine) := tokenize_lines 1 (split_lines content []).

(** ** Parsing *)
(** [text.rfind("- ", 0) == 0 || text == "-"] *)
Definition is_item (t : text) : bool :=
  match t with
  | c :: c' :: _ => bool_decide (c = "-"%char) && bool_decide (c' = space)
  | [c] => bool_decide (c = "-"%char)
  | [] => false
  end.
(** [find(':')]: the characters before and after the first colon. *)
Fixpoint split_colon (t : text) : option (text * text) :=
  match t with
  | [] => None
  | c :: t => if decide (c = ":"%char) then Some ([], t)
              else match split_colon t with Some (k, v) => Some (c :: k, v) | None => None end
  end.
Definition no_colon_error (lineno : Z) : string :=
  "config parse error at line " +:+ pretty lineno +:+ ": expected 'key: value'".
Definition line_or_0 (lines : list SrcLine) : Z := match lines with l :: _ => s_lineno l | [] => 0 end.
(** The next line is more deeply indented. *)
Definition deeper (indent : Z) (lines : list SrcLine) : option SrcLine :=
  match lines with l :: _ => if decide (indent < s_indent l) then Some l else None | [] => None end.

(** [parse_map_loop] and [parse_seq_loop] are the loops with the entries collected
    so far; the result is the node and the lines left, [None] without fuel. *)
Fixpoint parse_node (fuel : nat) (lines : list SrcLine) (indent : Z)
  : option (res (YamlNode * list SrcLine)) :=
  match fuel with
  | O => None
  | S fuel =>
      match lines with
      | [] => Some (Ok (YEmpty 0, []))
      | l :: rest =>
          if is_item (s_text l) then parse_seq_loop fuel lines indent [] (s_lineno l)
          else match split_colon (s_text l) with
               | None => Some (Ok (YScalar (str (strip (s_text l))) (s_lineno l), rest))
               | Some _ => parse_map_loop fuel lines indent [] (s_lineno l)
               end
      end
  end
with parse_map_loop (fuel : nat) (lines : list SrcLine) (indent : Z)
  (m : list (string * YamlNode)) (line : Z) : option (res (YamlNode * list SrcLine)) :=
  match fuel with
  | O => None
  | S fuel =>
      match lines with
      | [] => Some (Ok (YMap m line, []))
      | l :: rest =>
          if decide (s_indent l = indent) then
            if is_item (s_text l) then Some (Ok (YMap m line, lines))
            else match split_colon (s_text l) with
            | None => Some (Throw (no_colon_error (s_lineno l)))
            | Some (k, v) =>
                let key := str (strip k) in
                match strip v with
                | [] =>
                    match deeper indent rest with
                    | Some l' =>
                        match parse_node fuel rest (s_indent l') with
                        | Some (Ok (child, rest)) => parse_map_loop fuel rest indent (map_insert key child m) line
                        | r => r
                        end
                    | None => parse_map_loop fuel rest indent (map_insert key (YEmpty (s_lineno l)) m) line
                    end
                | val => parse_map_loop fuel rest indent (map_insert key (YScalar (str val) (s_lineno l)) m) line
                end
            end
          else Some (Ok (YMap m line, lines))
      end
  end
with parse_seq_loop (fuel : nat) (lines : list SrcLine) (indent : Z)
  (items : list YamlNode) (line : Z) : option (res (YamlNode * list SrcLine)) :=
  match fuel with
  | O => None
  | S fuel =>
      match lines with
      | [] => Some (Ok (YSeq items line, []))
      | l :: rest =>
          if bool_decide (s_indent l = indent) && is_item (s_text l) then
            let c := S (count_while is_space (drop 1 (s_text l))) in
            match drop c (s_text l) with
            | [] =>
                match deeper indent rest with
                | Some l' =>
                    match parse_node fuel rest (s_indent l') with
                    | Some (Ok (child, rest)) => parse_seq_loop fuel rest indent (items ++ [child]) line
                    | r => r
                    end
                | None => parse_seq_loop fuel rest indent (items ++ [YEmpty (s_lineno l)]) line
                end
            | content =>
                let item_indent := indent + Z.of_nat c in
                match parse_node fuel (mkLine item_indent (s_lineno l) content :: rest) item_indent with
                | Some (Ok (child, rest)) => parse_seq_loop fuel rest indent (items ++ [child]) line
                | r => r
                end
            end
          else Some (Ok (YSeq items line, lines))
      end
  end.
(** Two steps per character and per line. *)
Definition weight (lines : list SrcLine) : nat :=
  foldr (fun l n => 2 + 2 * length (s_text l) + n)%nat 0%nat lines.
Definition parse_fuel (lines : list SrcLine) : nat := S (S (weight lines)).
(** The tree of a file, up to the checks of [load_config] on the whole. *)
Definition parse_config_text (path : string) (content : text) : option (res YamlNode) :=
  match tokenize content with
  | Throw m => Some (Throw m)
  | Ok [] => Some (Throw ("config: file '" +:+ path +:+ "' is empty"))
  | Ok ((l :: _) as lines) =>
      match parse_node (parse_fuel lines) lines (s_indent l) with
      | None => None
      | Some (Throw m) => Some (Throw m)
      | Some (Ok (root, [])) =>
          match root with
          | YMap _ _ => Some (Ok root)
          | _ => Some (Throw "config: top-level must be a mapping")
          end
      | Some (Ok (_, l :: _)) =>
          Some (Throw ("config parse error at line " +:+ pretty (s_lineno l) +:+
                       ": unexpected content / bad indentation"))
      end
  end.
