(* ===== verification/YamlProps.v ===== *)
(** * The configuration parser terminates and inverts a printer

    [parse_terminates]: the recursive-descent parser of [Yaml] needs no more
    fuel than [parse_fuel], whatever the file.  [yaml_roundtrip]: a tree printed
    in the layout of [config/config.example.yaml] parses back to itself, line
    numbers aside. *)
From stdpp Require Import base strings list.
From Stdlib Require Import ZArith Lia Ascii Sorted.
From S2P Require Import Prelude.
From S2P Require Import Yaml.
Open Scope Z_scope.

(** ** Every call consumes its first line *)
(** What a call leaves is a suffix of what it was given; a call at the indentation
    of its first line leaves a suffix of the other lines. *)
Definition leaves (r : option (res (YamlNode * list SrcLine))) (lines : list SrcLine) : Prop :=
  forall n rest, r = Some (Ok (n, rest)) -> rest `suffix_of` lines.

Lemma parse_leaves : forall fuel,
  (forall l rest, leaves (parse_node fuel (l :: rest) (s_indent l)) rest)
  /\ (forall lines indent m line, leaves (parse_map_loop fuel lines indent m line) lines)
  /\ (forall lines indent its line, leaves (parse_seq_loop fuel lines indent its line) lines)
  /\ (forall l rest m line k, split_colon (s_text l) = Some k -> is_item (s_text l) = false ->
        leaves (parse_map_loop fuel (l :: rest) (s_indent l) m line) rest)
  /\ (forall l rest its line, is_item (s_text l) = true ->
        leaves (parse_seq_loop fuel (l :: rest) (s_indent l) its line) rest).
Proof.
  induction fuel as [|fuel (Hn & Hm & Hs & Hm1 & Hs1)]; [repeat split; unfold leaves; by intros|].
  assert (Hnode : forall rest indent l', deeper indent rest = Some l' ->
            leaves (parse_node fuel rest (s_indent l')) rest).
  { intros [|l rest] indent l' Hd n r Hr; [done|]. cbn in Hd. case_decide; simplify_eq.
    apply suffix_cons_r. eapply Hn, Hr. }
  assert (Hm1' : forall l rest m line k, split_colon (s_text l) = Some k -> is_item (s_text l) = false ->
            leaves (parse_map_loop (S fuel) (l :: rest) (s_indent l) m line) rest).
  { intros l rest m line [k v] Hc Hi n r. cbn -[decide map_insert]. rewrite decide_True by done. rewrite Hi, Hc.
    destruct (strip v); [|by intros ?%Hm].
    destruct (deeper (s_indent l) rest) as [l'|] eqn:Hd; [|by intros ?%Hm].
    destruct (parse_node fuel rest (s_indent l')) as [[[child rest']|]|] eqn:Hp; try done.
    intros Hr%Hm. etrans; [exact Hr|]. exact (Hnode _ _ _ Hd _ _ Hp). }
  assert (Hs1' : forall l rest its line, is_item (s_text l) = true ->
            leaves (parse_seq_loop (S fuel) (l :: rest) (s_indent l) its line) rest).
  { intros l rest its line Hi n r. cbn -[drop]. rewrite bool_decide_eq_true_2 by done. rewrite Hi. cbn -[drop].
    destruct (drop _ (s_text l)) eqn:Hdr.
    - destruct (deeper (s_indent l) rest) as [l'|] eqn:Hd; [|by intros ?%Hs].
      destruct (parse_node fuel rest (s_indent l')) as [[[child rest']|]|] eqn:Hp; try done.
      intros Hr%Hs. etrans; [exact Hr|]. exact (Hnode _ _ _ Hd _ _ Hp).
    - destruct (parse_node fuel _ _) as [[[child rest']|]|] eqn:Hp; try done.
      intros Hr%Hs. etrans; [exact Hr|].
      exact (Hn (mkLine _ _ _) rest _ _ Hp). }
  split_and!; [| | |exact Hm1'|exact Hs1'].
  - intros l rest n r. cbn [parse_node]. destruct (is_item (s_text l)) eqn:Hi; [eapply Hs1, Hi|].
    destruct (split_colon (s_text l)) eqn:Hc; [exact (Hm1 _ _ _ _ _ Hc Hi n r)|]. by intros [= _ <-].
  - intros [|l rest] indent m line n r Hr; [by injection Hr as _ <-|].
    destruct (decide (s_indent l = indent)) as [<-|Hne].
    + destruct (is_item (s_text l)) eqn:Hi.
      * cbn in Hr. rewrite decide_True, Hi in Hr by done. by simplify_eq.
      * destruct (split_colon (s_text l)) as [k|] eqn:Hc.
        -- apply suffix_cons_r. exact (Hm1' _ _ _ _ _ Hc Hi _ _ Hr).
        -- cbn in Hr. rewrite decide_True, Hi, Hc in Hr by done. done.
    + cbn in Hr. rewrite decide_False in Hr by done. by simplify_eq.
  - intros [|l rest] indent its line n r Hr; [by injection Hr as _ <-|].
    destruct (decide (s_indent l = indent)) as [<-|Hne].
    + destruct (is_item (s_text l)) eqn:Hi; [apply suffix_cons_r; exact (Hs1' _ _ _ _ Hi _ _ Hr)|].
      cbn in Hr. rewrite Hi, andb_false_r in Hr. by simplify_eq.
    + cbn in Hr. rewrite bool_decide_eq_false_2 in Hr by done. by injection Hr as _ <-.
Qed.

(** ** Termination *)
Lemma weight_app a b : weight (a ++ b) = (weight a + weight b)%nat.
Proof. unfold weight. induction a as [|l a IH]; cbn [app foldr]; [done|]. rewrite IH. lia. Qed.
Lemma weight_suffix a b : a `suffix_of` b -> (weight a <= weight b)%nat.
Proof. intros [c ->]. rewrite weight_app. lia. Qed.

Lemma deeper_cons indent l rest l' : deeper indent (l :: rest) = Some l' -> l = l' /\ indent < s_indent l.
Proof. cbn. case_decide; by intros [= ->]. Qed.
Lemma item_nonempty t : is_item t = true -> (0 < length t)%nat.
Proof. destruct t; [done|]. cbn. lia. Qed.

(** What fuel [weight + 2] (a node) or [weight + 1] (a loop) is enough for. *)
Lemma parse_enough : forall fuel,
  (forall l rest, (weight (l :: rest) + 2 <= fuel)%nat -> is_Some (parse_node fuel (l :: rest) (s_indent l)))
  /\ (forall lines indent m line, (weight lines + 1 <= fuel)%nat ->
        is_Some (parse_map_loop fuel lines indent m line))
  /\ (forall lines indent its line, (weight lines + 1 <= fuel)%nat ->
        is_Some (parse_seq_loop fuel lines indent its line)).
Proof.
  induction fuel as [|fuel (Hn & Hm & Hs)]; [split_and!; intros; lia|].
  destruct (parse_leaves fuel) as (Ln & _).
  split_and!.
  - intros l rest Hf. cbn [parse_node]. destruct (is_item _); [apply Hs; lia|].
    destruct (split_colon _); [apply Hm; lia|done].
  - intros [|l rest] indent m line Hf; [done|]. cbn [parse_map_loop].
    change (weight (l :: rest)) with (2 + 2 * length (s_text l) + weight rest)%nat in Hf.
    case_decide; [|done]. destruct (is_item _); [done|].
    destruct (split_colon _) as [[k v]|]; [|done].
    destruct (strip v); [|apply Hm; lia].
    destruct rest as [|l1 rest]; [apply Hm; lia|].
    destruct (deeper indent (l1 :: rest)) as [l'|] eqn:Hd; [|apply Hm; lia].
    apply deeper_cons in Hd as [-> _].
    destruct (Hn l' rest) as [[[child rest']|e] Hp]; [lia| |by rewrite Hp].
    rewrite Hp. apply Hm. apply Ln, weight_suffix in Hp. cbn [weight foldr] in Hf. fold (weight rest) in Hf. lia.
  - intros [|l rest] indent its line Hf; [done|]. cbn [parse_seq_loop].
    change (weight (l :: rest)) with (2 + 2 * length (s_text l) + weight rest)%nat in Hf.
    destruct (_ && _) eqn:Hi; [|done]. apply andb_true_iff in Hi as [_ Hi]. apply item_nonempty in Hi.
    destruct (drop _ (s_text l)) as [|a content] eqn:Hdr.
    + destruct rest as [|l1 rest]; [apply Hs; lia|].
      destruct (deeper indent (l1 :: rest)) as [l'|] eqn:Hd; [|apply Hs; lia].
      apply deeper_cons in Hd as [-> _].
      destruct (Hn l' rest) as [[[child rest']|e] Hp]; [lia| |by rewrite Hp].
      rewrite Hp. apply Hs. apply Ln, weight_suffix in Hp. cbn [weight foldr] in Hf. fold (weight rest) in Hf. lia.
    + apply (f_equal length) in Hdr. rewrite length_drop in Hdr.
      edestruct (Hn (mkLine (indent + Z.of_nat (S (count_while is_space (drop 1 (s_text l))))) (s_lineno l)
        (a :: content)) rest) as [[[child rest']|e] Hp].
      * cbn [weight foldr s_text]. fold (weight rest). lia.
      * cbn [s_indent] in Hp. rewrite Hp. apply Hs. pose proof (Ln (mkLine _ _ _) rest _ _ Hp) as Hl%weight_suffix. lia.
      * cbn [s_indent] in Hp. by rewrite Hp.
Qed.

(** The configuration parser terminates on every file: the recursive descent
    of [parse_node], [parse_map] and [parse_seq] with the fuel [parse_fuel] of the
    tokenized lines never runs out, so [load_config] gets a tree or an error. *)
Lemma parse_terminates (path : string) (content : text) :
  exists r, parse_config_text path content = Some r.
Proof.
  unfold parse_config_text. destruct (tokenize content) as [[|l rest]|m]; [eauto| |eauto].
  destruct (proj1 (parse_enough (parse_fuel (l :: rest))) l rest) as [r ->]; [unfold parse_fuel; lia|].
  destruct r as [[root [|l' rest']]|m]; [destruct root; eauto|eauto|eauto].
Qed.

(** ** More fuel changes nothing *)
Lemma parse_more : forall fuel,
  (forall lines indent r, parse_node fuel lines indent = Some r -> parse_node (S fuel) lines indent = Some r)
  /\ (forall lines indent m line r, parse_map_loop fuel lines indent m line = Some r ->
        parse_map_loop (S fuel) lines indent m line = Some r)
  /\ (forall lines indent its line r, parse_seq_loop fuel lines indent its line = Some r ->
        parse_seq_loop (S fuel) lines indent its line = Some r).
Proof.
  induction fuel as [|fuel (Hn & Hm & Hs)]; [split_and!; by intros|].
  split_and!.
  - intros [|l rest] indent r; [done|]. cbn [parse_node]. destruct (is_item _); [apply Hs|].
    destruct (split_colon _); [apply Hm|done].
  - intros [|l rest] indent m line r; [done|].
    remember (S fuel) as fuel' eqn:Hfuel. cbn [parse_map_loop]. rewrite Hfuel at 1. cbn [parse_map_loop].
    case_decide; [|done]. destruct (is_item _); [done|].
    destruct (split_colon _) as [[k v]|]; [|done]. destruct (strip v); [|apply Hm].
    destruct (deeper indent rest) as [l'|]; [|apply Hm].
    destruct (parse_node fuel rest _) as [x|] eqn:Hp; [|done]. rewrite (Hn _ _ _ Hp).
    destruct x as [[child rest']|]; [apply Hm|done].
  - intros [|l rest] indent its line r; [done|].
    remember (S fuel) as fuel' eqn:Hfuel. cbn [parse_seq_loop]. rewrite Hfuel at 1. cbn [parse_seq_loop].
    destruct (_ && _); [|done]. destruct (drop _ (s_text l)).
    + destruct (deeper indent rest) as [l'|]; [|apply Hs].
      destruct (parse_node fuel rest _) as [x|] eqn:Hp; [|done]. rewrite (Hn _ _ _ Hp).
      destruct x as [[child rest']|]; [apply Hs|done].
    + destruct (parse_node fuel _ _) as [x|] eqn:Hp; [|done]. rewrite (Hn _ _ _ Hp).
      destruct x as [[child rest']|]; [apply Hs|done].
Qed.
Lemma parse_node_mono f f' lines indent r :
  (f <= f')%nat -> parse_node f lines indent = Some r -> parse_node f' lines indent = Some r.
Proof. induction 1; [done|]. intros ?. by apply parse_more, IHle. Qed.
Lemma parse_map_mono f f' lines indent m line r :
  (f <= f')%nat -> parse_map_loop f lines indent m line = Some r -> parse_map_loop f' lines indent m line = Some r.
Proof. induction 1; [done|]. intros ?. by apply parse_more, IHle. Qed.
Lemma parse_seq_mono f f' lines indent its line r :
  (f <= f')%nat -> parse_seq_loop f lines indent its line = Some r -> parse_seq_loop f' lines indent its line = Some r.
Proof. induction 1; [done|]. intros ?. by apply parse_more, IHle. Qed.

(** ** The printer *)

(** A node without its line numbers. *)
Fixpoint erase (t : YamlNode) : YamlNode :=
  match t with
  | YEmpty _ => YEmpty 0
  | YScalar s _ => YScalar s 0
  | YMap m _ => YMap (List.map (fun '(k, v) => (k, erase v)) m) 0
  | YSeq l _ => YSeq (List.map erase l) 0
  end.

(** A line of the output: its indentation and its text.  Blocks are indented by
    two; an item begins on the line of its dash. *)
Definition dash (indent : nat) (lines : list (nat * text)) : list (nat * text) :=
  match lines with
  | [] => [(indent, ["-"%char])]
  | (_, t) :: rest => (indent, "-"%char :: space :: t) :: rest
  end.
Fixpoint print_node (indent : nat) (t : YamlNode) : list (nat * text) :=
  match t with
  | YEmpty _ => []
  | YScalar s _ => [(indent, chars s)]
  | YMap m _ =>
      mjoin (List.map (fun '(k, v) =>
        match v with
        | YScalar s _ => [(indent, chars k ++ ":"%char :: space :: chars s)]
        | _ => (indent, chars k ++ [":"%char]) :: print_node (indent + 2) v
        end) m)
  | YSeq l _ => mjoin (List.map (fun v => dash indent (print_node (indent + 2) v)) l)
  end.
Definition render (lines : list (nat * text)) : text :=
  mjoin (List.map (fun '(i, t) => replicate i space ++ t ++ [newline]) lines).

(** The trees the syntax can express: no comment or newline character, nothing to
    strip, sorted keys without colon, no empty map or sequence, and no scalar item
    that reads as an entry or as an item. *)
Definition no_blank (o : option ascii) : bool := match o with Some c => negb (is_blank c) | None => true end.
Definition clean (t : text) : bool :=
  forallb (fun c => negb (bool_decide (c = "#"%char)) && negb (bool_decide (c = newline))) t
  && no_blank (head t) && no_blank (last t).
Definition no_colon (t : text) : bool := match split_colon t with None => true | Some _ => false end.
Definition good_key (k : string) : bool := clean (chars k) && no_colon (chars k) && negb (is_item (chars k)).
Definition good_item (t : YamlNode) : bool :=
  match t with YScalar s _ => no_colon (chars s) && negb (is_item (chars s)) | _ => true end.
Fixpoint keys_sorted {A} (m : list (string * A)) : bool :=
  match m with
  | [] => true
  | (k, _) :: m => forallb (fun '(k', _) => bool_decide (String.compare k k' = Lt)) m && keys_sorted m
  end.
Definition nonempty {A} (l : list A) : bool := match l with [] => false | _ => true end.
Fixpoint expressible (t : YamlNode) : bool :=
  match t with
  | YEmpty _ => true
  | YScalar s _ => clean (chars s) && nonempty (chars s)
  | YMap m _ => nonempty m && keys_sorted m && forallb (fun '(k, v) => good_key k && expressible v) m
  | YSeq l _ => nonempty l && forallb (fun v => good_item v && expressible v) l
  end.

(** ** Texts *)
Lemma clean_spec t : clean t = true <->
  Forall (fun c => c <> "#"%char /\ c <> newline) t /\ no_blank (head t) = true /\ no_blank (last t) = true.
Proof.
  unfold clean. rewrite !andb_true_iff, forallb_forall, Forall_forall. setoid_rewrite andb_true_iff.
  setoid_rewrite negb_true_iff. setoid_rewrite bool_decide_eq_false. setoid_rewrite list_elem_of_In. tauto.
Qed.
Lemma drop_while_blank t : no_blank (head t) = true -> drop_while is_blank t = t.
Proof. destruct t as [|c t]; [done|]. cbn. by intros ->%negb_true_iff. Qed.
Lemma rstrip_clean t : no_blank (last t) = true -> rstrip t = t.
Proof.
  intros H. unfold rstrip. rewrite drop_while_blank; [apply reverse_involutive|]. by rewrite head_reverse.
Qed.
Lemma strip_clean t : clean t = true -> strip t = t.
Proof.
  intros (_ & Hh & Hl)%clean_spec. unfold strip. rewrite drop_while_blank by done. by apply rstrip_clean.
Qed.
Lemma strip_space t : strip (space :: t) = strip t.
Proof. reflexivity. Qed.

Lemma split_colon_app k v : no_colon k = true -> split_colon (k ++ ":"%char :: v) = Some (k, v).
Proof.
  unfold no_colon. induction k as [|c k IH]; [done|]. cbn. case_decide; [done|].
  destruct (split_colon k) as [[??]|]; [done|]. by intros ->%IH.
Qed.
Lemma not_item_app k v : is_item k = false -> is_item (k ++ ":"%char :: v) = false.
Proof.
  destruct k as [|c [|c' k]]; [by destruct v| |done].
  change (bool_decide (c = "-"%char) = false -> bool_decide (c = "-"%char) && bool_decide (":"%char = space) = false).
  by intros ->.
Qed.

Lemma last_app_cons {A} (a : list A) x b : last (a ++ x :: b) = last (x :: b).
Proof. rewrite last_app. destruct (last (x :: b)) eqn:E; [done|]. by apply last_None in E. Qed.
Lemma clean_entry k s : clean k = true -> clean s = true -> s <> [] -> clean (k ++ ":"%char :: space :: s) = true.
Proof.
  intros (Hk & Hh & _)%clean_spec (Hs & _ & Hl)%clean_spec Hne. apply clean_spec. split_and!.
  - rewrite Forall_app. split; [done|]. by repeat constructor.
  - destruct k; [done|exact Hh].
  - rewrite last_app_cons. destruct s; [done|exact Hl].
Qed.
Lemma clean_key k : clean k = true -> clean (k ++ [":"%char]) = true.
Proof.
  intros (Hk & Hh & _)%clean_spec. apply clean_spec. split_and!.
  - rewrite Forall_app. split; [done|]. by repeat constructor.
  - destruct k; [done|exact Hh].
  - by rewrite last_app_cons.
Qed.
Lemma clean_dash t : clean t = true -> t <> [] -> clean ("-"%char :: space :: t) = true.
Proof.
  intros (Hk & _ & Hl)%clean_spec Hne. apply clean_spec. split_and!; [by repeat constructor|done|].
  destruct t; [done|exact Hl].
Qed.
Lemma item_dash t : clean t = true -> t <> [] ->
  is_item ("-"%char :: space :: t) = true
  /\ count_while is_space (drop 1 ("-"%char :: space :: t)) = 1%nat.
Proof.
  intros (_ & Hh & _)%clean_spec Hne. split; [done|]. destruct t as [|c t]; [done|].
  change (S (count_while is_space (c :: t)) = 1%nat). f_equal. cbn in *. apply negb_true_iff in Hh.
  unfold is_blank in Hh. unfold is_space. by destruct (bool_decide (c = space)).
Qed.

(** ** The printed lines *)
Lemma YamlNode_nested_ind (P : YamlNode -> Prop) :
  (forall l, P (YEmpty l)) -> (forall s l, P (YScalar s l)) ->
  (forall m l, Forall (fun kv => P kv.2) m -> P (YMap m l)) ->
  (forall its l, Forall P its -> P (YSeq its l)) -> forall t, P t.
Proof.
  intros He Hs Hm Hq. refine (fix go t := match t with YEmpty l => He l | YScalar s l => Hs s l
    | YMap m l => Hm m l _ | YSeq its l => Hq its l _ end).
  - induction m as [|[k v] m IH]; constructor; [apply go|exact IH].
  - induction its as [|v its IH]; constructor; [apply go|exact IH].
Qed.

Definition entry_lines (indent : nat) (kv : string * YamlNode) : list (nat * text) :=
  match kv.2 with
  | YScalar s _ => [(indent, chars kv.1 ++ ":"%char :: space :: chars s)]
  | v => (indent, chars kv.1 ++ [":"%char]) :: print_node (indent + 2) v
  end.
Lemma print_map indent m l : print_node indent (YMap m l) = mjoin (List.map (entry_lines indent) m).
Proof. cbn. f_equal. apply List.map_ext. by intros [k []]. Qed.

Lemma expressible_map m l : expressible (YMap m l) = true ->
  nonempty m = true /\ keys_sorted m = true
  /\ Forall (fun kv => good_key kv.1 = true /\ expressible kv.2 = true) m.
Proof.
  cbn. rewrite !andb_true_iff, forallb_forall. intros ((? & ?) & Hall). split_and!; [done..|].
  apply Forall_forall. intros [k v] Hin. apply list_elem_of_In, Hall in Hin. by apply andb_true_iff.
Qed.
Lemma expressible_seq its l : expressible (YSeq its l) = true ->
  nonempty its = true /\ Forall (fun v => good_item v = true /\ expressible v = true) its.
Proof.
  cbn. rewrite !andb_true_iff, forallb_forall. intros (? & Hall). split; [done|].
  apply Forall_forall. intros v Hin. apply list_elem_of_In, Hall in Hin. by apply andb_true_iff.
Qed.
Lemma good_key_spec k : good_key k = true ->
  clean (chars k) = true /\ no_colon (chars k) = true /\ is_item (chars k) = false.
Proof. unfold good_key. rewrite !andb_true_iff, negb_true_iff. tauto. Qed.
Lemma expressible_scalar s l : expressible (YScalar s l) = true -> clean (chars s) = true /\ chars s <> [].
Proof. cbn. rewrite andb_true_iff. intros [? Hn]. split; [done|]. by destruct (chars s). Qed.

Definition printable (p : nat * text) : Prop := clean p.2 = true /\ p.2 <> [].
Lemma print_printable t : forall indent, expressible t = true -> Forall printable (print_node indent t).
Proof.
  induction t as [l|s l|m l IH|its l IH] using YamlNode_nested_ind; intros indent He.
  - constructor.
  - apply expressible_scalar in He. constructor; [exact He|constructor].
  - rewrite print_map. apply expressible_map in He as (_ & _ & He).
    induction IH as [|[k v] m Hv _ IHm]; [constructor|]. apply Forall_cons in He as [[Hk Hev] He].
    cbn [List.map]. change (mjoin (?a :: ?b)) with (a ++ mjoin b). apply Forall_app. split; [|by apply IHm].
    apply good_key_spec in Hk as (Hk & _ & _). cbn in Hk, Hev, Hv. unfold entry_lines. cbn [fst snd].
    assert (Hline : printable (indent, chars k ++ [":"%char])).
    { split; [by apply clean_key|]. by destruct (chars k). }
    destruct v as [|s ?| |]; try (constructor; [exact Hline|by apply Hv]).
    constructor; [|constructor]. apply expressible_scalar in Hev as [Hs Hne].
    split; [by apply clean_entry|]. by destruct (chars k).
  - apply expressible_seq in He as (_ & He). cbn [print_node].
    induction IH as [|v its Hv _ IHs]; [constructor|]. apply Forall_cons in He as [[_ Hev] He].
    cbn [List.map]. change (mjoin (?a :: ?b)) with (a ++ mjoin b). apply Forall_app. split; [|by apply IHs].
    specialize (Hv (indent + 2)%nat Hev). destruct (print_node (indent + 2) v) as [|[i t] rest]; cbn [dash].
    + by repeat constructor.
    + apply Forall_cons in Hv as [[Ht Hne] Hv]. constructor; [|done]. split; [by apply clean_dash|done].
Qed.
Lemma print_head t indent : expressible t = true ->
  match t with YEmpty _ => True | _ => exists txt rest, print_node indent t = (indent, txt) :: rest end.
Proof.
  destruct t as [l|s l|m l|its l]; intros He; [done|eexists _, _; done| |].
  - rewrite print_map. apply expressible_map in He as (Hn & _). destruct m as [|[k []] m]; try done; eexists _, _; done.
  - apply expressible_seq in He as (Hn & _). destruct its as [|v its]; [done|]. cbn [print_node List.map].
    destruct (print_node (indent + 2) v) as [|[i t] rest]; eexists _, _; done.
Qed.

(** ** Parsing the printed lines *)
Definition shows (l : SrcLine) (p : nat * text) : Prop := s_indent l = Z.of_nat p.1 /\ s_text l = p.2.
Definition below (indent : nat) (rest : list SrcLine) : Prop :=
  match rest with l :: _ => s_indent l < Z.of_nat indent | [] => True end.
Definition is_block (t : YamlNode) : bool := match t with YEmpty _ => false | _ => true end.
Definition parses (t : YamlNode) : Prop := forall indent ls rest,
  expressible t = true -> good_item t = true -> is_block t = true ->
  Forall2 shows ls (print_node indent t) -> below indent rest ->
  exists fuel t', parse_node fuel (ls ++ rest) (Z.of_nat indent) = Some (Ok (t', rest)) /\ erase t' = erase t.

Lemma deeper_below indent rest : below (S indent) rest -> deeper (Z.of_nat indent) rest = None.
Proof. destruct rest as [|l rest]; [done|]. cbn -[Z.of_nat]. intros. by rewrite decide_False by lia. Qed.
Lemma below_le i j rest : (i <= j)%nat -> below i rest -> below j rest.
Proof. destruct rest; [done|]. unfold below. lia. Qed.
Lemma below_head indent ls rest lines : Forall2 shows ls lines ->
  match lines with p :: _ => (p.1 < indent)%nat | [] => below indent rest end -> below indent (ls ++ rest).
Proof. intros [|l p ls' lines' [Hi _] _] Hb; [done|]. cbn. lia. Qed.
Lemma entries_below indent m ls rest : Forall2 shows ls (mjoin (List.map (entry_lines indent) m)) ->
  below indent rest -> below (S indent) (ls ++ rest).
Proof.
  intros H Hb. eapply below_head; [exact H|]. destruct m as [|[k []] m]; cbn; try lia. by eapply below_le; [|exact Hb]; lia.
Qed.
Lemma items_below indent its ls rest :
  Forall2 shows ls (mjoin (List.map (fun v => dash indent (print_node (indent + 2) v)) its)) ->
  below indent rest -> below (S indent) (ls ++ rest).
Proof.
  intros H Hb. eapply below_head; [exact H|]. destruct its as [|v its]; cbn; [by eapply below_le; [|exact Hb]; lia|].
  destruct (print_node (indent + 2) v) as [|[i t] ?]; cbn; lia.
Qed.

Lemma map_insert_last {A} k (v : A) m :
  (forall k' v', (k', v') ∈ m -> String.compare k' k = Lt) -> map_insert k v m = m ++ [(k, v)].
Proof.
  induction m as [|[k' v'] m IH]; intros Hlt; [done|]. cbn.
  rewrite String.compare_antisym, (Hlt k' v') by (left). cbn. rewrite IH; [done|]. intros ???. eapply Hlt. by right.
Qed.

(** The value of a key whose line has nothing after the colon. *)
Definition parse_value (fuel : nat) (lines : list SrcLine) (indent lineno : Z) : option (res (YamlNode * list SrcLine)) :=
  match deeper indent lines with
  | Some l' => parse_node fuel lines (s_indent l')
  | None => Some (Ok (YEmpty lineno, lines))
  end.
Lemma map_step_block f l rest indent m line k child rest' :
  s_indent l = indent -> is_item (s_text l) = false -> split_colon (s_text l) = Some (k, []) ->
  parse_value f rest indent (s_lineno l) = Some (Ok (child, rest')) ->
  parse_map_loop (S f) (l :: rest) indent m line
  = parse_map_loop f rest' indent (map_insert (str (strip k)) child m) line.
Proof.
  intros Hi Ht Hc Hv. cbn [parse_map_loop]. rewrite decide_True, Ht, Hc by done. unfold parse_value in Hv.
  destruct (deeper indent rest); cbn [strip rstrip]; [by rewrite Hv|]. by simplify_eq.
Qed.
Lemma map_step_scalar f l rest indent m line k s :
  s_indent l = indent -> is_item (s_text l) = false -> split_colon (s_text l) = Some (k, space :: chars s) ->
  clean (chars s) = true -> chars s <> [] ->
  parse_map_loop (S f) (l :: rest) indent m line
  = parse_map_loop f rest indent (map_insert (str (strip k)) (YScalar s (s_lineno l)) m) line.
Proof.
  intros Hi Ht Hc Hs Hne. cbn [parse_map_loop]. rewrite decide_True, Ht, Hc by done.
  rewrite strip_space, strip_clean by done. rewrite <- (str_chars s) at 2. by destruct (chars s).
Qed.
Lemma map_stop f indent rest m line : below indent rest ->
  parse_map_loop (S f) rest (Z.of_nat indent) m line = Some (Ok (YMap m line, rest)).
Proof. destruct rest as [|l rest]; [done|]. intros Hb. cbn -[Z.of_nat] in *. by rewrite decide_False by lia. Qed.
Lemma seq_stop f indent rest its line : below indent rest ->
  parse_seq_loop (S f) rest (Z.of_nat indent) its line = Some (Ok (YSeq its line, rest)).
Proof.
  destruct rest as [|l rest]; [done|]. intros Hb. cbn -[Z.of_nat] in *. by rewrite bool_decide_eq_false_2 by lia.
Qed.

(** The block printed under a key is its value. *)
Lemma parse_value_spec v indent ls rest lineno :
  parses v -> expressible v = true -> good_item v = true -> Forall2 shows ls (print_node (indent + 2) v) ->
  below (S indent) rest ->
  exists fuel t', parse_value fuel (ls ++ rest) (Z.of_nat indent) lineno = Some (Ok (t', rest)) /\ erase t' = erase v.
Proof.
  intros Hp He Hg Hls Hb. unfold parse_value. destruct (is_block v) eqn:Hv.
  - destruct (Hp (indent + 2)%nat ls rest He Hg Hv Hls) as (f & t' & Hf & Ht); [eapply below_le; [|exact Hb]; lia|].
    exists f, t'. split; [|done]. pose proof (print_head v (indent + 2) He) as Hh.
    assert (exists txt more, print_node (indent + 2) v = ((indent + 2)%nat, txt) :: more) as (txt & more & Hpr) by (by destruct v).
    rewrite Hpr in Hls. inversion Hls as [|l p ls' lines' [Hi _] _]; subst. cbn in *.
    rewrite decide_True by lia. by rewrite Hi.
  - destruct v; try done. apply Forall2_nil_inv_r in Hls as ->. cbn [app]. rewrite deeper_below by done.
    exists O. eexists. split; [done|]. done.
Qed.

(** One printed entry adds its child to the map. *)
Lemma parse_entry indent rest line acc k v l1 :
  parses v -> good_key k = true -> expressible v = true ->
  (forall k' v', (k', v') ∈ acc -> String.compare k' k = Lt) ->
  Forall2 shows l1 (entry_lines indent (k, v)) -> below (S indent) rest ->
  exists f c, erase c = erase v /\ forall f', (f <= f')%nat ->
    parse_map_loop (S f') (l1 ++ rest) (Z.of_nat indent) acc line
    = parse_map_loop f' rest (Z.of_nat indent) (acc ++ [(k, c)]) line.
Proof.
  intros Hp (Hkc & Hkn & Hki)%good_key_spec Hev Hacc H1 Hb2.
  assert (Hins : forall c, map_insert k c acc = acc ++ [(k, c)]) by (intros; by apply map_insert_last).
  assert (Hentry : (exists s l, v = YScalar s l) \/ (good_item v = true /\
    entry_lines indent (k, v) = (indent, chars k ++ [":"%char]) :: print_node (indent + 2) v)).
  { destruct v; eauto. }
  destruct Hentry as [(s & ln & ->)|[Hgi Hel]].
  - inversion H1 as [|l p ls' ? [Hi Ht] Hnil]; subst. inversion Hnil; subst. cbn [fst snd] in *.
    apply expressible_scalar in Hev as [Hs Hne].
    exists O, (YScalar s (s_lineno l)). split; [done|]. intros f' _. cbn [app]. rewrite <- Hins.
    rewrite (map_step_scalar f' l _ _ _ _ (chars k) s); rewrite ?Ht; try done;
      [|by apply not_item_app|by apply split_colon_app].
    by rewrite strip_clean, str_chars.
  - rewrite Hel in H1. inversion H1 as [|l p ls' ? [Hi Ht] Hls']; subst. cbn [fst snd] in *.
    destruct (parse_value_spec v indent ls' rest (s_lineno l) Hp Hev Hgi Hls' Hb2) as (f & c & Hf & Hc).
    exists f, c. split; [done|]. intros f' Hle. cbn [app]. rewrite <- Hins.
    rewrite (map_step_block f' l _ _ _ _ (chars k) c rest); rewrite ?Ht; try done;
      [by rewrite strip_clean, str_chars|by apply not_item_app|by apply split_colon_app|].
    unfold parse_value in *. destruct (deeper _ _); [by eapply parse_node_mono|done].
Qed.
Lemma parse_entries indent rest line m : below indent rest -> Forall (fun kv => parses kv.2) m ->
  Forall (fun kv => good_key kv.1 = true /\ expressible kv.2 = true) m -> keys_sorted m = true ->
  forall ls acc, Forall2 shows ls (mjoin (List.map (entry_lines indent) m)) ->
  (forall k v k' v', (k, v) ∈ acc -> (k', v') ∈ m -> String.compare k k' = Lt) ->
  exists fuel m', parse_map_loop fuel (ls ++ rest) (Z.of_nat indent) acc line = Some (Ok (YMap (acc ++ m') line, rest))
    /\ List.map (fun '(k, v) => (k, erase v)) m' = List.map (fun '(k, v) => (k, erase v)) m.
Proof.
  intros Hb Hps. induction Hps as [|[k v] m Hp _ IH]; intros Hg Hk ls acc Hls Hacc.
  { apply Forall2_nil_inv_r in Hls as ->. exists 1%nat, []. rewrite map_stop, app_nil_r by done. done. }
  apply Forall_cons in Hg as [[Hgk Hev] Hg]. apply andb_true_iff in Hk as [Hlt Hk].
  cbn [fst snd] in *.
  assert (Hnext : forall c k1 v1 k2 v2, (k1, v1) ∈ acc ++ [(k, c)] -> (k2, v2) ∈ m -> String.compare k1 k2 = Lt).
  { intros c k1 v1 k2 v2 [Hin|Hin]%elem_of_app Hin2; [eapply (Hacc k1 v1 k2 v2); [done|by right]|].
    apply list_elem_of_singleton in Hin as [= -> ->]. rewrite forallb_forall in Hlt.
    apply list_elem_of_In, Hlt, bool_decide_eq_true in Hin2. done. }
  cbn [List.map] in Hls. change (mjoin (?a :: ?b)) with (a ++ mjoin b) in Hls.
  apply Forall2_app_inv_r in Hls as (l1 & l2 & H1 & H2 & ->).
  assert (Hb2 : below (S indent) (l2 ++ rest)) by (by eapply entries_below).
  destruct (parse_entry indent (l2 ++ rest) line acc k v l1) as (f & c & Hc & Hstep); [done..| |done|done|].
  { intros k' v' Hin. apply (Hacc k' v' k v Hin). by left. }
  destruct (IH Hg Hk l2 (acc ++ [(k, c)]) H2 (Hnext c)) as (f2 & m' & Hf2 & Hm').
  exists (S (f `max` f2)), ((k, c) :: m'). rewrite <- app_assoc, Hstep by lia. split.
  - rewrite <- app_assoc in Hf2. eapply parse_map_mono; [|exact Hf2]. lia.
  - cbn. by rewrite Hc, Hm'.
Qed.

Lemma parse_items indent rest line its : below indent rest -> Forall parses its ->
  Forall (fun v => good_item v = true /\ expressible v = true) its ->
  forall ls acc,
  Forall2 shows ls (mjoin (List.map (fun v => dash indent (print_node (indent + 2) v)) its)) ->
  exists fuel its', parse_seq_loop fuel (ls ++ rest) (Z.of_nat indent) acc line
    = Some (Ok (YSeq (acc ++ its') line, rest)) /\ List.map erase its' = List.map erase its.
Proof.
  intros Hb Hps. induction Hps as [|v its Hp _ IH]; intros Hg ls acc Hls.
  { apply Forall2_nil_inv_r in Hls as ->. exists 1%nat, []. rewrite seq_stop, app_nil_r by done. done. }
  apply Forall_cons in Hg as [[Hgi Hev] Hg].
  cbn [List.map] in Hls. change (mjoin (?a :: ?b)) with (a ++ mjoin b) in Hls.
  apply Forall2_app_inv_r in Hls as (l1 & l2 & H1 & H2 & ->).
  assert (Hb2 : below (S indent) (l2 ++ rest)) by (by eapply items_below).
  pose proof (print_printable v (indent + 2) Hev) as Hpr. pose proof (print_head v (indent + 2) Hev) as Hhd.
  destruct (print_node (indent + 2) v) as [|[i t] more] eqn:Hpn; cbn [dash] in H1;
    inversion H1 as [|l p ls' ? [Hi Ht] Hls']; subst; cbn [fst snd] in *.
  - inversion Hls'; subst. destruct v as [ln| | |]; try by destruct Hhd as (? & ? & ?).
    destruct (IH Hg l2 (acc ++ [YEmpty (s_lineno l)]) H2) as (f & its' & Hf & Hits).
    exists (S f), (YEmpty (s_lineno l) :: its'). split; [|cbn; by rewrite Hits].
    cbn [app parse_seq_loop]. rewrite bool_decide_eq_true_2, Ht by done. cbn -[deeper parse_seq_loop Z.of_nat].
    rewrite deeper_below by done. by rewrite <- app_assoc in Hf.
  - apply Forall_cons in Hpr as [[Htc Htn] _]. cbn [snd] in *. destruct (item_dash t Htc Htn) as [Hitem Hcount].
    assert (Hblock : is_block v = true) by (by destruct v).
    assert (i = (indent + 2)%nat) as -> by (destruct v; [done|by destruct Hhd as (? & ? & ?); simplify_eq..]).
    set (l' := mkLine (Z.of_nat indent + 2) (s_lineno l) t).
    destruct (Hp (indent + 2)%nat (l' :: ls') (l2 ++ rest) Hev Hgi Hblock) as (f1 & c & Hf1 & Hc).
    { rewrite Hpn. constructor; [|done]. split; [cbn; lia|done]. }
    { eapply below_le; [|exact Hb2]. lia. }
    destruct (IH Hg l2 (acc ++ [c]) H2) as (f2 & its' & Hf2 & Hits).
    exists (S (f1 `max` f2)), (c :: its'). split; [|cbn; by rewrite Hc, Hits].
    cbn [app parse_seq_loop]. rewrite bool_decide_eq_true_2, Ht, Hitem, Hcount by done.
    destruct t as [|a t]; [done|]. cbn -[parse_node parse_seq_loop Z.of_nat Nat.max].
    replace (Z.of_nat (indent + 2)) with (Z.of_nat indent + Z.of_nat 2) in Hf1 by lia.
    rewrite <- app_assoc. eapply parse_node_mono in Hf1; [|apply (Nat.le_max_l f1 f2)].
    change (Z.of_nat indent + 2) with (Z.of_nat indent + Z.of_nat 2) in l'. subst l'. cbn [app] in Hf1.
    rewrite Hf1. rewrite <- app_assoc in Hf2. eapply parse_seq_mono; [|exact Hf2]. lia.
Qed.

Lemma parse_printed t : parses t.
Proof.
  induction t as [l|s l|m l IH|its l IH] using YamlNode_nested_ind; intros indent ls rest He Hg Hblk Hls Hb.
  - done.
  - apply expressible_scalar in He as [Hs Hne]. inversion Hls as [|x p ls' ? [Hi Ht] Hnil]; subst.
    inversion Hnil; subst. cbn [good_item fst snd] in *. apply andb_true_iff in Hg as [Hg Hni%negb_true_iff].
    exists 1%nat. eexists. cbn [app parse_node]. rewrite Ht, Hni. unfold no_colon in Hg.
    destruct (split_colon _); [done|]. rewrite strip_clean, str_chars by done. by split.
  - pose proof (print_head _ indent He) as (txt & more & Hpr). rewrite print_map in Hls.
    rewrite print_map in Hpr. pose proof He as (Hn & Hk & Hf)%expressible_map.
    assert (exists l0 ls0, ls = l0 :: ls0 /\ is_item (s_text l0) = false /\ split_colon (s_text l0) <> None)
      as (l0 & ls0 & -> & Hni & Hc).
    { destruct m as [|[k v] m]; [done|]. apply Forall_cons in Hf as [[(_ & Hkn & Hki)%good_key_spec _] _].
      cbn [fst] in *. destruct v; inversion Hls as [|x p ls' ? [Hi Ht] _]; subst; cbn [fst snd] in *;
        eexists _, _; (split; [done|]); rewrite Ht; (split; [by apply not_item_app|by rewrite split_colon_app]). }
    destruct (parse_entries indent rest (s_lineno l0) m Hb IH Hf Hk _ [] Hls) as (f & m' & Hp & Hm');
      [intros ???? Hin; by apply not_elem_of_nil in Hin|].
    exists (S f), (YMap m' (s_lineno l0)). split; [|cbn; by rewrite Hm'].
    cbn [app parse_node]. rewrite Hni. by destruct (split_colon (s_text l0)).
  - pose proof He as (Hn & Hf)%expressible_seq. cbn [print_node] in Hls.
    assert (exists l0 ls0, ls = l0 :: ls0 /\ is_item (s_text l0) = true) as (l0 & ls0 & -> & Hit).
    { destruct its as [|v its]; [done|]. cbn [List.map] in Hls.
      destruct (print_node (indent + 2) v) as [|[i t] more]; inversion Hls as [|x p ls' ? [Hi Ht] _]; subst;
        cbn [fst snd] in *; eexists _, _; (split; [done|]); by rewrite Ht. }
    destruct (parse_items indent rest (s_lineno l0) its Hb IH Hf _ [] Hls) as (f & its' & Hp & Hits).
    exists (S f), (YSeq its' (s_lineno l0)). split; [|cbn; by rewrite Hits].
    cbn [app parse_node]. by rewrite Hit.
Qed.

(** ** Tokenizing the printed lines *)
Lemma split_lines_cons a : forall rest acc, Forall (fun c => c <> "#"%char /\ c <> newline) a ->
  split_lines (a ++ newline :: rest) acc = (reverse acc ++ a) :: split_lines rest [].
Proof.
  induction a as [|c a IH]; intros rest acc Ha; cbn [app split_lines].
  - rewrite decide_True by done. by rewrite app_nil_r.
  - apply Forall_cons in Ha as [[_ Hc] Ha]. rewrite decide_False, IH by done.
    by rewrite reverse_cons, <- app_assoc.
Qed.
Lemma strip_comment_clean a : Forall (fun c => c <> "#"%char /\ c <> newline) a -> strip_comment a = a.
Proof. induction 1 as [|c a [Hc _] _ IH]; [done|]. cbn. by rewrite decide_False, IH. Qed.
Lemma count_indent p i t : p space = true ->
  match t with c :: _ => p c = false | [] => False end -> count_while p (replicate i space ++ t) = i.
Proof.
  intros Hp Ht. induction i as [|i IH]; cbn [replicate app count_while].
  - destruct t as [|c t]; [done|]. cbn. by rewrite Ht.
  - by rewrite Hp, IH.
Qed.
Lemma drop_while_indent i t : no_blank (head t) = true -> drop_while is_blank (replicate i space ++ t) = t.
Proof. intros Ht. induction i as [|i IH]; [by apply drop_while_blank|exact IH]. Qed.

Lemma tokenize_printed_line lineno i t : printable (i, t) ->
  tokenize_line lineno (replicate i space ++ t) = Ok (Some (mkLine (Z.of_nat i) lineno t)).
Proof.
  intros [(Hc & Hh & Hl)%clean_spec Hne]. cbn [snd] in *. unfold tokenize_line.
  rewrite strip_comment_clean.
  2:{ apply Forall_app. split; [|done]. by apply Forall_replicate. }
  rewrite rstrip_clean.
  2:{ destruct t as [|c t]; [done|]. by rewrite last_app_cons. }
  unfold strip. rewrite drop_while_indent, rstrip_clean by done.
  destruct t as [|c t]; [done|]. cbn in Hh. apply negb_true_iff in Hh. unfold is_blank in Hh.
  apply orb_false_iff in Hh as [[Hs Ht]%orb_false_iff _].
  rewrite !count_indent; [|done|unfold is_space_or_tab; by rewrite Hs|done|exact Hs].
  rewrite (bool_decide_eq_false_2 (i < i)%nat) by lia. rewrite andb_false_r. do 3 f_equal.
  rewrite drop_app_ge, length_replicate, Nat.sub_diag by (rewrite length_replicate; lia). done.
Qed.
Lemma tokenize_printed lines : Forall printable lines -> forall lineno,
  exists ls, tokenize_lines lineno (split_lines (render lines) []) = Ok ls /\ Forall2 shows ls lines.
Proof.
  induction 1 as [|[i t] lines Hp _ IH]; intros lineno; [exists []; by split|].
  destruct (IH (lineno + 1)) as (ls & Hls & Hsh).
  exists (mkLine (Z.of_nat i) lineno t :: ls). split; [|by constructor].
  change (render ((i, t) :: lines)) with ((replicate i space ++ t ++ [newline]) ++ render lines).
  rewrite <- !app_assoc. cbn [app]. rewrite (app_assoc (replicate i space)), split_lines_cons.
  - rewrite reverse_nil. cbn [tokenize_lines app]. rewrite (tokenize_printed_line lineno i t Hp). cbn [res_bind]. by rewrite Hls.
  - destruct Hp as [(Hc & _)%clean_spec _]. apply Forall_app. split; [|done]. by apply Forall_replicate.
Qed.

(** C37. The configuration parser inverts the layout of the example file: a mapping
    whose keys and scalars the syntax can express, printed with nested blocks
    indented by two and items after a dash, is read back by [tokenize] and
    [parse_node] as the same tree, up to the line numbers recorded in it. *)
Theorem yaml_roundtrip (path : string) (m : list (string * YamlNode)) (l : Z) :
  expressible (YMap m l) = true ->
  exists t, parse_config_text path (render (print_node 0 (YMap m l))) = Some (Ok t) /\ erase t = erase (YMap m l).
Proof.
  intros He. destruct (tokenize_printed (print_node 0 (YMap m l)) (print_printable _ 0 He) 1) as (ls & Hls & Hsh).
  destruct (print_head _ 0%nat He) as (txt & more & Hpr).
  destruct (parse_printed (YMap m l) 0%nat ls [] He eq_refl eq_refl Hsh I) as (f & t & Hf & Ht).
  rewrite app_nil_r in Hf. unfold parse_config_text, tokenize. rewrite Hls.
  rewrite Hpr in Hsh. inversion Hsh as [|l0 p ls' ? [Hi _] _]; subst. cbn [fst] in Hi.
  destruct (proj1 (parse_enough (parse_fuel (l0 :: ls'))) l0 ls') as [r Hr]; [unfold parse_fuel; lia|].
  pose proof (parse_node_mono f (f `max` parse_fuel (l0 :: ls')) _ _ _ (Nat.le_max_l _ _) Hf) as H1.
  pose proof (parse_node_mono _ (f `max` parse_fuel (l0 :: ls')) _ _ _ (Nat.le_max_r _ _) Hr) as H2.
  rewrite Hi in *. cbn [Z.of_nat] in *. rewrite H1 in H2. simplify_eq. rewrite Hr.
  destruct t; try done. by eexists.
Qed.
Definition sample_tree : YamlNode :=
  YMap [("arena", YMap [("granularity_mb", YScalar "2" 0); ("per_numa",
           YSeq [YMap [("gpu_windows", YSeq [YMap [("gpu", YScalar "0" 0); ("size_gb", YScalar "64" 0)] 0;
                                             YMap [("gpu", YScalar "1" 0); ("size_gb", YScalar "64" 0)] 0] 0);
                       ("numa_node", YScalar "0" 0)] 0] 0)] 0);
        ("nvme", YMap [("paths", YSeq [YScalar "/mnt/nvme0" 0; YScalar "/mnt/nvme1" 0] 0)] 0);
        ("socket", YScalar "unix:/run/offload.sock" 0); ("unused", YEmpty 0)] 0.
Lemma yaml_roundtrip_witness : exists t,
  parse_config_text "a.yaml" (render (print_node 0 sample_tree)) = Some (Ok t) /\ erase t = erase sample_tree.
Proof. apply (yaml_roundtrip "a.yaml"). vm_compute. reflexivity. Defined.
