(* ===== verification/ConfigFile.v ===== *)
(** * Loading the daemon's configuration

    Models the scalar conversions and [load_config] of [src/daemon/config.cpp] on
    the trees of [Yaml]: [to_u64], [to_double], [to_bool], [to_str], [to_bytes],
    the name tables, and the sections of the file in the order the code reads
    them.  [std::stoll] and [std::stod] are written out: a [double] is the binary64
    number nearest to the numeral, ties to even, and [ERANGE] is an error.

    An [if]/[else if] chain on the key is a table from keys to setters; a key of
    no branch is ignored ([OFLD_WARN] only logs).  The conversion of a [double]
    outside [0, 2^64) to [uint64_t] is undefined in C++, so its result is a
    parameter [cast]. *)
From stdpp Require Import base strings list pretty.
From Stdlib Require Import ZArith Lia Ascii SpecFloat.
From S2P Require Import Prelude.
From S2P Require Import State.
From S2P Require Import Alloc.
From S2P Require Import Yaml.
Open Scope Z_scope.
Open Scope offload_scope.

#[local] Notation "'let!' x ':=' e 'in' k" := (res_bind e (fun x => k))
  (at level 200, x name, e at level 100, k at level 200).

Definition kGiB : Z := Z.shiftl 1 30.

(** ** Numerals *)
Definition code (c : ascii) : Z := Z.of_N (N_of_ascii c).
(** [isspace] and [tolower] of the "C" locale *)
Definition isspace (c : ascii) : bool := bool_decide (c = space) || (bool_decide (9 <= code c) && bool_decide (code c <= 13)).
Definition tolower (c : ascii) : ascii :=
  if decide (65 <= code c <= 90) then ascii_of_N (Z.to_N (code c + 32)) else c.
Definition digit (base : Z) (c : ascii) : option Z :=
  let d := if decide (48 <= code c <= 57) then code c - 48
           else if decide (97 <= code (tolower c) <= 102) then code (tolower c) - 87 else 16 in
  if decide (d < base) then Some d else None.
(** The digits [t] begins with, and what follows them. *)
Fixpoint take_digits (base : Z) (t : text) : list Z * text :=
  match t with
  | [] => ([], [])
  | c :: t' => match digit base c with
               | Some d => let '(ds, rest) := take_digits base t' in (d :: ds, rest)
               | None => ([], t)
               end
  end.
Definition digits_value (base : Z) (ds : list Z) : Z := foldl (fun a d => a * base + d) 0 ds.
Definition take_sign (t : text) : bool * text :=
  match t with
  | c :: t' => if decide (c = "-"%char) then (true, t') else if decide (c = "+"%char) then (false, t') else (false, t)
  | [] => (false, [])
  end.

(** [std::stoll]: the value and the characters not converted, or the exception
    ([invalid_argument] or [out_of_range]). *)
Definition stoll (t : text) : option (Z * text) :=
  let '(neg, t) := take_sign (drop_while isspace t) in
  match take_digits 10 t with
  | ([], _) => None
  | (ds, rest) =>
      let v := if neg : bool then - digits_value 10 ds else digits_value 10 ds in
      if decide (-2 ^ 63 <= v < 2 ^ 63) then Some (v, rest) else None
  end.

(** The binary64 number nearest to [num / den]. *)
Definition round_double (neg : bool) (num den : Z) : spec_float :=
  if decide (num = 0) then S754_zero neg
  else let '(m, e, l) := SFdiv_core_binary 53 1024 num 0 den 0 in binary_round_aux 53 1024 neg m e l.
(** [ERANGE]: overflow, or an inexact result below the normal numbers. *)
Definition out_of_range (num den : Z) (r : spec_float) : bool :=
  match r with
  | S754_zero _ => negb (bool_decide (num = 0))
  | S754_finite _ m e =>
      bool_decide (Z.pos m < 2 ^ 52) && negb (bool_decide (Z.pos m * 2 ^ (e + 1074) * den = num * 2 ^ 1074))
  | _ => true
  end.
(** The digits of a significand with an optional point: their value, how many
    follow the point, and the rest. *)
Definition take_significand (base : Z) (t : text) : option (Z * Z * text) :=
  let '(a, t1) := take_digits base t in
  match t1 with
  | c :: t2 =>
      if decide (c = "."%char) then
        let '(b, t3) := take_digits base t2 in
        match a ++ b with [] => None | ds => Some (digits_value base ds, Z.of_nat (length b), t3) end
      else match a with [] => None | _ => Some (digits_value base a, 0, t1) end
  | [] => match a with [] => None | _ => Some (digits_value base a, 0, []) end
  end.
(** An exponent after the letter [mark], 0 when there is none. *)
Definition take_exponent (mark : ascii) (t : text) : Z * text :=
  match t with
  | c :: t' =>
      if decide (tolower c = mark) then
        let '(neg, t'') := take_sign t' in
        match take_digits 10 t'' with
        | ([], _) => (0, t)
        | (ds, rest) => (if neg : bool then - digits_value 10 ds else digits_value 10 ds, rest)
        end
      else (0, t)
  | [] => (0, [])
  end.
(** [neg * m * base ^ e] *)
Definition scaled (neg : bool) (m base e : Z) (rest : text) : option (spec_float * text) :=
  let num := m * base ^ Z.max 0 e in
  let den := base ^ Z.max 0 (- e) in
  let r := round_double neg num den in
  if out_of_range num den r then None else Some (r, rest).
Definition prefix_nocase (p t : text) : option text :=
  if decide (List.map tolower (take (length p) t) = p) then Some (drop (length p) t) else None.
(** The characters of [nan(...)], when they are closed. *)
Fixpoint take_nan_chars (t : text) : option text :=
  match t with
  | [] => None
  | c :: t => if decide (c = ")"%char) then Some t
              else if bool_decide (48 <= code c <= 57) || bool_decide (97 <= code (tolower c) <= 122) || bool_decide (c = "_"%char)
                   then take_nan_chars t else None
  end.
Definition take_nan (t : text) : text :=
  match t with
  | c :: t' => if decide (c = "("%char) then match take_nan_chars t' with Some rest => rest | None => t end else t
  | [] => []
  end.
(** [std::stod] *)
Definition stod (t : text) : option (spec_float * text) :=
  let '(neg, t) := take_sign (drop_while isspace t) in
  match prefix_nocase (chars "infinity") t, prefix_nocase (chars "inf") t, prefix_nocase (chars "nan") t with
  | Some rest, _, _ | None, Some rest, _ => Some (S754_infinity neg, rest)
  | _, _, Some rest => Some (S754_nan, take_nan rest)
  | None, None, None =>
      match (match prefix_nocase (chars "0x") t with Some h => take_significand 16 h | None => None end) with
      | Some (m, frac, rest) =>
          let '(e, rest) := take_exponent "p" rest in scaled neg m 2 (e - 4 * frac) rest
      | None =>
          match take_significand 10 t with
          | Some (m, frac, rest) =>
              let '(e, rest) := take_exponent "e" rest in scaled neg m 10 (e - frac) rest
          | None => None
          end
      end
  end.

(** ** Scalar conversions *)
Definition expected (n : YamlNode) (what ctx : string) : string :=
  "config error at line " +:+ pretty (y_line n) +:+ ": expected " +:+ what +:+ " for " +:+ ctx.
Definition invalid (n : YamlNode) (what ctx : string) : string :=
  "config error at line " +:+ pretty (y_line n) +:+ ": invalid " +:+ what +:+ " '" +:+ y_scalar n +:+ "' for " +:+ ctx.
Definition to_u64 (n : YamlNode) (ctx : string) : res Z :=
  match n with
  | YScalar s _ =>
      match stoll (chars s) with
      | Some (v, []) => if decide (v < 0) then Throw (invalid n "integer" ctx) else Ok v
      | _ => Throw (invalid n "integer" ctx)
      end
  | _ => Throw (expected n "integer" ctx)
  end.
Definition to_double (n : YamlNode) (ctx : string) : res spec_float :=
  match n with
  | YScalar s _ =>
      match stod (chars s) with
      | Some (v, []) => Ok v
      | _ => Throw (invalid n "number" ctx)
      end
  | _ => Throw (expected n "number" ctx)
  end.
Definition lower (s : string) : string := str (List.map tolower (chars s)).
Definition to_bool (n : YamlNode) (ctx : string) : res bool :=
  match n with
  | YScalar scalar _ =>
      let s := lower scalar in
      if bool_decide (s ∈ ["true"; "yes"; "on"; "1"]) then Ok true
      else if bool_decide (s ∈ ["false"; "no"; "off"; "0"]) then Ok false
      else Throw (invalid n "bool" ctx)
  | _ => Throw (expected n "bool" ctx)
  end.
Definition to_str (n : YamlNode) (ctx : string) : res string :=
  match n with YScalar s _ => Ok s | _ => Throw (expected n "string" ctx) end.
Definition parse_target (s : string) (line : Z) : res DrainTarget :=
  if decide (s = "pageable_then_nvme") then Ok kPageableThenNvme
  else if decide (s = "pageable") then Ok kPageableOnly
  else if decide (s = "nvme") then Ok kNvmeOnly
  else Throw ("config error at line " +:+ pretty line +:+ ": unknown target_tier '" +:+ s +:+ "'").
Definition drain_target_name (t : DrainTarget) : string :=
  match t with
  | kPageableOnly => "pageable"
  | kNvmeOnly => "nvme"
  | kPageableThenNvme => "pageable_then_nvme"
  end.

(** The integer part of a finite number. *)
Definition truncate (v : spec_float) : option Z :=
  match v with
  | S754_zero _ => Some 0
  | S754_finite s m e =>
      let q := if decide (0 <= e) then Z.pos m * 2 ^ e else Z.pos m / 2 ^ (- e) in
      Some (if s : bool then - q else q)
  | _ => None
  end.
Definition size_multiplier (suf : string) : option Z :=
  if bool_decide (suf ∈ [""; "b"]) then Some 1
  else if bool_decide (suf ∈ ["kib"; "kb"; "k"]) then Some (Z.shiftl 1 10)
  else if bool_decide (suf ∈ ["mib"; "mb"; "m"]) then Some (Z.shiftl 1 20)
  else if bool_decide (suf ∈ ["gib"; "gb"; "g"]) then Some (Z.shiftl 1 30)
  else if bool_decide (suf ∈ ["tib"; "tb"; "t"]) then Some (Z.shiftl 1 40)
  else None.
Definition trim_spaces (t : text) : text := reverse (drop_while is_space (reverse (drop_while is_space t))).
Definition parse_dedup_mode (s : string) : Z :=
  if decide (s = "disabled") then 0 else if decide (s = "semantic_trusted") then 1
  else if decide (s = "hash_verified") then 2 else if decide (s = "sampled_hash") then 3 else 1.
Definition parse_transport (s : string) : Z :=
  if decide (s = "tcp") then 1 else if decide (s = "file") then 2
  else if bool_decide (s ∈ ["libfabric_send"; "libfabric"]) then 3
  else if decide (s = "libfabric_rdma_read") then 4 else if decide (s = "libfabric_rdma_write") then 5 else 1.

(** ** The sections of the file *)
(** The loop over a map, stopped by the first exception. *)
Fixpoint fold_res {A B} (f : A -> B -> res A) (a : A) (l : list B) : res A :=
  match l with [] => Ok a | b :: l => let! a' := f a b in fold_res f a' l end.
(** The branches of a section: what each key does to the object being filled. *)
Definition table (A : Type) := list (string * (YamlNode -> string -> A -> res A)).
Definition apply_key {A} (t : table A) (a : A) (kv : string * YamlNode) : res A :=
  match assoc kv.1 t with Some set => set kv.2 kv.1 a | None => Ok a end.
Definition load_keys {A} (t : table A) (n : YamlNode) (a : A) : res A := fold_res (apply_key t) a (y_map n).
Definition load_section {A} (root : YamlNode) (name : string) (load : YamlNode -> A -> res A) (a : A) : res A :=
  match find root name with Some n => load n a | None => Ok a end.

Section Setters.
Context {A : Type}.
Definition with_u64 (set : Z -> A -> A) (v : YamlNode) (k : string) (a : A) : res A :=
  let! x := to_u64 v k in Ok (set x a).
Definition with_u32 (set : Z -> A -> A) (v : YamlNode) (k : string) (a : A) : res A :=
  let! x := to_u64 v k in Ok (set (u32 x) a).
(** [to_u64(v, k) * unit] *)
Definition with_units (unit : Z) (set : Z -> A -> A) (v : YamlNode) (k : string) (a : A) : res A :=
  let! x := to_u64 v k in Ok (set (u64 (x * unit)) a).
Definition with_bool (set : bool -> A -> A) (v : YamlNode) (k : string) (a : A) : res A :=
  let! x := to_bool v k in Ok (set x a).
Definition with_str (set : string -> A -> A) (v : YamlNode) (k : string) (a : A) : res A :=
  let! x := to_str v k in Ok (set x a).
Definition with_double (set : spec_float -> A -> A) (v : YamlNode) (k : string) (a : A) : res A :=
  let! x := to_double v k in Ok (set x a).
Definition ignored (v : YamlNode) (k : string) (a : A) : res A := Ok a.
End Setters.

Definition daemon_keys : table DaemonConfig :=
  [("socket_path", with_str (fun x c => c <| c_socket_path := x |>));
   ("control_shm_name", with_str (fun x c => c <| c_control_shm_name := x |>));
   ("heartbeat_timeout_ms", with_u64 (fun x c => c <| c_heartbeat_timeout_ms := x |>));
   ("completion_ring_max_ranks", with_u32 (fun x c => c <| c_completion_ring_max_ranks := x |>));
   ("completion_ring_capacity", with_u32 (fun x c => c <| c_completion_ring_capacity := x |>));
   ("ring_poll_us", with_u32 (fun x c => c <| c_ring_poll_us := x |>))].

Definition window_keys : table GpuWindowConfig :=
  [("gpu", with_u32 (fun x w => mkGpuWindow x (gw_size_bytes w)));
   ("size_gb", with_units kGiB (fun x w => mkGpuWindow (gw_gpu w) x))].
Definition numa_keys : table NumaArenaConfig :=
  [("numa_node", with_u32 (fun x a => mkNumaArena x (na_size_bytes a) (na_gpu_windows a) (na_overflow_bytes a)));
   ("size_gb", with_units kGiB (fun x a => mkNumaArena (na_numa_node a) x (na_gpu_windows a) (na_overflow_bytes a)));
   ("overflow_gb", with_units kGiB (fun x a => mkNumaArena (na_numa_node a) (na_size_bytes a) (na_gpu_windows a) x));
   ("gpu_windows", ignored)].
Definition list_error (line : Z) (what : string) : string :=
  "config error at line " +:+ pretty line +:+ ": " +:+ what.
Definition load_window (arena : NumaArenaConfig) (w : YamlNode) : res NumaArenaConfig :=
  match w with
  | YMap _ _ =>
      let! win := load_keys window_keys w (mkGpuWindow 0 0) in
      Ok (mkNumaArena (na_numa_node arena) (na_size_bytes arena) (na_gpu_windows arena ++ [win]) (na_overflow_bytes arena))
  | _ => Throw (list_error (y_line w) "gpu_windows entry must be a mapping")
  end.
Definition load_arena (c : DaemonConfig) (item : YamlNode) : res DaemonConfig :=
  match item with
  | YMap _ _ =>
      let! arena := load_keys numa_keys item (mkNumaArena 0 0 [] 0) in
      let! arena := load_section item "gpu_windows" (fun gw arena =>
        match gw with
        | YSeq ws _ => fold_res load_window arena ws
        | _ => Throw (list_error (y_line gw) "gpu_windows must be a list")
        end) arena in
      Ok (c <| c_per_numa := c_per_numa c ++ [arena] |>)
  | _ => Throw (list_error (y_line item) "per_numa entry must be a mapping")
  end.
Definition arenas_keys : table DaemonConfig :=
  [("registration_policy", with_str (fun x c => c <| c_registration_policy := x |>));
   ("registration_chunk_mb", with_units kMiB (fun x c => c <| c_registration_chunk_bytes := x |>));
   ("allocation_granularity_mb", with_units kMiB (fun x c => c <| c_allocation_granularity_bytes := x |>));
   ("per_numa", ignored)].
Definition load_arenas (a : YamlNode) (c : DaemonConfig) : res DaemonConfig :=
  let! c := load_keys arenas_keys a c in
  load_section a "per_numa" (fun pn c =>
    match pn with
    | YSeq items _ => fold_res load_arena c items
    | _ => Throw (list_error (y_line pn) "arenas.per_numa must be a list")
    end) c.

Definition drain_keys : table DaemonConfig :=
  [("target_tier", fun v k c => let! s := to_str v k in
                                let! t := parse_target s (y_line v) in Ok (c <| c_drain_target := t |>));
   ("drain_on_d2h_complete", with_bool (fun x c => c <| c_drain_on_d2h_complete := x |>));
   ("normal_threshold", with_double (fun x c => c <| c_normal_threshold := x |>));
   ("priority_threshold", with_double (fun x c => c <| c_priority_threshold := x |>));
   ("aggressive_threshold", with_double (fun x c => c <| c_aggressive_threshold := x |>))].
Definition nvme_keys : table DaemonConfig :=
  [("enabled", with_bool (fun x c => c <| c_nvme_enabled := x |>));
   ("path", with_str (fun x c => c <| c_nvme_path := x |>));
   ("io_engine", with_str (fun x c => c <| c_nvme_io_engine := x |>));
   ("direct_io", with_bool (fun x c => c <| c_nvme_direct_io := x |>));
   ("stripe", with_bool (fun x c => c <| c_nvme_stripe := x |>));
   ("stripe_count", with_u32 (fun x c => c <| c_nvme_stripe_count := x |>));
   ("block_mb", with_units (1024 * 1024) (fun x c => c <| c_nvme_block_bytes := x |>));
   ("queue_depth", with_u32 (fun x c => c <| c_nvme_queue_depth := x |>));
   ("stripe_dirs", fun v _ c => Ok (c <| c_nvme_stripe_dirs := List.map y_scalar (y_seq v) |>))].
Definition python_keys : table DaemonConfig :=
  [("default_invalidate", with_str (fun x c => c <| c_default_invalidate := x |>));
   ("require_own_storage", with_bool (fun x c => c <| c_require_own_storage := x |>));
   ("allow_views", with_bool (fun x c => c <| c_allow_views := x |>));
   ("unsafe_autograd", with_bool (fun x c => c <| c_unsafe_autograd := x |>))].
Definition manager_keys : table DaemonConfig :=
  [("enable_canonical_store", with_bool (fun x c => c <| c_v2_enable_canonical_store := x |>));
   ("enable_manifests", with_bool (fun x c => c <| c_v2_enable_manifests := x |>));
   ("enable_rollout_export", with_bool (fun x c => c <| c_v2_enable_rollout_export := x |>));
   ("control_tcp_port", with_u32 (fun x c => c <| c_v2_control_tcp_port := x |>));
   ("daemon_socket", with_str (fun x c => c <| c_socket_path := x |>))].
Definition namespace_keys : table DaemonConfig :=
  [("default_tenant_id", with_u64 (fun x c => c <| c_v2_default_tenant_id := x |>));
   ("require_job_registration", with_bool (fun x c => c <| c_v2_require_job_registration := x |>));
   ("include_launch_epoch", with_bool (fun x c => c <| c_v2_include_launch_epoch := x |>));
   ("job_name_is_identity", ignored)].
Definition canonical_keys : table DaemonConfig :=
  [("dedup_default_mode", with_str (fun x c => c <| c_v2_dedup_default_mode := parse_dedup_mode x |>));
   ("cross_job_dedup", with_bool (fun x c => c <| c_v2_cross_job_dedup := x |>));
   ("creating_policy", with_str (fun x c =>
      c <| c_v2_creating_policy := if decide (x = "duplicate_candidate_on_pressure") then 1 else 0 |>));
   ("duplicate_candidate_gpu_pressure_threshold",
      with_double (fun x c => c <| c_v2_duplicate_candidate_gpu_pressure_threshold := x |>));
   ("sampled_hash_bytes_per_gib", with_u64 (fun x c => c <| c_v2_sampled_hash_bytes_per_gib := x |>));
   ("object_table_capacity", ignored); ("manifest_table_capacity", ignored)].
Definition manifest_keys : table DaemonConfig :=
  [("seal_requires_all_objects_valid", with_bool (fun x c => c <| c_v2_seal_requires_all_objects_valid := x |>));
   ("retain_sealed_versions", with_u32 (fun x c => c <| c_v2_retain_sealed_versions := x |>));
   ("allow_sealed_version_mutation", ignored); ("latest_pointer_update", ignored)].
Definition export_keys : table DaemonConfig :=
  [("default_transport", with_str (fun x c => c <| c_v2_default_transport := parse_transport x |>));
   ("fallback_transport", with_str (fun x c => c <| c_v2_fallback_transport := parse_transport x |>));
   ("use_dedicated_export_buffers", with_bool (fun x c => c <| c_v2_use_dedicated_export_buffers := x |>));
   ("require_export_refcount", with_bool (fun x c => c <| c_v2_require_export_refcount := x |>));
   ("max_concurrent_exports_per_job", with_u32 (fun x c => c <| c_v2_max_concurrent_exports_per_job := x |>));
   ("export_buffer_pool_bytes", ignored); ("allow_direct_rdma_read_from_object_slot", ignored)].

Section Load.
(** [static_cast<uint64_t>] of a [double] that has no value in the type. *)
Context (cast : spec_float -> Z).
Definition u64_of_double (v : spec_float) : Z :=
  match truncate v with
  | Some q => if decide (0 <= q < 2 ^ 64) then q else cast v
  | None => cast v
  end.
Definition to_bytes (n : YamlNode) (ctx : string) : res Z :=
  match n with
  | YScalar s _ =>
      match stod (chars s) with
      | None => Throw (invalid n "size" ctx)
      | Some (v, rest) =>
          let suf := lower (str (trim_spaces rest)) in
          match size_multiplier suf with
          | Some mult => Ok (u64_of_double (SFmul 53 1024 v (double_of_Z mult)))
          | None => Throw ("config error at line " +:+ pretty (y_line n) +:+ ": unknown size suffix '"
                           +:+ suf +:+ "' for " +:+ ctx)
          end
      end
  | _ => Throw (expected n "size" ctx)
  end.
Definition with_bytes (set : Z -> DaemonConfig -> DaemonConfig) (v : YamlNode) (k : string)
  (c : DaemonConfig) : res DaemonConfig := let! x := to_bytes v k in Ok (set x c).
Definition quota_keys : table DaemonConfig :=
  [("max_pinned_bytes", with_bytes (fun x c => c <| c_v2_quota_max_pinned_bytes := x |>));
   ("max_pageable_bytes", with_bytes (fun x c => c <| c_v2_quota_max_pageable_bytes := x |>));
   ("max_nvme_bytes", with_bytes (fun x c => c <| c_v2_quota_max_nvme_bytes := x |>));
   ("max_inflight_d2h_bytes", with_bytes (fun x c => c <| c_v2_quota_max_inflight_d2h_bytes := x |>));
   ("max_inflight_export_bytes", with_bytes (fun x c => c <| c_v2_quota_max_inflight_export_bytes := x |>));
   ("priority", ignored)].
Definition load_quotas (q : YamlNode) (c : DaemonConfig) : res DaemonConfig :=
  load_section q "default" (load_keys quota_keys) c.

(** The sections in the order they are read. *)
Definition sections : list (string * (YamlNode -> DaemonConfig -> res DaemonConfig)) :=
  [("daemon", load_keys daemon_keys); ("arenas", load_arenas); ("drain_policy", load_keys drain_keys);
   ("nvme", load_keys nvme_keys); ("python_api", load_keys python_keys); ("manager", load_keys manager_keys);
   ("namespace", load_keys namespace_keys); ("canonical_store", load_keys canonical_keys);
   ("manifest", load_keys manifest_keys); ("export", load_keys export_keys); ("quotas", load_quotas)].
Definition load_tree (root : YamlNode) : res DaemonConfig :=
  let! c := fold_res (fun c s => load_section root s.1 s.2 c) default_config sections in
  let! _ := validate_config c in Ok c.
(** [open] gives the content of a file that can be opened; [None] is a parser out
    of fuel, which [load_config_total] excludes. *)
Definition load_config (open : string -> option text) (path : string) : option (res DaemonConfig) :=
  if decide (path = "") then Some (Ok (default_smoke_config (256 * kMiB) 0 0))
  else match open path with
  | None => Some (Throw ("config: cannot open file '" +:+ path +:+ "'"))
  | Some content =>
      match parse_config_text path content with
      | None => None
      | Some (Throw m) => Some (Throw m)
      | Some (Ok root) => Some (load_tree root)
      end
  end.
End Load.
