(* ===== verification/ConfigProps.v ===== *)
(** * What a loaded configuration satisfies

    [to_u64_exact]: the numerals [to_u64] accepts and their values.
    [load_config_total]: loading terminates on every file.
    [unknown_keys_ignored]: keys the tables do not name have no effect. *)
From stdpp Require Import base strings list pretty.
From Stdlib Require Import ZArith Lia Ascii SpecFloat.
From S2P Require Import Prelude.
From S2P Require Import State.
From S2P Require Import Alloc.
From S2P Require Import Yaml.
From S2P Require Import YamlProps.
From S2P Require Import ConfigFile.
Open Scope Z_scope.
Open Scope offload_scope.

(** ** Decimal numerals *)
Definition digit_char (d : Z) : ascii := ascii_of_N (Z.to_N (48 + d)).
Definition is_digit (d : Z) : Prop := 0 <= d < 10.
(** The value of a numeral, by position. *)
Fixpoint positional (ds : list Z) : Z :=
  match ds with [] => 0 | d :: ds => d * 10 ^ Z.of_nat (length ds) + positional ds end.

Lemma digits_value_acc ds : forall a,
  foldl (fun a d => a * 10 + d) a ds = a * 10 ^ Z.of_nat (length ds) + positional ds.
Proof.
  induction ds as [|d ds IH]; intros a; cbn [foldl length positional]; [lia|].
  rewrite IH, Nat2Z.inj_succ, Z.pow_succ_r by lia. ring.
Qed.
Lemma digits_value_positional ds : digits_value 10 ds = positional ds.
Proof. unfold digits_value. rewrite digits_value_acc. lia. Qed.
Lemma positional_nonneg ds : Forall is_digit ds -> 0 <= positional ds.
Proof. induction 1 as [|d ds Hd _ IH]; cbn [positional]; [lia|]. unfold is_digit in Hd. nia. Qed.

Lemma code_digit_char d : is_digit d -> code (digit_char d) = 48 + d.
Proof. intros Hd. unfold code, digit_char. rewrite N_ascii_embedding by (unfold is_digit in *; lia). unfold is_digit in *; lia. Qed.
Lemma digit_digit_char d : is_digit d -> digit 10 (digit_char d) = Some d.
Proof.
  intros Hd. unfold digit. rewrite code_digit_char by done. unfold is_digit in *.
  rewrite (decide_True (P := 48 <= 48 + d <= 57)) by lia. case_decide; [f_equal|]; lia.
Qed.
Lemma digit_inv c d : digit 10 c = Some d -> is_digit d /\ c = digit_char d.
Proof.
  unfold digit. destruct (decide (48 <= code c <= 57)) as [Hc|Hc].
  - case_decide as Hd; [|done]. intros [= <-]. split; [split; lia|].
    unfold digit_char. replace (48 + (code c - 48)) with (code c) by lia. unfold code.
    by rewrite N2Z.id, ascii_N_embedding.
  - destruct (decide (97 <= code (tolower c) <= 102)); (case_decide as Hd; [|done]); intros [= <-]; lia.
Qed.
Lemma take_digits_map ds rest : Forall is_digit ds ->
  match rest with c :: _ => digit 10 c = None | [] => True end ->
  take_digits 10 (List.map digit_char ds ++ rest) = (ds, rest).
Proof.
  intros Hds Hr. induction Hds as [|d ds Hd _ IH]; cbn [List.map app take_digits].
  - destruct rest as [|c rest]; [done|]. cbn. by rewrite Hr.
  - by rewrite digit_digit_char, IH.
Qed.
Lemma take_digits_inv t : forall ds rest, take_digits 10 t = (ds, rest) ->
  t = List.map digit_char ds ++ rest /\ Forall is_digit ds.
Proof.
  induction t as [|c t IH]; intros ds rest; cbn [take_digits]; [by intros [= <- <-]|].
  destruct (digit 10 c) as [d|] eqn:Hd; [|by intros [= <- <-]].
  destruct (take_digits 10 t) as [ds' rest'] eqn:Ht. intros [= <- <-].
  apply digit_inv in Hd as [Hd ->]. destruct (IH _ _ eq_refl) as [-> Hds]. split; [done|by constructor].
Qed.

(** White space, sign and digits: what [std::stoll] reads in full. *)
Inductive sign := Plus | Minus | NoSign.
Definition sign_text (s : sign) : text := match s with Plus => ["+"%char] | Minus => ["-"%char] | NoSign => [] end.
Definition signed (s : sign) (v : Z) : Z := match s with Minus => - v | _ => v end.
Definition integer_text (t : text) (v : Z) : Prop := exists ws s ds,
  t = ws ++ sign_text s ++ List.map digit_char ds /\ Forall (fun c => isspace c = true) ws /\
  ds <> [] /\ Forall is_digit ds /\ v = signed s (positional ds).

Lemma digit_char_not_sign d : is_digit d ->
  digit_char d <> "-"%char /\ digit_char d <> "+"%char /\ isspace (digit_char d) = false.
Proof.
  intros Hd. unfold is_digit in Hd.
  assert (d ∈ [0; 1; 2; 3; 4; 5; 6; 7; 8; 9]) as Hin by (rewrite !elem_of_cons; lia).
  repeat (apply elem_of_cons in Hin as [->|Hin]; [split_and!; by vm_compute|]). by apply not_elem_of_nil in Hin.
Qed.
Lemma drop_while_app p ws t : Forall (fun c => p c = true) ws ->
  match t with c :: _ => p c = false | [] => True end -> drop_while p (ws ++ t) = t.
Proof.
  induction 1 as [|c ws Hc _ IH]; intros Ht; cbn [app drop_while].
  - destruct t; [done|]. cbn. by rewrite Ht.
  - rewrite Hc. by apply IH.
Qed.
Lemma drop_while_inv p t : exists ws, t = ws ++ drop_while p t /\ Forall (fun c => p c = true) ws.
Proof.
  induction t as [|c t (ws & Ht & Hws)]; [by exists []|]. cbn. destruct (p c) eqn:Hc; [|by exists []].
  exists (c :: ws). split; [cbn; by f_equal|by constructor].
Qed.
Lemma take_sign_inv t : exists s,
  t = sign_text s ++ (take_sign t).2 /\ (take_sign t).1 = match s with Minus => true | _ => false end.
Proof.
  destruct t as [|c t]; [by exists NoSign|]. cbn.
  case_decide; [subst; by exists Minus|]. case_decide; [subst; by exists Plus|]. by exists NoSign.
Qed.
Lemma take_sign_digits s ds : ds <> [] -> Forall is_digit ds ->
  take_sign (sign_text s ++ List.map digit_char ds)
  = (match s with Minus => true | _ => false end, List.map digit_char ds).
Proof.
  intros Hne Hds. destruct s; [done..|]. destruct Hds as [|d ds Hd _]; [done|].
  destruct (digit_char_not_sign d Hd) as (H1 & H2 & _). cbn. by rewrite !decide_False.
Qed.

Lemma stoll_all t v : stoll t = Some (v, []) <-> integer_text t v /\ -2 ^ 63 <= v < 2 ^ 63.
Proof.
  unfold stoll, integer_text. split.
  - destruct (drop_while_inv isspace t) as (ws & Hws & Hsp).
    destruct (take_sign_inv (drop_while isspace t)) as (s & Hs & Hneg).
    destruct (take_sign (drop_while isspace t)) as [neg t'] eqn:Et. cbn [fst snd] in *.
    destruct (take_digits 10 t') as [ds rest] eqn:Ed.
    pose proof (take_digits_inv _ _ _ Ed) as [Ht' Hds].
    destruct ds as [|d ds]; [done|]. case_decide as Hr; [|done]. intros [= <- ->].
    rewrite app_nil_r in Ht'. split; [|exact Hr]. exists ws, s, (d :: ds).
    split_and!; [by rewrite <- Ht', <- Hs| done..|].
    rewrite digits_value_positional. subst neg. by destruct s.
  - intros [(ws & s & ds & -> & Hws & Hne & Hds & ->) Hr].
    rewrite drop_while_app, take_sign_digits; [|done..|].
    + rewrite <- (app_nil_r (List.map digit_char ds)), take_digits_map by done.
      destruct ds as [|d ds]; [done|]. rewrite digits_value_positional.
      replace (if match s with Minus => true | _ => false end then - positional (d :: ds) else positional (d :: ds))
        with (signed s (positional (d :: ds))) by (by destruct s).
      by rewrite decide_True.
    + destruct s; [done..|]. destruct Hds as [|d ds Hd _]; [done|]. by apply digit_char_not_sign.
Qed.

(** C38. [to_u64] accepts exactly the integers: white space, an optional sign and
    decimal digits to the end of the scalar, with the value of the digits by
    position when it lies in [0, 2^63); every other node is refused with the
    exception that names its line and key. *)
Theorem to_u64_exact (n : YamlNode) (ctx : string) :
  (forall v, to_u64 n ctx = Ok v <->
     (exists s l, n = YScalar s l /\ integer_text (chars s) v) /\ 0 <= v < 2 ^ 63) /\
  (forall m, to_u64 n ctx = Throw m ->
     m = match n with YScalar _ _ => invalid n "integer" ctx | _ => expected n "integer" ctx end).
Proof.
  destruct n as [l|s l|m l|q l]; cbn [to_u64].
  1,3,4: split; [intros v; split; [done|intros [(? & ? & ? & ?) ?]; done]|by intros m0 [= <-]].
  split.
  - intros v. split.
    + destruct (stoll (chars s)) as [[v' [|? ?]]|] eqn:Hs; try done. case_decide; [done|]. intros [= ->].
      apply stoll_all in Hs as [Hs Hr]. split; [by exists s, l|lia].
    + intros [(s' & l' & [= <- <-] & Hi) Hr].
      assert (stoll (chars s) = Some (v, [])) as -> by (apply stoll_all; split; [done|lia]).
      by rewrite decide_False by lia.
  - intros m. destruct (stoll (chars s)) as [[v' [|? ?]]|]; [case_decide|..]; by intros [= <-].
Qed.

(** ** A configuration file *)
Definition sample_file : string := String.concat (String newline EmptyString)
  ["arenas:"; "  allocation_granularity_mb: 2   # small"; "  per_numa:"; "    - numa_node: 1"; "      size_gb: 4";
   "      gpu_windows:"; "        - gpu: 3"; "          size_gb: 2"; "      overflow_gb: 1";
   "quotas:"; "  default:"; "    max_pinned_bytes: 1.5GiB"; "colour: red"].
(** The units of the keys: [_mb] and [_gb] are binary, a size with a suffix may have
    a fraction. *)
Lemma sample_file_loads :
  load_config (fun _ => 2 ^ 63) (fun _ => Some (chars sample_file)) "c.yaml"
  = Some (Ok (default_config <| c_allocation_granularity_bytes := 2097152 |>
      <| c_per_numa := [mkNumaArena 1 4294967296 [mkGpuWindow 3 2147483648] 1073741824] |>
      <| c_v2_quota_max_pinned_bytes := 1610612736 |>)).
Proof. vm_compute. reflexivity. Qed.

(** C39. [load_config] terminates on every path and every file content with a
    configuration or an exception: the recursive descent of [parse_node],
    [parse_map] and [parse_seq] never runs out of the fuel [parse_fuel] gives it. *)
Theorem load_config_total (cast : spec_float -> Z) (open : string -> option text) (path : string) :
  exists r, load_config cast open path = Some r.
Proof.
  unfold load_config. case_decide; [eauto|]. destruct (open path) as [content|]; [|eauto].
  destruct (parse_config_text path content) as [r|] eqn:Hp.
  - destruct r; eauto.
  - by destruct (parse_terminates path content) as [r Hr]; rewrite Hr in Hp.
Qed.

(** ** Unknown keys *)
Lemma assoc_map_insert_ne {A} k k' (v : A) m : k' <> k -> assoc k' (map_insert k v m) = assoc k' m.
Proof.
  intros Hne. induction m as [|[k0 v0] m IH]; cbn [map_insert assoc]; [by rewrite decide_False|].
  destruct (String.compare k k0) eqn:Hc; cbn [assoc].
  - apply String.compare_eq_iff in Hc as ->. by rewrite !decide_False.
  - by rewrite (decide_False (P := k' = k)).
  - by rewrite IH.
Qed.
Lemma apply_unknown {A} (t : table A) k v a : assoc k t = None -> apply_key t a (k, v) = Ok a.
Proof. intros Hk. unfold apply_key. cbn [fst]. by rewrite Hk. Qed.

(** Keys the code does not know are ignored: setting one, at the top level or
    in a section, does not change what is loaded (nor which error is raised). *)
Theorem unknown_keys_ignored (cast : spec_float -> Z) (m : list (string * YamlNode)) (l : Z) (k : string) (v : YamlNode) :
  (assoc k (sections cast) = None ->
   load_tree cast (YMap (map_insert k v m) l) = load_tree cast (YMap m l)) /\
  (forall A (t : table A) a, assoc k t = None ->
   load_keys t (YMap (map_insert k v m) l) a = load_keys t (YMap m l) a).
Proof.
  split.
  - intros Hk. unfold load_tree. f_equal. revert Hk. generalize default_config, (sections cast).
    intros c s. revert c. induction s as [|[k' load] s IH]; intros c; cbn [assoc fold_res]; [done|].
    case_decide as Hne; [done|]. intros Hk. unfold load_section at 1 3, find. cbn [fst snd y_map].
    rewrite assoc_map_insert_ne by congruence.
    destruct (match assoc k' m with Some n => _ | None => _ end); cbn [res_bind]; auto.
  - intros A t a Hk. unfold load_keys. cbn [y_map]. revert a.
    induction m as [|[k0 v0] m IH]; intros a; cbn [map_insert].
    + cbn [fold_res]. by rewrite apply_unknown.
    + destruct (String.compare k k0) eqn:Hc; cbn [fold_res].
      * apply String.compare_eq_iff in Hc as ->. by rewrite !apply_unknown.
      * by rewrite apply_unknown.
      * destruct (apply_key t a (k0, v0)); cbn [res_bind]; auto.
Qed.
Lemma unknown_keys_ignored_witness :
  load_tree (fun _ => 0) (YMap (map_insert "colour" (YScalar "red" 1) [("daemon", YMap [] 1)]) 1)
  = load_tree (fun _ => 0) (YMap [("daemon", YMap [] 1)] 1).
Proof. apply (unknown_keys_ignored (fun _ => 0)). vm_compute. reflexivity. Defined.
