(* ===== verification/Metrics.v ===== *)
(** * Bandwidth statistics and the event trace

    Models the parts of [src/common/metrics.cpp] beside the counters (which are in
    [State]): the window of bandwidth samples, its percentiles as [snapshot]
    reports them, and the lines of the event trace.  A [double] is its binary64
    value ([SpecFloat]); the samples are positive and finite, and on those the
    comparison of the code is a total order. *)
From stdpp Require Import base strings list pretty sorting.
From Stdlib Require Import ZArith Lia SpecFloat.
From S2P Require Import Prelude.
From S2P Require Import State.
From S2P Require Import ConfigFile.
Open Scope Z_scope.
Open Scope offload_scope.

(** ** Samples *)
Definition zero_double : spec_float := S754_zero false.
Definition is_inf (v : spec_float) : bool := match v with S754_infinity _ => true | _ => false end.
(** [record_bandwidth_mbps]: a full window drops its older half. *)
Definition record_bandwidth_mbps (mbps : spec_float) (samples : list spec_float) : list spec_float :=
  if negb (SFltb zero_double mbps) || is_inf mbps then samples
  else (if decide (8192 <= Z.of_nat (length samples)) then drop (Z.to_nat 4096) samples else samples) ++ [mbps].
(** The rate of a transfer, as the daemon computes it after a drain or readback. *)
Definition bandwidth_mbps (nbytes dt : Z) : spec_float :=
  let mib := SFmul 53 1024 (double_of_Z 1024) (double_of_Z 1024) in
  SFdiv 53 1024 (SFdiv 53 1024 (double_of_Z nbytes) mib) (SFdiv 53 1024 (double_of_Z dt) (double_of_Z 1000000000)).
Definition record_transfer (nbytes t0 t1 : Z) (samples : list spec_float) : list spec_float :=
  let dt := u64 (t1 - t0) in
  if decide (dt > 0) then record_bandwidth_mbps (bandwidth_mbps nbytes dt) samples else samples.

(** ** Percentiles *)
(** [std::sort] compares with [<]. *)
Definition sample_le (a b : spec_float) : Prop := SFltb b a = false.
#[export] Instance sample_le_dec : RelDecision sample_le.
Proof. intros a b. unfold sample_le. apply _. Defined.
(** [std::sort] of a copy. *)
Definition sort_samples (samples : list spec_float) : list spec_float := merge_sort sample_le samples.
(** [static_cast<size_t>(p * (v.size() - 1) + 0.5)] *)
Definition half_double : spec_float := round_double false 1 2.
Definition percentile_index (p : spec_float) (size : nat) : Z :=
  default 0 (truncate (SFadd 53 1024 (SFmul 53 1024 p (double_of_Z (Z.of_nat size - 1))) half_double)).
Definition bandwidth_percentile (p : spec_float) (samples : list spec_float) : spec_float :=
  match samples with
  | [] => zero_double
  | _ =>
      let v := sort_samples samples in
      if SFleb p zero_double then default zero_double (head v)
      else if SFleb (double_of_Z 1) p then default zero_double (last v)
      else default zero_double (v !! Z.to_nat (percentile_index p (length v)))
  end.
(** The literals [0.50], [0.90] and [0.99]. *)
Definition percent (q : Z) : spec_float := round_double false q 100.

Section Snapshot.
Context (cast : spec_float -> Z).
(** The percentiles [snapshot] appends to the counters. *)
Definition snapshot_percentiles (samples : list spec_float) : list (string * Z) :=
  let pct k q := (k, u64_of_double cast (bandwidth_percentile (percent q) samples)) in
  [pct "bandwidth_mbps_p50" 50; pct "bandwidth_mbps_p90" 90; pct "bandwidth_mbps_p99" 99].
End Snapshot.

(** ** Trace lines *)
Definition dquote : string := String (Ascii.ascii_of_nat 34) EmptyString.
Definition newline : string := String (Ascii.ascii_of_nat 10) EmptyString.
(** [Trace]: the lines of the open file, [None] when tracing is off. *)
Definition Trace := option (list string).
Definition trace_enable (can_open : bool) : Trace := if can_open then Some [] else None.
Definition trace_disable (t : Trace) : Trace := None.
Definition json_field (name value : string) : string := dquote +:+ name +:+ dquote +:+ ":" +:+ value.
Definition trace_line (now : Z) (name : string) (rank gpu tensor_id version lease_id slot_id nbytes : Z) : string :=
  "{" +:+ json_field "ts_ns" (pretty now) +:+ "," +:+ json_field "rank" (pretty rank) +:+ ","
  +:+ json_field "gpu" (pretty gpu) +:+ "," +:+ json_field "tensor_id" (pretty tensor_id) +:+ ","
  +:+ json_field "version" (pretty version) +:+ "," +:+ json_field "lease_id" (pretty lease_id) +:+ ","
  +:+ json_field "slot_id" (pretty slot_id) +:+ "," +:+ json_field "event" (dquote +:+ name +:+ dquote) +:+ ","
  +:+ json_field "nbytes" (pretty nbytes) +:+ "}" +:+ newline.
Definition trace_event (now : Z) (name : string) (rank gpu tensor_id version lease_id slot_id nbytes : Z) (t : Trace) : Trace :=
  match t with
  | None => None
  | Some lines => Some (lines ++ [trace_line now name rank gpu tensor_id version lease_id slot_id nbytes])
  end.

(** ** The window *)
(** Positive and finite: such samples are compared by exponent, then mantissa. *)
Definition good_sample (v : spec_float) : Prop := exists m e, v = S754_finite false m e.
Lemma good_sample_iff v : good_sample v <-> SFltb zero_double v = true /\ is_inf v = false.
Proof. unfold good_sample. destruct v as [s|s| |[] m e]; cbn; split; try (by intros (? & ? & [=])); try (by intros [[=] [=]]); naive_solver. Qed.
(** At most 8192 samples, all positive and finite. *)
Definition window (samples : list spec_float) : Prop := Z.of_nat (length samples) <= 8192 /\ Forall good_sample samples.
Lemma record_window mbps samples : window samples -> window (record_bandwidth_mbps mbps samples).
Proof.
  intros [Hl Hs]. unfold record_bandwidth_mbps. destruct (SFltb zero_double mbps) eqn:Hp; [|done].
  destruct (is_inf mbps) eqn:Hi; [done|]. cbn [negb orb].
  assert (good_sample mbps) by by apply good_sample_iff. case_decide; split.
  - rewrite length_app, length_drop. cbn. lia.
  - apply Forall_app. split; [by apply Forall_drop|by constructor].
  - rewrite length_app. cbn. lia.
  - apply Forall_app. split; [done|by constructor].
Qed.
(** The order of two good samples. *)
Lemma sample_le_finite m e m' e' : sample_le (S754_finite false m e) (S754_finite false m' e') <->
  e < e' \/ e = e' /\ (m <= m')%positive.
Proof.
  unfold sample_le, SFltb. cbn. destruct (Z.compare_spec e' e) as [->|H|H]; cbn.
  - rewrite Pos.compare_cont_spec. unfold Pos.switch_Eq. destruct (Pos.compare_spec m' m) as [->|Hm|Hm]; cbn; split; try done; try lia.
  - split; [done|lia].
  - split; [by left|done].
Qed.
#[export] Instance sample_le_total : Total sample_le.
Proof.
  intros a b. unfold sample_le, SFltb.
  destruct a as [[]|[]| |[] m e], b as [[]|[]| |[] m' e']; cbn; auto.
  all: rewrite (Z.compare_antisym e e'); destruct (e ?= e') eqn:E; cbn; auto.
  all: rewrite !Pos.compare_cont_spec; unfold Pos.switch_Eq; rewrite (Pos.compare_antisym m m'); destruct (m ?= m')%positive; auto.
Qed.
Lemma sample_le_trans a b c : good_sample a -> good_sample b -> good_sample c -> sample_le a b -> sample_le b c -> sample_le a c.
Proof. intros (m & e & ->) (m' & e' & ->) (m2 & e2 & ->). rewrite !sample_le_finite. lia. Qed.
Lemma sort_samples_perm samples : sort_samples samples ≡ₚ samples.
Proof. apply merge_sort_Permutation. Qed.
Lemma sorted_head l : forall x, good_sample x -> Forall good_sample l -> Sorted sample_le (x :: l) -> Forall (sample_le x) l.
Proof.
  induction l as [|y l IH]; intros x Hx Hg [Hs Hd]%Sorted_inv; [constructor|].
  apply Forall_cons in Hg as [Hy Hg]. apply HdRel_inv in Hd. constructor; [done|].
  pose proof (IH y Hy Hg Hs) as Hall. rewrite Forall_forall in *. intros b Hb. by apply (sample_le_trans x y b); auto.
Qed.
Lemma sorted_lookup l : Forall good_sample l -> Sorted sample_le l ->
  forall (i j : nat) a b, l !! i = Some a -> l !! j = Some b -> (i <= j)%nat -> sample_le a b.
Proof.
  induction l as [|x l IH]; [done|]. intros [Hx Hg]%Forall_cons Hs. pose proof (sorted_head l x Hx Hg Hs) as Hall.
  apply Sorted_inv in Hs as [Hs _]. rewrite Forall_lookup in Hall.
  intros [|i] [|j] a b; cbn; [|intros [= <-]; eauto|lia|].
  - intros [= <-] [= <-] _. destruct Hx as (m & e & ->). apply sample_le_finite. lia.
  - intros Hi Hj Hij. eapply IH; eauto. lia.
Qed.
(** A percentile strictly inside (0, 1) whose index is in range is the sample of
    that rank. *)
Definition inner (p : spec_float) : bool := negb (SFleb p zero_double) && negb (SFleb (double_of_Z 1) p).
Lemma percentile_rank p samples : samples <> [] -> inner p = true ->
  0 <= percentile_index p (length samples) < Z.of_nat (length samples) ->
  sort_samples samples !! Z.to_nat (percentile_index p (length samples)) = Some (bandwidth_percentile p samples) /\
  bandwidth_percentile p samples ∈ samples.
Proof.
  intros Hn Hp Hi. apply andb_true_iff in Hp as [H1%negb_true_iff H2%negb_true_iff].
  assert (Hl : length (sort_samples samples) = length samples) by (by rewrite sort_samples_perm).
  destruct (lookup_lt_is_Some_2 (sort_samples samples) (Z.to_nat (percentile_index p (length samples)))) as [x Hx]; [lia|].
  assert (E : bandwidth_percentile p samples = x).
  { unfold bandwidth_percentile. destruct samples; [done|]. by rewrite H1, H2, Hl, Hx. }
  rewrite E. split; [done|]. rewrite <- sort_samples_perm. by eapply list_elem_of_lookup_2.
Qed.
(** The indices of the reported percentiles, for windows of up to 128 samples:
    in range and nearest to [q] hundredths of the last index. *)
Definition index_ok (q : Z) (n : nat) : bool :=
  let i := percentile_index (percent q) n in
  bool_decide (0 <= i < Z.of_nat n) && bool_decide (2 * Z.abs (100 * i - q * (Z.of_nat n - 1)) <= 100).
Lemma index_ok_small : forallb (fun n => index_ok 50 n && index_ok 90 n && index_ok 99 n) (seq 1 128) = true.
Proof. vm_compute. reflexivity. Qed.
Lemma index_ok_spec q n : q ∈ [50; 90; 99] -> (1 <= n <= 128)%nat -> index_ok q n = true.
Proof.
  intros Hq Hn. pose proof index_ok_small as H. rewrite List.forallb_forall in H.
  specialize (H n ltac:(apply List.in_seq; lia)). rewrite !andb_true_iff in H. destruct H as [[H1 H2] H3].
  rewrite !elem_of_cons, elem_of_nil in Hq. destruct Hq as [->|[->|[->|[]]]]; done.
Qed.
(** The reported percentiles of a window of up to 128 samples are samples of it, in
    order. *)
Theorem percentiles_ordered samples : window samples -> (1 <= length samples <= 128)%nat ->
  let pct q := bandwidth_percentile (percent q) samples in
  (pct 50 ∈ samples /\ pct 90 ∈ samples /\ pct 99 ∈ samples) /\ sample_le (pct 50) (pct 90) /\ sample_le (pct 90) (pct 99).
Proof.
  intros [_ Hg] Hn pct. assert (Hne : samples <> []) by (intros ->; cbn in Hn; lia).
  assert (Hidx : forall q, q ∈ [50; 90; 99] -> let i := percentile_index (percent q) (length samples) in
    0 <= i < Z.of_nat (length samples) /\ 2 * Z.abs (100 * i - q * (Z.of_nat (length samples) - 1)) <= 100).
  { intros q Hq. pose proof (index_ok_spec q _ Hq Hn) as H. apply andb_true_iff in H as [H1%bool_decide_eq_true_1 H2%bool_decide_eq_true_1]. done. }
  destruct (Hidx 50) as [R1 N1]; [repeat constructor|]. destruct (Hidx 90) as [R2 N2]; [repeat constructor|]. destruct (Hidx 99) as [R3 N3]; [repeat constructor|].
  destruct (percentile_rank (percent 50) samples) as [L1 M1]; [done|by vm_compute|done|].
  destruct (percentile_rank (percent 90) samples) as [L2 M2]; [done|by vm_compute|done|].
  destruct (percentile_rank (percent 99) samples) as [L3 M3]; [done|by vm_compute|done|].
  assert (Hg' : Forall good_sample (sort_samples samples)) by (by rewrite sort_samples_perm).
  assert (Hs : Sorted sample_le (sort_samples samples)) by apply Sorted_merge_sort, _.
  split; [done|]. split; (eapply (sorted_lookup _ Hg' Hs); [eassumption..|lia]).
Qed.
