(* ===== verification/Numa.v ===== *)
(** * NUMA placement

    Models [src/common/numa_util.cpp]: the node mask handed to [mbind], the pages
    touched first, the NUMA node of a GPU from the PCI tree of sysfs, and the CPU
    set a thread is pinned to.  What libnuma and sysfs answer is the environment
    [Topology]; a write past the end of the mask is the error [None]. *)
From stdpp Require Import base strings list sorting list_numbers.
From Stdlib Require Import ZArith Lia Strings.Ascii.
From S2P Require Import Prelude.
From S2P Require Import Yaml.
From S2P Require Import ConfigFile.
Open Scope Z_scope.
Open Scope offload_scope.

Record Topology := mkTopology {
  (** [numa_available], [numa_max_node] and [numa_num_configured_cpus] *)
  tp_available : Z; tp_max_node : Z; tp_num_cpus : Z;
  (** [numa_allocate_cpumask] succeeds; [numa_node_to_cpus] *)
  tp_cpumask : bool; tp_node_to_cpus : Z -> option (list Z);
  (** what [fgets] returns for each line of [ls -1 /sys/bus/pci/devices], when [popen] succeeds *)
  tp_ls : option (list string);
  (** the first line of a file, when it opens and is not empty *)
  tp_first_line : string -> option string;
  (** [sysconf(_SC_PAGESIZE)] *)
  tp_pagesize : Z;
}.
Section Numa.
Context (t : Topology).

Definition numa_available_ok : bool := bool_decide (tp_available t >= 0).
Definition numa_max_node_id : Z :=
  if decide (tp_available t < 0) then 0 else if decide (tp_max_node t < 0) then 0 else tp_max_node t.

(** ** Binding *)
Definition mask_longs (maxnode : Z) : Z :=
  let n := u64 (u64 (maxnode + 64) - 1) / 64 in if decide (n = 0) then 1 else n.
(** The mask, or [None] when the node's word is past its end. *)
Definition node_mask (numa_node : Z) : option (list Z) :=
  let mask := replicate (Z.to_nat (mask_longs (u64 (tp_max_node t + 1)))) 0 in
  let w := Z.to_nat (numa_node / 64) in
  match mask !! w with
  | Some v => Some (<[w := Z.lor v (u64 (Z.shiftl 1 (numa_node mod 64)))]> mask)
  | None => None
  end.
(** The arguments of [mbind] beside the range: mask, number of bits, flags. *)
Definition MPOL_MF_STRICT : Z := 1.
Definition MPOL_MF_MOVE : Z := 2.
Definition mbind_args (numa_node : Z) (move_existing : bool) : option (list Z * Z * Z) :=
  mask ← node_mask numa_node;
  Some (mask, u64 (u64 (tp_max_node t + 1) + 1), if move_existing then Z.lor MPOL_MF_MOVE MPOL_MF_STRICT else 0).
(** [mbind] is a function of its arguments to 0 or an errno.  The result, or [None]
    for the write past the mask. *)
Definition bind_range_to_node (mbind : list Z * Z * Z -> Z) (numa_node : Z) (move_existing : bool) : option Z :=
  if decide (numa_node < 0) then Some 0
  else if decide (tp_available t < 0) then Some 0
  else args ← mbind_args numa_node move_existing; Some (- mbind args).

(** ** First touch *)
(** The offsets written, one for each page of [len] bytes; [pages] iterations are
    enough when they reach [len]. *)
Definition page_size : Z := if decide (tp_pagesize t <= 0) then 4096 else tp_pagesize t.
Fixpoint touch (pages : nat) (off len : Z) : list Z :=
  match pages with
  | O => []
  | S pages => if decide (off < len) then off :: touch pages (u64 (off + page_size)) len else []
  end.
Definition first_touch_on_node (len : Z) : list Z := touch (Z.to_nat (len / page_size + 1)) 0 len.

(** ** The node of a GPU *)
Definition devdir : string := "/sys/bus/pci/devices".
Definition trim_line (s : string) : string :=
  str (reverse (drop_while (fun c => bool_decide (c = ascii_of_nat 10) || bool_decide (c = space)) (reverse (chars s)))).
(** [strncmp(buf, p, strlen(p)) == 0] *)
Definition has_prefix (p s : string) : bool := bool_decide (take (length (chars p)) (chars s) = chars p).
Definition dev_file (bdf name : string) : string := devdir +:+ "/" +:+ bdf +:+ "/" +:+ name.
Definition is_gpu (bdf : string) : bool :=
  match tp_first_line t (dev_file bdf "vendor") with
  | Some v => has_prefix "0x10de" v &&
              match tp_first_line t (dev_file bdf "class") with Some c => has_prefix "0x03" c | None => false end
  | None => false
  end.
(** The addresses of the GPUs, in the order of [std::sort]. *)
Definition string_le (a b : string) : Prop := String.leb a b = true.
#[export] Instance string_le_dec : RelDecision string_le.
Proof using. intros a b. unfold string_le. apply _. Defined.
Definition gpu_bdfs : list string :=
  merge_sort string_le
    (filter (fun bdf => bdf <> "" /\ is_gpu bdf = true) (trim_line <$> default [] (tp_ls t))).
(** [fscanf(f, "%d", &node)], when one number was read. *)
Definition scan_int (s : string) : option Z :=
  let '(neg, r) := take_sign (drop_while isspace (chars s)) in
  match take_digits 10 r with
  | ([], _) => None
  | (ds, _) => Some (i32 (if neg : bool then - digits_value 10 ds else digits_value 10 ds))
  end.
Definition gpu_numa_node (cuda_device_index : Z) : Z :=
  if decide (cuda_device_index < 0 \/ cuda_device_index >= Z.of_nat (length gpu_bdfs)) then -1
  else match gpu_bdfs !! Z.to_nat cuda_device_index with
       | Some bdf => match tp_first_line t (dev_file bdf "numa_node") with Some s => default (-1) (scan_int s) | None => -1 end
       | None => -1
       end.

(** ** Pinning *)
(** The CPU set passed to [sched_setaffinity], when it is called.  A CPU past the
    size of [cpu_set_t] is ignored by [CPU_SET]. *)
Definition CPU_SETSIZE : Z := 1024.
Definition pin_thread_to_node (numa_node : Z) : option (list Z) :=
  if decide (numa_node < 0 \/ tp_available t < 0) then None
  else if negb (tp_cpumask t) then None
  else match tp_node_to_cpus t numa_node with
       | None => None
       | Some cpus =>
           let chosen := filter (fun c => c ∈ cpus) (seqZ 0 (tp_num_cpus t)) in
           match chosen with [] => None | _ => Some (filter (fun c => c < CPU_SETSIZE) chosen) end
       end.

(** ** Properties *)
Lemma mask_longs_enough maxnode : 0 < maxnode < 2 ^ 32 -> maxnode <= mask_longs maxnode * 64.
Proof using.
  intros H. unfold mask_longs. rewrite (u64_small (maxnode + 64)) by (unfold in_u64; lia).
  rewrite u64_small by (unfold in_u64; lia). pose proof (Z.div_mod (maxnode + 64 - 1) 64 ltac:(lia)).
  pose proof (Z.mod_pos_bound (maxnode + 64 - 1) 64 ltac:(lia)). case_decide; lia.
Qed.
(** Bit [b] of a mask of 64-bit words. *)
Definition mask_bit (mask : list Z) (b : Z) : bool := Z.testbit (mask !!! Z.to_nat (b / 64)) (b mod 64).
(** For a node the kernel knows, the mask passed to [mbind] holds exactly that
    node, and the number of bits covers it. *)
Theorem node_mask_exact (numa_node : Z) (move_existing : bool) : 0 <= numa_node <= tp_max_node t -> tp_max_node t < 2 ^ 31 ->
  exists mask flags, mbind_args numa_node move_existing = Some (mask, tp_max_node t + 2, flags) /\
    forall b, 0 <= b < 64 * Z.of_nat (length mask) -> mask_bit mask b = bool_decide (b = numa_node).
Proof using.
  intros Hn Hm. unfold mbind_args, node_mask.
  rewrite (u64_small (tp_max_node t + 1)) by (unfold in_u64; lia). rewrite (u64_small (tp_max_node t + 1 + 1)) by (unfold in_u64; lia).
  pose proof (mask_longs_enough (tp_max_node t + 1) ltac:(lia)) as He. set (n := mask_longs _) in *.
  pose proof (Z.div_mod numa_node 64 ltac:(lia)) as Hd. pose proof (Z.mod_pos_bound numa_node 64 ltac:(lia)) as Hr.
  assert (Hw : (Z.to_nat (numa_node / 64) < Z.to_nat n)%nat) by lia.
  rewrite lookup_replicate_2 by done. rewrite Z.lor_0_l, Z.shiftl_1_l.
  rewrite u64_small by (split; [apply Z.pow_nonneg; lia|apply Z.pow_lt_mono_r; lia]). cbn [mbind option_bind].
  eexists _, _. split; [do 3 f_equal; lia|]. intros b Hb. rewrite length_insert, length_replicate in Hb. unfold mask_bit.
  pose proof (Z.div_mod b 64 ltac:(lia)) as Hdb. pose proof (Z.mod_pos_bound b 64 ltac:(lia)) as Hrb.
  destruct (decide (b / 64 = numa_node / 64)) as [E|E].
  - rewrite E, list_lookup_total_insert_eq by (by rewrite length_replicate).
    rewrite Z.pow2_bits_eqb by lia. destruct (Z.eqb_spec (numa_node mod 64) (b mod 64)); symmetry; [apply bool_decide_eq_true|apply bool_decide_eq_false]; lia.
  - rewrite list_lookup_total_insert_ne by lia. rewrite lookup_total_replicate_2 by lia. rewrite Z.testbit_0_l.
    symmetry. apply bool_decide_eq_false. lia.
Qed.
(** A node past the last word of the mask is written out of bounds. *)
Lemma node_mask_overrun (numa_node : Z) : 0 <= tp_max_node t < 64 -> 64 <= numa_node < 2 ^ 31 -> node_mask numa_node = None.
Proof using.
  intros Hm Hn. unfold node_mask, mask_longs. rewrite (u64_small (tp_max_node t + 1)) by (unfold in_u64; lia).
  rewrite (u64_small (tp_max_node t + 1 + 64)) by (unfold in_u64; lia). rewrite u64_small by (unfold in_u64; lia).
  assert (E : (tp_max_node t + 1 + 64 - 1) / 64 = 1) by (symmetry; apply (Z.div_unique_pos _ 64 1 (tp_max_node t)); lia).
  rewrite E. assert (1 <= numa_node / 64) by (apply Z.div_le_lower_bound; lia).
  destruct (Z.to_nat (numa_node / 64)) as [|k] eqn:Ek; [lia|]. done.
Qed.
Lemma page_size_pos : 0 < page_size.
Proof using. unfold page_size. case_decide; lia. Qed.
Lemma touch_covers pages : forall off len x, 0 <= off -> len + page_size < 2 ^ 64 -> off <= x < len -> x < off + Z.of_nat pages * page_size ->
  exists o, o ∈ touch pages off len /\ o <= x < o + page_size.
Proof using.
  pose proof page_size_pos. induction pages as [|pages IH]; intros off len x H0 Hl Hx Hp; [lia|]. cbn [touch].
  rewrite decide_True by lia. destruct (decide (x < off + page_size)) as [Hin|Hin].
  - exists off. split; [left|lia].
  - rewrite u64_small by (unfold in_u64; lia). destruct (IH (off + page_size) len x) as (o & Ho & Hox); [lia..|].
    exists o. split; [by right|done].
Qed.
(** Every byte of the range lies in a page whose first byte is written, and no
    write is past the range. *)
Theorem first_touch_complete (len : Z) : 0 <= len -> len + page_size < 2 ^ 64 ->
  (forall x, 0 <= x < len -> exists o, o ∈ first_touch_on_node len /\ o <= x < o + page_size) /\
  (forall o, o ∈ first_touch_on_node len -> 0 <= o < len).
Proof using.
  intros H0 Hl. pose proof page_size_pos. split.
  - intros x Hx. apply touch_covers; [lia|lia|lia|]. rewrite Z2Nat.id by (pose proof (Z.div_pos len page_size H0 ltac:(lia)); lia).
    pose proof (Z.div_mod len page_size ltac:(lia)). pose proof (Z.mod_pos_bound len page_size ltac:(lia)). lia.
  - intros o. unfold first_touch_on_node. generalize (Z.to_nat (len / page_size + 1)). intros n.
    assert (Hoff : 0 <= 0) by lia. revert Hoff. generalize 0 at 2 3. induction n as [|n IH]; intros off Hoff; cbn [touch]; [by intros ?%elem_of_nil|].
    case_decide; [|by intros ?%elem_of_nil]. intros [->|Ho]%elem_of_cons; [lia|]. apply (IH (u64 (off + page_size))); [|done].
    apply u64_range.
Qed.
#[export] Instance string_le_total : Total string_le.
Proof using. intros a b. apply String.leb_total. Qed.
(** The devices GPU indices refer to: exactly the display controllers with NVIDIA's
    vendor id, ordered by address. *)
Theorem gpu_bdfs_exact :
  Sorted string_le gpu_bdfs /\
  forall bdf, bdf ∈ gpu_bdfs <-> bdf <> "" /\ is_gpu bdf = true /\ bdf ∈ trim_line <$> default [] (tp_ls t).
Proof using.
  split; [apply Sorted_merge_sort; apply _|]. intros bdf. unfold gpu_bdfs. rewrite merge_sort_Permutation, list_elem_of_filter. tauto.
Qed.
End Numa.

(** The node of the second GPU of a machine with two. *)
Definition sample_topology : Topology := {|
  tp_available := 0; tp_max_node := 1; tp_num_cpus := 4; tp_cpumask := true;
  tp_node_to_cpus n := Some (if decide (n = 0) then [0; 1] else [2; 3]);
  tp_ls := Some ["0000:c1:00.0" +:+ String (ascii_of_nat 10) ""; "0000:41:00.0" +:+ String (ascii_of_nat 10) "";
                 "0000:00:1f.0" +:+ String (ascii_of_nat 10) ""];
  tp_first_line p :=
    if decide (p = dev_file "0000:c1:00.0" "vendor" \/ p = dev_file "0000:41:00.0" "vendor") then Some "0x10de"
    else if decide (p = dev_file "0000:c1:00.0" "class" \/ p = dev_file "0000:41:00.0" "class") then Some "0x030200"
    else if decide (p = dev_file "0000:c1:00.0" "numa_node") then Some "1"
    else if decide (p = dev_file "0000:41:00.0" "numa_node") then Some "0" else None;
  tp_pagesize := 4096 |}.
Example second_gpu_node : gpu_numa_node sample_topology 1 = 1 /\ gpu_numa_node sample_topology 2 = -1 /\
  pin_thread_to_node sample_topology 1 = Some [2; 3].
Proof. vm_compute. done. Qed.
