(* ===== verification/Process.v ===== *)
(** * The daemon process

    Models [src/daemon/main.cpp] (command line, configuration, exit code), the
    construction and teardown of the shared memory and [run], [accept_loop] and
    [request_stop] of [src/daemon/daemon.cpp], and the listening side of
    [src/common/uds.cpp].

    The operating system is a record [Proc] of what the process holds of it: open
    descriptors, mappings, bound socket files and ports, and running threads.  The outcomes
    of the calls that can fail are a script, consumed in order; an operation that
    needs more answers than the script has does not return ([None]).  The clock,
    NUMA placement (whose failures are only logged) and log lines are left out. *)
From stdpp Require Import base gmap strings list pretty fin_sets.
From Stdlib Require Import ZArith Lia Strings.Ascii.
From S2P Require Import Prelude.
From S2P Require Import State.
From S2P Require Import Layout.
From S2P Require Import Alloc.
From S2P Require Import Yaml.
From S2P Require Import ConfigFile.
Open Scope Z_scope.
Open Scope offload_scope.

(** ** What the process holds *)
(** [Closing fd]: a connection thread between its [close] and the removal of [fd]
    from [conn_fds_]. *)
Inductive thread := DrainWorker | ReadbackWorker | HeartbeatMonitor | RingPoller | Connection (fd : Z) | Closing (fd : Z).
#[export] Instance thread_eq_dec : EqDecision thread.
Proof. solve_decision. Defined.
Record Proc := mkProc {
  pr_script : list bool;
  pr_open : gset Z; pr_next : Z; pr_maps : gset Z; pr_paths : gset string; pr_ports : list Z;
  (* the directories [mkdir] was called for *)
  pr_dirs : list string;
  pr_threads : list thread;
  (* [running_], [workers_running_], a byte in the stop pipe, [conn_fds_] *)
  pr_running : bool; pr_workers_running : bool; pr_stop_byte : bool; pr_conn_fds : gset Z;
  (* whether an [accept] returned the number of a connection still to be removed *)
  pr_reused : bool;
  (* the threads a stop that happens now does not reach *)
  pr_deaf : list thread }.
#[export] Instance eta_Proc : Eta Proc := fun p => mkProc
  (pr_script p) (pr_open p) (pr_next p) (pr_maps p) (pr_paths p) (pr_ports p) (pr_dirs p) (pr_threads p)
  (pr_running p) (pr_workers_running p) (pr_stop_byte p) (pr_conn_fds p) (pr_reused p) (pr_deaf p).
Definition P (A : Type) := Proc -> option (res A) * Proc.
Definition pret {A} (x : A) : P A := fun p => (Some (Ok x), p).
Definition pthrow {A} (m : string) : P A := fun p => (Some (Throw m), p).
Definition pbind {A B} (m : P A) (k : A -> P B) : P B := fun p =>
  match m p with
  | (Some (Ok x), p') => k x p'
  | (Some (Throw e), p') => (Some (Throw e), p')
  | (None, p') => (None, p')
  end.
Definition pmodify (f : Proc -> Proc) : P unit := fun p => (Some (Ok tt), f p).
Definition pget : P Proc := fun p => (Some (Ok p), p).
Declare Scope process_scope.
Delimit Scope process_scope with process.
Notation "'let%' x ':=' m 'in' k" := (pbind m (fun x => k))
  (at level 200, x name, m at level 100, k at level 200) : process_scope.
Open Scope process_scope.
(** The outcome of a call that may fail. *)
Definition sys : P bool := fun p =>
  match pr_script p with [] => (None, p) | b :: s => (Some (Ok b), p <| pr_script := s |>) end.
(** A call that returns a new descriptor, or an error. *)
Definition open_fd : P (option Z) :=
  let% ok := sys in
  if ok then
    let% p := pget in
    let% _ := pmodify (fun p => p <| pr_open ::= union {[pr_next p]} |> <| pr_next ::= Z.succ |>) in
    pret (Some (pr_next p))
  else pret None.
Definition close_fd (fd : Z) : P unit := pmodify (fun p => p <| pr_open ::= (fun s => s ∖ {[fd]}) |>).

Section Process.
Context (strerror : string).

(** ** Listening sockets *)
Definition uds_listen (path : string) : P Z :=
  if decide (Z.of_nat (String.length path) >= 108) then pthrow "socket path too long"
  else
    let% fd := open_fd in
    match fd with
    | None => pthrow ("socket() failed: " +:+ strerror)
    | Some fd =>
        let% _ := pmodify (fun p => p <| pr_paths ::= (fun s => s ∖ {[path]}) |>) in
        let% bound := sys in
        if negb bound then let% _ := close_fd fd in pthrow ("bind(" +:+ path +:+ ") failed: " +:+ strerror)
        else
          let% _ := pmodify (fun p => p <| pr_paths ::= union {[path]} |>) in
          let% listening := sys in
          if negb listening then let% _ := close_fd fd in pthrow ("listen failed: " +:+ strerror)
          else pret fd
    end.
Definition tcp_listen (port : Z) : P Z :=
  let% fd := open_fd in
  match fd with
  | None => pthrow ("tcp socket() failed: " +:+ strerror)
  | Some fd =>
      let% bound := sys in
      if negb bound then let% _ := close_fd fd in pthrow ("tcp bind(port=" +:+ pretty port +:+ ") failed: " +:+ strerror)
      else
        let% _ := pmodify (fun p => p <| pr_ports ::= cons port |>) in
        let% listening := sys in
        if negb listening then let% _ := close_fd fd in pthrow ("tcp listen failed: " +:+ strerror)
        else pret fd
  end.
(** The outcome of [accept]: a descriptor the kernel chose, an error that is retried
    ([EINTR], [EAGAIN]), or another one. *)
Inductive accepted := Accepted (fd : Z) | AcceptRetry | AcceptError.
Definition uds_accept (a : accepted) : P (option Z) :=
  match a with
  | Accepted fd =>
      let% p := pget in
      (* only a number that is not open is returned *)
      if decide (fd ∈ pr_open p) then pret None
      else let% _ := pmodify (fun p => p <| pr_open ::= union {[fd]} |>) in pret (Some fd)
  | AcceptRetry => pret None
  | AcceptError => pthrow ("accept failed: " +:+ strerror)
  end.

(** ** Shared memory *)
Record Region := mkRegion { rg_fd : Z; rg_base : Z; rg_size : Z }.
(** A memfd of [size] bytes, mapped; a region that fails half-way stays open. *)
Definition make_region (what : string) (size : Z) : P Region :=
  let% fd := open_fd in
  match fd with
  | None => pthrow ("memfd_create(" +:+ what +:+ ") failed: " +:+ strerror)
  | Some fd =>
      let% sized := sys in
      if negb sized then pthrow ("ftruncate(" +:+ what +:+ ") failed: " +:+ strerror)
      else
        let% mapped := sys in
        if negb mapped then pthrow ("mmap(" +:+ what +:+ ") failed: " +:+ strerror)
        else
          let% _ := pmodify (fun p => p <| pr_maps ::= union {[fd]} |>) in
          pret (mkRegion fd fd size)
  end.
Fixpoint make_arenas (l : list NumaArenaConfig) : P (list Region) :=
  match l with
  | [] => pret []
  | ac :: l =>
      let% r := make_region "arena" (na_size_bytes ac) in
      let% rest := make_arenas l in
      pret (r :: rest)
  end.
(** [build_arenas_and_control]: the arenas, then the control region of the layout's
    size. *)
Definition build_arenas_and_control (c : DaemonConfig) (control_bytes : Z) : P (list Region * Region) :=
  let% arenas := make_arenas (c_per_numa c) in
  let% control := make_region "control" control_bytes in
  pret (arenas, control).
Definition drop_region (r : Region) : P unit :=
  let% _ := pmodify (fun p => p <| pr_maps ::= (fun s => s ∖ {[rg_base r]}) |>) in close_fd (rg_fd r).
Fixpoint drop_regions (l : list Region) : P unit :=
  match l with [] => pret tt | r :: l => let% _ := drop_region r in drop_regions l end.
Definition teardown (m : list Region * Region) : P unit :=
  let% _ := drop_region m.2 in drop_regions m.1.

(** ** The accept loop *)
(** What happens to the loop: [poll] returns, the thread of a connection closes it
    or removes it from [conn_fds_], or a stop is requested (by a signal or a
    request), whose write to the pipe may fail.  [EvDeaf t] and [EvHears t]: a thread
    comes to a point where a stop does not reach it, and leaves it.  A worker is at
    such a point between the evaluation of the predicate of its untimed wait and
    the wait itself, since [run] neither clears [workers_running_] nor notifies
    under the queue's mutex; a connection thread is while it waits for something
    else than its own socket, as [export_send] does for a receiver.  The other
    threads look at [workers_running_] after a bounded sleep. *)
Inductive poll_result := PollEintr | PollFail | PollReady (listen tcp : option accepted).
Inductive loop_event := EvPoll (r : poll_result) | EvConnClose (fd : Z) | EvConnErase (fd : Z) | EvStop (wrote : bool)
  | EvDeaf (t : thread) | EvHears (t : thread).
Definition request_stop (wrote : bool) : P unit :=
  pmodify (fun p => p <| pr_running := false |> <| pr_stop_byte ::= orb wrote |>).
Fixpoint remove_thread (t : thread) (l : list thread) : list thread :=
  match l with [] => [] | t' :: l => if decide (t' = t) then l else t' :: remove_thread t l end.
(** The end of [serve_connection]: the descriptor is closed, and then removed. *)
Definition close_connection (fd : Z) (p : Proc) : Proc :=
  if decide (Connection fd ∈ pr_threads p /\ Connection fd ∉ pr_deaf p) then
    p <| pr_open ::= (fun s => s ∖ {[fd]}) |> <| pr_threads ::= (fun l => remove_thread (Connection fd) l ++ [Closing fd]) |>
  else p.
Definition erase_connection (fd : Z) (p : Proc) : Proc :=
  if decide (Closing fd ∈ pr_threads p) then
    p <| pr_conn_fds ::= (fun s => s ∖ {[fd]}) |> <| pr_threads ::= remove_thread (Closing fd) |>
  else p.
Definition waits (t : thread) : bool :=
  match t with DrainWorker | ReadbackWorker | Connection _ => true | _ => false end.
Definition deafen (t : thread) (p : Proc) : Proc :=
  if decide (t ∈ pr_threads p /\ waits t = true) then p <| pr_deaf ::= cons t |> else p.
Definition accept_on (a : option accepted) : P unit :=
  match a with
  | None => pret tt
  | Some a =>
      let% fd := uds_accept a in
      match fd with
      | None => pret tt
      | Some fd => pmodify (fun p => p <| pr_conn_fds ::= union {[fd]} |>
                     <| pr_reused ::= orb (bool_decide (Closing fd ∈ pr_threads p)) |>
                     <| pr_threads ::= (fun l => l ++ [Connection fd]) |>)
      end
  end.
(** [in_poll]: the loop waits in [poll]; otherwise it is at its head, where it looks
    at [running_].  [tcp] tells whether the TCP endpoint is open. *)
Fixpoint accept_loop (tcp : bool) (events : list loop_event) (in_poll : bool) : P unit := fun p =>
  if negb in_poll && negb (pr_running p) then (Some (Ok tt), p)
  else match events with
  | [] => (None, p)
  | EvStop wrote :: events => (let% _ := request_stop wrote in accept_loop tcp events true) p
  | EvConnClose fd :: events => accept_loop tcp events true (close_connection fd p)
  | EvConnErase fd :: events => accept_loop tcp events true (erase_connection fd p)
  | EvDeaf t :: events => accept_loop tcp events true (deafen t p)
  | EvHears t :: events => accept_loop tcp events true (p <| pr_deaf ::= remove_thread t |>)
  | EvPoll PollEintr :: events => accept_loop tcp events false p
  | EvPoll PollFail :: _ => (Some (Ok tt), p)
  | EvPoll (PollReady l t) :: events =>
      if pr_stop_byte p then (Some (Ok tt), p)
      else (let% _ := accept_on l in
            let% _ := accept_on (if tcp then t else None) in
            accept_loop tcp events false) p
  end.

(** ** [run] *)
Definition worker_threads (c : DaemonConfig) : list thread :=
  let n := Z.to_nat (Z.max 1 (c_drain_workers c)) in
  replicate n DrainWorker ++ replicate n ReadbackWorker ++ [HeartbeatMonitor]
  ++ (if decide (c_completion_ring_max_ranks c > 0) then [RingPoller] else []).
(** [mkdir -p]: the directories it tries to make, in order. *)
Fixpoint mkdir_p_loop (t cur : text) : list text :=
  let try := match cur with [] => [] | _ => if decide (cur = ["/"%char]) then [] else [cur] end in
  match t with
  | [] => try
  | ch :: t =>
      if decide (ch = "/"%char) then try ++ mkdir_p_loop t (cur ++ [ch]) else mkdir_p_loop t (cur ++ [ch])
  end.
Definition mkdir_p (path : string) : list string := str <$> mkdir_p_loop (chars path) [].
Definition ensure_nvme_dir (c : DaemonConfig) : list string :=
  mkdir_p (c_nvme_path c) ++ (c_nvme_stripe_dirs c ≫= mkdir_p).
(** The descriptors of the open connections, and those to be removed. *)
Definition live_fds (l : list thread) : list Z := omap (fun t => match t with Connection fd => Some fd | _ => None end) l.
Definition closing_fds (l : list thread) : list Z := omap (fun t => match t with Closing fd => Some fd | _ => None end) l.
(** The shutdown of the descriptors in [conn_fds_] and the joining of the connection
    threads.  A thread whose descriptor was shut down sees the end of file, closes
    it and ends; joining a thread that was missed, or that waits for something
    else, does not return. *)
Definition join_connections : P unit := fun p =>
  if decide (Forall (fun fd => fd ∈ pr_conn_fds p /\ Connection fd ∉ pr_deaf p) (live_fds (pr_threads p))) then
    let fds := list_to_set (live_fds (pr_threads p)) : gset Z in
    (Some (Ok tt), p <| pr_open ::= (fun s => s ∖ fds) |>
                     <| pr_conn_fds ::= (fun s => s ∖ fds ∖ list_to_set (closing_fds (pr_threads p))) |>)
  else (None, p).
(** The joining of the other threads: a worker that missed the notification waits
    forever. *)
Definition join_workers : P unit := fun p =>
  if decide (DrainWorker ∈ pr_deaf p \/ ReadbackWorker ∈ pr_deaf p) then (None, p)
  else (Some (Ok tt), p <| pr_threads := [] |>).
(** [run] up to the accept loop: the stop pipe, the listening sockets, the threads. *)
Record Endpoints := mkEndpoints { ep_stop_r : Z; ep_stop_w : Z; ep_listen : Z; ep_tcp : option Z }.
Definition run_start (c : DaemonConfig) : P Endpoints :=
  let% piped := sys in
  if negb piped then pthrow ("pipe() failed: " +:+ strerror)
  else
    let% p := pget in
    let stop_r := pr_next p in
    let stop_w := pr_next p + 1 in
    let% _ := pmodify (fun p => p <| pr_open ::= union {[stop_r; stop_w]} |> <| pr_next ::= Z.add 2 |>) in
    let% listen_fd := uds_listen (c_socket_path c) in
    let tcp_port := c_v2_control_tcp_port c in
    let% tcp_listen_fd := (if decide (tcp_port = 0) then pret None
                           else let% fd := tcp_listen (u16 tcp_port) in pret (Some fd)) in
    let% _ := pmodify (fun p => p <| pr_running := true |> <| pr_workers_running := true |>
                                  <| pr_dirs ::= (fun l => if c_nvme_enabled c then l ++ ensure_nvme_dir c else l) |>
                                  <| pr_threads ::= (fun l => l ++ worker_threads c) |>) in
    pret (mkEndpoints stop_r stop_w listen_fd tcp_listen_fd).
(** [run] after the loop: everything is joined and closed. *)
Definition run_stop (c : DaemonConfig) (e : Endpoints) : P unit :=
  let% _ := pmodify (fun p => p <| pr_workers_running := false |>) in
  let% _ := join_connections in
  let% _ := join_workers in
  let% _ := close_fd (ep_listen e) in
  let% _ := (match ep_tcp e with Some fd => close_fd fd | None => pret tt end) in
  let% _ := pmodify (fun p => p <| pr_paths ::= (fun s => s ∖ {[c_socket_path c]}) |>) in
  let% _ := close_fd (ep_stop_r e) in
  close_fd (ep_stop_w e).
Definition run (c : DaemonConfig) (events : list loop_event) : P unit :=
  let% e := run_start c in
  let% _ := accept_loop (match ep_tcp e with Some _ => true | None => false end) events false in
  run_stop c e.
End Process.

(** ** [main] *)
Record Options := mkOptions {
  op_config_path : string; op_socket_override : string; op_trace_path : string; op_smoke_arena_mb : Z;
  op_numa : Z; op_gpu : Z; op_tcp_port : Z; op_have_smoke : bool }.
#[export] Instance eta_Options : Eta Options := fun o => mkOptions
  (op_config_path o) (op_socket_override o) (op_trace_path o) (op_smoke_arena_mb o) (op_numa o) (op_gpu o)
  (op_tcp_port o) (op_have_smoke o).
Definition default_options : Options := mkOptions "" "" "" 0 0 0 0 false.
(** [std::strtoull(s, nullptr, 10)]: 0 without digits, the largest value on
    overflow, and the negation of a number with a minus sign. *)
Definition strtoull (s : string) : Z :=
  let '(neg, t) := take_sign (drop_while isspace (chars s)) in
  let v := digits_value 10 (take_digits 10 t).1 in
  if decide (v > 2 ^ 64 - 1) then 2 ^ 64 - 1 else if neg : bool then u64 (- v) else v.
(** The argument that sets an option, and how. *)
Definition set_option (a v : string) : option (Options -> Options) :=
  if decide (a = "--config") then Some (fun o => o <| op_config_path := v |>)
  else if decide (a = "--socket") then Some (fun o => o <| op_socket_override := v |>)
  else if decide (a = "--trace") then Some (fun o => o <| op_trace_path := v |>)
  else if decide (a = "--smoke-arena-mb") then
    Some (fun o => o <| op_smoke_arena_mb := strtoull v |> <| op_have_smoke := true |>)
  else if decide (a = "--numa") then Some (fun o => o <| op_numa := u32 (strtoull v) |>)
  else if decide (a = "--gpu") then Some (fun o => o <| op_gpu := u32 (strtoull v) |>)
  else if decide (a = "--tcp-port") then Some (fun o => o <| op_tcp_port := u32 (strtoull v) |>)
  else None.
(** The options, or the exit code. *)
Fixpoint parse_args (argv : list string) (o : Options) : Z + Options :=
  match argv with
  | [] => inr o
  | a :: argv =>
      match set_option a "" with
      | Some _ =>
          match argv with
          | [] => inl 2
          | v :: argv => parse_args argv (match set_option a v with Some f => f o | None => o end)
          end
      | None => if decide (a = "-h" \/ a = "--help") then inl 0 else inl 2
      end
  end.
Section Main.
(** [load_config], and the value of [OFLD_TRACE]. *)
Context (load : string -> res DaemonConfig) (ofld_trace : option string).
Definition main_config (o : Options) : res DaemonConfig :=
  let base := if decide (op_config_path o <> "") then load (op_config_path o)
              else if op_have_smoke o then
                Ok (default_smoke_config (u64 (Z.shiftl (op_smoke_arena_mb o) 20)) (op_numa o) (op_gpu o))
              else Ok (default_smoke_config (Z.shiftl 256 20) (op_numa o) (op_gpu o)) in
  res_bind base (fun cfg =>
    let cfg := if decide (op_socket_override o <> "") then cfg <| c_socket_path := op_socket_override o |> else cfg in
    Ok (if decide (op_tcp_port o <> 0) then cfg <| c_v2_control_tcp_port := op_tcp_port o |> else cfg)).
(** The file the trace is written to. *)
Definition main_trace (o : Options) : option string :=
  if decide (op_trace_path o <> "") then Some (op_trace_path o)
  else match ofld_trace with Some e => if decide (e = "") then None else Some e | None => None end.
(** How the process ends: a [std::thread] destroyed while it runs terminates it. *)
Inductive ending := ExitCode (n : Z) | Terminated.
Definition main (strerror : string) (argv : list string) (control_bytes : Z) (events : list loop_event)
  : Proc -> option ending * Proc := fun p =>
  match parse_args argv default_options with
  | inl n => (Some (ExitCode n), p)
  | inr o =>
      match main_config o with
      | Throw _ => (Some (ExitCode 1), p)
      | Ok cfg =>
          match build_arenas_and_control strerror cfg control_bytes p with
          | (None, p) => (None, p)
          | (Some (Throw _), p) => (Some (ExitCode 1), p)
          | (Some (Ok m), p) =>
              match run strerror cfg events p with
              | (None, p) => (None, p)
              | (Some r, p) =>
                  let p := (teardown m p).2 in
                  match r with
                  | Ok _ => (Some (ExitCode 0), p)
                  | Throw _ => (Some (match pr_threads p with [] => ExitCode 1 | _ => Terminated end), p)
                  end
              end
          end
      end
  end.
End Main.

(** ** Descriptors *)
(** Descriptors are handed out in order. *)
Definition fresh (p : Proc) : Prop := forall fd, fd ∈ pr_open p -> fd < pr_next p.
(** Nothing but the connections was opened since [base] was open; and as long as no
    number was reused too early, every open connection is tracked. *)
Record serving (base : gset Z) (p : Proc) : Prop := {
  sv_open : pr_open p = base ∪ list_to_set (live_fds (pr_threads p));
  sv_live : NoDup (live_fds (pr_threads p)) /\ forall fd, fd ∈ live_fds (pr_threads p) -> fd ∉ base;
  sv_conns : pr_conn_fds p ⊆ list_to_set (live_fds (pr_threads p)) ∪ list_to_set (closing_fds (pr_threads p));
  sv_tracked : pr_reused p = false ->
    forall fd, fd ∈ live_fds (pr_threads p) -> fd ∈ pr_conn_fds p /\ fd ∉ closing_fds (pr_threads p) }.
(** What the accept loop leaves alone. *)
Definition steady (p p' : Proc) : Prop :=
  pr_maps p' = pr_maps p /\ pr_paths p' = pr_paths p /\ pr_ports p' = pr_ports p /\ pr_script p' = pr_script p.
#[local] Instance steady_preorder : PreOrder steady.
Proof. split; [by intros p|]. unfold steady. intros x y z (?&?&?&?) (?&?&?&?). split_and!; congruence. Qed.

Section Clean.
Context (strerror : string).
Lemma open_fd_spec p r p' : fresh p -> open_fd p = (Some (Ok r), p') ->
  fresh p' /\ pr_paths p' = pr_paths p /\ pr_ports p' = pr_ports p /\ pr_maps p' = pr_maps p /\
  pr_conn_fds p' = pr_conn_fds p /\ pr_threads p' = pr_threads p /\
  match r with Some fd => fd ∉ pr_open p /\ pr_open p' = {[fd]} ∪ pr_open p | None => pr_open p' = pr_open p end.
Proof.
  intros Hf. unfold open_fd, pbind at 1, sys. destruct (pr_script p) as [|[] s]; [done|..]; intros [= <- <-]; [|by split_and!].
  split_and!; try done; cbn.
  - intros fd. cbn. rewrite elem_of_union, elem_of_singleton. intros [->|H%Hf]; lia.
  - intros H%Hf. lia.
Qed.
(** An attempt to listen holds a descriptor exactly when it succeeds. *)
Lemma uds_listen_spec path p r p' : fresh p -> uds_listen strerror path p = (Some r, p') ->
  fresh p' /\ pr_maps p' = pr_maps p /\ pr_ports p' = pr_ports p /\ pr_conn_fds p' = pr_conn_fds p /\ pr_threads p' = pr_threads p /\
  match r with
  | Ok fd => fd ∉ pr_open p /\ pr_open p' = {[fd]} ∪ pr_open p /\ pr_paths p' = {[path]} ∪ pr_paths p
  | Throw _ => pr_open p' = pr_open p
  end.
Proof.
  intros Hf. unfold uds_listen. case_decide; [by intros [= <- <-]|].
  unfold pbind at 1. destruct (open_fd p) as [[[[fd|]|e]|] p1] eqn:E1; try done.
  - apply open_fd_spec in E1 as (Hf1 & H1 & H2 & H3 & H4 & H5 & Hn & Ho); [|done].
    unfold pbind at 1, pmodify. cbn. unfold pbind at 1, sys. cbn.
    assert (Hc : forall p2, pr_open p2 = {[fd]} ∪ pr_open p -> pr_open p2 ∖ {[fd]} = pr_open p) by (intros p2 ->; set_solver).
    destruct (pr_script p1) as [|[] s]; [done|..]; cbn.
    + destruct s as [|[] s]; [done|..]; intros [= <- <-].
      * split_and!; try done; cbn. rewrite H1. apply set_eq. intros x. destruct (decide (x = path)); set_solver.
      * split_and!; try done; cbn; [|by apply Hc]. intros x. cbn. intros [Hx _]%elem_of_difference. by apply Hf1.
    + intros [= <- <-]. split_and!; try done; cbn; [|by apply Hc]. intros x. cbn. intros [Hx _]%elem_of_difference. by apply Hf1.
  - apply open_fd_spec in E1 as (? & H1 & H2 & H3 & H4 & H5 & H6); [|done]. intros [= <- <-]. by split_and!.
  - unfold open_fd, pbind, sys in E1. by destruct (pr_script p) as [|[] ?].
Qed.
Lemma tcp_listen_spec port p r p' : fresh p -> tcp_listen strerror port p = (Some r, p') ->
  fresh p' /\ pr_maps p' = pr_maps p /\ pr_paths p' = pr_paths p /\ pr_conn_fds p' = pr_conn_fds p /\ pr_threads p' = pr_threads p /\
  match r with
  | Ok fd => fd ∉ pr_open p /\ pr_open p' = {[fd]} ∪ pr_open p
  | Throw _ => pr_open p' = pr_open p
  end.
Proof.
  intros Hf. unfold tcp_listen.
  unfold pbind at 1. destruct (open_fd p) as [[[[fd|]|e]|] p1] eqn:E1; try done.
  - apply open_fd_spec in E1 as (Hf1 & H1 & H2 & H3 & H4 & H5 & Hn & Ho); [|done].
    unfold pbind at 1, sys. 
    assert (Hc : forall p2, pr_open p2 = {[fd]} ∪ pr_open p -> pr_open p2 ∖ {[fd]} = pr_open p) by (intros p2 ->; set_solver).
    destruct (pr_script p1) as [|[] s]; [done|..]; cbn.
    + destruct s as [|[] s]; [done|..]; intros [= <- <-].
      * by split_and!.
      * split_and!; try done; cbn; [|by apply Hc]. intros x. cbn. intros [Hx _]%elem_of_difference. by apply Hf1.
    + intros [= <- <-]. split_and!; try done; cbn; [|by apply Hc]. intros x. cbn. intros [Hx _]%elem_of_difference. by apply Hf1.
  - apply open_fd_spec in E1 as (? & H1 & H2 & H3 & H4 & H5 & H6); [|done]. intros [= <- <-]. by split_and!.
  - unfold open_fd, pbind, sys in E1. by destruct (pr_script p) as [|[] ?].
Qed.

(** ** The loop *)
Lemma remove_thread_perm t l : t ∈ l -> l ≡ₚ t :: remove_thread t l.
Proof.
  induction l as [|t' l IH]; [by intros H%elem_of_nil|]. cbn. intros Ht. case_decide as E; [by rewrite E|].
  apply elem_of_cons in Ht as [->|Ht]; [done|]. rewrite (IH Ht) at 1. apply Permutation_swap.
Qed.
Lemma live_in fd l : Connection fd ∈ l <-> fd ∈ live_fds l.
Proof.
  unfold live_fds. rewrite list_elem_of_omap. split; [intros H; by exists (Connection fd)|].
  intros ([] & H & [= ->]). done.
Qed.
Lemma closing_in fd l : Closing fd ∈ l <-> fd ∈ closing_fds l.
Proof.
  unfold closing_fds. rewrite list_elem_of_omap. split; [intros H; by exists (Closing fd)|].
  intros ([] & H & [= ->]). done.
Qed.
Lemma live_app a b : live_fds (a ++ b) = live_fds a ++ live_fds b.
Proof. apply omap_app. Qed.
Lemma closing_app a b : closing_fds (a ++ b) = closing_fds a ++ closing_fds b.
Proof. apply omap_app. Qed.
Lemma close_connection_serving base fd p : serving base p ->
  serving base (close_connection fd p) /\ steady p (close_connection fd p) /\ pr_reused (close_connection fd p) = pr_reused p.
Proof.
  intros Hs. unfold close_connection. case_decide as Hin'; [|by split_and!]. destruct Hin' as [Hin _]. split; [|done]. destruct Hs as [Ho [Hn Hb] Hc Ht].
  pose proof (remove_thread_perm _ _ Hin) as Hp. set (l := remove_thread (Connection fd) (pr_threads p)) in *.
  assert (Hl : live_fds (pr_threads p) ≡ₚ fd :: live_fds l) by (unfold live_fds at 1; by rewrite Hp).
  assert (Hcl : closing_fds (pr_threads p) ≡ₚ closing_fds l) by (unfold closing_fds at 1; by rewrite Hp).
  assert (Hls : (list_to_set (live_fds (pr_threads p)) : gset Z) = {[fd]} ∪ list_to_set (live_fds l)) by (by rewrite (list_to_set_perm_L _ _ Hl)).
  assert (Hcls : (list_to_set (closing_fds (pr_threads p)) : gset Z) = list_to_set (closing_fds l)) by (by rewrite (list_to_set_perm_L _ _ Hcl)).
  rewrite Hl in Hn. apply NoDup_cons in Hn as [Hfd Hn].
  assert (Hb' : forall x, x = fd \/ x ∈ live_fds l -> x ∉ base) by (intros x Hx; apply Hb; rewrite Hl; set_solver).
  split; cbn; rewrite ?live_app, ?closing_app; cbn; rewrite ?app_nil_r.
  - rewrite Ho, Hls. apply set_eq. intros x. pose proof (Hb' x). clear -H Hfd. destruct (decide (x = fd)); set_solver.
  - split; [done|]. auto.
  - rewrite Hls, Hcls in Hc. rewrite list_to_set_app_L. set_solver +Hc.
  - intros Hr x Hx. destruct (Ht Hr x) as [H1 H2]; [rewrite Hl; by right|]. split; [done|]. rewrite Hcl in H2. set_solver.
Qed.
Lemma erase_connection_serving base fd p : serving base p ->
  serving base (erase_connection fd p) /\ steady p (erase_connection fd p) /\ pr_reused (erase_connection fd p) = pr_reused p.
Proof.
  intros Hs. unfold erase_connection. case_decide as Hin; [|by split_and!]. split; [|done]. destruct Hs as [Ho [Hn Hb] Hc Ht].
  pose proof (remove_thread_perm _ _ Hin) as Hp. set (l := remove_thread (Closing fd) (pr_threads p)) in *.
  assert (Hl : live_fds (pr_threads p) ≡ₚ live_fds l) by (unfold live_fds at 1; by rewrite Hp).
  assert (Hcl : closing_fds (pr_threads p) ≡ₚ fd :: closing_fds l) by (unfold closing_fds at 1; by rewrite Hp).
  assert (Hls : (list_to_set (live_fds (pr_threads p)) : gset Z) = list_to_set (live_fds l)) by (by rewrite (list_to_set_perm_L _ _ Hl)).
  assert (Hcls : (list_to_set (closing_fds (pr_threads p)) : gset Z) = {[fd]} ∪ list_to_set (closing_fds l)) by (by rewrite (list_to_set_perm_L _ _ Hcl)).
  split; cbn; fold l.
  - by rewrite Ho, Hls.
  - rewrite <- Hl. split; [done|]. intros x. rewrite <- Hl. auto.
  - rewrite Hls, Hcls in Hc. set_solver +Hc.
  - intros Hr x Hx. destruct (Ht Hr x) as [H1 H2]; [by rewrite Hl|]. rewrite Hcl in H2. set_solver +H1 H2.
Qed.
Lemma accept_on_serving base a p : serving base p -> forall r p', accept_on strerror a p = (r, p') ->
  serving base p' /\ steady p p' /\ r <> None.
Proof.
  intros Hs r p'. unfold accept_on. destruct a as [[fd| |]|]; try (by intros [= <- <-]).
  unfold uds_accept, pbind, pget, pret, pmodify. case_decide as Hfd; [by intros [= <- <-]|]. intros [= <- <-]. split; [|done].
  destruct Hs as [Ho [Hn Hb] Hc Ht]. rewrite Ho in Hfd. split; cbn; rewrite ?live_app, ?closing_app; cbn; rewrite ?app_nil_r.
  - rewrite Ho. set_solver.
  - split; [apply NoDup_app; split_and!; [done|set_solver|apply NoDup_singleton]|]. intros x. set_solver.
  - set_solver +Hc.
  - intros [Hr%bool_decide_eq_false_1 Hr']%orb_false_iff x. rewrite closing_in in Hr. pose proof (Ht Hr' x) as Hx.
    clear -Hr Hx. set_solver.
Qed.
Lemma deafen_serving base t p : serving base p -> serving base (deafen t p) /\ steady p (deafen t p).
Proof. intros Hs. unfold deafen. case_decide; [|done]. split; [|done]. destruct Hs. by split. Qed.
(** Whatever happens, the loop only opens and closes connections. *)
Lemma accept_loop_serving base tcp events : forall b p r p', serving base p ->
  accept_loop strerror tcp events b p = (r, p') -> serving base p' /\ steady p p'.
Proof.
  induction events as [|e events IH]; intros b p r p' Hs; cbn [accept_loop].
  { destruct (_ && _); intros [= <- <-]; (split; [done|reflexivity]). }
  destruct (_ && _); [intros [= <- <-]; (split; [done|reflexivity])|]. destruct e as [[| |l t]|fd|fd|wrote|t|t].
  - by apply IH.
  - intros [= <- <-]. split; [done|reflexivity].
  - destruct (pr_stop_byte p); [intros [= <- <-]; (split; [done|reflexivity])|].
    unfold pbind. destruct (accept_on strerror l p) as [r1 p1] eqn:E1.
    destruct (accept_on_serving _ _ _ Hs _ _ E1) as (Hs1 & Hst1 & Hn1). destruct r1 as [[|]|]; [|by intros [= <- <-]|done].
    destruct (accept_on strerror (if tcp then t else None) p1) as [r2 p2] eqn:E2.
    destruct (accept_on_serving _ _ _ Hs1 _ _ E2) as (Hs2 & Hst2 & Hn2).
    destruct r2 as [[|]|]; [|intros [= <- <-]; split; [done|by etrans]|done].
    intros [Hs3 Hst3]%IH; [|done]. split; [done|]. etrans; [exact Hst1|]. by etrans.
  - destruct (close_connection_serving base fd p Hs) as (Hs1 & Hst1 & _). intros [Hs2 Hst2]%IH; [|done]. split; [done|by etrans].
  - destruct (erase_connection_serving base fd p Hs) as (Hs1 & Hst1 & _). intros [Hs2 Hst2]%IH; [|done]. split; [done|by etrans].
  - unfold pbind, request_stop, pmodify. intros [Hs2 Hst2]%IH; [by split|]. destruct Hs. by split.
  - destruct (deafen_serving base t p Hs) as [Hs1 Hst1]. intros [Hs2 Hst2]%IH; [|done]. split; [done|by etrans].
  - intros [Hs2 Hst2]%IH; [by split|]. destruct Hs. by split.
Qed.
(** A loop that still runs ends at the next return of [poll] after a stop request
    reached the pipe, unless a signal interrupted that call. *)
Lemma accept_loop_stops tcp events r : r <> PollEintr -> forall b p p',
  accept_loop strerror tcp events b p = (None, p') ->
  exists p'', accept_loop strerror tcp (events ++ [EvStop true; EvPoll r]) b p = (Some (Ok tt), p'') /\ pr_reused p'' = pr_reused p' /\
    pr_deaf p'' = pr_deaf p'.
Proof.
  intros Hr. induction events as [|e events IH]; intros b p p'; cbn [app accept_loop].
  { destruct (negb b && negb (pr_running p)) eqn:E; [done|]. intros [= <-]. unfold pbind, request_stop, pmodify. cbn.
    destruct r; [done|eauto|]. cbn. eauto. }
  destruct (negb b && negb (pr_running p)); [done|]. destruct e as [[| |l t]|fd|fd|wrote|t|t].
  - by apply IH.
  - done.
  - destruct (pr_stop_byte p); [done|]. unfold pbind. destruct (accept_on strerror l p) as [[[|]|] p1] eqn:E1; [|done|].
    2: { clear -E1. destruct l as [[fd| |]|]; try done. unfold accept_on, uds_accept, pbind, pget in E1. by case_decide. }
    destruct (accept_on strerror (if tcp then t else None) p1) as [[[|]|] p2] eqn:E2; [|done|].
    2: { clear -E2. destruct tcp, t as [[fd| |]|]; try done. unfold accept_on, uds_accept, pbind, pget in E2. by case_decide. }
    by apply IH.
  - by apply IH.
  - by apply IH.
  - unfold pbind, request_stop, pmodify. by apply IH.
  - by apply IH.
  - by apply IH.
Qed.
(** ** Starting and stopping *)
Lemma worker_conns c : live_fds (worker_threads c) = [] /\ closing_fds (worker_threads c) = [].
Proof.
  unfold worker_threads. generalize (Z.to_nat (Z.max 1 (c_drain_workers c))) as n. intros n.
  assert (H : forall t n, (t = DrainWorker \/ t = ReadbackWorker) -> live_fds (replicate n t) = [] /\ closing_fds (replicate n t) = []).
  { intros t k Ht. induction k as [|k [IH1 IH2]]; [done|]. unfold live_fds, closing_fds in *. cbn. rewrite IH1, IH2.
    by destruct Ht as [-> | ->]. }
  rewrite !live_app, !closing_app. destruct (H DrainWorker n) as [-> ->]; [by left|].
  destruct (H ReadbackWorker n) as [-> ->]; [by right|]. by case_decide.
Qed.
Lemma serving_start base p c : pr_open p = base -> pr_conn_fds p = ∅ -> pr_threads p = worker_threads c -> serving base p.
Proof.
  intros Ho Hc Ht. destruct (worker_conns c) as [Hl Hcl].
  split; rewrite ?Ht, ?Hl, ?Hcl, ?Hc; cbn; [set_solver|split; [constructor|set_solver]|set_solver|set_solver].
Qed.
Lemma run_start_spec c p e p' : fresh p -> pr_conn_fds p = ∅ -> pr_threads p = [] -> run_start strerror c p = (Some (Ok e), p') ->
  let base := pr_open p ∪ {[ep_stop_r e; ep_stop_w e; ep_listen e]} ∪ (match ep_tcp e with Some fd => {[fd]} | None => ∅ end) in
  serving base p' /\ pr_maps p' = pr_maps p /\
  (forall fd, fd ∈ pr_open p -> fd <> ep_stop_r e /\ fd <> ep_stop_w e /\ fd <> ep_listen e /\ ep_tcp e <> Some fd).
Proof.
  intros Hf Hc Hth. unfold run_start, pbind at 1, sys. destruct (pr_script p) as [|[] s]; [done| |done]. cbn [negb].
  unfold pbind at 1, pget. unfold pbind at 1, pmodify. cbv beta iota.
  match goal with |- pbind _ _ ?q = _ -> _ => set (p1 := q) end.
  assert (Hf1 : fresh p1).
  { intros x. unfold p1. cbn. rewrite !elem_of_union, !elem_of_singleton. intros [[->| ->]|H%Hf]; lia. }
  unfold pbind at 1. destruct (uds_listen strerror (c_socket_path c) p1) as [[[lf|]|] p2] eqn:E2; try done.
  apply uds_listen_spec in E2 as (Hf2 & Hm2 & _ & Hc2 & Ht2 & Hn2 & Ho2 & _); [|done]. cbv zeta.
  change (pr_conn_fds p1) with (pr_conn_fds p) in Hc2. change (pr_threads p1) with (pr_threads p) in Ht2. rewrite Hc in Hc2. rewrite Hth in Ht2.
  assert (E1 : pr_open p1 = {[pr_next p; pr_next p + 1]} ∪ pr_open p) by done. rewrite E1 in Hn2, Ho2.
  assert (Hlt : forall fd, fd ∈ pr_open p -> fd <> pr_next p /\ fd <> pr_next p + 1 /\ fd <> lf).
  { intros fd Hfd. pose proof (Hf _ Hfd). split_and!; [lia|lia|]. intros ->. apply Hn2. by apply elem_of_union_r. }
  unfold pbind at 1. case_decide.
  - unfold pret. intros [= <- <-]. cbn. split_and!; [|done|intros fd Hfd; by destruct (Hlt fd Hfd) as (? & ? & ?)].
    apply (serving_start _ _ c); cbn; [|done|by rewrite Ht2]. rewrite Ho2. set_solver +.
  - unfold pbind at 1. destruct (tcp_listen strerror _ p2) as [[[tf|]|] p3] eqn:E3; try done.
    apply tcp_listen_spec in E3 as (Hf3 & Hm3 & _ & Hc3 & Ht3 & Hn3 & Ho3); [|done].
    unfold pret. intros [= <- <-]. cbn. rewrite Ho2 in Hn3, Ho3. split_and!; [|by rewrite Hm3, Hm2|].
    + apply (serving_start _ _ c); cbn; [|by rewrite Hc3|by rewrite Ht3, Ht2]. rewrite Ho3. set_solver +.
    + intros fd Hfd. destruct (Hlt fd Hfd) as (? & ? & ?). split_and!; try done. intros [= ->]. apply Hn3. set_solver +Hfd.
Qed.
Lemma run_stop_spec c e p base0 :
  let base := base0 ∪ {[ep_stop_r e; ep_stop_w e; ep_listen e]} ∪ (match ep_tcp e with Some fd => {[fd]} | None => ∅ end) in
  (forall fd, fd ∈ base0 -> fd <> ep_stop_r e /\ fd <> ep_stop_w e /\ fd <> ep_listen e /\ ep_tcp e <> Some fd) ->
  serving base p -> pr_reused p = false -> pr_deaf p = [] ->
  exists p', run_stop c e p = (Some (Ok tt), p') /\ pr_open p' = base0 /\ pr_maps p' = pr_maps p /\
    pr_threads p' = [] /\ pr_conn_fds p' = ∅ /\ pr_workers_running p' = false /\ c_socket_path c ∉ pr_paths p'.
Proof.
  intros base Hb [Ho [Hn Hlb] Hc Ht] Hr Hd. specialize (Ht Hr). unfold run_stop, pbind at 1, pmodify at 1. cbv beta iota.
  unfold pbind at 1, join_connections. cbn.
  rewrite decide_True by (apply Forall_forall; intros fd Hfd; rewrite Hd; split; [by apply Ht|apply not_elem_of_nil]).
  assert (Hopen : pr_open p ∖ list_to_set (live_fds (pr_threads p)) = base).
  { rewrite Ho. apply set_eq. intros x. pose proof (Hlb x). set_solver. }
  assert (Hnone : pr_conn_fds p ∖ list_to_set (live_fds (pr_threads p)) ∖ list_to_set (closing_fds (pr_threads p)) = ∅) by set_solver +Hc.
  unfold pbind at 1, join_workers. cbn. rewrite Hd, decide_False by (by intros [[]%elem_of_nil|[]%elem_of_nil]).
  unfold pbind, close_fd, pmodify. destruct (ep_tcp e) as [tf|] eqn:Et; cbn; eexists; (split; [done|]); cbn;
    unfold live_fds, closing_fds in Hopen, Hnone; rewrite Hopen, Hnone.
  all: split_and!; try done; [|set_solver +].
  all: clear -Hb Et; unfold base; apply set_eq; intros x; pose proof (Hb x); set_solver.
Qed.
Lemma run_stop_reused c e p : pr_reused (run_stop c e p).2 = pr_reused p /\ pr_deaf (run_stop c e p).2 = pr_deaf p.
Proof.
  unfold run_stop, pbind, pmodify, join_connections, join_workers, close_fd. cbn.
  case_decide; [|done]. cbn. case_decide; [done|]. by destruct (ep_tcp e).
Qed.
(** ** Memory *)
(** The regions hold descriptors [fs] of their own. *)
Record holding (p0 p : Proc) (fs : gset Z) : Prop := {
  ho_fresh : fresh p;
  ho_maps : forall b, b ∈ pr_maps p -> b < pr_next p;
  ho_open : pr_open p = pr_open p0 ∪ fs;
  ho_mapped : pr_maps p = pr_maps p0 ∪ fs;
  ho_own : fs ## pr_open p0 /\ fs ## pr_maps p0;
  ho_rest : pr_conn_fds p = pr_conn_fds p0 /\ pr_threads p = pr_threads p0 }.
Lemma make_region_spec what size p0 fs p r p' : holding p0 p fs -> make_region strerror what size p = (Some (Ok r), p') ->
  rg_base r = rg_fd r /\ holding p0 p' (fs ∪ {[rg_fd r]}).
Proof.
  intros [Hf Hm Ho Hp [Hw1 Hw2] [Hc Ht]]. unfold make_region, pbind at 1.
  destruct (open_fd p) as [[[[fd|]|]|] p1] eqn:E1; try done.
  assert (Hfd : fd = pr_next p /\ p1 = p <| pr_script := tail (pr_script p) |> <| pr_open ::= union {[pr_next p]} |> <| pr_next ::= Z.succ |>).
  { unfold open_fd, pbind, sys in E1. destruct (pr_script p) as [|[] s]; [done| |done]. by injection E1 as <- <-. }
  clear E1. destruct Hfd as [-> ->]. unfold pbind at 1, sys. cbn. destruct (tail (pr_script p)) as [|[] s]; [done| |done]. cbn.
  unfold pbind at 1, sys. cbn. destruct s as [|[] s]; [done| |done]. cbn. intros [= <- <-]. cbn. split; [done|].
  assert (Hn : pr_next p ∉ pr_open p) by (intros H%Hf; lia). assert (Hn' : pr_next p ∉ pr_maps p) by (intros H%Hm; lia).
  split; cbn; [| | | |split|done].
  - intros x. cbn. rewrite elem_of_union, elem_of_singleton. intros [->|H%Hf]; lia.
  - intros x. rewrite elem_of_union, elem_of_singleton. intros [->|H%Hm]; lia.
  - rewrite Ho. set_solver.
  - rewrite Hp. set_solver.
  - rewrite Ho in Hn. set_solver.
  - rewrite Hp in Hn'. set_solver.
Qed.
Definition region_fds (l : list Region) : gset Z := list_to_set (rg_fd <$> l).
Lemma make_arenas_spec l p0 : forall fs p rs p', holding p0 p fs -> make_arenas strerror l p = (Some (Ok rs), p') ->
  Forall (fun r => rg_base r = rg_fd r) rs /\ holding p0 p' (fs ∪ region_fds rs).
Proof.
  induction l as [|ac l IH]; intros fs p rs p' Hh; cbn [make_arenas].
  - intros [= <- <-]. split; [constructor|]. replace (fs ∪ region_fds []) with fs; [done|]. unfold region_fds. cbn. set_solver.
  - unfold pbind at 1. destruct (make_region _ _ _ p) as [[[r|]|] p1] eqn:E1; try done.
    destruct (make_region_spec _ _ _ _ _ _ _ Hh E1) as [Hb H1]. unfold pbind at 1.
    destruct (make_arenas strerror l p1) as [[[rest|]|] p2] eqn:E2; try done.
    destruct (IH _ _ _ _ H1 E2) as [Hr H2]. intros [= <- <-]. split; [by constructor|].
    replace (fs ∪ region_fds (r :: rest)) with (fs ∪ {[rg_fd r]} ∪ region_fds rest); [done|]. unfold region_fds. cbn. set_solver.
Qed.
Lemma build_spec c n p m p' : fresh p -> (forall b, b ∈ pr_maps p -> b < pr_next p) ->
  build_arenas_and_control strerror c n p = (Some (Ok m), p') ->
  Forall (fun r => rg_base r = rg_fd r) (m.2 :: m.1) /\ holding p p' (region_fds (m.2 :: m.1)).
Proof.
  intros Hf Hm. unfold build_arenas_and_control, pbind at 1.
  destruct (make_arenas strerror _ p) as [[[rs|]|] p1] eqn:E1; try done.
  apply (make_arenas_spec _ p ∅) in E1 as [Hb H1]; [|split; try done; set_solver].
  unfold pbind. destruct (make_region _ _ _ p1) as [[[r|]|] p2] eqn:E2; try done.
  destruct (make_region_spec _ _ _ _ _ _ _ H1 E2) as [Hb2 H2]. intros [= <- <-]. split; [by constructor|]. cbn [fst snd].
  replace (region_fds (r :: rs)) with (∅ ∪ region_fds rs ∪ {[rg_fd r]}); [exact H2|]. unfold region_fds. cbn. set_solver.
Qed.
(** Teardown closes exactly the regions. *)
Lemma drop_regions_spec l : forall p, Forall (fun r => rg_base r = rg_fd r) l ->
  exists p', drop_regions l p = (Some (Ok tt), p') /\ pr_open p' = pr_open p ∖ region_fds l /\ pr_maps p' = pr_maps p ∖ region_fds l /\
    pr_threads p' = pr_threads p /\ pr_conn_fds p' = pr_conn_fds p /\ pr_paths p' = pr_paths p.
Proof.
  induction l as [|r l IH]; intros p Hb; cbn [drop_regions].
  - exists p. unfold region_fds. cbn. split_and!; try done; set_solver.
  - apply Forall_cons in Hb as [Hr Hb]. unfold drop_region, pbind, close_fd, pmodify. cbn.
    edestruct IH as (p' & E & H1 & H2 & H3 & H4 & H5); [done|]. exists p'. split; [exact E|]. rewrite H1, H2, H3, H4, H5. cbn. rewrite Hr.
    unfold region_fds. cbn. split_and!; try done; set_solver.
Qed.
Lemma teardown_spec m p : Forall (fun r => rg_base r = rg_fd r) (m.2 :: m.1) ->
  exists p', teardown m p = (Some (Ok tt), p') /\ pr_open p' = pr_open p ∖ region_fds (m.2 :: m.1) /\
    pr_maps p' = pr_maps p ∖ region_fds (m.2 :: m.1) /\
    pr_threads p' = pr_threads p /\ pr_conn_fds p' = pr_conn_fds p /\ pr_paths p' = pr_paths p.
Proof. intros H. exact (drop_regions_spec (m.2 :: m.1) p H). Qed.

(** Before the accept loop no thread is started by an operation that does not
    return. *)
Definition calm_threads {A} (m : P A) : Prop := forall p, match (m p).1 with None => pr_threads (m p).2 = pr_threads p | _ => True end.
Definition same_threads {A} (m : P A) : Prop := forall p, pr_threads (m p).2 = pr_threads p.
Lemma same_bind {A B} (m : P A) (k : A -> P B) : same_threads m -> (forall x, same_threads (k x)) -> same_threads (pbind m k).
Proof. intros Hm Hk p. unfold pbind. specialize (Hm p). destruct (m p) as [[[x|e]|] p1]; cbn in *; [by rewrite Hk|done..]. Qed.
Lemma same_calm_bind {A B} (m : P A) (k : A -> P B) : same_threads m -> (forall x, calm_threads (k x)) -> calm_threads (pbind m k).
Proof.
  intros Hm Hk p. unfold pbind. specialize (Hm p). destruct (m p) as [[[x|e]|] p1]; cbn in *; [|done..].
  specialize (Hk x p1). destruct (k x p1) as [[?|] p2]; cbn in *; [done|congruence].
Qed.
Lemma same_sys : same_threads sys.
Proof. intros p. unfold sys. by destruct (pr_script p). Qed.
Lemma same_ret {A} (x : A) : same_threads (pret x).
Proof. by intros p. Qed.
Lemma same_throw {A} e : same_threads (pthrow e : P A).
Proof. by intros p. Qed.
Lemma same_get : same_threads pget.
Proof. by intros p. Qed.
Lemma same_modify f : (forall p, pr_threads (f p) = pr_threads p) -> same_threads (pmodify f).
Proof. intros H p. apply H. Qed.
Ltac same := repeat lazymatch goal with
  | |- same_threads sys => apply same_sys
  | |- same_threads pget => apply same_get
  | |- same_threads (pret _) => apply same_ret
  | |- same_threads (pthrow _) => apply same_throw
  | |- same_threads (pmodify _) => apply same_modify; intros; reflexivity
  | |- same_threads (close_fd _) => unfold close_fd
  | |- same_threads open_fd => unfold open_fd
  | |- same_threads (pbind _ _) => apply same_bind; [|intros ?]
  | |- same_threads (let _ := _ in _) => cbv zeta
  | |- same_threads (match ?x with _ => _ end) => destruct x
  end.
Lemma same_region what n : same_threads (make_region strerror what n).
Proof. unfold make_region. same. Qed.
Lemma same_build c n : same_threads (build_arenas_and_control strerror c n).
Proof.
  apply same_bind; [|intros rs; apply same_bind; [apply same_region|intros; same]].
  induction (c_per_numa c) as [|ac l IH]; cbn [make_arenas]; [same|]. apply same_bind; [apply same_region|intros r; apply same_bind; [done|intros; same]].
Qed.
Lemma run_start_threads c : calm_threads (run_start strerror c).
Proof.
  assert (Hu : forall path, same_threads (uds_listen strerror path)) by (intros path; unfold uds_listen; same).
  assert (Ht : forall port, same_threads (tcp_listen strerror port)) by (intros port; unfold tcp_listen; same).
  unfold run_start. apply same_calm_bind; [same|]. intros [] ; [|by intros p]. cbn [negb]. apply same_calm_bind; [same|].
  intros q. cbv zeta. apply same_calm_bind; [same|]. intros _. apply same_calm_bind; [apply Hu|]. intros lf.
  apply same_calm_bind; [|intros tf p; done]. case_decide; [same|]. apply same_bind; [apply Ht|intros; same].
Qed.
End Clean.

(** The process when it starts, with the socket files other processes left. *)
Definition boot (script : list bool) (paths : gset string) : Proc :=
  mkProc script ∅ 3 ∅ paths [] [] [] false false false ∅ false [].
(** C26. A stop request that reaches every thread ends the daemon and nothing is left
    behind.  For every command line and configuration, every outcome of the system
    calls and every history of connections: while the daemon serves, once a stop was
    requested and its byte reached the pipe, the next return of [poll] (an
    interrupted one apart) makes [main] return 0, with every thread joined, every
    connection closed, every descriptor and mapping released and the socket file
    removed.  It is provided that no connection got the number of one that was
    closed but not yet removed from [conn_fds_], and that when the stop comes no
    worker is between its predicate and its wait and no connection thread waits for
    something else than its socket; without these the joins can block
    ([reused_descriptor_blocks_stop], [lost_wakeup_blocks_stop],
    [blocked_export_blocks_stop]). *)
Theorem daemon_stops_cleanly (load : string -> res DaemonConfig) (strerror : string) (argv : list string)
  (control_bytes : Z) (events : list loop_event) (r : poll_result) (script : list bool) (paths : gset string) (p' : Proc) :
  main load strerror argv control_bytes events (boot script paths) = (None, p') -> pr_threads p' <> [] -> pr_reused p' = false -> pr_deaf p' = [] ->
  r <> PollEintr ->
  exists o cfg p'', parse_args argv default_options = inr o /\ main_config load o = Ok cfg /\
    main load strerror argv control_bytes (events ++ [EvStop true; EvPoll r]) (boot script paths) = (Some (ExitCode 0), p'') /\
    pr_open p'' = ∅ /\ pr_maps p'' = ∅ /\ pr_threads p'' = [] /\ pr_conn_fds p'' = ∅ /\ c_socket_path cfg ∉ pr_paths p''.
Proof.
  unfold main. destruct (parse_args argv default_options) as [n|o]; [done|].
  destruct (main_config load o) as [cfg|] eqn:Ecfg; [|done].
  assert (Hf0 : fresh (boot script paths)) by (intros fd Hfd; set_solver).
  assert (Hm0 : forall b, b ∈ pr_maps (boot script paths) -> b < pr_next (boot script paths)) by set_solver.
  destruct (build_arenas_and_control strerror cfg control_bytes (boot script paths)) as [[[m|]|] p1] eqn:E1; [|done|].
  2: { intros [= <-] Ht _. pose proof (same_build strerror cfg control_bytes (boot script paths)) as H. by rewrite E1 in H. }
  pose proof (same_build strerror cfg control_bytes (boot script paths)) as Ht1. rewrite E1 in Ht1. cbn in Ht1.
  apply build_spec in E1 as [Hb Hh]; [|done..]. destruct Hh as [Hf1 _ Ho1 Hm1 _ [Hc1 _]]. cbn in Ho1, Hm1, Hc1.
  unfold run. unfold pbind at 1 3. pose proof (run_start_threads strerror cfg p1) as Hts.
  destruct (run_start strerror cfg p1) as [[[e|]|] p2] eqn:E2; [|done|].
  2: { intros [= <-] Ht _. cbn in Hts. congruence. }
  destruct (run_start_spec strerror cfg p1 e p2 Hf1 Hc1 Ht1 E2) as (Hs2 & Hm2 & Hne). set (base := pr_open p1 ∪ _ ∪ _) in Hs2.
  set (tcp := match ep_tcp e with Some _ => true | None => false end). unfold pbind.
  destruct (accept_loop strerror tcp events false p2) as [[[u|]|] p3] eqn:E3.
  - destruct (accept_loop_serving strerror base tcp events _ _ _ _ Hs2 E3) as [Hs3 _].
    destruct (run_stop_reused cfg e p3) as [Hr4 Hd4]. destruct (run_stop cfg e p3) as [[[|]|] p4] eqn:E4; [done..|].
    intros [= <-] _ Hre Hd. cbn in Hr4, Hd4. rewrite Hr4 in Hre. rewrite Hd4 in Hd.
    destruct (run_stop_spec cfg e p3 (pr_open p1) Hne Hs3 Hre Hd) as (p5 & E5 & _). congruence.
  - done.
  - intros [= <-] _ Hre Hd Hr. destruct (accept_loop_stops strerror tcp events r Hr _ _ _ E3) as (p4 & E4 & Hre4 & Hd4). rewrite E4.
    rewrite Hre in Hre4. rewrite Hd in Hd4. destruct (accept_loop_serving strerror base tcp _ _ _ _ _ Hs2 E4) as [Hs4 (Hm4 & _)].
    destruct (run_stop_spec cfg e p4 (pr_open p1) Hne Hs4 Hre4 Hd4) as (p5 & E5 & Ho5 & Hm5 & Ht5 & Hc5 & _ & Hp5). rewrite E5.
    destruct (teardown_spec m p5 Hb) as (p6 & E6 & Ho6 & Hm6 & Ht6 & Hc6 & Hp6). rewrite E6.
    assert (pr_open p6 = ∅) by (rewrite Ho6, Ho5, Ho1; set_solver +).
    assert (pr_maps p6 = ∅) by (rewrite Hm6, Hm5, Hm4, Hm2, Hm1; set_solver +).
    exists o, cfg, p6. rewrite Ht6, Hc6, Hp6. by split_and!.
Qed.
(** A daemon with the default configuration and two connections, one of them gone. *)
Definition sample_events : list loop_event :=
  [EvPoll (PollReady (Some (Accepted 8)) None); EvPoll PollEintr; EvPoll (PollReady (Some (Accepted 9)) None);
   EvDeaf (Connection 8); EvDeaf DrainWorker; EvHears DrainWorker; EvHears (Connection 8);
   EvConnClose 8; EvConnErase 8; EvPoll (PollReady (Some (Accepted 8)) None)].
Lemma daemon_stops_cleanly_witness :
  let load := fun _ => Throw "no file" in
  let p := boot (replicate 20 true) {["/tmp/state_spectre.sock"]} in
  exists o cfg p'', parse_args [] default_options = inr o /\ main_config load o = Ok cfg /\
    main load "error" [] 65536 (sample_events ++ [EvStop true; EvPoll (PollReady None None)]) p = (Some (ExitCode 0), p'') /\
    pr_open p'' = ∅ /\ pr_maps p'' = ∅ /\ pr_threads p'' = [] /\ pr_conn_fds p'' = ∅ /\ c_socket_path cfg ∉ pr_paths p''.
Proof.
  cbv zeta.
  destruct (main (fun _ => Throw "no file") "error" [] 65536 sample_events (boot (replicate 20 true) {["/tmp/state_spectre.sock"]}))
    as [out p'] eqn:E.
  assert (Ho : out = None).
  { change out with ((out, p').1). rewrite <- E. vm_compute. reflexivity. }
  assert (Ht : pr_threads p' <> []).
  { change p' with ((out, p').2). rewrite <- E. vm_compute. discriminate. }
  assert (Hu : pr_reused p' = false).
  { change p' with ((out, p').2). rewrite <- E. vm_compute. reflexivity. }
  assert (Hd : pr_deaf p' = []).
  { change p' with ((out, p').2). rewrite <- E. vm_compute. reflexivity. }
  subst out. exact (daemon_stops_cleanly (fun _ => Throw "no file") "error" [] 65536 sample_events (PollReady None None)
    (replicate 20 true) {["/tmp/state_spectre.sock"]} p' E Ht Hu Hd ltac:(discriminate)).
Defined.

(** ** The command line *)
(** Pairs of known options and values are applied in order, so the last one wins;
    then the rest of the line is read. *)
Definition apply_option (o : Options) (av : string * string) : Options :=
  match set_option av.1 av.2 with Some f => f o | None => o end.
Definition known (a : string) : bool := match set_option a "" with Some _ => true | None => false end.
(** The command line is pairs of options and values up to the first argument that
    is not an option; the options are their effects in order, an option without a
    value or an unknown argument exits with 2, and a request for help with 0. *)
Theorem parse_args_exact (pairs : list (string * string)) (rest : list string) (o : Options) :
  Forall (fun av => known av.1 = true) pairs ->
  (rest = [] -> parse_args (pairs ≫= (fun av => [av.1; av.2])) o = inr (foldl apply_option o pairs)) /\
  (forall a, rest = [a] -> known a = true -> parse_args ((pairs ≫= (fun av => [av.1; av.2])) ++ rest) o = inl 2) /\
  (forall a l, rest = a :: l -> known a = false ->
     parse_args ((pairs ≫= (fun av => [av.1; av.2])) ++ rest) o = inl (if decide (a = "-h" \/ a = "--help") then 0 else 2)).
Proof.
  intros Hk.
  assert (Hall : forall l, parse_args ((pairs ≫= (fun av => [av.1; av.2])) ++ l) o = parse_args l (foldl apply_option o pairs)).
  { intros l. revert o. induction Hk as [|[a v] pairs Ha _ IH]; intros o; [done|]. cbn. unfold known in Ha. cbn in Ha.
    destruct (set_option a ""); [|done]. apply IH. }
  split_and!.
  - intros _. rewrite <- (app_nil_r (_ ≫= _)). apply Hall.
  - intros a -> Ha. rewrite Hall. cbn. unfold known in Ha. by destruct (set_option a "").
  - intros a l -> Ha. rewrite Hall. cbn. unfold known in Ha. destruct (set_option a ""); [done|]. by case_decide.
Qed.

(** An [accept] that fails for another reason than [EINTR] or [EAGAIN] (a client
    that gave up, no descriptor left) ends the daemon: the exception leaves [run]
    while its threads run. *)
Example accept_error_terminates :
  (main (fun _ => Throw "no file") "error" [] 65536 [EvPoll (PollReady (Some AcceptError) None)] (boot (replicate 20 true) ∅)).1
    = Some Terminated.
Proof. vm_compute. reflexivity. Qed.
(** [serve_connection] closes its descriptor before it removes it from [conn_fds_]:
    a new connection that gets the number in between is removed with it, is not shut
    down at the end, and the daemon waits for its client forever. *)
Example reused_descriptor_blocks_stop :
  let p := (main (fun _ => Throw "no file") "error" [] 65536
     [EvPoll (PollReady (Some (Accepted 8)) None); EvConnClose 8; EvPoll (PollReady (Some (Accepted 8)) None); EvConnErase 8;
      EvStop true; EvPoll (PollReady None None)] (boot (replicate 20 true) ∅)) in
  p.1 = None /\ pr_running p.2 = false /\ live_fds (pr_threads p.2) = [8] /\ pr_conn_fds p.2 = ∅.
Proof. vm_compute. by split_and!. Qed.
(** [run] clears [workers_running_] and notifies without the queue's mutex: a worker
    that found its predicate false but does not wait yet is not woken, and the
    daemon waits for it forever. *)
Example lost_wakeup_blocks_stop :
  let p := (main (fun _ => Throw "no file") "error" [] 65536
     [EvDeaf DrainWorker; EvStop true; EvPoll (PollReady None None)] (boot (replicate 20 true) ∅)) in
  p.1 = None /\ pr_running p.2 = false /\ pr_workers_running p.2 = false /\ DrainWorker ∈ pr_threads p.2.
Proof. vm_compute. split_and!; try done. left. Qed.
(** The shutdown of a connection does not reach its thread while it sends an object
    to a receiver that takes nothing. *)
Example blocked_export_blocks_stop :
  let p := (main (fun _ => Throw "no file") "error" [] 65536
     [EvPoll (PollReady (Some (Accepted 8)) None); EvDeaf (Connection 8); EvStop true; EvPoll (PollReady None None)]
     (boot (replicate 20 true) ∅)) in
  p.1 = None /\ pr_workers_running p.2 = false /\ live_fds (pr_threads p.2) = [8] /\ pr_conn_fds p.2 = {[8]}.
Proof. vm_compute. by split_and!. Qed.
