(* ===== verification/Drain.v ===== *)
(** * Draining to cold storage and reading back

    Models [do_drain_to_cold], [do_readback_from_cold], [force_drain_one], one
    iteration of [drain_worker_loop] and of [readback_worker_loop]
    ([src/daemon/daemon.cpp]).

    These routines release [mu_] while they copy.  The gap is explicit: an
    [IoGap] gives the outcome of the system calls made there and [io_env], what
    the other threads did to the daemon's tables meanwhile (any function; the
    theorems say what they need of it), and the clock when the lock is taken
    again.  Trace events, log lines and the recording of bandwidth samples
    ([Metrics.record_transfer]) are left out here. *)
From stdpp Require Import base gmap strings list fin_maps list_numbers.
From Stdlib Require Import ZArith Lia.
From S2P Require Import Prelude.
From S2P Require Import State.
From S2P Require Import Alloc.
Open Scope Z_scope.
Open Scope offload_scope.

Record IoGap := mkGap {
  io_env : Daemon -> Daemon;
  io_malloc : option Z;
  io_nvme_write : option (list NvmeChunk);
  io_nvme_read : bool;
  io_now : Z }.

(** ** Cold storage IO *)
(** [want_pageable] after the fallback for a disabled NVMe tier. *)
Definition drain_wants_pageable (c : DaemonConfig) : bool :=
  match c_drain_target c with
  | kPageableOnly => true
  | kNvmeOnly => negb (c_nvme_enabled c)
  | kPageableThenNvme => true
  end.
Definition do_drain_to_cold (nbytes : Z) (g : IoGap) (d : Daemon) : bool * ColdEntry * Daemon :=
  let entry := mkCold LOC_NONE nbytes None [] in
  if drain_wants_pageable (cfg d) then
    match io_malloc g with
    | None => (false, entry, d)
    | Some buf =>
        (true, entry <| co_kind := LOC_PAGEABLE |> <| co_pageable := Some buf |>,
         metric_add kPageableResidentBytes nbytes (metric_add kPinnedToPageableBytes nbytes d))
    end
  else
    match io_nvme_write g with
    | None => (false, entry, d)
    | Some chunks =>
        (true, entry <| co_kind := LOC_NVME |> <| co_nvme_chunks := chunks |>,
         metric_add kNvmeResidentBytes nbytes (metric_add kNvmeWriteBytes nbytes d))
    end.
(** The copy lands at [slot_addr base_slot].  A failed NVMe read may have written
    a part of it, so it is logged as well. *)
Definition do_readback_from_cold (base_slot : Z) (cold : ColdEntry) (nbytes : Z) (g : IoGap)
  (d : Daemon) : bool * Daemon :=
  let written := d <| arena_writes ::= cons (base_slot, nbytes) |> in
  match co_kind cold with
  | LOC_PAGEABLE =>
      match co_pageable cold with
      | None => (false, d)
      | Some _ => (true, metric_add kPageableToPinnedBytes nbytes written)
      end
  | LOC_NVME =>
      if io_nvme_read g then (true, metric_add kNvmeReadBytes nbytes written) else (false, written)
  | _ => (false, d)
  end.

(** The commit after a successful copy, shared by [force_drain_one] and the
    drain worker: record the cold entry, move the location, free the run and
    drop the lease. *)
Definition drain_commit (now base count tensor_id version nbytes lease_id : Z)
  (cold : ColdEntry) (d : Daemon) : Daemon :=
  let cref := u64 (next_cold_ref d) in
  let d := d <| next_cold_ref := next_cold_ref d + 1 |> <| cold_store ::= <[cref := cold]> |> in
  let d := d <| slots ::= update_run (fun _ e => e <| sl_cold_ref := cref |>) base count |> in
  let d := set_slot_state now base SLOT_COLD_VALID d in
  let '(_, d) := update_location_if_latest tensor_id version (co_kind cold) base cref nbytes d in
  let d := free_slots now base count d in
  metric_inc kDrainsCompleted (d <| leases ::= delete lease_id |>).

(** ** Synchronous drain under pressure *)
(** The guard on canonical objects: a reader or exporter uses the bytes, or the
    object is still being created. *)
Definition drain_forbidden (d : Daemon) (tensor_id : Z) : bool :=
  if is_canonical_tid tensor_id then
    match find_object d (strip_canonical_bit tensor_id) with
    | None => false
    | Some co => bool_decide (0 < ob_restore_refcount co) || bool_decide (0 < ob_export_refcount co)
                 || bool_decide (ob_state co = OBJ_CREATING)
    end
  else false.
Definition drain_candidate (d : Daemon) (L : Lease) : bool :=
  negb (le_is_prefetch L) && bool_decide (slot_state d (le_base_slot L) = SLOT_PINNED_VALID)
  && negb (drain_forbidden d (le_tensor_id L)).
(** The oldest candidate: [(best_ts, best_lease)]. *)
Definition pick_drain (d : Daemon) : Z * Z :=
  foldl (fun '(best_ts, best_lease) kv =>
    let L := kv.2 : Lease in
    if drain_candidate d L then
      let ts := sl_last_touch_ns (slot d (le_base_slot L)) in
      if decide (ts < best_ts) then (ts, le_lease_id L) else (best_ts, best_lease)
    else (best_ts, best_lease))
    (2 ^ 64 - 1, 0) (map_to_list (leases d)).

Definition default_lease : Lease := mkLease 0 0 0 0 0 0 0 0 0 false.
(** [leases_[id]]: a missing key is created with a default lease. *)
Definition leases_at (id : Z) (d : Daemon) : Lease * Daemon :=
  match leases d !! id with
  | Some L => (L, d)
  | None => (default_lease, d <| leases ::= <[id := default_lease]> |>)
  end.

Definition force_drain_one (now : Z) (g : IoGap) (d : Daemon) : bool * Daemon :=
  let best_lease := (pick_drain d).2 in
  if decide (best_lease = 0) then (false, d)
  else
    let '(L, d) := leases_at best_lease d in
    let d := set_run_state now (le_base_slot L) (le_slot_count L) SLOT_DRAIN_IN_FLIGHT d in
    let d := metric_add kDrainingBytes (le_nbytes L) d in
    (* lk.unlock() *)
    let '(ok, cold, d) := do_drain_to_cold (le_nbytes L) g d in
    let d := io_env g d in
    (* lk.lock() *)
    let d := metric_sub kDrainingBytes (le_nbytes L) d in
    if negb ok then
      let d := set_run_state (io_now g) (le_base_slot L) (le_slot_count L) SLOT_PINNED_VALID d in
      (false, metric_inc kIoFailure d)
    else
      (true, drain_commit (io_now g) (le_base_slot L) (le_slot_count L) (le_tensor_id L)
               (le_version L) (le_nbytes L) best_lease cold d).

(** The allocation loop of the handlers: up to [attempts] searches, a drain after
    each failed one.  Also returns the clock of the last critical section. *)
Fixpoint alloc_with_drain (attempts : nat) (now : Z) (gaps : nat -> IoGap)
  (gpu_id numa_node nbytes flags : Z) (d : Daemon) : option (Z * Z) * Z * Daemon :=
  match attempts with
  | O => (None, now, d)
  | S n =>
      match allocate_slots gpu_id numa_node nbytes flags d with
      | (Some run, d) => (Some run, now, d)
      | (None, d) =>
          let g := gaps 0%nat in
          match force_drain_one now g d with
          | (false, d) => (None, io_now g, d)
          | (true, d) => alloc_with_drain n (io_now g) (fun i => gaps (S i))
                           gpu_id numa_node nbytes flags d
          end
      end
  end.
(** [attempt = 0 .. 64] *)
Definition kDrainAttempts : nat := 65.

(** ** Background workers *)
(** One iteration of [drain_worker_loop] on a non-empty queue: the job is taken
    from the queue, its slot is inspected under [mu_] (after gap 0), copied, and
    committed under [mu_] (after gap 1). *)
Definition drain_worker_step (gaps : nat -> IoGap) (d : Daemon) : Daemon :=
  match drain_queue d with
  | [] => d
  | job :: rest =>
      let d := io_env (gaps 0%nat) (d <| drain_queue := rest |>) in
      let e := slot d (dj_base_slot job) in
      if decide (sl_state e ≠ SLOT_DRAIN_IN_FLIGHT) then metric_sub kDrainingBytes (sl_nbytes e) d
      else
        let g := gaps 1%nat in
        let '(ok, cold, d) := do_drain_to_cold (sl_nbytes e) g d in
        let d := io_env g d in
        let d := metric_sub kDrainingBytes (sl_nbytes e) d in
        if decide (slot_state d (dj_base_slot job) ≠ SLOT_DRAIN_IN_FLIGHT) then d
        else if negb ok then
          metric_inc kIoFailure
            (set_run_state (io_now g) (dj_base_slot job) (dj_slot_count job) SLOT_PINNED_VALID d)
        else drain_commit (io_now g) (dj_base_slot job) (dj_slot_count job) (sl_tensor_id e)
               (sl_version e) (sl_nbytes e) (sl_lease_id e) cold d
  end.

Definition readback_fail (now : Z) (job : ReadbackJob) (d : Daemon) : Daemon :=
  metric_inc kIoFailure (set_run_state now (rj_base_slot job) (rj_slot_count job) SLOT_ERROR d).
(** One iteration of [readback_worker_loop]. *)
Definition readback_worker_step (gaps : nat -> IoGap) (d : Daemon) : Daemon :=
  match readback_queue d with
  | [] => d
  | job :: rest =>
      let d := io_env (gaps 0%nat) (d <| readback_queue := rest |>) in
      let g := gaps 1%nat in
      if decide (slot_state d (rj_base_slot job) ≠ SLOT_READBACK_IN_FLIGHT) then d
      else match cold_store d !! rj_cold_ref job with
      | None => readback_fail (io_now g) job (io_env g d)
      | Some cold =>
          let '(ok, d) := do_readback_from_cold (rj_base_slot job) cold (rj_nbytes job) g d in
          let d := io_env g d in
          if decide (slot_state d (rj_base_slot job) ≠ SLOT_READBACK_IN_FLIGHT) then d
          else if negb ok then readback_fail (io_now g) job d
          else
            let tensor_id := sl_tensor_id (slot d (rj_base_slot job)) in
            let version := sl_version (slot d (rj_base_slot job)) in
            let d := set_run_state (io_now g) (rj_base_slot job) (rj_slot_count job)
                       SLOT_PINNED_VALID d in
            let '(_, d) := update_location_if_latest tensor_id version LOC_PINNED
                             (rj_base_slot job) (rj_cold_ref job) (rj_nbytes job) d in
            metric_inc kReadbacksCompleted d
      end
  end.
