(* ===== verification/Offload.v ===== *)
(** * Offload and prefetch handlers

    Models the v1 RPC handlers of [src/daemon/daemon.cpp] that grant, advance and
    end leases: [handle_request_offload], [handle_mark_d2h_submitted],
    [apply_d2h_complete], [handle_mark_d2h_complete], [handle_request_prefetch],
    [handle_mark_h2d_submitted], [apply_h2d_complete], [handle_mark_h2d_complete],
    [handle_release_lease], [handle_query_location], [handle_batch_complete],
    [handle_get_stats], [handle_shutdown], and [apply_ring_completion].

    Each handler maps a request, the clock and the daemon to the response and
    the new daemon; the two that may drain take the gaps of the drains. *)
From stdpp Require Import base gmap strings list fin_maps list_numbers.
From Stdlib Require Import ZArith Lia.
From S2P Require Import Prelude.
From S2P Require Import Ring.
From S2P Require Import Protocol.
From S2P Require Import State.
From S2P Require Import Alloc.
From S2P Require Import Drain.
Open Scope Z_scope.
Open Scope offload_scope.

Definition session_pid (d : Daemon) (rank_id : Z) : Z :=
  match sessions d !! rank_id with Some s => se_pid s | None => 0 end.
Definition run_bytes (d : Daemon) (count : Z) : Z :=
  u64 (count * c_allocation_granularity_bytes (cfg d)).

(** ** RequestOffload *)
Definition offload_refused (msg : string) (blocked : bool) : RequestOffloadResponse :=
  mkRequestOffloadResponse false msg 0 0 0 0 0 0 blocked.
(** The metadata written to the [k]-th slot of a reserved run. *)
Definition reserve_entry (now : Z) (req : RequestOffloadRequest) (lease_id owner_pid : Z)
  (k : Z) (e : slot_entry) : slot_entry :=
  e <| sl_tensor_id := ro_tensor_id req |> <| sl_version := ro_version req |>
    <| sl_lease_id := lease_id |> <| sl_owner_rank := ro_rank_id req |>
    <| sl_owner_pid := owner_pid |> <| sl_rank_epoch := ro_rank_epoch req |>
    <| sl_nbytes := if decide (k = 0) then ro_nbytes req else sl_capacity e |>
    <| sl_flags := ro_flags req |>
    <| sl_last_touch_ns := now |> <| sl_state := SLOT_RESERVED_D2H |>.
Definition grant_offload (now : Z) (req : RequestOffloadRequest) (base count owner_pid : Z)
  (d : Daemon) : RequestOffloadResponse * Daemon :=
  let lease_id := u64 (next_lease_id d) in
  let d := d <| next_lease_id := next_lease_id d + 1 |>
             <| slots ::= update_run (reserve_entry now req lease_id owner_pid) base count |> in
  let d := metric_add kUsedPinnedBytes (run_bytes d count) d in
  let L := mkLease lease_id base count (ro_tensor_id req) (ro_version req) (ro_rank_id req)
             owner_pid (ro_rank_epoch req) (ro_nbytes req) false in
  let d := metric_inc kLeasesGranted (d <| leases ::= <[lease_id := L]> |>) in
  (mkRequestOffloadResponse true "ok" lease_id base (sl_arena_id (slot d base))
     (sl_arena_offset (slot d base)) (run_bytes d count)
     (slot_state_value SLOT_RESERVED_D2H) false, d).
Definition handle_request_offload (now : Z) (gaps : nat -> IoGap) (req : RequestOffloadRequest)
  (d : Daemon) : RequestOffloadResponse * Daemon :=
  if negb (epoch_valid d (ro_rank_id req) (ro_rank_epoch req)) then
    (offload_refused "epoch invalid" false, metric_inc kEpochMismatchRejected d)
  else if decide (ro_nbytes req = 0) then (offload_refused "nbytes must be > 0" false, d)
  else
    let d := metric_inc kOffloadRequests d in
    let count := slots_for_bytes d (ro_nbytes req) in
    let owner_pid := session_pid d (ro_rank_id req) in
    match alloc_with_drain kDrainAttempts now gaps (ro_gpu_id req) (ro_numa_node req)
            (ro_nbytes req) (ro_flags req) d with
    | (None, _, d) =>
        (offload_refused "no pinned capacity (blocked / backpressure)" true,
         metric_inc kBlockedReservations d)
    | (Some (base, _), now, d) =>
        if existsb (fun id => bool_decide (slot_state d id ≠ SLOT_FREE)) (run_ids base count) then
          (offload_refused "slot overlap prevented" false, metric_inc kSlotOverlapPrevented d)
        else grant_offload now req base count owner_pid d
    end.

(** ** Device-to-host copies *)
(** [!L || L->owner_rank != rank || L->base_slot != slot] *)
Definition lease_of (d : Daemon) (lease_id rank_id slot_id : Z) : option Lease :=
  match find_lease d lease_id with
  | None => None
  | Some L => if decide (le_owner_rank L ≠ rank_id) then None
              else if decide (le_base_slot L ≠ slot_id) then None else Some L
  end.
Definition submit_entry (now seq : Z) (st : slot_state_t) (_ : Z) (e : slot_entry) : slot_entry :=
  e <| sl_submit_seq := seq |> <| sl_last_touch_ns := now |> <| sl_state := st |>.
Definition complete_entry (now seq : Z) (_ : Z) (e : slot_entry) : slot_entry :=
  e <| sl_complete_seq := seq |> <| sl_last_touch_ns := now |> <| sl_state := SLOT_PINNED_VALID |>.

Definition handle_mark_d2h_submitted (now : Z) (req : MarkD2HSubmittedRequest) (d : Daemon)
  : MarkD2HSubmittedResponse * Daemon :=
  if negb (epoch_valid d (ds_rank_id req) (ds_rank_epoch req)) then
    (mkMarkD2HSubmittedResponse false "epoch invalid", metric_inc kEpochMismatchRejected d)
  else match lease_of d (ds_lease_id req) (ds_rank_id req) (ds_slot_id req) with
  | None => (mkMarkD2HSubmittedResponse false "lease/owner/slot mismatch",
             metric_inc kLeaseOwnerMismatchRejected d)
  | Some L =>
      if decide (slot_state d (le_base_slot L) ≠ SLOT_RESERVED_D2H) then
        (mkMarkD2HSubmittedResponse false "not in RESERVED_D2H",
         metric_inc kInvalidTransitionRejected d)
      else
        let d := d <| slots ::= update_run (submit_entry now (ds_submit_seq req) SLOT_D2H_IN_FLIGHT)
                        (le_base_slot L) (le_slot_count L) |> in
        (mkMarkD2HSubmittedResponse true "ok", metric_add kInflightD2HBytes (le_nbytes L) d)
  end.

(** A canonical object still being created is not drained. *)
Definition creating_canonical (d : Daemon) (tensor_id : Z) : bool :=
  if is_canonical_tid tensor_id then
    match find_object d (strip_canonical_bit tensor_id) with
    | Some co => bool_decide (ob_state co = OBJ_CREATING)
    | None => false
    end
  else false.
Definition enqueue_drain (now : Z) (L : Lease) (d : Daemon) : Daemon :=
  let d := set_run_state now (le_base_slot L) (le_slot_count L) SLOT_DRAIN_IN_FLIGHT d in
  let d := d <| drain_queue ::= (fun q => q ++ [mkDrainJob (le_base_slot L) (le_slot_count L)]) |> in
  metric_add kDrainingBytes (le_nbytes L) (metric_inc kDrainsEnqueued d).
(** Returns (accepted, latest, drain enqueued). *)
Definition apply_d2h_complete (now rank_id rank_epoch lease_id tensor_id version slot_id
  complete_seq : Z) (d : Daemon) : bool * bool * bool * Daemon :=
  if negb (epoch_valid d rank_id rank_epoch) then
    (false, false, false, metric_inc kEpochMismatchRejected d)
  else match lease_of d lease_id rank_id slot_id with
  | None => (false, false, false, metric_inc kLeaseOwnerMismatchRejected d)
  | Some L =>
      if decide (le_tensor_id L ≠ tensor_id \/ le_version L ≠ version) then
        (false, false, false, metric_inc kInvalidTransitionRejected d)
      else if decide (slot_state d (le_base_slot L) ≠ SLOT_D2H_IN_FLIGHT) then
        (false, false, false, metric_inc kInvalidTransitionRejected d)
      else
        let d := d <| slots ::= update_run (complete_entry now complete_seq)
                        (le_base_slot L) (le_slot_count L) |> in
        let d := metric_add kD2HBytes (le_nbytes L) (metric_sub kInflightD2HBytes (le_nbytes L) d) in
        let '(latest, d) := update_location_if_latest tensor_id version LOC_PINNED
                              (le_base_slot L) 0 (le_nbytes L) d in
        if negb (creating_canonical d tensor_id) && should_drain d then
          (true, latest, true, enqueue_drain now L d)
        else (true, latest, false, d)
  end.
Definition handle_mark_d2h_complete (now : Z) (req : MarkD2HCompleteRequest) (d : Daemon)
  : MarkD2HCompleteResponse * Daemon :=
  let '(ok, latest, enq, d) :=
    apply_d2h_complete now (dc_rank_id req) (dc_rank_epoch req) (dc_lease_id req)
      (dc_tensor_id req) (dc_version req) (dc_slot_id req) (dc_complete_seq req) d in
  (mkMarkD2HCompleteResponse ok (if ok : bool then "ok" else "rejected") latest enq, d).

(** ** RequestPrefetch *)
Definition prefetch_refused (msg : string) : RequestPrefetchResponse :=
  mkRequestPrefetchResponse false msg 0 0 0 0 0 0 false 0.
(** The scan for a prefetch lease of the same tensor and version whose slot is
    being read back or already readable. *)
Definition prefetch_match (d : Daemon) (tensor_id version : Z) (L : Lease) : bool :=
  le_is_prefetch L && bool_decide (le_tensor_id L = tensor_id)
  && bool_decide (le_version L = version)
  && (bool_decide (slot_state d (le_base_slot L) = SLOT_READBACK_IN_FLIGHT)
      || bool_decide (slot_state d (le_base_slot L) = SLOT_PINNED_VALID)).
Definition find_prefetch (d : Daemon) (tensor_id version : Z) : option Lease :=
  snd <$> (snd <$> list_find (fun kv => prefetch_match d tensor_id version kv.2)
                     (map_to_list (leases d))).
Definition prefetch_existing (d : Daemon) (EL : Lease) (want_version : Z)
  : RequestPrefetchResponse :=
  let st := slot_state d (le_base_slot EL) in
  let ready := bool_decide (st = SLOT_PINNED_VALID) in
  mkRequestPrefetchResponse true (if ready then "ready" else "readback in flight")
    (le_lease_id EL) (le_base_slot EL) (sl_arena_id (slot d (le_base_slot EL)))
    (sl_arena_offset (slot d (le_base_slot EL))) (le_nbytes EL) (slot_state_value st)
    ready want_version.
Definition prefetch_lease (req : RequestPrefetchRequest) (lease_id base count want_version
  owner_pid nbytes : Z) : Lease :=
  mkLease lease_id base count (rp_tensor_id req) want_version (rp_rank_id req) owner_pid
    (rp_rank_epoch req) nbytes true.
(** The pinned copy is readable: a prefetch lease is bound to its slots. *)
Definition prefetch_resident (req : RequestPrefetchRequest) (loc : Location)
  (lease_id count want_version owner_pid : Z) (d : Daemon) : RequestPrefetchResponse * Daemon :=
  let L := prefetch_lease req lease_id (lo_slot_id loc) count want_version owner_pid (lo_nbytes loc) in
  (mkRequestPrefetchResponse true "ok" lease_id (lo_slot_id loc)
     (sl_arena_id (slot d (lo_slot_id loc))) (sl_arena_offset (slot d (lo_slot_id loc)))
     (lo_nbytes loc) (slot_state_value SLOT_PINNED_VALID) true want_version,
   d <| leases ::= <[lease_id := L]> |>).
Definition readback_entry (now : Z) (req : RequestPrefetchRequest) (loc : Location)
  (lease_id want_version owner_pid : Z) (k : Z) (e : slot_entry) : slot_entry :=
  e <| sl_tensor_id := rp_tensor_id req |> <| sl_version := want_version |>
    <| sl_lease_id := lease_id |> <| sl_owner_rank := rp_rank_id req |>
    <| sl_owner_pid := owner_pid |> <| sl_rank_epoch := rp_rank_epoch req |>
    <| sl_nbytes := if decide (k = 0) then lo_nbytes loc else sl_capacity e |>
    <| sl_cold_ref := lo_cold_ref loc |> <| sl_flags := rp_flags req |>
    <| sl_last_touch_ns := now |> <| sl_state := SLOT_READBACK_IN_FLIGHT |>.
(** A pinned run was allocated: reserve it and queue the readback. *)
Definition prefetch_readback (now : Z) (req : RequestPrefetchRequest) (loc : Location)
  (lease_id base count want_version owner_pid : Z) (d : Daemon)
  : RequestPrefetchResponse * Daemon :=
  let d := d <| slots ::= update_run (readback_entry now req loc lease_id want_version owner_pid)
                  base count |> in
  let d := metric_add kUsedPinnedBytes (run_bytes d count) d in
  let L := prefetch_lease req lease_id base count want_version owner_pid (lo_nbytes loc) in
  let d := d <| leases ::= <[lease_id := L]> |>
             <| readback_queue ::=
                  (fun q => q ++ [mkReadbackJob base count (lo_cold_ref loc) (lo_nbytes loc)]) |> in
  let d := metric_inc kReadbacksStarted d in
  (mkRequestPrefetchResponse true "readback started" lease_id base (sl_arena_id (slot d base))
     (sl_arena_offset (slot d base)) (lo_nbytes loc)
     (slot_state_value SLOT_READBACK_IN_FLIGHT) false want_version, d).
Definition handle_request_prefetch (now : Z) (gaps : nat -> IoGap) (req : RequestPrefetchRequest)
  (d : Daemon) : RequestPrefetchResponse * Daemon :=
  if negb (epoch_valid d (rp_rank_id req) (rp_rank_epoch req)) then
    (prefetch_refused "epoch invalid", metric_inc kEpochMismatchRejected d)
  else
    let d := metric_inc kPrefetchRequests d in
    match locations d !! rp_tensor_id req with
    | None => (prefetch_refused "unknown tensor", d)
    | Some loc =>
        let want_version :=
          if decide (rp_version req = 0) then lo_version loc else rp_version req in
        if decide (want_version ≠ lo_version loc) then
          (prefetch_refused "requested version not latest/available", d)
        else if decide (lo_kind loc = LOC_NONE \/ lo_kind loc = LOC_DELETED) then
          (prefetch_refused "tensor not resident", d)
        else match find_prefetch d (rp_tensor_id req) want_version with
        | Some EL => (prefetch_existing d EL want_version, d)
        | None =>
            let owner_pid := session_pid d (rp_rank_id req) in
            let lease_id := u64 (next_lease_id d) in
            let d := d <| next_lease_id := next_lease_id d + 1 |> in
            let count := slots_for_bytes d (lo_nbytes loc) in
            if decide (lo_kind loc = LOC_PINNED /\ slot_state d (lo_slot_id loc) = SLOT_PINNED_VALID)
            then prefetch_resident req loc lease_id count want_version owner_pid d
            else match alloc_with_drain kDrainAttempts now gaps (rp_gpu_id req) (rp_numa_node req)
                         (lo_nbytes loc) (rp_flags req) d with
            | (None, _, d) => (prefetch_refused "no pinned capacity for readback",
                               metric_inc kBlockedReservations d)
            | (Some (base, _), now, d) =>
                prefetch_readback now req loc lease_id base count want_version owner_pid d
            end
        end
    end.

(** ** Host-to-device copies *)
Definition handle_mark_h2d_submitted (now : Z) (req : MarkH2DSubmittedRequest) (d : Daemon)
  : MarkH2DSubmittedResponse * Daemon :=
  if negb (epoch_valid d (hs_rank_id req) (hs_rank_epoch req)) then
    (mkMarkH2DSubmittedResponse false "epoch invalid", metric_inc kEpochMismatchRejected d)
  else match lease_of d (hs_lease_id req) (hs_rank_id req) (hs_slot_id req) with
  | None => (mkMarkH2DSubmittedResponse false "lease/owner/slot mismatch",
             metric_inc kLeaseOwnerMismatchRejected d)
  | Some L =>
      if decide (slot_state d (le_base_slot L) ≠ SLOT_PINNED_VALID) then
        (mkMarkH2DSubmittedResponse false "slot not PINNED_VALID",
         metric_inc kInvalidTransitionRejected d)
      else
        let d := d <| slots ::= update_run (submit_entry now (hs_submit_seq req) SLOT_H2D_IN_FLIGHT)
                        (le_base_slot L) (le_slot_count L) |> in
        (mkMarkH2DSubmittedResponse true "ok", metric_add kInflightH2DBytes (le_nbytes L) d)
  end.

(** The cold copy of the tensor in slot [base], if the cold store still has it:
    [(cold_ref, kind)]. *)
Definition cold_copy (d : Daemon) (tensor_id base : Z) : Z * option location_kind_t :=
  let cold_ref :=
    match locations d !! tensor_id with
    | Some l => if decide (lo_cold_ref l ≠ 0) then lo_cold_ref l else sl_cold_ref (slot d base)
    | None => sl_cold_ref (slot d base)
    end in
  (cold_ref, if decide (cold_ref ≠ 0) then co_kind <$> cold_store d !! cold_ref else None).
Definition demote_location (tensor_id version base : Z) (kind : location_kind_t) (d : Daemon)
  : Daemon :=
  d <| locations ::= alter (fun l =>
         if decide (lo_slot_id l = base /\ lo_version l = version)
         then l <| lo_kind := kind |> <| lo_slot_id := 0 |> else l) tensor_id |>.
(** The pinned copy stays resident and readable. *)
Definition keep_resident (now tensor_id version base cnt cold_ref nbytes : Z) (d : Daemon)
  : bool * Daemon :=
  let d := set_run_state now base cnt SLOT_PINNED_VALID d in
  (true, (update_location_if_latest tensor_id version LOC_PINNED base cold_ref nbytes d).2).
Definition apply_h2d_complete (now rank_id rank_epoch lease_id tensor_id version slot_id : Z)
  (keep_pinned : bool) (complete_seq : Z) (d : Daemon) : bool * Daemon :=
  if negb (epoch_valid d rank_id rank_epoch) then (false, metric_inc kEpochMismatchRejected d)
  else match lease_of d lease_id rank_id slot_id with
  | None => (false, metric_inc kLeaseOwnerMismatchRejected d)
  | Some L =>
      if decide (slot_state d (le_base_slot L) ≠ SLOT_H2D_IN_FLIGHT) then
        (false, metric_inc kInvalidTransitionRejected d)
      else
        let base := le_base_slot L in
        let cnt := le_slot_count L in
        let nbytes := le_nbytes L in
        let d := d <| slots ::= update_run (fun _ e => e <| sl_complete_seq := complete_seq |>)
                        base cnt |> in
        let d := metric_add kH2DBytes nbytes (metric_sub kInflightH2DBytes nbytes d) in
        let '(cold_ref, cold_kind) := cold_copy d tensor_id base in
        match cold_kind with
        | Some kind =>
            if negb keep_pinned then
              let d := demote_location tensor_id version base kind d in
              let d := free_slots now base cnt d in
              (true, d <| leases ::= delete lease_id |>)
            else keep_resident now tensor_id version base cnt cold_ref nbytes d
        | None => keep_resident now tensor_id version base cnt cold_ref nbytes d
        end
  end.
Definition handle_mark_h2d_complete (now : Z) (req : MarkH2DCompleteRequest) (d : Daemon)
  : MarkH2DCompleteResponse * Daemon :=
  let '(ok, d) :=
    apply_h2d_complete now (hc_rank_id req) (hc_rank_epoch req) (hc_lease_id req)
      (hc_tensor_id req) (hc_version req) (hc_slot_id req) (hc_keep_pinned req)
      (hc_complete_seq req) d in
  (mkMarkH2DCompleteResponse ok (if ok : bool then "ok" else "rejected"), d).

(** ** ReleaseLease, LocationQuery *)
Definition releasable (st : slot_state_t) : bool :=
  match st with
  | SLOT_PINNED_VALID | SLOT_RESERVED_D2H | SLOT_H2D_IN_FLIGHT | SLOT_D2H_IN_FLIGHT
  | SLOT_READBACK_IN_FLIGHT => true
  | _ => false
  end.
(** The location that pointed at the released pinned run becomes NONE. *)
Definition forget_pinned (tensor_id version base : Z) (d : Daemon) : Daemon :=
  d <| locations ::= alter (fun l =>
         if decide (lo_slot_id l = base /\ lo_kind l = LOC_PINNED /\ lo_version l = version)
         then l <| lo_kind := LOC_NONE |> else l) tensor_id |>.
Definition handle_release_lease (now : Z) (req : ReleaseLeaseRequest) (d : Daemon)
  : ReleaseLeaseResponse * Daemon :=
  if negb (epoch_valid d (rl_rank_id req) (rl_rank_epoch req)) then
    (mkReleaseLeaseResponse false "epoch invalid", metric_inc kEpochMismatchRejected d)
  else match find_lease d (rl_lease_id req) with
  | None => (mkReleaseLeaseResponse true "already released", d)
  | Some L =>
      if decide (le_owner_rank L ≠ rl_rank_id req) then
        (mkReleaseLeaseResponse false "not lease owner", metric_inc kLeaseOwnerMismatchRejected d)
      else if releasable (slot_state d (le_base_slot L)) then
        let d := forget_pinned (le_tensor_id L) (le_version L) (le_base_slot L) d in
        let d := free_slots now (le_base_slot L) (le_slot_count L) d in
        (mkReleaseLeaseResponse true "ok", d <| leases ::= delete (rl_lease_id req) |>)
      else
        (mkReleaseLeaseResponse true "ok (slot managed by drain)",
         d <| leases ::= delete (rl_lease_id req) |>)
  end.

Definition handle_query_location (req : LocationQueryRequest) (d : Daemon)
  : LocationQueryResponse * Daemon :=
  match locations d !! lq_tensor_id req with
  | None => (mkLocationQueryResponse false "unknown tensor" 0 0 0 0, d)
  | Some loc =>
      if decide (lq_version req ≠ 0 /\ lq_version req ≠ lo_version loc) then
        (mkLocationQueryResponse false "version not latest" 0 0 0 0, d)
      else (mkLocationQueryResponse true "ok" (location_kind_value (lo_kind loc))
              (lo_slot_id loc) (lo_nbytes loc) (lo_version loc), d)
  end.

(** ** Batched completions, statistics, shutdown *)
Definition apply_batch_one (now rank_id rank_epoch : Z) (c : BatchCompletion) (d : Daemon)
  : bool * Daemon :=
  if decide (bc_event_type c = EVENT_D2H_COMPLETE) then
    let '(ok, _, _, d) := apply_d2h_complete now rank_id rank_epoch (bc_lease_id c)
      (bc_tensor_id c) (bc_version c) (bc_slot_id c) (bc_seq c) d in (ok, d)
  else if decide (bc_event_type c = EVENT_H2D_COMPLETE) then
    apply_h2d_complete now rank_id rank_epoch (bc_lease_id c) (bc_tensor_id c) (bc_version c)
      (bc_slot_id c) (bc_keep_pinned c) (bc_seq c) d
  else (false, metric_inc kInvalidTransitionRejected d).
Definition batch_loop (now rank_id rank_epoch : Z) (cs : list BatchCompletion)
  (acc : Z * Z * Daemon) : Z * Z * Daemon :=
  foldl (fun '(accepted, rejected, d) c =>
    match apply_batch_one now rank_id rank_epoch c d with
    | (true, d) => (u32 (accepted + 1), rejected, d)
    | (false, d) => (accepted, u32 (rejected + 1), d)
    end) acc cs.
Definition handle_batch_complete (now : Z) (req : BatchCompleteRequest) (d : Daemon)
  : BatchCompleteResponse * Daemon :=
  let '(accepted, rejected, d) :=
    batch_loop now (bq_rank_id req) (bq_rank_epoch req) (bq_completions req) (0, 0, d) in
  (mkBatchCompleteResponse true "ok" accepted rejected, d).

Definition handle_shutdown (req : ShutdownRequest) (d : Daemon) : ShutdownResponse * Daemon :=
  (mkShutdownResponse true "shutting down", d <| running := false |>).

(** ** Completions popped from a ring *)
Definition apply_ring_completion (now rank_id rank_epoch : Z) (e : completion_entry) (d : Daemon)
  : Daemon :=
  if decide (e_event_type e = EVENT_D2H_COMPLETE) then
    (apply_d2h_complete now rank_id rank_epoch (e_lease_id e) (e_tensor_id e) (e_version e)
       (e_slot_id e) 0 d).2
  else if decide (e_event_type e = EVENT_H2D_COMPLETE) then
    (apply_h2d_complete now rank_id rank_epoch (e_lease_id e) (e_tensor_id e) (e_version e)
       (e_slot_id e) false 0 d).2
  else metric_inc kInvalidTransitionRejected d.
