(* ===== verification/Store.v ===== *)
(** * Canonical store: identity, hashing and reclamation

    Models the helpers of [src/daemon/canonical.cpp] on which sessions and the
    canonical handlers rest: the identity string of a canonical key and its
    printers, the FNV-1a content hash, the table lookups, the quota test,
    [release_object], [maybe_free_object] and [purge_rank_from_canonical]. *)
From stdpp Require Import base gmap strings list fin_maps fin_sets pretty list_numbers.
From Stdlib Require Import ZArith Lia Ascii.
From S2P Require Import Prelude.
From S2P Require Import ProtocolV2.
From S2P Require Import State.
From S2P Require Import Alloc.
Open Scope Z_scope.
Open Scope offload_scope.

(** ** Identity string *)
Definition kCandidateBit : Z := Z.shiftl 1 62.
Definition candidate_tid (seq : Z) : Z := Z.lor (Z.lor kCanonicalTidBit kCandidateBit) seq.

Definition nul : string := String zero EmptyString.
(** [snprintf] into a buffer of [size] characters, then [append(buf, n)] with the
    untruncated length: what does not fit is cut and the terminating NUL is
    appended in its place (one character at most for the calls below). *)
Definition append_snprintf (size : nat) (s out : string) : string :=
  if decide (String.length out < size)%nat then s +:+ out
  else s +:+ String.substring 0 (size - 1) out +:+ nul.
Definition append_u64 (s : string) (v : Z) : string := append_snprintf 21 s (pretty v +:+ ":").
Definition append_i64 (s : string) (v : Z) : string := append_snprintf 24 s (pretty v +:+ ":").

Definition canonical_key_string (k : CanonicalTensorKeyWire) : string :=
  let s := EmptyString in
  let s := append_u64 s (jk_tenant_id (k_job k)) in
  let s := append_u64 s (jk_job_id (k_job k)) in
  let s := append_u64 s (jk_launch_epoch (k_job k)) in
  let s := append_u64 s (k_model_role k) in
  let s := append_u64 s (k_model_version k) in
  let s := append_u64 s (k_param_id k) in
  let s := append_u64 s (k_param_fqn_hash k) in
  let s := append_u64 s (k_dtype k) in
  let s := append_u64 s (k_layout k) in
  let s := append_u64 s (k_nbytes k) in
  let s := append_u64 s (k_shape_hash k) in
  let s := append_u64 s (k_stride_hash k) in
  let s := append_u64 s (k_pp_rank k) in
  let s := append_u64 s (k_tp_rank k) in
  let s := append_u64 s (k_ep_rank k) in
  let s := append_u64 s (k_etp_rank k) in
  let s := append_i64 s (k_expert_id k) in
  let s := append_u64 s (k_shard_offset k) in
  append_u64 s (k_shard_nbytes k).

(** ** Content hash *)
Definition FNV_PRIME : Z := 1099511628211.
Definition FNV_BASIS : Z := 1469598103934665603.
Definition hash_step (h : Z * Z) (b : Z) : Z * Z :=
  let h1 := u64 (Z.lxor h.1 b * FNV_PRIME) in
  let h2 := u64 (Z.lxor h.2 b * FNV_PRIME) in
  (h1, Z.lor (u64 (Z.shiftl h2 1)) (Z.shiftr h2 63)).
Definition hash_bytes (p : list Z) : Z * Z := foldl hash_step (FNV_BASIS, 1099511628211) p.
Definition string_bytes (s : string) : list Z :=
  (fun c => Z.of_N (N_of_ascii c)) <$> String.list_ascii_of_string s.

(** ** Table lookups and quota *)
Definition find_job (d : Daemon) (uid : JobUID) : option JobRecord := jobs d !! uid.
Definition uid_of_wire (jk : JobKeyWire) : JobUID :=
  mkJobUID (jk_tenant_id jk) (jk_job_id jk) (jk_launch_epoch jk).
Definition find_job_by_wire (d : Daemon) (jk : JobKeyWire) : option JobRecord :=
  find_job d (uid_of_wire jk).
Definition find_object_by_key (d : Daemon) (key_str : string) : option CanonicalObject :=
  match object_by_key d !! key_str with
  | None => None
  | Some object_id => find_object d object_id
  end.
Definition quota_allows_pinned (job : JobRecord) (nbytes : Z) : bool :=
  if decide (jr_max_pinned_bytes job = 0) then true
  else bool_decide (u64 (jr_pinned_bytes job + nbytes) <= jr_max_pinned_bytes job).

(** ** Reclamation *)
(** [if (job->pinned_bytes >= n) job->pinned_bytes -= n;] *)
Definition uncharge_pinned (n : Z) (job : JobRecord) : JobRecord :=
  if decide (n <= jr_pinned_bytes job) then job <| jr_pinned_bytes := jr_pinned_bytes job - n |>
  else job.
Definition uncount_object (job : JobRecord) : JobRecord :=
  if decide (0 < jr_canonical_object_count job)
  then job <| jr_canonical_object_count := jr_canonical_object_count job - 1 |> else job.
(** The backing: a pinned run is freed if it is readable, else the cold entry is
    erased; then the location is dropped. *)
Definition release_backing (now : Z) (obj : CanonicalObject) (d : Daemon) : Daemon :=
  match locations d !! ob_synthetic_tid obj with
  | None => d
  | Some loc =>
      let d :=
        if decide (lo_kind loc = LOC_PINNED /\ ob_base_slot obj ≠ NO_U32) then
          if decide (slot_state d (ob_base_slot obj) = SLOT_PINNED_VALID)
          then free_slots now (ob_base_slot obj) (ob_slot_count obj) d else d
        else if decide (lo_cold_ref loc ≠ 0) then d <| cold_store ::= delete (lo_cold_ref loc) |>
        else d in
      d <| locations ::= delete (ob_synthetic_tid obj) |>
  end.
Definition object_busy (obj : CanonicalObject) : bool :=
  bool_decide (0 < ob_export_refcount obj) || bool_decide (0 < ob_restore_refcount obj).
Definition release_object (now : Z) (obj : CanonicalObject) (d : Daemon) : bool * Daemon :=
  if object_busy obj then (false, d)
  else
    let d := release_backing now obj d in
    let d := d <| leases ::= delete (ob_lease_id obj) |>
               <| object_by_key ::= delete (ob_key_str obj) |>
               <| jobs ::= alter (fun j => uncount_object (uncharge_pinned (ob_nbytes obj) j))
                             (uid_of_wire (k_job (ob_key obj))) |> in
    let d := metric_inc kCanonicalObjectsDropped d in
    (true, d <| objects ::= delete (ob_object_id obj) |>).
Definition maybe_free_object (now : Z) (obj : CanonicalObject) (d : Daemon) : bool * Daemon :=
  if decide (ob_holders obj ≠ ∅) then (false, d)
  else if object_busy obj then (false, d)
  else release_object now obj d.

(** [holders.erase(rank)] with the informational count. *)
Definition drop_holder (rank_id : Z) (obj : CanonicalObject) : CanonicalObject :=
  obj <| ob_holders := ob_holders obj ∖ {[ rank_id ]} |>
      <| ob_refcount := u32 (Z.of_nat (size (ob_holders obj ∖ {[ rank_id ]}))) |>.
Definition add_holder (rank_id : Z) (obj : CanonicalObject) : CanonicalObject :=
  obj <| ob_holders := ob_holders obj ∪ {[ rank_id ]} |>
      <| ob_refcount := u32 (Z.of_nat (size (ob_holders obj ∪ {[ rank_id ]}))) |>.
(** [for (oid : to_check) if (o = find_object(oid)) maybe_free_object( *o );] *)
Definition free_unheld (now : Z) (ids : list Z) (d : Daemon) : Daemon :=
  foldl (fun d oid => match find_object d oid with
                      | Some o => (maybe_free_object now o d).2
                      | None => d
                      end) d ids.
Definition purge_rank_from_canonical (now rank_id : Z) (d : Daemon) : Daemon :=
  let held o := bool_decide (rank_id ∈ ob_holders o) in
  let to_check := (filter (fun kv => held kv.2 = true) (map_to_list (objects d))).*1 in
  let d := d <| objects ::= fmap (fun o => if held o then drop_holder rank_id o else o) |> in
  free_unheld now to_check d.
