(* ===== verification/Identity.v ===== *)
(** * The identity of a canonical object

    [canonical_key_string] ([src/daemon/canonical.cpp]) is the key of
    [object_by_key_]: two shards are merged exactly when their strings are equal.
    This file proves that the string determines every axis of the key and nothing
    else, for all keys that fit their wire types, including the values whose
    decimal form fills the [snprintf] buffer. *)
From stdpp Require Import base gmap strings list pretty.
From Stdlib Require Import ZArith Lia Ascii.
From S2P Require Import Prelude.
From S2P Require Import ProtocolV2.
From S2P Require Import State.
From S2P Require Import Store.
Open Scope Z_scope.
Open Scope offload_scope.

(** ** Decimal numerals *)
(** The characters of a decimal numeral. *)
Definition num_char (c : ascii) : bool :=
  bool_decide (c = "-"%char) || existsb (Ascii.eqb c) ["0"; "1"; "2"; "3"; "4"; "5"; "6"; "7"; "8"; "9"]%char.
Fixpoint numeral (s : string) : bool :=
  match s with
  | EmptyString => true
  | String c s => num_char c && numeral s
  end.
Lemma pretty_char_num x : num_char (pretty_N_char x) = true.
Proof. unfold pretty_N_char. by repeat case_match. Qed.
Lemma pretty_go_numeral x s : numeral s = true -> numeral (pretty_N_go x s) = true.
Proof.
  revert s. induction (N.lt_wf_0 x) as [x _ IH]; intros s Hs.
  assert (x = 0 ∨ 0 < x)%N as [->|?] by lia; [done|].
  rewrite pretty_N_go_step by done. apply IH; [by apply N.div_lt|]. simpl.
  by rewrite pretty_char_num.
Qed.
Lemma pretty_numeral (v : Z) : numeral (pretty v) = true.
Proof.
  destruct v as [|p|p]; [done|..]; unfold pretty, pretty_Z, pretty, pretty_positive, pretty, pretty_N;
    (rewrite decide_False by done); change (numeral (pretty_N_go (N.pos p) EmptyString) = true);
    by apply pretty_go_numeral.
Qed.
Lemma pretty_go_length (k : nat) x s :
  (x < 10 ^ N.of_nat k)%N -> (String.length (pretty_N_go x s) <= k + String.length s)%nat.
Proof.
  revert x s. induction k as [|k IH]; intros x s Hx.
  - assert (x = 0)%N as -> by (simpl in Hx; lia). by rewrite pretty_N_go_0.
  - assert (x = 0 ∨ 0 < x)%N as [->|?] by lia; [rewrite pretty_N_go_0; lia|].
    rewrite pretty_N_go_step by done. etrans; [apply IH|simpl; lia].
    apply N.Div0.div_lt_upper_bound. rewrite Nat2N.inj_succ, N.pow_succ_r' in Hx. lia.
Qed.
Lemma pretty_N_length (x : N) : (x < 10 ^ 20)%N -> (String.length (pretty x) <= 20)%nat.
Proof.
  intros Hx. unfold pretty, pretty_N. case_decide; [simpl; lia|].
  etrans; [by apply (pretty_go_length 20)|simpl; lia].
Qed.
Lemma pretty_u64_length (v : Z) : 0 <= v < 2 ^ 64 -> (String.length (pretty v) <= 20)%nat.
Proof. intros Hv. destruct v as [|p|p]; [simpl; lia| |lia]. apply (pretty_N_length (Npos p)). lia. Qed.
Lemma pretty_i64_length (v : Z) : - 2 ^ 63 <= v < 2 ^ 63 -> (String.length (pretty v) <= 21)%nat.
Proof.
  intros Hv. destruct v as [|p|p]; [simpl; lia|..].
  - etrans; [apply (pretty_N_length (Npos p)); lia|lia].
  - pose proof (pretty_N_length (Npos p) ltac:(lia)) as Hp.
    change (S (String.length (pretty (Npos p))) <= 21)%nat. lia.
Qed.

(** ** Fields: a numeral and a terminator *)
Lemma append_cons c a b : String c a +:+ b = String c (a +:+ b).
Proof. done. Qed.
Lemma numeral_split a b c1 c2 r1 r2 :
  numeral a = true -> numeral b = true -> num_char c1 = false -> num_char c2 = false ->
  a +:+ String c1 r1 = b +:+ String c2 r2 -> a = b /\ c1 = c2 /\ r1 = r2.
Proof.
  revert b. induction a as [|x a IH]; intros [|y b] Ha Hb H1 H2; rewrite ?append_cons; simpl in *;
    rewrite ?andb_true_iff in *.
  - by intros [= -> ->].
  - intros [= -> _]. destruct Hb. congruence.
  - intros [= -> _]. destruct Ha. congruence.
  - intros [= -> E]. destruct (IH b) as (-> & -> & ->); [apply Ha|apply Hb|done..].
Qed.
Lemma append_length a b : String.length (a +:+ b) = (String.length a + String.length b)%nat.
Proof. induction a as [|c a IH]; [done|]. simpl. by rewrite IH. Qed.
Lemma append_assoc_s (a b c : string) : (a +:+ b) +:+ c = a +:+ (b +:+ c).
Proof. induction a as [|x a IH]; [done|]. rewrite !append_cons. by rewrite IH. Qed.
Lemma append_nil_r_s (a : string) : a +:+ EmptyString = a.
Proof. induction a as [|x a IH]; [done|]. rewrite append_cons. by rewrite IH. Qed.
Lemma substring_append a b : String.substring 0 (String.length a) (a +:+ b) = a.
Proof. induction a as [|c a IH]; [by destruct b|]. simpl. by rewrite IH. Qed.
Definition field (size : nat) (v : Z) : string := append_snprintf size EmptyString (pretty v +:+ ":").
(** What is appended is the numeral and one terminator: a colon, or the NUL that
    [snprintf] wrote when the numeral fills the buffer. *)
Lemma field_shape size v :
  (String.length (pretty v) < size)%nat ->
  exists c, num_char c = false /\ field size v = pretty v +:+ String c EmptyString.
Proof.
  intros Hl. unfold field, append_snprintf. case_decide as Hs; [by exists ":"%char|].
  exists zero. split; [done|]. rewrite append_length in Hs. simpl in Hs.
  replace (size - 1)%nat with (String.length (pretty v)) by lia. simpl. by rewrite substring_append.
Qed.
Lemma append_snprintf_field size s v :
  append_snprintf size s (pretty v +:+ ":") = s +:+ field size v.
Proof. unfold field, append_snprintf. by case_decide. Qed.

(** ** The axes *)
Definition key_axes (k : CanonicalTensorKeyWire) : list (nat * Z) :=
  [(21%nat, jk_tenant_id (k_job k)); (21%nat, jk_job_id (k_job k)); (21%nat, jk_launch_epoch (k_job k));
   (21%nat, k_model_role k); (21%nat, k_model_version k); (21%nat, k_param_id k);
   (21%nat, k_param_fqn_hash k); (21%nat, k_dtype k); (21%nat, k_layout k); (21%nat, k_nbytes k);
   (21%nat, k_shape_hash k); (21%nat, k_stride_hash k); (21%nat, k_pp_rank k); (21%nat, k_tp_rank k);
   (21%nat, k_ep_rank k); (21%nat, k_etp_rank k); (24%nat, k_expert_id k); (21%nat, k_shard_offset k);
   (21%nat, k_shard_nbytes k)].
(** Every axis fits its wire type ([expert_id] is an int64, the rest unsigned). *)
Definition axis_in_range (a : nat * Z) : Prop :=
  (a.1 = 21%nat /\ 0 <= a.2 < 2 ^ 64) \/ (a.1 = 24%nat /\ - 2 ^ 63 <= a.2 < 2 ^ 63).
Lemma wf_key_axes k : wf_CanonicalTensorKeyWire k -> Forall axis_in_range (key_axes k).
Proof.
  intros [(? & ? & ? & _) Hk]. unfold key_axes, axis_in_range, in_u64, in_u32, in_i32 in *.
  destruct_and! Hk. repeat constructor; cbn [fst snd]; lia.
Qed.
Definition fields (l : list (nat * Z)) : string := foldr (fun a s => field a.1 a.2 +:+ s) EmptyString l.

Lemma key_string_fields k : canonical_key_string k = fields (key_axes k).
Proof.
  unfold canonical_key_string, append_u64, append_i64. cbv zeta. rewrite !append_snprintf_field.
  unfold fields, key_axes. cbn [foldr fst snd]. rewrite !append_assoc_s, append_nil_r_s. done.
Qed.
Lemma axis_shape a :
  axis_in_range a -> exists c, num_char c = false /\ field a.1 a.2 = pretty a.2 +:+ String c EmptyString.
Proof.
  intros [[E Ha]|[E Ha]]; rewrite E; apply field_shape.
  - pose proof (pretty_u64_length _ Ha). lia.
  - pose proof (pretty_i64_length _ Ha). lia.
Qed.
Lemma fields_inj l1 l2 :
  Forall axis_in_range l1 -> Forall axis_in_range l2 -> l1.*1 = l2.*1 ->
  fields l1 = fields l2 -> l1 = l2.
Proof.
  intros H1. revert l2. induction H1 as [|[n1 v1] l1 Ha H1 IH]; intros [|[n2 v2] l2] H2 Hn; try done.
  apply Forall_cons in H2 as [Hb H2]. injection Hn as -> Hn. cbn [fields foldr].
  destruct (axis_shape _ Ha) as (c1 & Hc1 & ->). destruct (axis_shape _ Hb) as (c2 & Hc2 & ->).
  rewrite !append_assoc_s. intros E.
  apply numeral_split in E as (Ev & _ & Er); [|apply pretty_numeral|apply pretty_numeral|done|done].
  cbn [snd] in Ev. apply (inj pretty) in Ev as ->. f_equal. by apply IH.
Qed.

Lemma key_string_axes k1 k2 :
  wf_CanonicalTensorKeyWire k1 -> wf_CanonicalTensorKeyWire k2 ->
  canonical_key_string k1 = canonical_key_string k2 -> (key_axes k1).*2 = (key_axes k2).*2.
Proof.
  intros H1%wf_key_axes H2%wf_key_axes. rewrite !key_string_fields. intros E.
  apply fields_inj in E; [by rewrite E|done..].
Qed.
(** C9. The identity string separates shards: for keys that fit their wire
    types, the strings are equal exactly when all nineteen axes are (tenant, job,
    launch epoch, role, version, parameter, dtype, layout, size, shape, stride,
    the four parallel ranks, expert and shard bounds); the debug name and the job
    name play no part. *)
Theorem key_string_identity (k1 k2 : CanonicalTensorKeyWire) :
  wf_CanonicalTensorKeyWire k1 -> wf_CanonicalTensorKeyWire k2 ->
  (canonical_key_string k1 = canonical_key_string k2 <-> (key_axes k1).*2 = (key_axes k2).*2).
Proof.
  intros H1 H2. split; [by apply key_string_axes|]. rewrite !key_string_fields. intros E.
  assert (Hz : forall k, key_axes k = zip (key_axes k1).*1 (key_axes k).*2) by done.
  by rewrite (Hz k1), (Hz k2), E.
Qed.

(** Two shards that differ in one parallel rank, with a hash of twenty digits. *)
Definition sample_key (tp_rank : Z) : CanonicalTensorKeyWire :=
  mkCanonicalTensorKeyWire (mkJobKeyWire 1 2 3 "job") 0 7 11 18446744073709551615 "layer.0" 1 0
    5000000 5 6 0 tp_rank 0 0 (-1) 0 5000000.
Lemma key_string_identity_witness :
  canonical_key_string (sample_key 0) ≠ canonical_key_string (sample_key 1).
Proof.
  intros E. apply key_string_identity in E; [discriminate E|..]; vm_compute; intuition congruence.
Defined.
