(* ===== verification/Files.v ===== *)
(** * Files and byte ranges

    A file is the list of its bytes.  [slice] is a byte range; [file_write] is the
    effect of a successful [pwrite]: bytes past the end are preceded by zeros, as
    in a sparse file.  The outcome of every system call is an element of a
    script, the list of outcomes in the order of the calls; a loop that waits for
    more outcomes than the script holds has not returned. *)
From stdpp Require Import base gmap strings list fin_maps list_numbers.
From Stdlib Require Import ZArith Lia Strings.Byte.
From S2P Require Import Prelude.
Open Scope Z_scope.

(** The outcome of one system call: a non-negative result, [EINTR], or another
    error. *)
Inductive sysres := SysOk (n : Z) | SysEintr | SysErr.

Definition zlen {A} (l : list A) : Z := Z.of_nat (length l).
Definition slice {A} (off len : Z) (l : list A) : list A :=
  take (Z.to_nat len) (drop (Z.to_nat off) l).
Definition zeros (n : Z) : list byte := replicate (Z.to_nat n) x00.
(** [memcpy(dst + off, bs)] on a buffer that is large enough; what would fall
    outside is not written. *)
Definition buf_write {A} (off : Z) (bs : list A) (buf : list A) : list A :=
  take (Z.to_nat off) buf ++ take (length buf - Z.to_nat off) bs ++ drop (Z.to_nat off + length bs) buf.
Definition file_write (off : Z) (bs : list byte) (f : list byte) : list byte :=
  match bs with
  | [] => f
  | _ => buf_write off bs (f ++ zeros (off + zlen bs - zlen f))
  end.

(** [roundup(v, a)] of [daemon.cpp] on [uint64_t]. *)
Definition roundup (v a : Z) : Z := u64 (u64 (u64 (v + a) - 1) / a * a).

(** ** Lemmas *)
Section Slices.
Context {A : Type}.
Implicit Types l bs : list A.

Lemma zlen_app l1 l2 : zlen (l1 ++ l2) = zlen l1 + zlen l2.
Proof. unfold zlen. rewrite length_app. lia. Qed.
Lemma zlen_nonneg l : 0 <= zlen l.
Proof. unfold zlen. lia. Qed.
Lemma zlen_slice off len l : 0 <= off -> 0 <= len -> off + len <= zlen l -> zlen (slice off len l) = len.
Proof. unfold zlen, slice. intros. rewrite length_take, length_drop. lia. Qed.
Lemma slice_all l : slice 0 (zlen l) l = l.
Proof. unfold slice, zlen. rewrite Nat2Z.id. simpl. apply take_ge. lia. Qed.
Lemma slice_0 off l : slice off 0 l = [].
Proof. done. Qed.
Lemma slice_split off n m l : 0 <= off -> 0 <= n -> 0 <= m ->
  slice off (n + m) l = slice off n l ++ slice (off + n) m l.
Proof.
  intros. unfold slice. rewrite Z2Nat.inj_add by lia.
  rewrite <- take_take_drop, drop_drop. do 3 f_equal. lia.
Qed.
Lemma slice_slice off len i n l : 0 <= off -> 0 <= i -> 0 <= n -> i + n <= len ->
  slice i n (slice off len l) = slice (off + i) n l.
Proof.
  intros. unfold slice. rewrite skipn_firstn_comm, take_take, drop_drop.
  f_equal; [lia|f_equal; lia].
Qed.
Lemma slice_app_l off len l1 l2 : 0 <= off -> 0 <= len -> off + len <= zlen l1 ->
  slice off len (l1 ++ l2) = slice off len l1.
Proof.
  unfold zlen. intros. unfold slice. rewrite drop_app_le by lia.
  rewrite take_app_le; [done|]. rewrite length_drop. lia.
Qed.
Lemma slice_app_r off len l1 l2 : zlen l1 <= off -> slice off len (l1 ++ l2) = slice (off - zlen l1) len l2.
Proof.
  unfold zlen. intros. unfold slice. rewrite drop_app_ge by lia. do 2 f_equal. lia.
Qed.
Lemma lookup_slice off len l i : 0 <= off -> 0 <= i < len ->
  slice off len l !! Z.to_nat i = l !! Z.to_nat (off + i).
Proof.
  intros. unfold slice. rewrite lookup_take_lt by lia. rewrite lookup_drop. f_equal. lia.
Qed.
(** Two lists agree on a range. *)
Lemma slice_ext off len l1 l2 : 0 <= off -> 0 <= len ->
  (forall i, 0 <= i < len -> l1 !! Z.to_nat (off + i) = l2 !! Z.to_nat (off + i)) ->
  slice off len l1 = slice off len l2.
Proof.
  intros Ho Hl H. apply list_eq. intros i. destruct (decide (Z.of_nat i < len)).
  - replace i with (Z.to_nat (Z.of_nat i)) by lia. rewrite !lookup_slice by lia. apply H. lia.
  - unfold slice. rewrite !lookup_take_ge by lia. done.
Qed.

Lemma buf_write_inserts off bs l : buf_write off bs l = list_inserts (Z.to_nat off) bs l.
Proof.
  unfold buf_write. set (i := Z.to_nat off). apply list_eq. intros j.
  destruct (decide (j < i)%nat); [|destruct (decide (j < i + length bs)%nat)].
  - rewrite list_lookup_inserts_lt by done. destruct (decide (j < length l)%nat).
    + rewrite lookup_app_l by (rewrite length_take; lia). by rewrite lookup_take_lt.
    + rewrite (lookup_ge_None_2 l) by lia. apply lookup_ge_None_2.
      rewrite !length_app, !length_take, length_drop. lia.
  - destruct (decide (j < length l)%nat).
    + rewrite list_lookup_inserts by lia.
      rewrite lookup_app_r, length_take by (rewrite length_take; lia).
      rewrite lookup_app_l by (rewrite length_take; lia). rewrite lookup_take_lt by lia. f_equal. lia.
    + rewrite !lookup_ge_None_2; [done|rewrite length_inserts; lia|].
      rewrite !length_app, !length_take, length_drop. lia.
  - rewrite list_lookup_inserts_ge by lia. rewrite (assoc_L (++)).
    destruct (decide (j < length l)%nat).
    + rewrite lookup_app_r by (rewrite length_app, !length_take; lia).
      rewrite length_app, !length_take, lookup_drop. f_equal. lia.
    + rewrite !lookup_ge_None_2; [done|lia|]. rewrite !length_app, !length_take, length_drop. lia.
Qed.
Lemma zlen_buf_write off bs l : zlen (buf_write off bs l) = zlen l.
Proof. unfold zlen. by rewrite buf_write_inserts, length_inserts. Qed.
Lemma buf_write_same off bs l : 0 <= off -> off + zlen bs <= zlen l ->
  slice off (zlen bs) (buf_write off bs l) = bs.
Proof.
  unfold zlen. intros. apply list_eq. intros i. rewrite buf_write_inserts. unfold slice.
  destruct (decide (i < length bs)%nat).
  - rewrite lookup_take_lt by lia. rewrite lookup_drop. rewrite list_lookup_inserts by lia.
    f_equal. lia.
  - rewrite lookup_take_ge by lia. symmetry. apply lookup_ge_None. lia.
Qed.
Lemma buf_write_lookup_ne off bs l k : 0 <= off -> 0 <= k -> k < off \/ off + zlen bs <= k ->
  buf_write off bs l !! Z.to_nat k = l !! Z.to_nat k.
Proof.
  unfold zlen. rewrite buf_write_inserts. intros ?? [?|?].
  - apply list_lookup_inserts_lt. lia.
  - apply list_lookup_inserts_ge. lia.
Qed.
Lemma buf_write_other off bs l o n : 0 <= off -> 0 <= o -> 0 <= n ->
  o + n <= off \/ off + zlen bs <= o -> slice o n (buf_write off bs l) = slice o n l.
Proof. intros. apply slice_ext; [done..|]. intros. apply buf_write_lookup_ne; lia. Qed.
Lemma buf_write_nil off l : buf_write off [] l = l.
Proof. by rewrite buf_write_inserts. Qed.
End Slices.

Lemma zlen_zeros n : 0 <= n -> zlen (zeros n) = n.
Proof. unfold zlen, zeros. rewrite length_replicate. lia. Qed.

(** ** Ranges of a file

    [holds_at f off bs]: the bytes [bs] stand at [off].  [touches off n f f']: [f']
    differs from [f] only in [off, off + n), and past its end. *)
Definition holds_at (f : list byte) (off : Z) (bs : list byte) : Prop :=
  forall i, 0 <= i < zlen bs -> f !! Z.to_nat (off + i) = bs !! Z.to_nat i.
Definition touches (off n : Z) (f f' : list byte) : Prop :=
  forall k b, 0 <= k -> k < off \/ off + n <= k -> f !! Z.to_nat k = Some b -> f' !! Z.to_nat k = Some b.

Lemma holds_at_nil f off : holds_at f off [].
Proof. intros i Hi. unfold zlen in Hi. simpl in Hi. lia. Qed.
Lemma holds_at_app f off b1 b2 : 0 <= off ->
  holds_at f off (b1 ++ b2) <-> holds_at f off b1 /\ holds_at f (off + zlen b1) b2.
Proof.
  intros Ho. unfold holds_at. setoid_rewrite zlen_app. split; [intros H; split|intros [H1 H2]]; intros i Hi.
  - rewrite H by (pose proof (zlen_nonneg b2); lia). apply lookup_app_l. unfold zlen in Hi. lia.
  - replace (off + zlen b1 + i) with (off + (zlen b1 + i)) by lia. rewrite H by (pose proof (zlen_nonneg b1); lia).
    rewrite lookup_app_r by (unfold zlen; lia). f_equal. unfold zlen. lia.
  - destruct (decide (i < zlen b1)).
    + rewrite H1 by lia. symmetry. apply lookup_app_l. unfold zlen in *. lia.
    + rewrite lookup_app_r by (unfold zlen in *; lia).
      replace (off + i) with (off + zlen b1 + (i - zlen b1)) by lia. rewrite H2 by lia.
      f_equal. unfold zlen. lia.
Qed.
Lemma holds_at_slice f off bs : 0 <= off -> holds_at f off bs -> slice off (zlen bs) f = bs.
Proof.
  intros Ho H. apply list_eq. intros i. destruct (decide (Z.of_nat i < zlen bs)).
  - replace i with (Z.to_nat (Z.of_nat i)) at 1 by lia. rewrite lookup_slice by lia.
    rewrite H by lia. f_equal. lia.
  - unfold slice, zlen in *. rewrite lookup_take_ge by lia. symmetry. apply lookup_ge_None. lia.
Qed.
Lemma buf_write_holds f off bs : 0 <= off -> off + zlen bs <= zlen f -> holds_at (buf_write off bs f) off bs.
Proof.
  intros Ho Hl i Hi. pose proof (buf_write_same off bs f Ho Hl) as Hw.
  apply (f_equal (fun l => l !! Z.to_nat i)) in Hw. by rewrite lookup_slice in Hw by lia.
Qed.
Lemma holds_at_length f off bs : 0 <= off -> bs <> [] -> holds_at f off bs -> off + zlen bs <= zlen f.
Proof.
  intros Ho Hne H. assert (0 < zlen bs) by (destruct bs; [done|unfold zlen; simpl; lia]).
  specialize (H (zlen bs - 1) ltac:(lia)).
  destruct (lookup_lt_is_Some_2 bs (Z.to_nat (zlen bs - 1)) ltac:(unfold zlen in *; lia)) as [b Hb].
  rewrite Hb in H. apply lookup_lt_Some in H. unfold zlen in *. lia.
Qed.
Lemma holds_at_touches f f' off bs o n : 0 <= off -> touches o n f f' ->
  off + zlen bs <= o \/ o + n <= off -> holds_at f off bs -> holds_at f' off bs.
Proof.
  intros Ho Ht Hd H i Hi.
  destruct (lookup_lt_is_Some_2 bs (Z.to_nat i)) as [b Hb]; [unfold zlen in *; lia|].
  rewrite Hb. apply Ht; [lia|lia|]. by rewrite H by lia.
Qed.
Lemma touches_refl off n f : touches off n f f.
Proof. by intros k b _ _. Qed.
Lemma touches_trans off n f1 f2 f3 : touches off n f1 f2 -> touches off n f2 f3 -> touches off n f1 f3.
Proof. intros H1 H2 k b Hk Hd Hb. eauto. Qed.
Lemma touches_weaken o n off m f f' : touches o n f f' -> off <= o -> o + n <= off + m -> touches off m f f'.
Proof. intros H Ho Hn k b Hk Hd Hb. apply H; [done|lia|done]. Qed.
Lemma file_write_touches off bs f : 0 <= off -> touches off (zlen bs) f (file_write off bs f).
Proof.
  intros Ho k b Hk Hd Hb. unfold file_write. destruct bs as [|x bs]; [done|].
  etrans; [apply (buf_write_lookup_ne off (x :: bs)); [done|done|lia]|].
  rewrite lookup_app_l; [done|]. apply lookup_lt_Some in Hb. lia.
Qed.
Lemma file_write_holds off bs f : 0 <= off -> holds_at (file_write off bs f) off bs.
Proof.
  intros Ho i Hi. unfold file_write. destruct bs as [|x bs]; [unfold zlen in Hi; simpl in Hi; lia|].
  rewrite buf_write_inserts, list_lookup_inserts; unfold zeros, zlen in *;
    [f_equal; lia|rewrite ?length_app, ?length_replicate; lia..].
Qed.

Lemma roundup_spec v a : 0 < a -> 0 <= v -> v + a < 2 ^ 64 ->
  v <= roundup v a < v + a /\ (a | roundup v a).
Proof.
  intros Ha Hv Hb. unfold roundup.
  rewrite (u64_small (v + a)) by (unfold in_u64; lia).
  rewrite (u64_small (v + a - 1)) by (unfold in_u64; lia).
  pose proof (Z.mul_div_le (v + a - 1) a Ha). pose proof (Z.mul_succ_div_gt (v + a - 1) a Ha).
  rewrite u64_small by (unfold in_u64; nia). split; [nia|]. exists ((v + a - 1) / a). lia.
Qed.
Lemma roundup_of_multiple v a : 0 < a -> 0 <= v -> v + a < 2 ^ 64 -> (a | v) -> roundup v a = v.
Proof.
  intros Ha Hv Hb [q ->]. unfold roundup.
  rewrite (u64_small (q * a + a)) by (unfold in_u64; lia).
  rewrite (u64_small (q * a + a - 1)) by (unfold in_u64; lia).
  replace ((q * a + a - 1) / a) with q.
  - apply u64_small. unfold in_u64. lia.
  - apply Z.div_unique with (a - 1); lia.
Qed.
#[export] Hint Resolve zlen_nonneg : offload.
