(* ===== verification/Nvme.v ===== *)
(** * NVMe engines

    Models the cold tier on disk of [src/daemon/daemon.cpp]: [stripe_dir],
    [stripe_segments], the synchronous engine ([nvme_write_pwrite],
    [nvme_read_pwrite]), the io_uring engine ([nvme_write_uring],
    [nvme_read_uring]), the choice between them, and the byte copies of
    [do_drain_to_cold] and [do_readback_from_cold].

    [Nvme] holds the files and [nvme_stripe_offsets_].  What the kernel answers is
    a script ([Files.sysres]); the io_uring engine is given one event per wait:
    which of the operations in flight completes and its result, or a failure of
    [io_uring_submit] or [io_uring_wait_cqe].  A submitted operation takes its
    iovec when it is submitted and transfers its buffer when it completes.
    [None] is a run the script is too short for. *)
From stdpp Require Import base gmap strings list fin_maps list_numbers pretty.
From Stdlib Require Import ZArith Lia Strings.Byte.
From S2P Require Import Prelude.
From S2P Require Import Files.
From S2P Require Import State.
From S2P Require Import Alloc.
From S2P Require Import Drain.
Open Scope Z_scope.
Open Scope offload_scope.

Record Nvme := mkNvme { nv_fs : gmap string (list byte); nv_offsets : list Z }.
#[export] Instance eta_Nvme : Eta Nvme := fun s => mkNvme (nv_fs s) (nv_offsets s).

(** ** Striping *)
(** [nvme_stripe_count_] and the cursors as the constructor sets them. *)
Definition nvme_stripe_count (c : DaemonConfig) : Z :=
  if decide (0 < c_nvme_stripe_count c)
  then (if c_nvme_stripe c then c_nvme_stripe_count c else 1)
  else (if c_nvme_stripe c then 4 else 1).
Definition nvme_init (c : DaemonConfig) (fs : gmap string (list byte)) : Nvme :=
  mkNvme fs (replicate (Z.to_nat (nvme_stripe_count c)) 0).

Definition stripe_dir (c : DaemonConfig) (stripe : Z) : string :=
  match c_nvme_stripe_dirs c with
  | [] => c_nvme_path c
  | dirs => default EmptyString (dirs !! Z.to_nat (stripe mod zlen dirs))
  end.
(** [snprintf(path, 1024, "%s/off_stripe_%u.dat", ...)] *)
Definition stripe_path (c : DaemonConfig) (i : Z) : string :=
  String.substring 0 1023 (stripe_dir c i +:+ "/off_stripe_" +:+ pretty i +:+ ".dat").

Definition stripe_segments (stripes nbytes : Z) : list Z :=
  let per := nbytes / stripes in
  (foldl (fun '(segs, consumed) i =>
     let seg := if decide (i = stripes - 1) then u64 (nbytes - consumed) else per in
     (segs ++ [seg], u64 (consumed + seg)))
   ([], 0) (seqZ 0 stripes)).1.

Definition nvme_block (c : DaemonConfig) : Z :=
  if decide (c_nvme_block_bytes c = 0) then Z.shiftl 16 20 else c_nvme_block_bytes c.

(** [while (off < seg) { len = min(block, seg - off); ...; off += len; }]: the
    blocks [(off, len)] of a segment, in order. *)
Fixpoint blocks_from (fuel : nat) (block seg off : Z) : list (Z * Z) :=
  match fuel with
  | O => []
  | S n => if decide (off < seg) then
             let len := Z.min block (seg - off) in
             (off, len) :: blocks_from n block seg (off + len)
           else []
  end.
Definition segment_blocks (block seg : Z) : list (Z * Z) :=
  blocks_from (Z.to_nat ((seg + block - 1) / block)) block seg 0.

(** ** The synchronous engine *)
(** [open]: a missing file is created when [create]. *)
Definition open_file (create : bool) (path : string) (script : list sysres)
  (fs : gmap string (list byte)) : option (bool * gmap string (list byte) * list sysres) :=
  match script with
  | [] => None
  | SysOk _ :: s =>
      match fs !! path with
      | Some _ => Some (true, fs, s)
      | None => if create then Some (true, <[path := []]> fs, s) else Some (false, fs, s)
      end
  | _ :: s => Some (false, fs, s)
  end.
Definition file_of (fs : gmap string (list byte)) (path : string) : list byte := default [] (fs !! path).

(** [while (w < bpad) pwrite(fd, abuf + w, bpad - w, woff + w)] *)
Fixpoint pwrite_loop (script : list sysres) (buf : list byte) (woff w : Z) (f : list byte)
  : option (bool * list byte * list sysres) :=
  if decide (w < zlen buf) then
    match script with
    | [] => None
    | SysEintr :: s => pwrite_loop s buf woff w f
    | SysErr :: s => Some (false, f, s)
    | SysOk n :: s =>
        let n := Z.max 0 (Z.min n (zlen buf - w)) in
        pwrite_loop s buf woff (w + n) (file_write (woff + w) (slice w n buf) f)
    end
  else Some (true, f, script).
(** The bounce buffer holding [bs], zero-padded to a multiple of 4096. *)
Definition bounce (bs : list byte) : list byte := bs ++ zeros (roundup (zlen bs) 4096 - zlen bs).
(** The block loop of one segment; [seg] are the bytes of the segment. *)
Fixpoint write_blocks (script : list sysres) (blocks : list (Z * Z)) (seg : list byte) (base_off : Z)
  (f : list byte) : option (bool * list byte * list sysres) :=
  match blocks with
  | [] => Some (true, f, script)
  | (off, len) :: blocks =>
      '(ok, f, script) ← pwrite_loop script (bounce (slice off len seg)) (u64 (base_off + off)) 0 f;
      if ok : bool then write_blocks script blocks seg base_off f else Some (false, f, script)
  end.
Definition offset_at (st : Nvme) (i : Z) : Z := default 0 (nv_offsets st !! Z.to_nat i).
(** [nvme_stripe_offsets_[i].fetch_add(n)]: the old value, and the new state. *)
Definition fetch_add_offset (i n : Z) (st : Nvme) : Z * Nvme :=
  (offset_at st i, st <| nv_offsets ::= alter (fun o => u64 (o + n)) (Z.to_nat i) |>).

(** The loop over the segments [(i, segs[i])]. *)
Fixpoint pwrite_segments (c : DaemonConfig) (script : list sysres) (segs : list (Z * Z))
  (src : list byte) (consumed : Z) (chunks : list NvmeChunk) (st : Nvme)
  : option (bool * list NvmeChunk * Nvme * list sysres) :=
  match segs with
  | [] => Some (true, chunks, st, script)
  | (i, seg) :: segs =>
      if bool_decide (seg = 0) && bool_decide (i ≠ 0)
      then pwrite_segments c script segs src consumed chunks st
      else
        let path := stripe_path c i in
        '(opened, fs, script) ← open_file true path script (nv_fs st);
        let st := st <| nv_fs := fs |> in
        if negb opened then Some (false, chunks, st, script)
        else
          let '(base_off, st) := fetch_add_offset i (roundup seg 4096) st in
          '(ok, f, script) ← write_blocks script (segment_blocks (nvme_block c) seg)
                               (slice consumed seg src) base_off (file_of (nv_fs st) path);
          let st := st <| nv_fs ::= <[path := f]> |> in
          if ok : bool then
            pwrite_segments c script segs src (consumed + seg)
              (chunks ++ [mkChunk path base_off seg]) st
          else Some (false, chunks, st, script)
  end.
(** [posix_memalign] is the first call of the script. *)
Definition nvme_write_pwrite (c : DaemonConfig) (script : list sysres) (src : list byte)
  (st : Nvme) : option (bool * list NvmeChunk * Nvme * list sysres) :=
  match script with
  | [] => None
  | SysOk _ :: script =>
      pwrite_segments c script (imap (fun i s => (Z.of_nat i, s))
        (stripe_segments (nvme_stripe_count c) (zlen src))) src 0 [] st
  | _ :: script => Some (false, [], st, script)
  end.

(** [while (r < bpad) pread(fd, abuf + r, bpad - r, roff + r)]; a result of 0 is
    the end of the file. *)
Fixpoint pread_loop (script : list sysres) (f : list byte) (roff bpad r : Z) (abuf : list byte)
  : option (bool * list byte * list sysres) :=
  if decide (r < bpad) then
    match script with
    | [] => None
    | SysEintr :: s => pread_loop s f roff bpad r abuf
    | SysErr :: s => Some (false, abuf, s)
    | SysOk n :: s =>
        let avail := zlen f - (roff + r) in
        if decide (avail <= 0) then Some (true, abuf, s)
        else
          let n := Z.min (Z.max 1 n) (Z.min avail (bpad - r)) in
          pread_loop s f roff bpad (r + n) (buf_write r (slice (roff + r) n f) abuf)
    end
  else Some (true, abuf, script).
(** The block loop of one chunk: also after a failed [pread] the block is copied
    to the destination. *)
Fixpoint read_blocks (script : list sysres) (blocks : list (Z * Z)) (f : list byte)
  (offset consumed : Z) (abuf dst : list byte) : option (bool * list byte * list byte * list sysres) :=
  match blocks with
  | [] => Some (true, abuf, dst, script)
  | (off, len) :: blocks =>
      '(ok, abuf, script) ← pread_loop script f (u64 (offset + off)) (roundup len 4096) 0 abuf;
      let dst := buf_write (consumed + off) (slice 0 len abuf) dst in
      if ok : bool then read_blocks script blocks f offset consumed abuf dst
      else Some (false, abuf, dst, script)
  end.
(** The loop over the chunks: it continues after a chunk that failed to read, and
    leaves at the first that cannot be opened. *)
Fixpoint pread_chunks (block : Z) (script : list sysres) (chunks : list NvmeChunk)
  (fs : gmap string (list byte)) (ok : bool) (consumed : Z) (abuf dst : list byte)
  : option (bool * Z * list byte * list sysres) :=
  match chunks with
  | [] => Some (ok, consumed, dst, script)
  | ch :: chunks =>
      '(opened, _, script) ← open_file false (ch_path ch) script fs;
      if negb opened then Some (false, consumed, dst, script)
      else if ok then
        '(ok, abuf, dst, script) ← read_blocks script (segment_blocks block (ch_length ch))
          (file_of fs (ch_path ch)) (ch_offset ch) consumed abuf dst;
        pread_chunks block script chunks fs ok (if ok : bool then consumed + ch_length ch else consumed)
          abuf dst
      else pread_chunks block script chunks fs ok consumed abuf dst
  end.
(** [abuf0] is what the fresh bounce buffer happens to hold.  The result is
    [true] whenever the buffer could be allocated. *)
Definition nvme_read_pwrite (c : DaemonConfig) (script : list sysres) (abuf0 : list byte)
  (chunks : list NvmeChunk) (dst : list byte) (fs : gmap string (list byte))
  : option (bool * list byte * list sysres) :=
  match script with
  | [] => None
  | SysOk _ :: script =>
      '(_, _, dst, script) ← pread_chunks (nvme_block c) script chunks fs true 0 abuf0 dst;
      Some (true, dst, script)
  | _ :: script => Some (false, dst, script)
  end.

(** ** The io_uring engine *)
(** [BlockIO]: a block of a file and its place in memory. *)
Record BlockIO := mkBlockIO { bi_path : string; bi_file_off : Z; bi_mem_off : Z; bi_len : Z }.
(** A prepared submission: its user data, the iovec it points to, its block. *)
Record Sqe := mkSqe { sq_data : Z; sq_iov : nat; sq_io : BlockIO }.
(** A submitted operation, with the buffer and length its iovec held. *)
Record UringOp := mkUringOp { op_data : Z; op_buf : nat; op_iolen : Z; op_io : BlockIO }.
(** The locals of the submission loop, the files and the destination memory.
    [ur_free] is [free_bufs], its back first; [ur_iov] the array of 64 iovecs. *)
Record Uring := mkUring {
  ur_next : nat; ur_done : nat; ur_inflight : list UringOp; ur_free : list nat;
  ur_pool : list (list byte); ur_iov : list (nat * Z);
  ur_fs : gmap string (list byte); ur_dst : list byte }.
#[export] Instance eta_Uring : Eta Uring := fun u => mkUring (ur_next u) (ur_done u)
  (ur_inflight u) (ur_free u) (ur_pool u) (ur_iov u) (ur_fs u) (ur_dst u).

(** What happens at one wait: the [k]-th operation in flight completes with a
    result, or [io_uring_submit] or [io_uring_wait_cqe] fails. *)
Inductive uevent := UCqe (k : nat) (res : Z) | UFail.

(** [(next << 16) | bi] and its parts. *)
Definition pack_user_data (next bi : nat) : Z :=
  u64 (Z.lor (Z.shiftl (Z.of_nat next) 16) (Z.of_nat bi)).
Definition data_buf (ud : Z) : nat := Z.to_nat (u32 (Z.land ud 0xFFFF)).
Definition data_blk (ud : Z) : nat := Z.to_nat (u32 (Z.shiftr ud 16)).

Section Uring.
(** [prep] is what is put into the bounce buffer before a block is submitted. *)
Context (qd : nat) (prep : BlockIO -> list byte -> list byte) (ios : list BlockIO).

(** The filling loop, by recursion on the stack of free buffers. *)
Fixpoint fill_pipe (free : list nat) (u : Uring) (pending : list Sqe) : Uring * list Sqe :=
  match free with
  | [] => (u <| ur_free := [] |>, pending)
  | bi :: free' =>
      if decide (length (ur_inflight u) + length pending < qd)%nat then
        match ios !! ur_next u with
        | None => (u <| ur_free := free |>, pending)
        | Some b =>
            fill_pipe free'
              (u <| ur_pool ::= alter (prep b) bi |>
                 <| ur_iov ::= <[(bi mod 64)%nat := (bi, roundup (bi_len b) 4096)]> |>
                 <| ur_next := S (ur_next u) |>)
              (pending ++ [mkSqe (pack_user_data (ur_next u) bi) (bi mod 64) b])
        end
      else (u <| ur_free := free |>, pending)
  end.
(** [io_uring_submit] *)
Definition submit (u : Uring) (pending : list Sqe) : Uring :=
  u <| ur_inflight ::= (fun ops => ops ++
        ((fun s => let v := default (0%nat, 0) (ur_iov u !! sq_iov s) in
                   mkUringOp (sq_data s) v.1 v.2 (sq_io s)) <$> pending)) |>.

(** [done] is the transfer at completion, giving the result code. [accept] is
    what the code does with it. *)
Context (transfer : UringOp -> Z -> Uring -> Z * Uring)
        (accept : nat -> nat -> Z -> Uring -> bool * Uring).

Fixpoint uring_loop (script : list uevent) (u : Uring) : option (bool * Uring) :=
  if decide (ur_done u < length ios)%nat then
    match script with
    | [] => None
    | e :: script =>
        let '(u, pending) := fill_pipe (ur_free u) u [] in
        match e with
        | UFail => Some (false, u)
        | UCqe k res =>
            let u := submit u pending in
            let k := (k mod length (ur_inflight u))%nat in
            match ur_inflight u !! k with
            | None => None
            | Some op =>
                let '(res, u) := transfer op res (u <| ur_inflight ::= delete k |>) in
                let bi := data_buf (op_data op) in
                let blk := data_blk (op_data op) in
                let '(ok, u) := accept blk bi res u in
                let u := u <| ur_free ::= cons bi |> <| ur_done ::= S |> in
                if ok : bool then uring_loop script u else Some (false, u)
            end
        end
    end
  else Some (true, u).
End Uring.

Definition pool_buf (u : Uring) (bi : nat) : list byte := default [] (ur_pool u !! bi).
Definition block_at (ios : list BlockIO) (blk : nat) : BlockIO :=
  default (mkBlockIO EmptyString 0 0 0) (ios !! blk).

(** Write side: the kernel writes the first [res] bytes of the buffer. *)
Definition write_prep (src : list byte) (b : BlockIO) (buf : list byte) : list byte :=
  buf_write 0 (bounce (slice (bi_mem_off b) (bi_len b) src)) buf.
Definition write_transfer (op : UringOp) (res : Z) (u : Uring) : Z * Uring :=
  if decide (res < 0) then (res, u)
  else
    let n := Z.min res (op_iolen op) in
    let path := bi_path (op_io op) in
    (n, u <| ur_fs ::= <[path := file_write (bi_file_off (op_io op))
                                   (slice 0 n (pool_buf u (op_buf op))) (file_of (ur_fs u) path)]> |>).
Definition write_accept (ios : list BlockIO) (blk bi : nat) (res : Z) (u : Uring) : bool * Uring :=
  (bool_decide (res = roundup (bi_len (block_at ios blk)) 4096), u).

(** Read side: the kernel fills the buffer with at most what the file holds; the
    code copies the logical length to the destination. *)
Definition read_transfer (op : UringOp) (res : Z) (u : Uring) : Z * Uring :=
  if decide (res < 0) then (res, u)
  else
    let f := file_of (ur_fs u) (bi_path (op_io op)) in
    let n := Z.max 0 (Z.min res (Z.min (op_iolen op) (zlen f - bi_file_off (op_io op)))) in
    (n, u <| ur_pool ::= alter (buf_write 0 (slice (bi_file_off (op_io op)) n f)) (op_buf op) |>).
Definition read_accept (ios : list BlockIO) (blk bi : nat) (res : Z) (u : Uring) : bool * Uring :=
  let b := block_at ios blk in
  if decide (res < bi_len b) then (false, u)
  else (true, u <| ur_dst ::= buf_write (bi_mem_off b) (slice 0 (bi_len b) (pool_buf u bi)) |>).

(** [std::max(1, nvme_queue_depth)] *)
Definition queue_depth (c : DaemonConfig) : nat := Z.to_nat (Z.max 1 (c_nvme_queue_depth c)).
(** The calls before the loop succeed: [qd] buffers and [io_uring_queue_init]. *)
Fixpoint all_succeed (n : nat) (script : list sysres) : option (bool * list sysres) :=
  match n with
  | O => Some (true, script)
  | S n => match script with
           | [] => None
           | SysOk _ :: s => all_succeed n s
           | _ :: s => Some (false, s)
           end
  end.
(** The blocks of the parts [(path, offset, length)], consecutive in memory. *)
Fixpoint flatten_blocks (block consumed : Z) (parts : list NvmeChunk) : list BlockIO :=
  match parts with
  | [] => []
  | p :: parts =>
      ((fun ol => mkBlockIO (ch_path p) (u64 (ch_offset p + ol.1)) (consumed + ol.1) ol.2)
         <$> segment_blocks block (ch_length p))
      ++ flatten_blocks block (consumed + ch_length p) parts
  end.
Definition uring_start (c : DaemonConfig) (garbage : list byte) (fs : gmap string (list byte))
  (dst : list byte) : Uring :=
  mkUring 0 0 [] (reverse (seq 0 (queue_depth c))) (replicate (queue_depth c) garbage)
    (replicate 64 (0%nat, 0)) fs dst.

(** Opening the stripe files and reserving their regions. *)
Fixpoint open_stripes (c : DaemonConfig) (script : list sysres) (segs : list (Z * Z))
  (chunks : list NvmeChunk) (st : Nvme) : option (bool * list NvmeChunk * Nvme * list sysres) :=
  match segs with
  | [] => Some (true, chunks, st, script)
  | (i, seg) :: segs =>
      if bool_decide (seg = 0) && bool_decide (i ≠ 0) then open_stripes c script segs chunks st
      else
        let path := stripe_path c i in
        '(opened, fs, script) ← open_file true path script (nv_fs st);
        let st := st <| nv_fs := fs |> in
        if negb opened then Some (false, chunks, st, script)
        else
          let '(base_off, st) := fetch_add_offset i (roundup seg 4096) st in
          open_stripes c script segs (chunks ++ [mkChunk path base_off seg]) st
  end.
(** [garbage] is what the fresh bounce buffers happen to hold. *)
Definition nvme_write_uring (c : DaemonConfig) (script : list sysres) (events : list uevent)
  (garbage src : list byte) (st : Nvme) : option (bool * list NvmeChunk * Nvme) :=
  '(ok, chunks, st, script) ← open_stripes c script (imap (fun i s => (Z.of_nat i, s))
     (stripe_segments (nvme_stripe_count c) (zlen src))) [] st;
  if negb ok then Some (false, chunks, st)
  else
    '(ok, script) ← all_succeed (S (queue_depth c)) script;
    if negb ok then Some (false, chunks, st)
    else
      let ios := flatten_blocks (nvme_block c) 0 chunks in
      '(ok, u) ← uring_loop (queue_depth c) (write_prep src) ios write_transfer (write_accept ios)
                   events (uring_start c garbage (nv_fs st) []);
      Some (ok, chunks, st <| nv_fs := ur_fs u |>).

Fixpoint open_chunks (script : list sysres) (chunks : list NvmeChunk) (fs : gmap string (list byte))
  : option (bool * list sysres) :=
  match chunks with
  | [] => Some (true, script)
  | ch :: chunks =>
      '(opened, _, script) ← open_file false (ch_path ch) script fs;
      if negb opened then Some (false, script) else open_chunks script chunks fs
  end.
Definition nvme_read_uring (c : DaemonConfig) (script : list sysres) (events : list uevent)
  (garbage : list byte) (chunks : list NvmeChunk) (dst : list byte) (fs : gmap string (list byte))
  : option (bool * list byte) :=
  '(ok, script) ← open_chunks script chunks fs;
  if negb ok then Some (false, dst)
  else
    '(ok, script) ← all_succeed (S (queue_depth c)) script;
    if negb ok then Some (false, dst)
    else
      let ios := flatten_blocks (nvme_block c) 0 chunks in
      '(ok, u) ← uring_loop (queue_depth c) (fun _ buf => buf) ios read_transfer (read_accept ios)
                   events (uring_start c garbage fs dst);
      Some (ok, ur_dst u).

(** ** The choice of engine and the cold copies *)
(** What the kernel does during one call of an engine. *)
Record Kernel := mkKernel { k_script : list sysres; k_events : list uevent; k_garbage : list byte }.
Definition use_uring_engine (c : DaemonConfig) : bool := bool_decide (c_nvme_io_engine c = "io_uring"%string).
Definition nvme_write (c : DaemonConfig) (k : Kernel) (src : list byte) (st : Nvme)
  : option (bool * list NvmeChunk * Nvme) :=
  if use_uring_engine c then nvme_write_uring c (k_script k) (k_events k) (k_garbage k) src st
  else '(ok, chunks, st, _) ← nvme_write_pwrite c (k_script k) src st; Some (ok, chunks, st).
Definition nvme_read (c : DaemonConfig) (k : Kernel) (chunks : list NvmeChunk) (dst : list byte)
  (fs : gmap string (list byte)) : option (bool * list byte) :=
  if use_uring_engine c then nvme_read_uring c (k_script k) (k_events k) (k_garbage k) chunks dst fs
  else '(ok, dst, _) ← nvme_read_pwrite c (k_script k) (k_garbage k) chunks dst fs; Some (ok, dst).

(** The bytes of the cold tiers: the files and the heap buffers of the pageable
    tier by address. *)
Record ColdWorld := mkColdWorld { cw_nvme : Nvme; cw_heap : gmap Z (list byte) }.
#[export] Instance eta_ColdWorld : Eta ColdWorld := fun w => mkColdWorld (cw_nvme w) (cw_heap w).
(** The copies of [do_drain_to_cold]; [buf] is the result of [malloc]. *)
Definition drain_copy (c : DaemonConfig) (k : Kernel) (buf : option Z) (src : list byte) (w : ColdWorld)
  : option (bool * ColdEntry * ColdWorld) :=
  let entry := mkCold LOC_NONE (zlen src) None [] in
  if drain_wants_pageable c then
    match buf with
    | None => Some (false, entry, w)
    | Some buf => Some (true, entry <| co_kind := LOC_PAGEABLE |> <| co_pageable := Some buf |>,
                        w <| cw_heap ::= <[buf := src]> |>)
    end
  else
    '(ok, chunks, st) ← nvme_write c k src (cw_nvme w);
    Some (ok, if ok : bool then entry <| co_kind := LOC_NVME |> <| co_nvme_chunks := chunks |> else entry,
          w <| cw_nvme := st |>).
(** The copies of [do_readback_from_cold] into the run at [dst]. *)
Definition readback_copy (c : DaemonConfig) (k : Kernel) (cold : ColdEntry) (nbytes : Z) (dst : list byte)
  (w : ColdWorld) : option (bool * list byte) :=
  match co_kind cold with
  | LOC_PAGEABLE =>
      match co_pageable cold with
      | None => Some (false, dst)
      | Some buf => Some (true, buf_write 0 (slice 0 nbytes (default [] (cw_heap w !! buf))) dst)
      end
  | LOC_NVME => nvme_read c k (co_nvme_chunks cold) dst (nv_fs (cw_nvme w))
  | _ => Some (false, dst)
  end.
