(* ===== verification/NvmeUring.v ===== *)
(** * The submission loop of the io_uring engine

    [uring_loop] keeps up to [qd] blocks in flight and takes completions in any
    order.  The invariant [uinv] says that every operation in flight owns its
    bounce buffer, that its iovec describes exactly its block, and that the blocks
    taken from the queue are in flight or done.  It holds because no two buffers
    in flight share an iovec, that is for a queue depth of at most 64. *)
From stdpp Require Import base gmap strings list fin_maps list_numbers.
From Stdlib Require Import ZArith Lia Strings.Byte.
From S2P Require Import Prelude.
From S2P Require Import Files.
From S2P Require Import State.
From S2P Require Import Nvme.
Open Scope Z_scope.
Open Scope offload_scope.

Lemma pack_unpack blk bi : Z.of_nat blk < 2 ^ 32 -> Z.of_nat bi < 2 ^ 16 ->
  data_blk (pack_user_data blk bi) = blk /\ data_buf (pack_user_data blk bi) = bi.
Proof.
  intros Hblk Hbi. unfold data_blk, data_buf, pack_user_data.
  assert (E : Z.lor (Z.shiftl (Z.of_nat blk) 16) (Z.of_nat bi) = Z.of_nat blk * 2 ^ 16 + Z.of_nat bi).
  { assert (Hl : Z.land (Z.shiftl (Z.of_nat blk) 16) (Z.of_nat bi) = 0).
    { apply Z.bits_inj'. intros n Hn. rewrite Z.land_spec, Z.bits_0. destruct (decide (n < 16)).
      - by rewrite Z.shiftl_spec_low by lia.
      - rewrite (Z.bits_above_log2 (Z.of_nat bi)), andb_false_r; [done|lia|].
        destruct (decide (bi = 0%nat)) as [->|]; [simpl; lia|]. apply Z.log2_lt_pow2; [lia|].
        eapply Z.lt_le_trans; [exact Hbi|]. apply Z.pow_le_mono_r; lia. }
    rewrite <- Z.lxor_lor by done. rewrite <- Z.add_nocarry_lxor by done.
    by rewrite Z.shiftl_mul_pow2 by lia. }
  rewrite E, u64_small by (unfold in_u64; lia). split.
  - rewrite Z.shiftr_div_pow2 by lia. rewrite Z.div_add_l by lia. rewrite Z.div_small by lia.
    rewrite u32_small by (unfold in_u32; lia). lia.
  - change 0xFFFF with (Z.ones 16). rewrite Z.land_ones by lia.
    rewrite Z.add_comm, Z_mod_plus_full, Z.mod_small by lia. rewrite u32_small by (unfold in_u32; lia). lia.
Qed.

Definition op_blk (op : UringOp) : nat := data_blk (op_data op).
(** The operation a prepared submission becomes. *)
Definition resolve (u : Uring) (s : Sqe) : UringOp :=
  let v := default (0%nat, 0) (ur_iov u !! sq_iov s) in mkUringOp (sq_data s) v.1 v.2 (sq_io s).
Definition pipe (u : Uring) (pending : list Sqe) : list UringOp := ur_inflight u ++ (resolve u <$> pending).

Section Loop.
Context (qd : nat) (cap : Z) (ios : list BlockIO) (prep : BlockIO -> list byte -> list byte)
  (prepared : BlockIO -> list byte -> Prop)
  (fin : BlockIO -> gmap string (list byte) -> list byte -> Prop).
Context (Hqd : (1 <= qd <= 64)%nat) (Hios : Z.of_nat (length ios) < 2 ^ 32)
  (Hprep : forall b buf, b ∈ ios -> cap <= zlen buf ->
     prepared b (prep b buf) /\ zlen (prep b buf) = zlen buf).

Definition op_ok (u : Uring) (op : UringOp) : Prop :=
  (op_blk op < ur_next u)%nat /\ ios !! op_blk op = Some (op_io op)
  /\ op_iolen op = roundup (bi_len (op_io op)) 4096 /\ (op_buf op < qd)%nat
  /\ data_buf (op_data op) = op_buf op
  /\ exists buf, ur_pool u !! op_buf op = Some buf /\ prepared (op_io op) buf.
Record uinv (free : list nat) (u : Uring) (pending : list Sqe) : Prop := {
  ui_next : (ur_next u <= length ios)%nat;
  ui_count : (ur_done u + length (pipe u pending) = ur_next u)%nat;
  ui_bufs : (length (pipe u pending) + length free = qd)%nat;
  ui_nodup : NoDup ((op_buf <$> pipe u pending) ++ free);
  ui_free : Forall (fun bi => bi < qd)%nat free;
  ui_pool : length (ur_pool u) = qd /\ Forall (fun buf => cap <= zlen buf) (ur_pool u);
  ui_iov : length (ur_iov u) = 64%nat /\ Forall (fun s => sq_iov s = op_buf (resolve u s)) pending;
  ui_ops : Forall (op_ok u) (pipe u pending);
  ui_blks : NoDup (op_blk <$> pipe u pending);
  ui_fin : forall blk b, (blk < ur_next u)%nat -> ios !! blk = Some b ->
             blk ∉ (op_blk <$> pipe u pending) -> fin b (ur_fs u) (ur_dst u) }.

(** Preparing block [ur_next u] in the free buffer [bi]. *)
Definition take_block (bi : nat) (b : BlockIO) (u : Uring) : Uring :=
  u <| ur_pool ::= alter (prep b) bi |>
    <| ur_iov ::= <[(bi mod 64)%nat := (bi, roundup (bi_len b) 4096)]> |>
    <| ur_next := S (ur_next u) |>.
Definition block_sqe (bi : nat) (b : BlockIO) (u : Uring) : Sqe :=
  mkSqe (pack_user_data (ur_next u) bi) (bi mod 64) b.

Lemma resolve_take bi b u s : (bi < 64)%nat -> sq_iov s ≠ bi -> resolve (take_block bi b u) s = resolve u s.
Proof.
  intros Hbi Hne. unfold resolve, take_block. rewrite Nat.mod_small by done. cbn.
  by rewrite list_lookup_insert_ne by congruence.
Qed.
Lemma resolve_new bi b u : (bi < 64)%nat -> length (ur_iov u) = 64%nat ->
  resolve (take_block bi b u) (block_sqe bi b u)
  = mkUringOp (pack_user_data (ur_next u) bi) bi (roundup (bi_len b) 4096) b.
Proof.
  intros Hbi Hl. unfold resolve, take_block, block_sqe. rewrite Nat.mod_small by done. cbn.
  rewrite list_lookup_insert_eq by lia. done.
Qed.
Lemma pipe_take bi b free u pending : uinv (bi :: free) u pending ->
  pipe (take_block bi b u) (pending ++ [block_sqe bi b u])
  = pipe u pending ++ [mkUringOp (pack_user_data (ur_next u) bi) bi (roundup (bi_len b) 4096) b].
Proof.
  intros I. pose proof (ui_free _ _ _ I) as [Hbi _]%Forall_cons. destruct (ui_iov _ _ _ I) as [Hl Hs].
  unfold pipe. rewrite fmap_app. change (ur_inflight (take_block bi b u)) with (ur_inflight u).
  rewrite <- (assoc_L (++)). f_equal. change (resolve (take_block bi b u) <$> [block_sqe bi b u])
    with [resolve (take_block bi b u) (block_sqe bi b u)]. rewrite resolve_new by lia. f_equal.
  apply list_fmap_ext. intros i s Hi. apply resolve_take; [lia|]. intros Heq.
  assert (Hin : s ∈ pending) by (by eapply list_elem_of_lookup_2).
  rewrite Forall_forall in Hs. specialize (Hs s Hin).
  pose proof (ui_nodup _ _ _ I) as Hnd. apply NoDup_app in Hnd as (_ & Hnd & _).
  apply (Hnd bi); [|by left]. apply list_elem_of_fmap. exists (resolve u s). split; [congruence|].
  apply elem_of_app. right. by apply list_elem_of_fmap_2.
Qed.
(** Operations in flight keep their buffers. *)
Lemma op_ok_take bi b u op : op_buf op ≠ bi -> op_ok u op -> op_ok (take_block bi b u) op.
Proof.
  intros Hne (Hb & Hi & Hl & Hq & Hd & buf & Hp & Hpr). split_and!; try done; [cbn; lia|].
  exists buf. split; [|done]. unfold take_block. cbn. rewrite list_lookup_alter_ne by congruence. done.
Qed.
Lemma uinv_take bi free b u pending : uinv (bi :: free) u pending -> ios !! ur_next u = Some b ->
  uinv free (take_block bi b u) (pending ++ [block_sqe bi b u]).
Proof.
  intros I Hb. pose proof (pipe_take bi b _ _ _ I) as Hpipe.
  pose proof (ui_free _ _ _ I) as [Hbi Hfree]%Forall_cons.
  assert (Hnext : (ur_next u < length ios)%nat) by (by eapply lookup_lt_Some).
  destruct (pack_unpack (ur_next u) bi) as [Eblk Ebuf]; [lia..|].
  pose proof (ui_nodup _ _ _ I) as Hnd. destruct (ui_pool _ _ _ I) as [Hpl Hpc].
  destruct (ui_iov _ _ _ I) as [Hil His].
  destruct (lookup_lt_is_Some_2 (ur_pool u) bi ltac:(lia)) as [buf Hbuf].
  assert (Hcap : cap <= zlen buf) by (rewrite Forall_forall in Hpc; apply Hpc; by eapply list_elem_of_lookup_2).
  destruct (Hprep b buf) as [Hp Hz]; [by eapply list_elem_of_lookup_2|done|].
  assert (Hnew : (ur_next u) ∉ (op_blk <$> pipe u pending)).
  { intros (op & E & Hop)%list_elem_of_fmap. pose proof (ui_ops _ _ _ I) as Ho. rewrite Forall_forall in Ho.
    destruct (Ho op Hop) as [? _]. lia. }
  constructor; rewrite ?Hpipe.
  - cbn. lia.
  - pose proof (ui_count _ _ _ I). rewrite length_app. cbn. lia.
  - pose proof (ui_bufs _ _ _ I) as Hq. rewrite length_app. cbn in *. lia.
  - rewrite fmap_app, <- (assoc_L (++)). exact Hnd.
  - done.
  - unfold take_block. cbn. rewrite length_alter. split; [done|]. apply Forall_alter; [done|].
    intros y Hy _. assert (y = buf) as -> by congruence. lia.
  - split; [rewrite <- Hil; apply length_insert|]. apply Forall_app. split.
    + apply Forall_forall. intros s Hs. rewrite Forall_forall in His. specialize (His s Hs).
      rewrite resolve_take; [done|lia|]. intros Heq. apply NoDup_app in Hnd as (_ & Hnd & _).
      apply (Hnd bi); [|by left]. apply list_elem_of_fmap. exists (resolve u s). split; [congruence|].
      apply elem_of_app. right. by apply list_elem_of_fmap_2.
    + constructor; [|done]. rewrite resolve_new by lia. change ((bi mod 64)%nat = bi). apply Nat.mod_small. lia.
  - apply Forall_app. split.
    + pose proof (ui_ops _ _ _ I) as Ho. rewrite Forall_forall in Ho. apply Forall_forall. intros op Hop.
      apply op_ok_take; [|by apply Ho]. intros <-. apply NoDup_app in Hnd as (_ & Hnd & _).
      apply (Hnd (op_buf op)); [by apply list_elem_of_fmap_2|by left].
    + constructor; [|done]. unfold op_ok, op_blk. cbn. rewrite Eblk, Ebuf. split_and!; [lia|done|done|lia|done|].
      exists (prep b buf). split; [|done]. rewrite list_lookup_alter_eq, Hbuf. done.
  - rewrite fmap_app. apply NoDup_app. split_and!; [apply I| |apply NoDup_singleton].
    intros x Hx Heq%list_elem_of_singleton.
    assert (x = ur_next u) as -> by (etrans; [exact Heq|exact Eblk]). done.
  - intros blk b' Hlt Hb' Hnin. cbn in Hlt |- *. rewrite fmap_app, not_elem_of_app in Hnin. destruct Hnin as [Hn1 Hn2].
    eapply ui_fin; [exact I| |done|done]. destruct (decide (blk = ur_next u)) as [->|]; [|lia].
    exfalso. apply Hn2. unfold op_blk. cbn. rewrite Eblk. by left.
Qed.

(** The filling loop keeps the invariant, the files and the completed blocks. *)
Lemma fill_pipe_spec free : forall u pending u' pending',
  uinv free u pending -> fill_pipe qd prep ios free u pending = (u', pending') ->
  uinv (ur_free u') u' pending' /\ ur_fs u' = ur_fs u /\ ur_dst u' = ur_dst u
  /\ ur_done u' = ur_done u /\ (length (pipe u pending) <= length (pipe u' pending'))%nat
  /\ ((ur_next u < length ios)%nat -> free ≠ [] -> pipe u' pending' ≠ []).
Proof.
  induction free as [|bi free IH]; intros u pending u' pending' I; cbn [fill_pipe].
  - intros [= <- <-]. split_and!; try done. destruct I. by constructor.
  - case_decide as Hlt; [destruct (ios !! ur_next u) as [b|] eqn:Hb|].
    + intros E. pose proof (pipe_take _ b _ _ _ I) as Hp.
      apply IH in E as (I' & Hfs & Hdst & Hdone & Hlen & _); [|by apply uinv_take].
      change (update _ _ (update _ _ (update _ _ u))) with (take_block bi b u) in *.
      change (mkSqe _ _ b) with (block_sqe bi b u) in *. rewrite Hp, length_app in Hlen. cbn in Hlen.
      split_and!; [done..|lia|]. intros _ _ Hnil. rewrite Hnil in Hlen. cbn in Hlen. lia.
    + intros [= <- <-]. apply lookup_ge_None in Hb. split_and!; try done; [destruct I; by constructor|lia].
    + intros [= <- <-]. split_and!; try done; [destruct I; by constructor|]. intros _ _ Hnil.
      change (pipe u pending = []) in Hnil.
      assert (length (pipe u pending) = length (ur_inflight u) + length pending)%nat as Hl
        by (unfold pipe; by rewrite length_app, length_fmap).
      rewrite Hnil in Hl. cbn in Hl. lia.
Qed.
Lemma submit_spec free u pending : uinv free u pending ->
  uinv free (submit u pending) [] /\ ur_inflight (submit u pending) = pipe u pending.
Proof.
  intros I. assert (Hp : pipe (submit u pending) [] = pipe u pending) by (unfold pipe; by rewrite app_nil_r).
  split; [|done]. destruct I. constructor; rewrite ?Hp; try done. by split; [apply ui_iov0|].
Qed.

(** What a completion has to do: keep the control state and the other buffers,
    respect [R], and finish its block when it is accepted. *)
Context (R : gmap string (list byte) -> gmap string (list byte) -> Prop) (HR : PreOrder R)
  (transfer : UringOp -> Z -> Uring -> Z * Uring) (accept : nat -> nat -> Z -> Uring -> bool * Uring).
Definition same_control (u u' : Uring) : Prop :=
  ur_next u' = ur_next u /\ ur_done u' = ur_done u /\ ur_inflight u' = ur_inflight u
  /\ ur_free u' = ur_free u /\ ur_iov u' = ur_iov u /\ length (ur_pool u') = length (ur_pool u).
Context (Hstep : forall op blk buf res u n u1 ok u2,
  ios !! blk = Some (op_io op) -> op_iolen op = roundup (bi_len (op_io op)) 4096 ->
  ur_pool u !! op_buf op = Some buf -> prepared (op_io op) buf -> cap <= zlen buf ->
  transfer op res u = (n, u1) -> accept blk (op_buf op) n u1 = (ok, u2) ->
  same_control u u2 /\ (forall bi, bi ≠ op_buf op -> ur_pool u2 !! bi = ur_pool u !! bi)
  /\ (forall b, ur_pool u2 !! op_buf op = Some b -> cap <= zlen b) /\ R (ur_fs u) (ur_fs u2)
  /\ (ok = true -> fin (op_io op) (ur_fs u2) (ur_dst u2)
       /\ forall blk' b', blk' ≠ blk -> ios !! blk' = Some b' -> fin b' (ur_fs u) (ur_dst u) ->
            fin b' (ur_fs u2) (ur_dst u2))).

Lemma complete_spec k op res u n u1 ok u2 :
  uinv (ur_free u) u [] -> ur_inflight u !! k = Some op ->
  transfer op res (u <| ur_inflight ::= delete k |>) = (n, u1) -> accept (op_blk op) (op_buf op) n u1 = (ok, u2) ->
  R (ur_fs u) (ur_fs u2)
  /\ (ok = true -> let u3 := u2 <| ur_free ::= cons (op_buf op) |> <| ur_done ::= S |> in uinv (ur_free u3) u3 []).
Proof.
  intros I Hk E1 E2. assert (Hpipe : pipe u [] = ur_inflight u) by (unfold pipe; by rewrite app_nil_r).
  pose proof (ui_ops _ _ _ I) as Hops. rewrite Hpipe in Hops.
  destruct (Forall_lookup_1 _ _ _ _ Hops Hk) as (Hblt & Hio & Hlen & Hq & Hd & buf & Hbuf & Hpr).
  destruct (ui_pool _ _ _ I) as [Hpl Hpc].
  assert (Hcap : cap <= zlen buf) by (rewrite Forall_forall in Hpc; apply Hpc; by eapply list_elem_of_lookup_2).
  pose proof (fun A B C D F => Hstep op (op_blk op) buf res _ n u1 ok u2 A B C D F E1 E2) as Hs.
  destruct (Hs Hio Hlen Hbuf Hpr Hcap)
    as ((Sn & Sd & Si & Sf & Sv & Sp) & Hoth & Hown & HRR & Hok). cbn in *.
  split; [done|]. intros Ht. specialize (Hok Ht) as [Hfin Hkeep].
  assert (Hperm : ur_inflight u ≡ₚ op :: delete k (ur_inflight u)) by (by apply delete_Permutation).
  pose proof (ui_nodup _ _ _ I) as Hnd. rewrite Hpipe, Hperm in Hnd.
  pose proof (ui_blks _ _ _ I) as Hnb. rewrite Hpipe, Hperm in Hnb.
  set (u3 := update ur_done _ _).
  assert (Hpipe3 : pipe u3 [] = delete k (ur_inflight u)) by (unfold pipe; rewrite app_nil_r; exact Si).
  assert (Hl : length (ur_inflight u) = S (length (delete k (ur_inflight u)))) by (by rewrite Hperm at 1).
  pose proof (ui_count _ _ _ I) as Hcnt. pose proof (ui_bufs _ _ _ I) as Hbn. rewrite Hpipe in *.
  constructor; rewrite ?Hpipe3; unfold u3; cbn; rewrite ?Sn, ?Sd, ?Sf, ?Sv, ?Sp.
  - apply I.
  - lia.
  - lia.
  - cbn in Hnd. by rewrite <- Permutation_middle.
  - constructor; [done|apply I].
  - split; [done|]. apply Forall_lookup_2. intros bi b Hb. destruct (decide (bi = op_buf op)) as [->|Hne]; [by apply Hown|].
    rewrite Hoth in Hb by done. exact (Forall_lookup_1 _ _ _ _ Hpc Hb).
  - split; [apply I|constructor].
  - apply Forall_forall. intros op' Hin. rewrite Forall_forall in Hops.
    destruct (Hops op') as (H1 & H2 & H3 & H4 & H5 & buf' & H6 & H7); [rewrite Hperm; by right|].
    split_and!; try done; [cbn; by rewrite Sn|]. exists buf'. split; [|done]. cbn. rewrite Hoth; [done|].
    cbn in Hnd. apply NoDup_cons in Hnd as [Hnd _]. intros Heq. apply Hnd. rewrite <- Heq.
    apply elem_of_app. left. by apply list_elem_of_fmap_2.
  - cbn in Hnb. by apply NoDup_cons in Hnb as [_ ?].
  - intros blk b Hblt' Hb Hnin. destruct (decide (blk = op_blk op)) as [->|Hne]; [congruence|].
    eapply Hkeep; [done|done|]. eapply ui_fin; [exact I|done|done|]. rewrite Hpipe, Hperm. cbn.
    by rewrite not_elem_of_cons.
Qed.

(** Everything read from or written to is finished when the loop succeeds. *)
Lemma uring_loop_spec script : forall u ok u',
  uinv (ur_free u) u [] -> uring_loop qd prep ios transfer accept script u = Some (ok, u') ->
  R (ur_fs u) (ur_fs u') /\ (ok = true -> forall b, b ∈ ios -> fin b (ur_fs u') (ur_dst u')).
Proof.
  induction script as [|e script IH]; intros u ok u' I; cbn [uring_loop]; case_decide as Hd; [done|..].
  1, 3: intros [= <- <-]; split; [reflexivity|]; intros _ b [blk Hb]%list_elem_of_lookup;
    pose proof (ui_count _ _ _ I); pose proof (ui_next _ _ _ I);
    assert (Hnil : pipe u [] = []) by (apply nil_length_inv; lia);
    apply (ui_fin _ _ _ I blk b); [apply lookup_lt_Some in Hb; lia|done|rewrite Hnil; apply not_elem_of_nil].
  destruct (fill_pipe _ _ _ _ u []) as [u1 pend] eqn:Ef.
  apply fill_pipe_spec in Ef as (I1 & Hfs & Hdst & Hdone & _ & _); [|done].
  destruct (submit_spec _ _ _ I1) as [I2 Hin2].
  destruct e as [k res|]; [|intros [= <- <-]; split; [by rewrite Hfs|done]].
  set (u2 := submit u1 pend) in *. set (kk := (k mod _)%nat).
  destruct (ur_inflight u2 !! kk) as [op|] eqn:Hop; [|done].
  destruct (transfer op res _) as [n u3] eqn:Et.
  pose proof (ui_ops _ _ _ I2) as Hops. unfold pipe in Hops. rewrite app_nil_r in Hops.
  destruct (Forall_lookup_1 _ _ _ _ Hops Hop) as (_ & _ & _ & _ & Hbuf & _).
  rewrite Hbuf. change (data_blk (op_data op)) with (op_blk op).
  destruct (accept _ _ n u3) as [ok1 u4] eqn:Ea.
  destruct (complete_spec kk op res u2 n u3 ok1 u4) as [HR4 I4]; [exact I2|done|exact Et|exact Ea|].
  change (ur_fs u2) with (ur_fs u1) in HR4. rewrite Hfs in HR4.
  destruct ok1; [|intros [= <- <-]; by split].
  intros E. apply IH in E as [HR' Hf']; [|by apply I4]. split; [|done]. etrans; [exact HR4|exact HR'].
Qed.

(** If no wait fails and every operation transfers all it can, the loop succeeds
    after one event per block. *)
Definition full_event (e : uevent) : Prop := exists k res, e = UCqe k res /\ 2 ^ 64 <= res.
Context (fs0 : gmap string (list byte)) (Hfull : forall op blk buf res u n u1 ok u2,
  ios !! blk = Some (op_io op) -> op_iolen op = roundup (bi_len (op_io op)) 4096 ->
  ur_pool u !! op_buf op = Some buf -> prepared (op_io op) buf -> 2 ^ 64 <= res -> R fs0 (ur_fs u) ->
  transfer op res u = (n, u1) -> accept blk (op_buf op) n u1 = (ok, u2) -> ok = true).
Lemma uring_loop_completes script : forall u,
  uinv (ur_free u) u [] -> R fs0 (ur_fs u) -> Forall full_event script ->
  (length ios - ur_done u <= length script)%nat ->
  exists u', uring_loop qd prep ios transfer accept script u = Some (true, u').
Proof.
  induction script as [|e script IH]; intros u I HR0 Hs Hl; cbn [uring_loop]; case_decide as Hd;
    [cbn in Hl; lia|eauto| |eauto].
  apply Forall_cons in Hs as [(k & res & -> & Hres) Hs].
  destruct (fill_pipe _ _ _ _ u []) as [u1 pend] eqn:Ef.
  assert (Hnl : (length (ur_inflight u) = length (pipe u []))) by (unfold pipe; by rewrite app_nil_r).
  pose proof (ui_count _ _ _ I) as Hcnt. pose proof (ui_bufs _ _ _ I) as Hbufs. pose proof (ui_next _ _ _ I) as Hnext.
  apply fill_pipe_spec in Ef as (I1 & Hfs & Hdst & Hdone & Hgrow & Hne); [|done].
  destruct (submit_spec _ _ _ I1) as [I2 Hin2].
  set (u2 := submit u1 pend) in *. rewrite Hin2.
  assert (Hpos : (0 < length (pipe u1 pend))%nat).
  { destruct (pipe u []) as [|o l] eqn:Hp; [|cbn in Hgrow; lia]. cbn in *.
    destruct (pipe u1 pend) eqn:Hp1; [|cbn; lia]. exfalso. apply Hne; [lia| |done].
    intros Hf. rewrite Hf in Hbufs. cbn in Hbufs. lia. }
  set (kk := (k mod _)%nat).
  destruct (lookup_lt_is_Some_2 (pipe u1 pend) kk) as [op Hop]; [apply Nat.mod_upper_bound; lia|]. rewrite Hop.
  rewrite <- Hin2 in Hop.
  destruct (transfer op res _) as [n u3] eqn:Et.
  pose proof (ui_ops _ _ _ I2) as Hops. unfold pipe in Hops. rewrite app_nil_r in Hops.
  destruct (Forall_lookup_1 _ _ _ _ Hops Hop) as (_ & Hio & Hlen & _ & Hbuf & buf & Hpb & Hpr).
  rewrite Hbuf. change (data_blk (op_data op)) with (op_blk op).
  destruct (accept _ _ n u3) as [ok1 u4] eqn:Ea.
  destruct (complete_spec kk op res u2 n u3 ok1 u4) as [HR4 I4]; [exact I2|done|exact Et|exact Ea|].
  change (ur_fs u2) with (ur_fs u1) in HR4. rewrite Hfs in HR4.
  pose proof (fun A B C D F => Hfull op (op_blk op) buf res _ n u3 ok1 u4 A B C D Hres F Et Ea) as Hok.
  assert (ok1 = true) as -> by (apply (Hok Hio Hlen Hpb Hpr); cbn; by rewrite Hfs).
  specialize (I4 eq_refl). cbn zeta in I4. apply IH; [exact I4|etrans; [exact HR0|exact HR4]|done|].
  pose proof (ui_count _ _ _ I4) as Hc4. pose proof (ui_count _ _ _ I2) as Hc2.
  assert (ur_done u4 = ur_done u2); [|cbn in *; lia].
  destruct (ui_pool _ _ _ I2) as [_ Hpc].
  pose proof (fun A B C D F => Hstep op (op_blk op) buf res _ n u3 true u4 A B C D F Et Ea) as Hs4.
  by destruct (Hs4 Hio Hlen Hpb Hpr (Forall_lookup_1 _ _ _ _ Hpc Hpb)) as ((_ & ? & _) & _).
Qed.
End Loop.
