(* ===== verification/NvmeProps.v ===== *)
(** * Correctness of the NVMe engines

    Both engines store a tensor in freshly reserved regions of the stripe files
    and never touch what was stored before ([evolves]); an entry stays [stored]
    through any number of later writes and reading it gives back its bytes,
    whichever engine reads it. *)
From stdpp Require Import base gmap strings list fin_maps list_numbers pretty.
From Stdlib Require Import ZArith Lia Strings.Byte.
From S2P Require Import Prelude.
From S2P Require Import Files.
From S2P Require Import State.
From S2P Require Import Alloc.
From S2P Require Import Yaml.
From S2P Require Import Drain.
From S2P Require Import Identity.
From S2P Require Import Nvme.
Open Scope Z_scope.
Open Scope offload_scope.

(** ** Segments and blocks *)
Lemma stripe_segments_eq stripes nbytes : 1 <= stripes -> 0 <= nbytes < 2 ^ 64 ->
  stripe_segments stripes nbytes =
    replicate (Z.to_nat (stripes - 1)) (nbytes / stripes)
    ++ [nbytes - (stripes - 1) * (nbytes / stripes)].
Proof.
  intros Hs Hn. set (per := nbytes / stripes).
  assert (Hper : 0 <= per /\ stripes * per <= nbytes).
  { split; [apply Z.div_pos; lia|]. apply Z.mul_div_le. lia. }
  assert (Hk : forall k : nat, Z.of_nat k <= stripes - 1 ->
    foldl (fun '(segs, consumed) i =>
      let seg := if decide (i = stripes - 1) then u64 (nbytes - consumed) else per in
      (segs ++ [seg], u64 (consumed + seg))) ([], 0) (seqZ 0 (Z.of_nat k))
    = (replicate k per, Z.of_nat k * per)).
  { induction k as [|k IH]; intros Hk; [done|].
    replace (Z.of_nat (S k)) with (Z.of_nat k + 1) by lia. rewrite seqZ_app by lia.
    rewrite foldl_app, IH by lia. simpl. rewrite decide_False by lia.
    f_equal; [by rewrite <- replicate_S_end|]. rewrite u64_small; [lia|unfold in_u64; nia]. }
  unfold stripe_segments. fold per.
  replace stripes with ((stripes - 1) + 1) at 1 by lia. rewrite seqZ_app by lia.
  rewrite foldl_app. replace (stripes - 1) with (Z.of_nat (Z.to_nat (stripes - 1))) at 1 by lia.
  rewrite Hk by lia. simpl. rewrite decide_True by lia. f_equal. f_equal.
  rewrite Z2Nat.id by lia. apply u64_small. unfold in_u64. nia.
Qed.

Definition total (l : list Z) : Z := foldr Z.add 0 l.
Lemma total_app l1 l2 : total (l1 ++ l2) = total l1 + total l2.
Proof. unfold total. induction l1; simpl; lia. Qed.
Lemma total_replicate n x : total (replicate n x) = Z.of_nat n * x.
Proof. unfold total. induction n as [|n IH]; [done|]. rewrite Nat2Z.inj_succ, Z.mul_succ_l, <- IH. simpl. lia. Qed.
(** The segments are non-negative and add up to the tensor. *)
Lemma stripe_segments_total stripes nbytes : 1 <= stripes -> 0 <= nbytes < 2 ^ 64 ->
  total (stripe_segments stripes nbytes) = nbytes
  /\ Forall (fun s => 0 <= s) (stripe_segments stripes nbytes)
  /\ length (stripe_segments stripes nbytes) = Z.to_nat stripes.
Proof.
  intros Hs Hn. rewrite stripe_segments_eq by done.
  assert (0 <= nbytes / stripes) by (apply Z.div_pos; lia).
  assert (stripes * (nbytes / stripes) <= nbytes) by (apply Z.mul_div_le; lia).
  split_and!.
  - rewrite total_app, total_replicate, Z2Nat.id by lia. unfold total. simpl. lia.
  - apply Forall_app; split; [by apply Forall_replicate|]. constructor; [nia|done].
  - rewrite length_app, length_replicate. simpl. lia.
Qed.

(** The padding of a block stays within the padding of its segment. *)
Lemma block_padding off len seg : (4096 | off) -> 0 <= off -> 0 <= len -> off + len <= seg -> seg < 2 ^ 63 ->
  off + roundup len 4096 <= roundup seg 4096 /\ len <= roundup len 4096.
Proof.
  intros [q ->] ? ? ? ?.
  destruct (roundup_spec len 4096) as [? [a Ha]]; [lia..|].
  destruct (roundup_spec seg 4096) as [? [b Hb]]; [lia..|]. lia.
Qed.
Lemma zlen_bounce bs : zlen bs < 2 ^ 63 -> zlen (bounce bs) = roundup (zlen bs) 4096.
Proof.
  intros H. unfold bounce. rewrite zlen_app.
  pose proof (roundup_spec (zlen bs) 4096 ltac:(lia) (zlen_nonneg bs) ltac:(lia)).
  rewrite zlen_zeros; lia.
Qed.

(** ** The synchronous writer *)
Lemma pwrite_loop_spec script buf woff w f ok f' s : 0 <= woff -> 0 <= w <= zlen buf ->
  pwrite_loop script buf woff w f = Some (ok, f', s) ->
  touches (woff + w) (zlen buf - w) f f'
  /\ (ok = true -> holds_at f' (woff + w) (slice w (zlen buf - w) buf)).
Proof.
  intros Ho. revert w f. induction script as [|r script IH]; intros w f Hw; simpl; case_decide as Hlt;
    try (intros [= <- <- <-]; split; [apply touches_refl|]; intros _;
         replace (zlen buf - w) with 0 by lia; apply holds_at_nil); [done|].
  destruct r as [n| |]; [|by apply IH|intros [= <- <- <-]; split; [apply touches_refl|done]].
  set (m := Z.max 0 (Z.min n (zlen buf - w))). intros Hl.
  assert (Hm : 0 <= m <= zlen buf - w) by lia.
  apply IH in Hl as [Ht Hh]; [|lia].
  assert (Hlen : zlen (slice w m buf) = m) by (apply zlen_slice; lia).
  assert (Hw0 := file_write_touches (woff + w) (slice w m buf) f ltac:(lia)). rewrite Hlen in Hw0.
  split.
  - eapply touches_trans; eapply touches_weaken; [exact Hw0| | |exact Ht| |]; lia.
  - intros Hok. specialize (Hh Hok).
    replace (zlen buf - w) with (m + (zlen buf - (w + m))) by lia.
    rewrite slice_split by lia. apply holds_at_app; [lia|]. rewrite Hlen. split; [|by rewrite <- Z.add_assoc].
    eapply holds_at_touches; [lia|exact Ht|rewrite Hlen; lia|apply file_write_holds; lia].
Qed.

Lemma slice_bounce bs : slice 0 (zlen bs) (bounce bs) = bs.
Proof.
  unfold bounce. rewrite slice_app_l by (pose proof (zlen_nonneg bs); lia). apply slice_all.
Qed.
Lemma holds_bounce f off bs : 0 <= off -> holds_at f off (bounce bs) -> holds_at f off bs.
Proof. intros Ho H. unfold bounce in H. by apply holds_at_app in H as [? _]. Qed.

(** One block of a segment. *)
Lemma write_block_spec script seg base off len f ok f' s :
  0 <= base -> 0 <= off -> 0 <= len -> off + len <= zlen seg -> base + off + len + 4096 < 2 ^ 63 ->
  pwrite_loop script (bounce (slice off len seg)) (u64 (base + off)) 0 f = Some (ok, f', s) ->
  touches (base + off) (roundup len 4096) f f' /\ (ok = true -> holds_at f' (base + off) (slice off len seg)).
Proof.
  intros Hb Ho Hl Hs Hr E. assert (Hz : zlen (slice off len seg) = len) by (apply zlen_slice; lia).
  rewrite u64_small in E by (unfold in_u64; lia).
  apply pwrite_loop_spec in E as [Ht Hh]; [|lia|pose proof (zlen_nonneg (bounce (slice off len seg))); lia].
  rewrite Z.add_0_r, Z.sub_0_r, ?slice_all in *. rewrite zlen_bounce, Hz in Ht by lia. split; [done|].
  intros Hok. apply holds_bounce; [lia|]. by apply Hh.
Qed.

Lemma write_blocks_spec fuel block script seg base off f ok f' s :
  0 < block -> (4096 | block) -> (4096 | off) -> 0 <= base -> 0 <= off <= zlen seg ->
  base + zlen seg + 4096 < 2 ^ 63 -> zlen seg - off <= Z.of_nat fuel * block ->
  write_blocks script (blocks_from fuel block (zlen seg) off) seg base f = Some (ok, f', s) ->
  touches (base + off) (roundup (zlen seg) 4096 - off) f f'
  /\ (ok = true -> holds_at f' (base + off) (slice off (zlen seg - off) seg)).
Proof.
  intros Hblk Hdiv. revert script off f. induction fuel as [|fuel IH]; intros script off f Hoff Hb Ho Hr Hf;
    cbn [blocks_from]; try case_decide as Hlt; cbn [write_blocks];
    try (intros [= <- <- <-]; split; [apply touches_refl|]; intros _;
         replace (zlen seg - off) with 0 by lia; apply holds_at_nil).
  set (len := Z.min block (zlen seg - off)). intros E.
  destruct (pwrite_loop script _ _ 0 f) as [[[ok1 f1] s1]|] eqn:E1; [|done]. cbn in E.
  apply write_block_spec in E1 as [Ht1 Hh1]; [|lia..].
  destruct (block_padding off len (zlen seg)) as [Hp1 Hp2]; [done|lia..|].
  destruct ok1.
  - assert (Hcase : off + len = zlen seg \/ len = block) by lia.
    destruct Hcase as [Hend|Hfull].
    + assert (blocks_from fuel block (zlen seg) (off + len) = []) as Hnil
        by (destruct fuel; [done|]; cbn [blocks_from]; by rewrite decide_False by lia).
      rewrite Hnil in E. injection E as <- <- <-. split; [eapply touches_weaken; [done|lia..]|].
      intros _. replace (zlen seg - off) with len by lia. by apply Hh1.
    + apply IH in E as [Ht2 Hh2]; [|rewrite Hfull; by apply Z.divide_add_r|lia|lia|lia|lia].
      rewrite Z.add_assoc in *. split.
      * eapply touches_trans; eapply touches_weaken; [exact Ht1| | |exact Ht2| |]; lia.
      * intros Hok. replace (zlen seg - off) with (len + (zlen seg - (off + len))) by lia.
        rewrite slice_split by lia. assert (Hz : zlen (slice off len seg) = len) by (apply zlen_slice; lia).
        apply holds_at_app; [lia|]. rewrite Hz. split; [|by apply Hh2].
        eapply holds_at_touches; [lia|exact Ht2|rewrite Hz; lia|by apply Hh1].
  - injection E as <- <- <-. split; [eapply touches_weaken; [done|lia..]|done].
Qed.

(** ** Stripe files *)
Lemma chars_inj s t : chars s = chars t -> s = t.
Proof.
  intros E%(f_equal String.string_of_list_ascii). unfold chars in E.
  by rewrite !String.string_of_list_ascii_of_string in E.
Qed.
Lemma numeral_chars s : numeral s = true -> Forall (fun a => num_char a = true) (chars s).
Proof. induction s as [|a s IH]; simpl; [constructor|]. rewrite andb_true_iff. intros [? ?]. constructor; auto. Qed.
(** The part of a list up to the first element outside [P] is determined. *)
Lemma split_at_first {A} (P : A -> bool) (l1 l2 r1 r2 : list A) x y :
  Forall (fun a => P a = true) l1 -> Forall (fun a => P a = true) l2 -> P x = false -> P y = false ->
  l1 ++ x :: r1 = l2 ++ y :: r2 -> l1 = l2.
Proof.
  intros H1. revert l2. induction H1 as [|a l1 Ha H1 IH]; intros l2 H2 Hx Hy E; destruct H2 as [|b l2 Hb H2];
    simplify_eq/=; [done|congruence|congruence|]. f_equal. by apply IH.
Qed.

Definition full_path (c : DaemonConfig) (i : Z) : string :=
  stripe_dir c i +:+ "/off_stripe_" +:+ pretty i +:+ ".dat".
Lemma full_path_inj c i j : full_path c i = full_path c j -> i = j.
Proof.
  unfold full_path. intros E%(f_equal (fun s => rev (chars s))).
  rewrite !chars_app, !rev_app_distr in E. rewrite <- !(assoc_L (++)) in E. apply app_inj_1 in E as [_ E]; [|done].
  assert (Hn : forall k, Forall (fun a => num_char a = true) (rev (chars (pretty (k : Z))))).
  { intros k. apply Forall_rev, numeral_chars, pretty_numeral. }
  simpl in E. apply (split_at_first num_char) in E; [|done..].
  apply (f_equal (@rev _)) in E. rewrite !rev_involutive in E. by apply chars_inj, (inj pretty) in E.
Qed.
Lemma substring_whole s n : (String.length s <= n)%nat -> String.substring 0 n s = s.
Proof. revert n. induction s as [|a s IH]; intros [|n]; simpl; intros; [done..|lia|]. f_equal. apply IH. lia. Qed.

(** What the engines need of the configuration: at least one stripe, paths that
    fit the buffer, blocks of whole sectors, and no more blocks in flight than
    iovecs. *)
Record nvme_config_ok (c : DaemonConfig) : Prop := {
  nc_stripes : 1 <= nvme_stripe_count c < 2 ^ 32;
  nc_paths : forall i, (String.length (full_path c i) <= 1023)%nat \/ ~ (0 <= i < nvme_stripe_count c);
  nc_block : 0 < nvme_block c < 2 ^ 63;
  nc_sector : (4096 | nvme_block c);
  nc_depth : (queue_depth c <= 64)%nat }.

Section Engine.
Context (c : DaemonConfig) (Hc : nvme_config_ok c).
#[local] Abbreviation stripes := (nvme_stripe_count c).

Lemma stripe_path_inj i j : 0 <= i < stripes -> 0 <= j < stripes ->
  stripe_path c i = stripe_path c j -> i = j.
Proof.
  intros Hi Hj. change (stripe_path c ?k) with (String.substring 0 1023 (full_path c k)).
  destruct (nc_paths c Hc i) as [Li|]; [|lia]. destruct (nc_paths c Hc j) as [Lj|]; [|lia].
  change (stripe_path c j) with (String.substring 0 1023 (full_path c j)).
  rewrite !substring_whole by done. apply full_path_inj.
Qed.

(** The cursors are whole sectors with room for [n] more bytes. *)
Definition nvme_wf (st : Nvme) (n : Z) : Prop :=
  length (nv_offsets st) = Z.to_nat stripes
  /\ forall i, 0 <= i < stripes -> 0 <= offset_at st i /\ (4096 | offset_at st i)
                                   /\ offset_at st i + n < 2 ^ 63.
(** What a later state keeps of an earlier one: files, cursors that only grow,
    and every byte below the cursor of its stripe. *)
Definition evolves (st st' : Nvme) : Prop :=
  (forall i, 0 <= i < stripes -> offset_at st i <= offset_at st' i)
  /\ forall path f, nv_fs st !! path = Some f -> exists f', nv_fs st' !! path = Some f'
     /\ forall k b, 0 <= k -> f !! Z.to_nat k = Some b ->
          (forall i, 0 <= i < stripes -> path = stripe_path c i -> k < offset_at st i) ->
          f' !! Z.to_nat k = Some b.
Lemma evolves_refl st : evolves st st.
Proof. split; [done|]. intros path f Hf. exists f. auto. Qed.
Lemma evolves_trans st1 st2 st3 : evolves st1 st2 -> evolves st2 st3 -> evolves st1 st3.
Proof.
  intros [O1 F1] [O2 F2]. split.
  - intros i Hi. specialize (O1 i Hi). specialize (O2 i Hi). lia.
  - intros path f Hf. destruct (F1 _ _ Hf) as (f2 & Hf2 & H1). destruct (F2 _ _ Hf2) as (f3 & Hf3 & H2).
    exists f3. split; [done|]. intros k b Hk Hb Hlt. apply H2; [done|by apply H1|].
    intros i Hi Hp. specialize (Hlt i Hi Hp). specialize (O1 i Hi). lia.
Qed.

(** The chunks hold the bytes, one after the other. *)
Fixpoint chunks_hold (fs : gmap string (list byte)) (chunks : list NvmeChunk) (bs : list byte) : Prop :=
  match chunks with
  | [] => bs = []
  | ch :: chunks =>
      exists b1 b2 f, bs = b1 ++ b2 /\ zlen b1 = ch_length ch /\ fs !! ch_path ch = Some f
        /\ holds_at f (ch_offset ch) b1 /\ chunks_hold fs chunks b2
  end.
Definition reserved (st : Nvme) (ch : NvmeChunk) : Prop :=
  exists i, 0 <= i < stripes /\ ch_path ch = stripe_path c i /\ 0 <= ch_offset ch /\ 0 <= ch_length ch
            /\ ch_offset ch + roundup (ch_length ch) 4096 <= offset_at st i /\ (4096 | ch_offset ch)
            /\ ch_offset ch + ch_length ch + 4096 < 2 ^ 63.
Definition stored (st : Nvme) (chunks : list NvmeChunk) (bs : list byte) : Prop :=
  chunks_hold (nv_fs st) chunks bs /\ Forall (reserved st) chunks.

Lemma reserved_evolves st st' ch : evolves st st' -> reserved st ch -> reserved st' ch.
Proof.
  intros [O _] (i & Hi & Hp & ? & ? & Hr & ? & ?). exists i. specialize (O i Hi). split_and!; try done; lia.
Qed.
Lemma reserved_holds st st' ch f bs : evolves st st' -> reserved st ch ->
  nv_fs st !! ch_path ch = Some f -> zlen bs = ch_length ch -> holds_at f (ch_offset ch) bs ->
  exists f', nv_fs st' !! ch_path ch = Some f' /\ holds_at f' (ch_offset ch) bs.
Proof.
  intros [_ F] (i & Hi & Hp & Ho & Hl & Hr & _ & Hb) Hf Hz Hh. destruct (F _ _ Hf) as (f' & Hf' & H').
  exists f'. split; [done|]. intros k Hk.
  destruct (lookup_lt_is_Some_2 bs (Z.to_nat k)) as [b Hbk]; [unfold zlen in *; lia|].
  rewrite Hbk. apply H'; [lia|by rewrite Hh|]. intros j Hj Hpj.
  assert (j = i) as -> by (apply stripe_path_inj; [done..|congruence]).
  pose proof (roundup_spec (ch_length ch) 4096 ltac:(lia) Hl ltac:(lia)). lia.
Qed.
(** What is stored stays stored. *)
Lemma stored_evolves st st' chunks bs : evolves st st' -> stored st chunks bs -> stored st' chunks bs.
Proof.
  intros He [Hh Hr]. split.
  - revert bs Hh. induction Hr as [|ch chunks Hch Hr IH]; intros bs; [done|].
    intros (b1 & b2 & f & -> & Hz & Hf & Hb1 & H2).
    destruct (reserved_holds _ _ _ _ _ He Hch Hf Hz Hb1) as (f' & Hf' & Hh').
    exists b1, b2, f'. split_and!; auto.
  - eapply Forall_impl; [exact Hr|]. intros ch. by apply reserved_evolves.
Qed.
Lemma stored_snoc st chunks ch bs b f :
  stored st chunks bs -> reserved st ch -> zlen b = ch_length ch ->
  nv_fs st !! ch_path ch = Some f -> holds_at f (ch_offset ch) b -> stored st (chunks ++ [ch]) (bs ++ b).
Proof.
  intros [Hh Hr] Hch Hz Hf Hb. split; [|by apply Forall_app; auto].
  clear Hr. revert bs Hh. induction chunks as [|ch0 chunks IH]; intros bs.
  - intros ->. exists b, [], f. rewrite app_nil_r. simpl. done.
  - intros (b1 & b2 & f0 & -> & Hz1 & Hf0 & Hb1 & H2). exists b1, (b2 ++ b), f0.
    rewrite (assoc_L (++)). split_and!; auto.
Qed.

(** Opening a stripe file and reserving a region of it. *)
Lemma open_file_evolves create path script fs opened fs' s o :
  open_file create path script fs = Some (opened, fs', s) ->
  evolves (mkNvme fs o) (mkNvme fs' o) /\ (opened = true -> is_Some (fs' !! path)).
Proof.
  unfold open_file. destruct script as [|[n| |] script]; intros E; [done|..];
    [|simplify_eq; split; [apply evolves_refl|done]..].
  destruct (fs !! path) as [f|] eqn:Hf; [simplify_eq; split; [apply evolves_refl|eauto]|].
  destruct create; simplify_eq; [|split; [apply evolves_refl|done]].
  split; [|intros _; rewrite lookup_insert_eq; eauto]. split; [done|]. intros p f Hp. exists f.
  cbn in *. rewrite lookup_insert_ne by congruence. auto.
Qed.
Lemma offset_fetch_add st i n j : (Z.to_nat i < length (nv_offsets st))%nat -> 0 <= i -> 0 <= j ->
  offset_at (fetch_add_offset i n st).2 j
  = if decide (i = j) then u64 (offset_at st i + n) else offset_at st j.
Proof.
  intros Hi Hi0 Hj0. unfold offset_at, fetch_add_offset. cbn. case_decide as E.
  - subst j. rewrite list_lookup_alter_eq. destruct (lookup_lt_is_Some_2 _ _ Hi) as [o ->]. done.
  - rewrite list_lookup_alter_ne by lia. done.
Qed.
Lemma reserve_offset_spec st i seg n : 0 <= i < stripes -> 0 <= seg -> seg + 4096 <= n -> nvme_wf st n ->
  let st' := (fetch_add_offset i (roundup seg 4096) st).2 in
  nvme_wf st' (n - (seg + 4096)) /\ evolves st st'
  /\ offset_at st' i = offset_at st i + roundup seg 4096
  /\ reserved st' (mkChunk (stripe_path c i) (offset_at st i) seg).
Proof.
  intros Hi Hs Hn [HL Hw]. assert (HiL : (Z.to_nat i < length (nv_offsets st))%nat) by lia.
  destruct (Hw i Hi) as (H0 & Hd & Hb).
  destruct (roundup_spec seg 4096) as [Hr Hrd]; [lia..|].
  pose proof (fun j => offset_fetch_add st i (roundup seg 4096) j HiL ltac:(lia)) as Hj.
  assert (Hii : offset_at (fetch_add_offset i (roundup seg 4096) st).2 i = offset_at st i + roundup seg 4096).
  { rewrite Hj by lia. rewrite decide_True by done. apply u64_small. unfold in_u64. lia. }
  split_and!.
  - split; [rewrite <- HL; apply length_alter|].
    intros j Hjs. destruct (decide (i = j)) as [<-|Hne]; [rewrite Hii; split_and!; [lia|by apply Z.divide_add_r|lia]|].
    rewrite Hj by lia. rewrite decide_False by done. destruct (Hw j Hjs) as (? & ? & ?). split_and!; [lia|done|lia].
  - split; [|intros path f Hf; exists f; cbn; auto].
    intros j Hjs. destruct (decide (i = j)) as [<-|Hne]; [rewrite Hii; lia|].
    rewrite Hj by lia. by rewrite decide_False by done.
  - done.
  - exists i. cbn [ch_path ch_offset ch_length]. rewrite Hii. split_and!; try done; lia.
Qed.
(** Writing the reserved region keeps everything below the old cursor. *)
Lemma write_region_evolves st i f f' n : 0 <= i < stripes ->
  nv_fs st !! stripe_path c i = Some f -> touches (offset_at st i) n f f' ->
  forall st', nv_fs st' = <[stripe_path c i := f']> (nv_fs st) ->
    (forall j, 0 <= j < stripes -> offset_at st j <= offset_at st' j) -> evolves st st'.
Proof.
  intros Hi Hf Ht st' Hfs Ho. split; [done|]. intros path g Hg. rewrite Hfs.
  destruct (decide (path = stripe_path c i)) as [->|Hne].
  - exists f'. rewrite lookup_insert_eq. split; [done|]. intros k b Hk Hb Hlt. simplify_eq.
    apply Ht; [done|left; by apply Hlt|done].
  - exists g. rewrite lookup_insert_ne by done. auto.
Qed.

Lemma nvme_wf_mono st n m : m <= n -> nvme_wf st n -> nvme_wf st m.
Proof. intros ? [? Hw]. split; [done|]. intros i Hi. destruct (Hw i Hi) as (? & ? & ?). split_and!; [done..|lia]. Qed.
Lemma open_file_wf create path script fs opened fs' s o n :
  open_file create path script fs = Some (opened, fs', s) -> nvme_wf (mkNvme fs o) n -> nvme_wf (mkNvme fs' o) n.
Proof. by intros _ H. Qed.
(** The room a list of segments needs in every stripe. *)
Definition need (segs : list (Z * Z)) : Z := foldr (fun p a => p.2 + 4096 + a) 0 segs.
Definition segs_ok (segs : list (Z * Z)) : Prop := Forall (fun p => 0 <= p.1 < stripes /\ 0 <= p.2) segs.
Lemma need_nonneg segs : segs_ok segs -> 0 <= need segs.
Proof. unfold segs_ok, need. induction 1 as [|p segs [? ?] ? IH]; simpl; lia. Qed.

(** One segment of the synchronous writer. *)
Lemma write_segment_spec st i bytes n script ok f' s f :
  0 <= i < stripes -> zlen bytes + 4096 <= n -> nvme_wf st n ->
  nv_fs st !! stripe_path c i = Some f ->
  let '(base, st1) := fetch_add_offset i (roundup (zlen bytes) 4096) st in
  write_blocks script (segment_blocks (nvme_block c) (zlen bytes)) bytes base (file_of (nv_fs st1) (stripe_path c i))
    = Some (ok, f', s) ->
  let st' := st1 <| nv_fs ::= <[stripe_path c i := f']> |> in
  let ch := mkChunk (stripe_path c i) base (zlen bytes) in
  evolves st st' /\ nvme_wf st' (n - (zlen bytes + 4096)) /\ reserved st' ch
  /\ (ok = true -> holds_at f' base bytes).
Proof.
  intros Hi Hn Hw Hf.
  destruct (reserve_offset_spec st i (zlen bytes) n Hi (zlen_nonneg _) Hn Hw) as (Hw1 & He1 & Ho1 & Hr1).
  unfold fetch_add_offset at 1. intros E. unfold file_of in E. cbn [nv_fs] in E.
  change (nv_fs (update _ _ _)) with (nv_fs st) in E. rewrite Hf in E. simpl in E.
  destruct Hw as [HL Hw]. destruct (Hw i Hi) as (Ho & Hd & Hb).
  destruct (nc_block c Hc) as [Hb0 Hb1].
  apply write_blocks_spec in E as [Ht Hh]; [|lia|apply nc_sector, Hc|apply Z.divide_0_r|done
    |split; [done|apply zlen_nonneg]|lia|].
  - rewrite Z.add_0_r, Z.sub_0_r in *.
    split_and!.
    + eapply write_region_evolves; [exact Hi|exact Hf|exact Ht|done|]. apply He1.
    + exact Hw1.
    + exact Hr1.
    + intros Hok. specialize (Hh Hok). by rewrite slice_all in Hh.
  - rewrite Z.sub_0_r. pose proof (zlen_nonneg bytes).
    rewrite Z2Nat.id by (apply Z.div_pos; lia).
    pose proof (Z.mul_succ_div_gt (zlen bytes + nvme_block c - 1) (nvme_block c) Hb0). nia.
Qed.

Lemma pwrite_segments_spec segs src : forall script consumed chunks st ok chunks' st' s n,
  segs_ok segs -> 0 <= consumed -> consumed + total segs.*2 = zlen src ->
  need segs <= n -> nvme_wf st n -> stored st chunks (slice 0 consumed src) ->
  pwrite_segments c script segs src consumed chunks st = Some (ok, chunks', st', s) ->
  evolves st st' /\ nvme_wf st' (n - need segs) /\ (ok = true -> stored st' chunks' src).
Proof.
  induction segs as [|[i seg] segs IH]; intros script consumed chunks st ok chunks' st' s n Hok Hc0 Htot Hn Hw Hst E.
  - injection E as <- <- <- <-. unfold total in Htot; simpl in Htot, Hn. split_and!; [apply evolves_refl| |].
    + by rewrite Z.sub_0_r.
    + intros _. replace consumed with (zlen src) in Hst by lia. by rewrite slice_all in Hst.
  - apply Forall_cons in Hok as [[Hi Hseg] Hok]. cbn in Hi, Hseg.
    change (total (((i, seg) :: segs).*2)) with (seg + total segs.*2) in Htot.
    change (need ((i, seg) :: segs)) with (seg + 4096 + need segs) in *.
    pose proof (need_nonneg segs Hok) as Hnn.
    assert (Htn : 0 <= total segs.*2).
    { clear -Hok. induction Hok as [|p l [? ?] ? IH]; [done|]. change (0 <= p.2 + total l.*2). lia. }
    cbn [pwrite_segments] in E. destruct (bool_decide (seg = 0) && bool_decide (i ≠ 0)) eqn:Hskip.
    + apply andb_true_iff in Hskip as [->%bool_decide_eq_true _].
      destruct (IH script consumed chunks st ok chunks' st' s n) as (? & ? & ?); [done|done|lia|lia|done|done|done|].
      split_and!; [done|eapply nvme_wf_mono; [|done]; lia|done].
    + destruct (open_file true _ script _) as [[[opened fs1] s1]|] eqn:Eo; [|done]. cbn in E.
      destruct st as [fs o].
      destruct (open_file_evolves _ _ _ _ _ _ _ o Eo) as [He1 Hopen].
      assert (Hw1 : nvme_wf (mkNvme fs1 o) n) by exact Hw.
      destruct opened; cbn in E; [|injection E as <- <- <- <-;
        split_and!; [done|eapply nvme_wf_mono; [|exact Hw1]; lia|done]].
      destruct (Hopen eq_refl) as [f Hf].
      set (bytes := slice consumed seg src) in *.
      assert (Hz : zlen bytes = seg) by (apply zlen_slice; lia).
      destruct (write_blocks s1 _ bytes _ _) as [[[ok1 f1] s2]|] eqn:Ew; [|done]. cbn in E.
      rewrite <- Hz in Ew.
      destruct (write_segment_spec (mkNvme fs1 o) i bytes n s1 ok1 f1 s2 f Hi ltac:(lia) Hw1 Hf Ew) as (He2 & Hw2 & Hr2 & Hh2).
      rewrite Hz in He2, Hw2, Hr2. set (st2 := update nv_fs _ _) in He2, Hw2, Hr2.
      destruct ok1; [|injection E as <- <- <- <-; split_and!;
        [eapply evolves_trans; [exact He1|exact He2]|eapply nvme_wf_mono; [|exact Hw2]; lia|done]].
      assert (He : evolves (mkNvme fs o) st2) by (eapply evolves_trans; [exact He1|exact He2]).
      apply (IH _ _ _ _ _ _ _ _ (n - (seg + 4096))) in E as (He3 & Hw3 & Hs3); [|done|lia|lia|lia|exact Hw2|].
      * split_and!; [eapply evolves_trans; [exact He|exact He3]|eapply nvme_wf_mono; [|exact Hw3]; lia|done].
      * rewrite slice_split by lia. eapply stored_snoc; [by eapply stored_evolves|exact Hr2|done| |by apply Hh2].
        cbn. apply lookup_insert_eq.
Qed.
End Engine.

(** ** The synchronous reader *)
Lemma pread_loop_spec script f roff bpad bs : forall r abuf ok abuf' s,
  0 <= roff -> 0 <= r -> zlen bs <= bpad -> bpad <= zlen abuf -> holds_at f roff bs ->
  (forall i, 0 <= i < zlen bs -> i < r -> abuf !! Z.to_nat i = bs !! Z.to_nat i) ->
  pread_loop script f roff bpad r abuf = Some (ok, abuf', s) ->
  zlen abuf' = zlen abuf /\ (ok = true -> holds_at abuf' 0 bs).
Proof.
  induction script as [|x script IH]; intros r abuf ok abuf' s Ho Hr Hbs Hcap Hf Hpre; simpl; case_decide as Hlt;
    try (intros [= <- <- <-]; split; [done|]; intros _ i Hi; apply Hpre; lia); [done|].
  destruct x as [n| |]; [|by apply IH|by intros [= <- <- <-]].
  case_decide as Heof.
  - intros [= <- <- <-]. split; [done|]. intros _ i Hi. apply Hpre; [done|].
    assert (bs ≠ []) by (intros ->; unfold zlen in Hi; simpl in Hi; lia).
    pose proof (holds_at_length f roff bs Ho ltac:(done) Hf). lia.
  - set (m := Z.min (Z.max 1 n) _).
    assert (Hm : 1 <= m <= zlen f - (roff + r) /\ m <= bpad - r) by lia.
    assert (Hz : zlen (slice (roff + r) m f) = m) by (apply zlen_slice; lia).
    intros E. apply IH in E as [Hl Hh]; rewrite ?zlen_buf_write in *; [done|lia..|done|].
    intros i Hi Hir. destruct (decide (i < r)).
    + rewrite buf_write_lookup_ne by lia. apply Hpre; lia.
    + pose proof (buf_write_same r (slice (roff + r) m f) abuf Hr ltac:(lia)) as Hsame. rewrite Hz in Hsame.
      apply (f_equal (fun l => l !! Z.to_nat (i - r))) in Hsame. rewrite !lookup_slice in Hsame by lia.
      replace (r + (i - r)) with i in Hsame by lia. rewrite Hsame.
      replace (roff + r + (i - r)) with (roff + i) by lia. by apply Hf.
Qed.

Lemma buf_write_app {A} off (b1 b2 l : list A) : 0 <= off ->
  buf_write off (b1 ++ b2) l = buf_write (off + zlen b1) b2 (buf_write off b1 l).
Proof.
  intros. unfold zlen. rewrite !buf_write_inserts, list_inserts_app_l. f_equal. lia.
Qed.
Lemma holds_at_range f off bs i n : 0 <= off -> 0 <= i -> 0 <= n -> i + n <= zlen bs ->
  holds_at f off bs -> holds_at f (off + i) (slice i n bs).
Proof.
  intros ? ? ? Hn H k Hk. rewrite zlen_slice in Hk by lia. rewrite lookup_slice by lia.
  rewrite <- Z.add_assoc. apply H. lia.
Qed.

Lemma read_blocks_spec fuel block f offset bs consumed : forall script off abuf dst ok abuf' dst' s,
  0 < block -> (4096 | block) -> block < 2 ^ 63 -> 0 <= offset -> 0 <= consumed ->
  0 <= off <= zlen bs -> offset + zlen bs < 2 ^ 63 -> zlen bs - off <= Z.of_nat fuel * block ->
  block <= zlen abuf -> holds_at f offset bs ->
  read_blocks script (blocks_from fuel block (zlen bs) off) f offset consumed abuf dst = Some (ok, abuf', dst', s) ->
  zlen abuf' = zlen abuf
  /\ (ok = true -> dst' = buf_write (consumed + off) (slice off (zlen bs - off) bs) dst).
Proof.
  induction fuel as [|fuel IH]; intros script off abuf dst ok abuf' dst' s Hb Hsec Hb63 Ho Hcs Hoff Hr Hf Hcap Hh;
    cbn [blocks_from]; try case_decide as Hlt; cbn [read_blocks];
    try (intros [= <- <- <- <-]; split; [done|]; intros _;
         replace (zlen bs - off) with 0 by lia; by rewrite slice_0, buf_write_nil).
  set (len := Z.min block (zlen bs - off)). intros E.
  destruct (pread_loop script f _ _ 0 abuf) as [[[ok1 a1] s1]|] eqn:E1; [|done]. cbn in E.
  assert (Hz : zlen (slice off len bs) = len) by (apply zlen_slice; lia).
  assert (Hpad : len <= roundup len 4096 <= block).
  { destruct (block_padding 0 len block) as [? ?]; [apply Z.divide_0_r|lia..|].
    rewrite (roundup_of_multiple block) in * by (done || lia). lia. }
  rewrite u64_small in E1 by (unfold in_u64; lia).
  apply (pread_loop_spec _ _ _ _ (slice off len bs)) in E1 as [Hl1 Hh1];
    [|lia|lia|lia|lia|apply holds_at_range; lia || done|intros; lia].
  destruct ok1; [|injection E as <- <- <- <-; done].
  assert (Hs1 : slice 0 len a1 = slice off len bs).
  { rewrite <- Hz at 1. apply holds_at_slice; [lia|]. by apply Hh1. }
  rewrite Hs1 in E. apply IH in E as [Hl Hd]; [|lia || done..].
  split; [lia|]. intros Hok. rewrite (Hd Hok).
  replace (slice off (zlen bs - off) bs) with (slice off (len + (zlen bs - (off + len))) bs) by (f_equal; lia).
  rewrite slice_split, buf_write_app, Hz by lia. f_equal. lia.
Qed.

Section Reader.
Context (c : DaemonConfig) (Hc : nvme_config_ok c).
Lemma segment_fuel seg : 0 <= seg ->
  seg - 0 <= Z.of_nat (Z.to_nat ((seg + nvme_block c - 1) / nvme_block c)) * nvme_block c.
Proof.
  intros. destruct (nc_block c Hc). rewrite Z2Nat.id by (apply Z.div_pos; lia).
  pose proof (Z.mul_succ_div_gt (seg + nvme_block c - 1) (nvme_block c) ltac:(lia)). nia.
Qed.
Lemma pread_chunks_spec st chunks bs : stored c st chunks bs -> forall script consumed abuf dst ok n dst' s,
  0 <= consumed -> nvme_block c <= zlen abuf ->
  pread_chunks (nvme_block c) script chunks (nv_fs st) true consumed abuf dst = Some (ok, n, dst', s) ->
  ok = true -> dst' = buf_write consumed bs dst.
Proof.
  intros [Hh Hr]. revert bs Hh. induction Hr as [|ch chunks Hch Hr IH];
    intros bs Hh script consumed abuf dst ok n dst' s Hcs Hcap E Hok.
  - cbn in Hh. subst bs. cbn in E. simplify_eq. by rewrite buf_write_nil.
  - destruct Hh as (b1 & b2 & f & -> & Hz & Hf & Hb1 & H2). cbn [pread_chunks] in E.
    destruct (open_file false _ script _) as [[[opened fs1] s1]|] eqn:Eo; [|done]. cbn in E.
    destruct opened; [|by simplify_eq/=]. cbn in E.
    destruct (read_blocks s1 _ _ _ _ _ _) as [[[[ok1 a1] d1] s2]|] eqn:Er; [|done]. cbn in E.
    destruct Hch as (i & Hi & Hp & Ho & Hl & _ & _ & Hb).
    unfold file_of in Er. rewrite Hf, <- Hz in Er. cbn [default] in Er.
    destruct (nc_block c Hc).
    apply read_blocks_spec in Er as [Hla Hd]; [|lia|apply nc_sector, Hc|lia|lia|lia
      |pose proof (zlen_nonneg b1); lia|lia|by apply segment_fuel; apply zlen_nonneg|lia|done].
    destruct ok1.
    + apply (IH b2) in E; [|done|lia|lia|done]. rewrite E, (Hd eq_refl).
      rewrite Z.add_0_r, Z.sub_0_r, slice_all, buf_write_app by lia. by rewrite Hz.
    + exfalso. subst ok. clear -E. revert s2 E. induction chunks as [|ch' chunks IH]; intros s2 E; [by simplify_eq/=|].
      cbn [pread_chunks] in E. destruct (open_file false _ s2 _) as [[[[] ?] ?]|]; [|by simplify_eq/=..].
      cbn in E. by eapply IH.
Qed.
End Reader.
