(* ===== verification/NvmeStore.v ===== *)
(** * The NVMe tier as a store

    Instantiates the submission loop for writing and reading, and combines both
    engines: what a write stored is read back unchanged after any later writes,
    with either engine, and a kernel that serves every call lets both finish. *)
From stdpp Require Import base gmap strings list fin_maps list_numbers pretty.
From Stdlib Require Import ZArith Lia Strings.Byte.
From S2P Require Import Prelude.
From S2P Require Import Files.
From S2P Require Import State.
From S2P Require Import Alloc.
From S2P Require Import Drain.
From S2P Require Import Nvme.
From S2P Require Import NvmeProps.
From S2P Require Import NvmeUring.
Open Scope Z_scope.
Open Scope offload_scope.

#[local] Arguments all_succeed : simpl never.

(** ** Pairs of a list *)
Lemma FOP_app {A} (R : A -> A -> Prop) l1 l2 :
  List.ForallOrdPairs R l1 -> List.ForallOrdPairs R l2 -> (forall x y, x ∈ l1 -> y ∈ l2 -> R x y) ->
  List.ForallOrdPairs R (l1 ++ l2).
Proof.
  intros H1 H2 H. induction H1 as [|x l1 Hx H1 IH]; [done|]. cbn. constructor.
  - apply List.Forall_app. split; [done|]. apply Forall_forall. intros y Hy. apply H; [by left|done].
  - apply IH. intros ? ? ? ?. apply H; [by right|done].
Qed.
Lemma FOP_fmap {A B} (f : A -> B) (R : B -> B -> Prop) l :
  List.ForallOrdPairs (fun x y => R (f x) (f y)) l -> List.ForallOrdPairs R (f <$> l).
Proof.
  induction 1 as [|x l Hx H IH]; [constructor|]. cbn. constructor; [|done]. by apply Forall_fmap.
Qed.
Lemma FOP_sym {A} (R : A -> A -> Prop) l x y : List.ForallOrdPairs R l -> (forall a b, R a b -> R b a) ->
  x ∈ l -> y ∈ l -> x = y \/ R x y.
Proof.
  intros H Hs Hx Hy. destruct (List.ForallOrdPairs_In H x y) as [?|[?|?]]; [by apply list_elem_of_In..|auto|auto|auto].
Qed.

(** ** Blocks *)
Definition block_ok (block seg : Z) (p : Z * Z) : Prop :=
  0 <= p.1 /\ (4096 | p.1) /\ 0 < p.2 <= block /\ p.1 + p.2 <= seg.
Lemma blocks_from_spec block seg fuel : forall off,
  0 < block < 2 ^ 63 -> (4096 | block) -> 0 <= off -> (4096 | off) -> seg < 2 ^ 63 ->
  Forall (fun p => block_ok block seg p /\ off <= p.1) (blocks_from fuel block seg off)
  /\ List.ForallOrdPairs (fun p q => p.1 + roundup p.2 4096 <= q.1 /\ p.1 + p.2 <= q.1) (blocks_from fuel block seg off).
Proof.
  induction fuel as [|fuel IH]; intros off Hb Hs Ho Hd Hseg; cbn [blocks_from]; [split; constructor|].
  case_decide as Hlt; [|split; constructor]. set (len := Z.min block (seg - off)).
  destruct (decide (len = block)) as [Hfull|Hlast].
  - destruct (IH (off + len)) as [HF HP]; [done..|lia|rewrite Hfull; by apply Z.divide_add_r|done|]. split.
    + constructor; [unfold block_ok; cbn; split_and!; done || lia|].
      eapply Forall_impl; [exact HF|]. cbn. intros p [? ?]. split; [done|lia].
    + constructor; [|done]. eapply Forall_impl; [exact HF|]. intros p [_ Hp]. cbn.
      rewrite Hfull, roundup_of_multiple by (done || lia). lia.
  - assert (blocks_from fuel block seg (off + len) = []) as ->
      by (destruct fuel; [done|]; cbn [blocks_from]; by rewrite decide_False by lia).
    split; repeat constructor; cbn; done || lia.
Qed.
(** The blocks of a segment cover it. *)
Lemma blocks_from_cover block seg fuel (P : Z -> Z -> Prop) : forall off,
  0 < block -> off <= seg -> seg - off <= Z.of_nat fuel * block ->
  (forall o, P o 0) -> (forall o n m, 0 <= n -> 0 <= m -> P o n -> P (o + n) m -> P o (n + m)) ->
  Forall (fun p => P p.1 p.2) (blocks_from fuel block seg off) -> P off (seg - off).
Proof.
  induction fuel as [|fuel IH]; intros off Hb Ho Hf H0 Hadd; cbn [blocks_from].
  - intros _. replace (seg - off) with 0 by lia. apply H0.
  - case_decide as Hlt; [|intros _; replace (seg - off) with 0 by lia; apply H0].
    intros [Hp Hr]%Forall_cons. cbn in Hp. set (len := Z.min block (seg - off)) in *.
    replace (seg - off) with (len + (seg - (off + len))) by lia. apply Hadd; [lia|lia|done|].
    apply IH; [lia|lia|lia|done|done|done].
Qed.

Section Store.
Context (c : DaemonConfig) (Hc : nvme_config_ok c).
#[local] Abbreviation stripes := (nvme_stripe_count c).
#[local] Abbreviation flat := (flatten_blocks (nvme_block c)).
Definition chunk_ok (ch : NvmeChunk) : Prop :=
  0 <= ch_offset ch /\ 0 <= ch_length ch /\ (4096 | ch_offset ch) /\ ch_offset ch + ch_length ch + 4096 < 2 ^ 63.
Definition lengths (chunks : list NvmeChunk) : Z := total (ch_length <$> chunks).
Lemma segment_blocks_spec ch : chunk_ok ch ->
  Forall (fun p => block_ok (nvme_block c) (ch_length ch) p) (segment_blocks (nvme_block c) (ch_length ch))
  /\ List.ForallOrdPairs (fun p q => p.1 + roundup p.2 4096 <= q.1 /\ p.1 + p.2 <= q.1)
       (segment_blocks (nvme_block c) (ch_length ch)).
Proof.
  intros (Ho & Hl & Hd & Hb). destruct (nc_block c Hc).
  destruct (blocks_from_spec (nvme_block c) (ch_length ch) (Z.to_nat ((ch_length ch + nvme_block c - 1) / nvme_block c)) 0)
    as [HF HP]; [done|apply nc_sector, Hc|done|apply Z.divide_0_r|lia|]. split; [|done].
  eapply Forall_impl; [exact HF|]. by intros p [? _].
Qed.
(** A block of the list comes from a chunk. *)
Lemma elem_of_flat b chunks : forall consumed, Forall chunk_ok chunks ->
  b ∈ flat consumed chunks -> exists ch p, ch ∈ chunks /\ block_ok (nvme_block c) (ch_length ch) p
    /\ bi_path b = ch_path ch /\ bi_file_off b = ch_offset ch + p.1 /\ bi_len b = p.2
    /\ consumed <= bi_mem_off b /\ bi_mem_off b + bi_len b <= consumed + lengths chunks.
Proof.
  induction chunks as [|ch chunks IH]; intros consumed Hok; [by intros ?%not_elem_of_nil|].
  apply Forall_cons in Hok as [Hch Hok]. destruct Hch as (Ho & Hl & Hd & Hb).
  change (lengths (ch :: chunks)) with (ch_length ch + lengths chunks).
  assert (Hpos : 0 <= lengths chunks).
  { clear -Hok. induction Hok as [|x l (? & ? & _) ? IH]; [done|]. change (0 <= ch_length x + lengths l). lia. }
  cbn [flatten_blocks]. rewrite elem_of_app. intros [(p & -> & Hp)%list_elem_of_fmap|Hin].
  - destruct (segment_blocks_spec ch) as [HF _]; [done|].
    rewrite Forall_forall in HF. pose proof (HF p Hp) as Hbp. pose proof Hbp as (H1 & H2 & H3 & H4).
    exists ch, p. cbn. rewrite u64_small by (unfold in_u64; lia). split_and!; try done; [by left|lia..].
  - destruct (IH _ Hok Hin) as (ch' & p & ? & ? & ? & ? & ? & ? & ?). exists ch', p. split_and!; try done; [by right|lia|lia].
Qed.

(** ** Regions *)
Definition apart (path1 : string) (off1 len1 : Z) (path2 : string) (off2 len2 : Z) : Prop :=
  path1 = path2 -> off1 + len1 <= off2 \/ off2 + len2 <= off1.
Definition io_apart (x y : BlockIO) : Prop :=
  apart (bi_path x) (bi_file_off x) (roundup (bi_len x) 4096) (bi_path y) (bi_file_off y) (roundup (bi_len y) 4096).
Definition chunk_apart (x y : NvmeChunk) : Prop :=
  apart (ch_path x) (ch_offset x) (roundup (ch_length x) 4096) (ch_path y) (ch_offset y) (roundup (ch_length y) 4096).
Lemma io_apart_sym x y : io_apart x y -> io_apart y x.
Proof. unfold io_apart, apart. intros H E. symmetry in E. destruct (H E); auto. Qed.
(** A block stays inside the padded region of its chunk. *)
Lemma block_inside ch p : chunk_ok ch -> block_ok (nvme_block c) (ch_length ch) p ->
  0 <= p.1 /\ ch_offset ch + p.1 + roundup p.2 4096 <= ch_offset ch + roundup (ch_length ch) 4096
  /\ p.2 <= roundup p.2 4096.
Proof.
  intros (Ho & Hl & _ & Hb) (H1 & H2 & H3 & H4).
  destruct (block_padding p.1 p.2 (ch_length ch)) as [? ?]; [done|lia..|]. lia.
Qed.
Lemma flat_apart chunks : forall consumed, Forall chunk_ok chunks -> List.ForallOrdPairs chunk_apart chunks ->
  List.ForallOrdPairs io_apart (flat consumed chunks).
Proof.
  induction chunks as [|ch chunks IH]; intros consumed Hok HP; [constructor|]. cbn [flatten_blocks].
  inversion HP as [|? ? Hap HP']; subst. pose proof Hok as [Hch Hok']%Forall_cons. apply FOP_app.
  - destruct (segment_blocks_spec ch Hch) as [HF HB]. destruct Hch as (Ho & Hl & Hd & Hb).
    apply FOP_fmap. induction HB as [|p l Hp HB IHl]; [constructor|]. apply Forall_cons in HF as [Hp0 HF].
    constructor; [|by apply IHl]. rewrite Forall_forall in Hp, HF |- *. intros q Hq _. cbn.
    destruct (Hp q Hq), (HF q Hq) as (? & ? & ? & ?), Hp0 as (? & ? & ? & ?).
    rewrite !u64_small by (unfold in_u64; lia). left. lia.
  - by apply IH.
  - intros x y Hx Hy. destruct (elem_of_flat x [ch] consumed) as (ch1 & p & Hin1 & Hp & P1 & O1 & L1 & _);
      [by constructor|cbn; by rewrite app_nil_r|]. apply list_elem_of_singleton in Hin1 as ->.
    destruct (elem_of_flat y chunks _ Hok' Hy) as (ch2 & q & Hin2 & Hq & P2 & O2 & L2 & _).
    rewrite Forall_forall in Hap, Hok'. specialize (Hap ch2 Hin2). specialize (Hok' ch2 Hin2).
    destruct (block_inside ch p Hch Hp), (block_inside ch2 q Hok' Hq).
    unfold io_apart, apart. rewrite P1, P2, O1, O2, L1, L2. intros E. destruct (Hap E); [left|right]; lia.
Qed.

(** ** Blocks and chunks hold the same bytes *)
Definition block_holds (fs : gmap string (list byte)) (bs : list byte) (b : BlockIO) : Prop :=
  holds_at (file_of fs (bi_path b)) (bi_file_off b) (slice (bi_mem_off b) (bi_len b) bs).
Lemma lengths_nonneg chunks : Forall chunk_ok chunks -> 0 <= lengths chunks.
Proof. induction 1 as [|x l (? & ? & _) ? IH]; [done|]. change (0 <= ch_length x + lengths l). lia. Qed.

(** If all blocks of a list of ranges hold [P], so does the whole range. *)
Lemma segment_cover (P : Z -> Z -> Prop) seg : 0 <= seg ->
  (forall o, P o 0) -> (forall o n m, 0 <= n -> 0 <= m -> P o n -> P (o + n) m -> P o (n + m)) ->
  Forall (fun p => P p.1 p.2) (segment_blocks (nvme_block c) seg) -> P 0 seg.
Proof.
  intros Hs H0 Ha HF. destruct (nc_block c Hc). replace seg with (seg - 0) by lia.
  eapply blocks_from_cover; [| |by apply segment_fuel|done|done|exact HF]; lia.
Qed.
Lemma holds_at_cover f off o n m bs : 0 <= off + o -> 0 <= o -> 0 <= n -> 0 <= m -> o + n + m <= zlen bs ->
  holds_at f (off + o) (slice o n bs) -> holds_at f (off + (o + n)) (slice (o + n) m bs) ->
  holds_at f (off + o) (slice o (n + m) bs).
Proof.
  intros. rewrite slice_split by lia. apply holds_at_app; [lia|]. rewrite zlen_slice by lia.
  by rewrite <- Z.add_assoc.
Qed.

Lemma flat_holds fs bs chunks : forall consumed, 0 <= consumed -> Forall chunk_ok chunks ->
  Forall (fun ch => is_Some (fs !! ch_path ch)) chunks -> consumed + lengths chunks <= zlen bs ->
  Forall (block_holds fs bs) (flat consumed chunks) -> chunks_hold fs chunks (slice consumed (lengths chunks) bs).
Proof.
  induction chunks as [|ch chunks IH]; intros consumed Hcs Hok Hfs Hlen HF; [done|].
  apply Forall_cons in Hok as [(Ho & Hl & Hd & Hb) Hok]. apply Forall_cons in Hfs as [[f Hf] Hfs].
  pose proof (lengths_nonneg _ Hok) as Hpos.
  change (lengths (ch :: chunks)) with (ch_length ch + lengths chunks) in *.
  cbn [flatten_blocks] in HF. apply Forall_app in HF as [H1 H2]. rewrite Forall_fmap in H1.
  exists (slice consumed (ch_length ch) bs), (slice (consumed + ch_length ch) (lengths chunks) bs), f.
  rewrite slice_split by lia. split_and!; [done|apply zlen_slice; lia|done| |apply IH; done || lia].
  destruct (segment_blocks_spec ch) as [HFb _]; [done|].
  set (P := fun o n => 0 <= o -> o + n <= ch_length ch -> holds_at f (ch_offset ch + o) (slice (consumed + o) n bs)).
  assert (HP : P 0 (ch_length ch)).
  { apply segment_cover; [done|intros o _ _; apply holds_at_nil| |].
    - intros o n m Hn Hm Pn Pm Ho0 Hle. rewrite slice_split by lia. apply holds_at_app; [lia|].
      rewrite zlen_slice by lia. split; [apply Pn; lia|].
      rewrite <- !Z.add_assoc. apply Pm; lia.
    - rewrite Forall_forall in H1, HFb |- *. intros p Hp _ _. specialize (H1 p Hp). destruct (HFb p Hp) as (? & ? & ? & ?).
      unfold block_holds, file_of in H1. cbn in H1. rewrite Hf, u64_small in H1 by (unfold in_u64; lia). exact H1. }
  specialize (HP ltac:(lia) ltac:(lia)). by rewrite !Z.add_0_r in HP.
Qed.
Lemma chunks_hold_flat fs chunks : forall consumed pre bs, consumed = zlen pre -> Forall chunk_ok chunks ->
  chunks_hold fs chunks bs -> Forall (block_holds fs (pre ++ bs)) (flat consumed chunks) /\ lengths chunks = zlen bs.
Proof.
  induction chunks as [|ch chunks IH]; intros consumed pre bs Hpre Hok; cbn [chunks_hold].
  - intros ->. split; [constructor|done].
  - intros (b1 & b2 & f & -> & Hz & Hf & Hb1 & H2). apply Forall_cons in Hok as [(Ho & Hl & Hd & Hb) Hok].
    destruct (IH (consumed + ch_length ch) (pre ++ b1) b2) as [HF HL];
      [rewrite zlen_app; lia|done|done|].
    split; [|change (ch_length ch + lengths chunks = zlen (b1 ++ b2)); rewrite zlen_app; lia].
    cbn [flatten_blocks]. apply Forall_app. split; [|by rewrite (assoc_L (++))].
    destruct (segment_blocks_spec ch) as [HFb _]; [done|].
    apply Forall_fmap. eapply Forall_impl; [exact HFb|]. intros p (? & ? & ? & ?).
    unfold block_holds, file_of. cbn. rewrite Hf, u64_small by (unfold in_u64; lia). cbn.
    rewrite slice_app_r, slice_app_l by lia. replace (consumed + p.1 - zlen pre) with p.1 by lia.
    apply holds_at_range; lia || done.
Qed.

(** ** The number of blocks *)
Lemma length_blocks_from block seg fuel : forall off, (length (blocks_from fuel block seg off) <= fuel)%nat.
Proof. induction fuel; intros off; cbn [blocks_from]; [done|]. case_decide; cbn; [|lia]. specialize (IHfuel (off + Z.min block (seg - off))). lia. Qed.
Lemma length_flat chunks : forall consumed, Forall chunk_ok chunks ->
  Z.of_nat (length (flat consumed chunks)) <= lengths chunks / nvme_block c + Z.of_nat (length chunks).
Proof.
  destruct (nc_block c Hc). induction chunks as [|ch chunks IH]; intros consumed Hok; [done|].
  pose proof Hok as [(Ho & Hl & _) Hok']%Forall_cons. pose proof (lengths_nonneg _ Hok') as Hpos.
  change (lengths (ch :: chunks)) with (ch_length ch + lengths chunks).
  cbn [flatten_blocks]. rewrite length_app, length_fmap. specialize (IH (consumed + ch_length ch) Hok').
  pose proof (length_blocks_from (nvme_block c) (ch_length ch) (Z.to_nat ((ch_length ch + nvme_block c - 1) / nvme_block c)) 0) as Hb.
  fold (segment_blocks (nvme_block c) (ch_length ch)) in Hb.
  assert (Hceil : (ch_length ch + nvme_block c - 1) / nvme_block c <= ch_length ch / nvme_block c + 1).
  { replace (ch_length ch / nvme_block c + 1) with ((ch_length ch + 1 * nvme_block c) / nvme_block c)
      by (rewrite Z.div_add by lia; done). apply Z.div_le_mono; lia. }
  assert (Hsum : ch_length ch / nvme_block c + lengths chunks / nvme_block c <= (ch_length ch + lengths chunks) / nvme_block c).
  { apply Z.div_le_lower_bound; [lia|].
    pose proof (Z.mul_div_le (ch_length ch) (nvme_block c) ltac:(lia)).
    pose proof (Z.mul_div_le (lengths chunks) (nvme_block c) ltac:(lia)). lia. }
  assert (0 <= (ch_length ch + nvme_block c - 1) / nvme_block c) by (apply Z.div_pos; lia).
  cbn [length]. lia.
Qed.

(** ** Writing with io_uring *)
Section Write.
Context (chunks : list NvmeChunk) (o : list Z) (src : list byte).
Context (Hok : Forall chunk_ok chunks) (Hap : List.ForallOrdPairs chunk_apart chunks)
  (Hlen : lengths chunks <= zlen src)
  (Hfresh : Forall (fun ch => exists i, 0 <= i < stripes /\ ch_path ch = stripe_path c i
                                /\ default 0 (o !! Z.to_nat i) <= ch_offset ch) chunks).
#[local] Abbreviation ios := (flat 0 chunks).
Definition wprepared (b : BlockIO) (buf : list byte) : Prop :=
  slice 0 (roundup (bi_len b) 4096) buf = bounce (slice (bi_mem_off b) (bi_len b) src).
Definition wframe (fs fs' : gmap string (list byte)) : Prop := evolves c (mkNvme fs o) (mkNvme fs' o).
#[local] Instance wframe_preorder : PreOrder wframe.
Proof. split; [intros ?; apply evolves_refl|intros ???; apply evolves_trans]. Qed.

Lemma wblock b : b ∈ ios ->
  0 <= bi_mem_off b /\ bi_mem_off b + bi_len b <= zlen src /\ 0 < bi_len b <= nvme_block c /\ 0 <= bi_file_off b
  /\ bi_len b <= roundup (bi_len b) 4096 <= nvme_block c
  /\ zlen (slice (bi_mem_off b) (bi_len b) src) = bi_len b
  /\ zlen (bounce (slice (bi_mem_off b) (bi_len b) src)) = roundup (bi_len b) 4096.
Proof.
  intros Hb. destruct (elem_of_flat b chunks 0 Hok Hb) as (ch & p & Hch & Hp & _ & Ho & HL & H1 & H2).
  pose proof Hok as Hok'. rewrite Forall_forall in Hok'. destruct (Hok' ch Hch) as (? & ? & _ & ?).
  destruct Hp as (? & ? & ? & ?). destruct (nc_block c Hc).
  destruct (block_padding 0 (bi_len b) (nvme_block c)) as [Hp1 Hp2]; [apply Z.divide_0_r|lia..|].
  rewrite (roundup_of_multiple (nvme_block c)) in Hp1 by (lia || apply nc_sector, Hc).
  assert (Hz : zlen (slice (bi_mem_off b) (bi_len b) src) = bi_len b) by (apply zlen_slice; lia).
  split_and!; try lia. rewrite zlen_bounce, Hz by lia. done.
Qed.
Lemma wprep_ok b buf : b ∈ ios -> nvme_block c <= zlen buf ->
  wprepared b (write_prep src b buf) /\ zlen (write_prep src b buf) = zlen buf.
Proof.
  intros Hb Hcap. destruct (wblock b Hb) as (? & ? & ? & ? & ? & ? & Hz).
  split; [|apply zlen_buf_write]. unfold wprepared, write_prep. rewrite <- Hz. apply buf_write_same; lia.
Qed.
(** Writing the first bytes of a block's buffer: only its region changes. *)
Lemma wtouch fs b n bytes : b ∈ ios -> 0 <= n -> zlen bytes <= roundup (bi_len b) 4096 ->
  let f' := file_write (bi_file_off b) bytes (file_of fs (bi_path b)) in
  wframe fs (<[bi_path b := f']> fs)
  /\ forall b', b' ∈ ios -> b' = b \/ (block_holds fs src b' -> block_holds (<[bi_path b := f']> fs) src b').
Proof.
  intros Hb Hn Hz f'. destruct (wblock b Hb) as (? & ? & ? & Hoff & ? & ? & _).
  assert (Ht : touches (bi_file_off b) (roundup (bi_len b) 4096) (file_of fs (bi_path b)) f').
  { eapply touches_weaken; [apply file_write_touches; lia|lia..]. }
  split.
  - split; [done|]. intros path f Hf. cbn. destruct (decide (path = bi_path b)) as [->|Hne].
    + exists f'. rewrite lookup_insert_eq. split; [done|]. intros k x Hk Hx Hlt. apply Ht; [done| |].
      * left. destruct (elem_of_flat b chunks 0 Hok Hb) as (ch & p & Hch & (Hp & _) & Hpath & Ho & _).
        rewrite Forall_forall in Hfresh. destruct (Hfresh ch Hch) as (i & Hi & Hpi & Hle).
        specialize (Hlt i Hi ltac:(congruence)). unfold offset_at in Hlt. cbn in Hlt, Hf. lia.
      * unfold file_of. cbn in Hf. by rewrite Hf.
    + exists f. rewrite lookup_insert_ne by done. auto.
  - intros b' Hb'. destruct (FOP_sym io_apart ios b b') as [?|Hapt];
      [by apply flat_apart|apply io_apart_sym|done|done|auto|]. right. unfold block_holds, file_of at 2.
    destruct (wblock b' Hb') as (? & ? & ? & ? & ? & Hz' & _).
    destruct (decide (bi_path b = bi_path b')) as [E|E].
    + rewrite E, lookup_insert_eq. cbn. intros Hh. rewrite <- E in Hh.
      eapply holds_at_touches; [done|exact Ht| |exact Hh]. rewrite Hz'. destruct (Hapt E); lia.
    + rewrite lookup_insert_ne by done. done.
Qed.
Lemma wstep_ok op blk buf res u n u1 ok u2 :
  ios !! blk = Some (op_io op) -> op_iolen op = roundup (bi_len (op_io op)) 4096 ->
  ur_pool u !! op_buf op = Some buf -> wprepared (op_io op) buf -> nvme_block c <= zlen buf ->
  write_transfer op res u = (n, u1) -> write_accept ios blk (op_buf op) n u1 = (ok, u2) ->
  same_control u u2 /\ (forall bi, bi ≠ op_buf op -> ur_pool u2 !! bi = ur_pool u !! bi)
  /\ (forall b, ur_pool u2 !! op_buf op = Some b -> nvme_block c <= zlen b) /\ wframe (ur_fs u) (ur_fs u2)
  /\ (ok = true -> block_holds (ur_fs u2) src (op_io op)
       /\ forall blk' b', blk' ≠ blk -> ios !! blk' = Some b' -> block_holds (ur_fs u) src b' ->
            block_holds (ur_fs u2) src b').
Proof.
  intros Hio HL Hbuf Hpr Hcap Et Ea. pose proof (list_elem_of_lookup_2 _ _ _ Hio) as Hb.
  destruct (wblock _ Hb) as (? & ? & ? & Hoff & Hpad & Hz & Hzb).
  unfold write_accept, block_at in Ea. rewrite Hio in Ea. cbn in Ea. injection Ea as <- <-.
  unfold write_transfer in Et. case_decide as Hres; injection Et as <- <-.
  - split_and!; [done..|intros b E; rewrite Hbuf in E; by injection E as <-|done|].
    intros ?%bool_decide_eq_true. lia.
  - unfold pool_buf. rewrite Hbuf. cbn [default]. set (m := Z.min res (op_iolen op)).
    destruct (wtouch (ur_fs u) (op_io op) m (slice 0 m buf)) as [Hfr Hkeep];
      [done|lia|rewrite zlen_slice; lia|].
    split_and!; [done..|intros b E; cbn in E; rewrite Hbuf in E; by injection E as <-|exact Hfr|].
    intros Hm%bool_decide_eq_true. assert (Hdone : block_holds (<[bi_path (op_io op) := file_write (bi_file_off (op_io op))
      (slice 0 m buf) (file_of (ur_fs u) (bi_path (op_io op)))]> (ur_fs u)) src (op_io op)).
    { unfold block_holds, file_of at 1. rewrite lookup_insert_eq. cbn [default]. apply holds_bounce; [done|].
      rewrite <- Hpr, <- Hm. by apply file_write_holds. }
    split; [exact Hdone|]. intros blk' b' _ Hb' Hh. apply list_elem_of_lookup_2 in Hb'.
    destruct (Hkeep b' Hb') as [->|Hk]; [exact Hdone|by apply Hk].
Qed.
Lemma wfull op blk buf res u n u1 ok u2 :
  ios !! blk = Some (op_io op) -> op_iolen op = roundup (bi_len (op_io op)) 4096 ->
  ur_pool u !! op_buf op = Some buf -> wprepared (op_io op) buf -> 2 ^ 64 <= res ->
  write_transfer op res u = (n, u1) -> write_accept ios blk (op_buf op) n u1 = (ok, u2) -> ok = true.
Proof.
  intros Hio HL Hbuf Hpr Hres Et Ea. destruct (wblock _ (list_elem_of_lookup_2 _ _ _ Hio)) as (? & ? & ? & ? & ? & _).
  destruct (nc_block c Hc). unfold write_accept, block_at in Ea. rewrite Hio in Ea. injection Ea as <- <-.
  unfold write_transfer in Et. rewrite decide_False in Et by lia. injection Et as <- <-. apply bool_decide_eq_true. cbn. lia.
Qed.
End Write.

Lemma depth_bounds : (1 <= queue_depth c <= 64)%nat.
Proof. pose proof (nc_depth c Hc). unfold queue_depth in *. lia. Qed.
Lemma uinv_start cap ios prepared fin garbage fs dst : cap <= zlen garbage ->
  let u := uring_start c garbage fs dst in uinv (queue_depth c) cap ios prepared fin (ur_free u) u [].
Proof.
  intros Hcap. constructor; cbn [uring_start ur_next ur_done ur_inflight ur_free ur_pool ur_iov ur_fs ur_dst pipe fmap].
  - lia.
  - done.
  - cbn. rewrite length_reverse, length_seq. done.
  - cbn. rewrite reverse_Permutation. apply NoDup_seq.
  - apply Forall_reverse, Forall_forall. intros bi Hbi%elem_of_seq. lia.
  - rewrite length_replicate. split; [done|]. by apply Forall_replicate.
  - by rewrite length_replicate.
  - constructor.
  - constructor.
  - intros. lia.
Qed.

(** ** Reading with io_uring *)
Section Read.
Context (chunks : list NvmeChunk) (fs : gmap string (list byte)) (bs : list byte) (room : Z).
Context (Hok : Forall chunk_ok chunks) (Hold : chunks_hold fs chunks bs) (Hroom : zlen bs <= room).
#[local] Abbreviation ios := (flat 0 chunks).
Definition rfin (b : BlockIO) (fs' : gmap string (list byte)) (dst : list byte) : Prop :=
  fs' = fs -> room = zlen dst -> holds_at dst (bi_mem_off b) (slice (bi_mem_off b) (bi_len b) bs).
Lemma rblock b : b ∈ ios ->
  0 <= bi_mem_off b /\ bi_mem_off b + bi_len b <= zlen bs /\ 0 < bi_len b <= nvme_block c /\ 0 <= bi_file_off b
  /\ bi_len b <= roundup (bi_len b) 4096 <= nvme_block c
  /\ zlen (slice (bi_mem_off b) (bi_len b) bs) = bi_len b
  /\ bi_file_off b + bi_len b <= zlen (file_of fs (bi_path b))
  /\ slice (bi_file_off b) (bi_len b) (file_of fs (bi_path b)) = slice (bi_mem_off b) (bi_len b) bs.
Proof.
  intros Hb. destruct (chunks_hold_flat fs chunks 0 [] bs eq_refl Hok Hold) as [HF HL].
  destruct (wblock chunks bs Hok ltac:(lia) b Hb) as (? & ? & ? & ? & ? & Hz & _).
  rewrite Forall_forall in HF. specialize (HF b Hb). unfold block_holds in HF. cbn [app] in HF.
  assert (slice (bi_mem_off b) (bi_len b) bs ≠ []) by (intros E; rewrite E in Hz; unfold zlen in Hz; cbn in Hz; lia).
  pose proof (holds_at_length _ _ _ ltac:(eassumption) ltac:(done) HF) as Hl. rewrite Hz in Hl.
  split_and!; try lia. apply holds_at_slice in HF; [|done]. by rewrite Hz in HF.
Qed.
Lemma flat_mem chunks' : forall consumed, Forall chunk_ok chunks' ->
  List.ForallOrdPairs (fun x y => bi_mem_off x + bi_len x <= bi_mem_off y) (flat consumed chunks').
Proof.
  induction chunks' as [|ch chunks' IH]; intros consumed Hok'; [constructor|]. cbn [flatten_blocks].
  pose proof Hok' as [Hch Hr]%Forall_cons. apply FOP_app; [|by apply IH|].
  - destruct (segment_blocks_spec ch Hch) as [_ HB]. apply FOP_fmap. induction HB as [|p l Hp HB IHl]; constructor; [|done].
    eapply Forall_impl; [exact Hp|]. cbn. intros q [_ ?]. lia.
  - intros x y Hx Hy. destruct (elem_of_flat x [ch] consumed) as (_ & _ & _ & _ & _ & _ & _ & _ & Hx2);
      [by constructor|cbn; by rewrite app_nil_r|]. unfold lengths, total in Hx2. cbn in Hx2.
    destruct (elem_of_flat y chunks' _ Hr Hy) as (_ & _ & _ & _ & _ & _ & _ & Hy1 & _). lia.
Qed.
Lemma rmem b b' : b ∈ ios -> b' ∈ ios ->
  b = b' \/ bi_mem_off b + bi_len b <= bi_mem_off b' \/ bi_mem_off b' + bi_len b' <= bi_mem_off b.
Proof.
  intros Hb Hb'. destruct (List.ForallOrdPairs_In (flat_mem chunks 0 Hok) b b') as [?|[?|?]];
    [by apply list_elem_of_In..|auto|auto|auto].
Qed.
Lemma rstep_ok op blk buf res u n u1 ok u2 :
  ios !! blk = Some (op_io op) -> op_iolen op = roundup (bi_len (op_io op)) 4096 ->
  ur_pool u !! op_buf op = Some buf -> True -> nvme_block c <= zlen buf ->
  read_transfer op res u = (n, u1) -> read_accept ios blk (op_buf op) n u1 = (ok, u2) ->
  same_control u u2 /\ (forall bi, bi ≠ op_buf op -> ur_pool u2 !! bi = ur_pool u !! bi)
  /\ (forall b, ur_pool u2 !! op_buf op = Some b -> nvme_block c <= zlen b) /\ ur_fs u = ur_fs u2
  /\ (ok = true -> rfin (op_io op) (ur_fs u2) (ur_dst u2)
       /\ forall blk' b', blk' ≠ blk -> ios !! blk' = Some b' -> rfin b' (ur_fs u) (ur_dst u) ->
            rfin b' (ur_fs u2) (ur_dst u2)).
Proof.
  intros Hio HL Hbuf _ Hcap Et Ea. pose proof (list_elem_of_lookup_2 _ _ _ Hio) as Hb.
  destruct (rblock _ Hb) as (Hm0 & Hm1 & Hlen & Hoff & Hpad & Hz & Hfl & Hfs).
  unfold read_accept, block_at in Ea. rewrite Hio in Ea.
  change (default _ (Some (op_io op))) with (op_io op) in Ea. unfold read_transfer in Et. cbn zeta in Ea, Et. destruct (decide (res < 0)) as [Hres|Hres]; injection Et as <- <-.
  { rewrite decide_True in Ea by lia. injection Ea as <- <-.
    split_and!; try done. intros b E. rewrite Hbuf in E. by injection E as <-. }
  set (f := file_of _ _) in Ea. set (m := Z.max 0 _) in Ea.
  set (u1 := update ur_pool _ u) in Ea.
  assert (Hpool : ur_pool u1 !! op_buf op = Some (buf_write 0 (slice (bi_file_off (op_io op)) m f) buf)).
  { unfold u1. cbn. by rewrite list_lookup_alter_eq, Hbuf. }
  assert (Hoth : forall bi, bi ≠ op_buf op -> ur_pool u1 !! bi = ur_pool u !! bi).
  { intros bi Hne. unfold u1. cbn. by rewrite list_lookup_alter_ne by congruence. }
  assert (Hctl : same_control u u1) by (unfold same_control, u1; cbn; by rewrite length_alter).
  assert (Hcap1 : forall b, ur_pool u1 !! op_buf op = Some b -> nvme_block c <= zlen b).
  { intros b. rewrite Hpool. intros [= <-]. by rewrite zlen_buf_write. }
  case_decide as Hshort; injection Ea as <- <-; [split_and!; try done; apply Hctl|].
  split_and!; try done; try apply Hctl. intros _.
  unfold rfin. cbn. change (ur_fs u1) with (ur_fs u). change (ur_dst u1) with (ur_dst u).
  assert (Hgot : ur_fs u = fs -> slice 0 (bi_len (op_io op)) (pool_buf u1 (op_buf op))
                   = slice (bi_mem_off (op_io op)) (bi_len (op_io op)) bs).
  { intros Hfu. unfold pool_buf. rewrite Hpool. cbn [default]. unfold id.
    assert (Hf : f = file_of fs (bi_path (op_io op))) by (unfold f; by rewrite Hfu). rewrite <- Hf in *.
    assert (Hzm : zlen (slice (bi_file_off (op_io op)) m f) = m) by (apply zlen_slice; lia).
    pose proof (buf_write_same 0 (slice (bi_file_off (op_io op)) m f) buf ltac:(lia) ltac:(lia)) as Hw. rewrite Hzm in Hw.
    etrans; [symmetry; apply (slice_slice 0 m 0); lia|]. rewrite Hw, slice_slice, Z.add_0_r by lia. exact Hfs. }
  split.
  - intros Hfu Hrm. rewrite zlen_buf_write in Hrm. rewrite (Hgot Hfu). apply buf_write_holds; lia.
  - intros blk' b' _ Hb' Hh Hfu Hrm. rewrite zlen_buf_write in Hrm. apply list_elem_of_lookup_2 in Hb'.
    destruct (rblock _ Hb') as (? & ? & ? & _ & _ & Hz' & _). rewrite (Hgot Hfu).
    destruct (rmem _ _ Hb Hb') as [<-|Hd].
    + apply buf_write_holds; lia.
    + intros i Hi. rewrite buf_write_lookup_ne by lia. by apply Hh.
Qed.
End Read.

(** ** Reserving the regions *)
Definition fresh (o : list Z) (ch : NvmeChunk) : Prop :=
  exists i, 0 <= i < stripes /\ ch_path ch = stripe_path c i /\ default 0 (o !! Z.to_nat i) <= ch_offset ch.
Lemma reserved_chunk_ok st ch : reserved c st ch -> chunk_ok ch.
Proof. intros (i & _ & _ & ? & ? & _ & ? & ?). done. Qed.
Lemma open_stripes_spec segs : forall script chunks st ok chunks' st' s n,
  segs_ok c segs -> need segs <= n -> nvme_wf c st n ->
  open_stripes c script segs chunks st = Some (ok, chunks', st', s) ->
  evolves c st st' /\ nvme_wf c st' (n - need segs)
  /\ (ok = true -> exists new, chunks' = chunks ++ new /\ Forall (reserved c st') new
       /\ Forall (fresh (nv_offsets st)) new /\ List.ForallOrdPairs chunk_apart new
       /\ Forall (fun ch => is_Some (nv_fs st' !! ch_path ch)) new
       /\ lengths new = total segs.*2 /\ (length new <= length segs)%nat).
Proof.
  induction segs as [|[i seg] segs IH]; intros script chunks st ok chunks' st' s n Hok Hn Hw E.
  - injection E as <- <- <- <-. split_and!; [apply evolves_refl|by rewrite Z.sub_0_r|].
    intros _. exists []. rewrite app_nil_r. split_and!; done || constructor.
  - apply Forall_cons in Hok as [[Hi Hseg] Hok]. cbn in Hi, Hseg.
    change (total (((i, seg) :: segs).*2)) with (seg + total segs.*2).
    change (need ((i, seg) :: segs)) with (seg + 4096 + need segs) in *.
    pose proof (need_nonneg c segs Hok) as Hnn.
    cbn [open_stripes] in E. destruct (bool_decide (seg = 0) && bool_decide (i ≠ 0)) eqn:Hskip.
    + apply andb_true_iff in Hskip as [->%bool_decide_eq_true _].
      destruct (IH script chunks st ok chunks' st' s n) as (He & Hw' & H); [done|lia|done|done|].
      split_and!; [done|eapply nvme_wf_mono; [|done]; lia|]. intros Ht.
      destruct (H Ht) as (new & ? & ? & ? & ? & ? & ? & ?). exists new. split_and!; done || (cbn [length]; lia).
    + destruct (open_file true _ script _) as [[[opened fs1] s1]|] eqn:Eo; [|done]. cbn in E.
      destruct st as [fs o]. destruct (open_file_evolves c _ _ _ _ _ _ _ o Eo) as [He1 Hopen].
      assert (Hw1 : nvme_wf c (mkNvme fs1 o) n) by exact Hw.
      destruct opened; cbn in E; [|injection E as <- <- <- <-;
        split_and!; [done|eapply nvme_wf_mono; [|exact Hw1]; lia|done]].
      destruct (reserve_offset_spec c (mkNvme fs1 o) i seg n Hi Hseg ltac:(lia) Hw1) as (Hw2 & He2 & Ho2 & Hr2).
      set (st2 := (fetch_add_offset i _ _).2) in Hw2, He2, Ho2, Hr2.
      apply (IH _ _ _ _ _ _ _ (n - (seg + 4096))) in E as (He3 & Hw3 & H3); [|done|lia|exact Hw2].
      assert (He : evolves c (mkNvme fs o) st2) by (eapply evolves_trans; [exact He1|exact He2]).
      split_and!; [eapply evolves_trans; [exact He|exact He3]|eapply nvme_wf_mono; [|exact Hw3]; lia|].
      intros Ht. destruct (H3 Ht) as (new & -> & HR & HF & HP & HS & HL & Hlen).
      set (ch := mkChunk (stripe_path c i) (offset_at (mkNvme fs1 o) i) seg).
      exists (ch :: new). split_and!.
      * by rewrite <- (assoc_L (++)).
      * constructor; [|done]. eapply reserved_evolves; [exact He3|exact Hr2].
      * constructor; [exists i; split_and!; [lia|lia|done|apply Z.le_refl]|]. eapply Forall_impl; [exact HF|].
        intros x (j & Hj & Hp & Hle). exists j. split_and!; [lia|lia|done|]. destruct He2 as [Hm _].
        specialize (Hm j Hj). unfold offset_at in Hm. cbn in Hm. etrans; [exact Hm|exact Hle].
      * constructor; [|done]. eapply Forall_impl; [exact HF|]. intros x (j & Hj & Hp & Hle) Heq. left.
        cbn in Heq. rewrite Hp in Heq. apply (stripe_path_inj c Hc) in Heq as ->; [|done..].
        change (offset_at st2 j <= ch_offset x) in Hle. rewrite Ho2 in Hle. exact Hle.
      * constructor; [|done]. destruct (Hopen eq_refl) as [f Hf]. destruct He3 as [_ Hfs].
        destruct (Hfs (stripe_path c i) f) as (f' & Hf' & _); [exact Hf|]. cbn. by rewrite Hf'.
      * change (seg + lengths new = seg + total segs.*2). lia.
      * cbn [length]. lia.
Qed.

(** ** One write *)
(** There is room for the tensor, and it has fewer than 2^32 blocks. *)
Definition fits (st : Nvme) (src : list byte) : Prop :=
  nvme_wf c st (zlen src + 4096 * stripes) /\ zlen src < 2 ^ 63 /\ zlen src / nvme_block c + stripes < 2 ^ 32.
Definition segments (src : list byte) : list (Z * Z) :=
  imap (fun i s => (Z.of_nat i, s)) (stripe_segments stripes (zlen src)).
Lemma segments_spec src : zlen src < 2 ^ 63 ->
  segs_ok c (segments src) /\ need (segments src) = zlen src + 4096 * stripes
  /\ total (segments src).*2 = zlen src /\ Z.of_nat (length (segments src)) = stripes.
Proof.
  intros Hz. destruct (nc_stripes c Hc). pose proof (zlen_nonneg src).
  destruct (stripe_segments_total stripes (zlen src)) as (Ht & HF & HL); [lia..|].
  assert (Hsnd : (segments src).*2 = stripe_segments stripes (zlen src)).
  { unfold segments. apply list_eq. intros i. rewrite list_lookup_fmap, list_lookup_imap.
    by destruct (stripe_segments _ _ !! i). }
  split_and!.
  - apply Forall_lookup_2. intros i p. unfold segments. rewrite list_lookup_imap.
    destruct (stripe_segments stripes (zlen src) !! i) as [sg|] eqn:Es; [|done]. intros [= <-]. cbn.
    pose proof (lookup_lt_Some _ _ _ Es). split; [lia|]. by eapply Forall_lookup_1 in HF.
  - assert (Hneed : forall l : list (Z * Z), need l = total l.*2 + 4096 * Z.of_nat (length l)).
    { induction l as [|p l IH]; [done|]. change (need (p :: l)) with (p.2 + 4096 + need l).
      change (total (p :: l).*2) with (p.2 + total l.*2). cbn [length]. lia. }
    rewrite Hneed, Hsnd, Ht. unfold segments. rewrite length_imap, HL. lia.
  - by rewrite Hsnd.
  - unfold segments. rewrite length_imap. lia.
Qed.

Lemma write_pwrite_spec script src st ok chunks st' s : fits st src ->
  nvme_write_pwrite c script src st = Some (ok, chunks, st', s) ->
  evolves c st st' /\ nvme_wf c st' 0 /\ (ok = true -> stored c st' chunks src).
Proof.
  intros (Hw & Hz & _) E. destruct (segments_spec src Hz) as (Hok & Hneed & Htot & _).
  destruct (nc_stripes c Hc). pose proof (zlen_nonneg src).
  destruct script as [|[n| |] script]; [done|..]; cbn in E;
    [|injection E as <- <- <- <-; split_and!; [apply evolves_refl|eapply nvme_wf_mono; [|done]; lia|done]..].
  change (pwrite_segments c script (segments src) src 0 [] st = Some (ok, chunks, st', s)) in E.
  eapply pwrite_segments_spec in E as (He & Hw' & Hs); [|done|done|lia|lia| |exact Hw|by split].
  - split_and!; [done|eapply nvme_wf_mono; [|exact Hw']; lia|done].
  - lia.
Qed.
Lemma write_uring_spec script events garbage src st ok chunks st' : fits st src -> nvme_block c <= zlen garbage ->
  nvme_write_uring c script events garbage src st = Some (ok, chunks, st') ->
  evolves c st st' /\ nvme_wf c st' 0 /\ (ok = true -> stored c st' chunks src).
Proof.
  intros (Hw & Hz & Hblk) Hg E. destruct (segments_spec src Hz) as (Hok & Hneed & Htot & Hlen).
  unfold nvme_write_uring in E. change (imap _ _) with (segments src) in E.
  destruct (open_stripes c script (segments src) [] st) as [[[[ok1 ch1] st1] s1]|] eqn:Eo; [|done]. cbn in E.
  apply (open_stripes_spec _ _ _ _ _ _ _ _ (zlen src + 4096 * stripes)) in Eo as (He1 & Hw1 & Hnew); [|done|lia|done].
  rewrite Hneed, Z.sub_diag in Hw1.
  destruct ok1; cbn in E; [|injection E as <- <- <-; done].
  destruct (all_succeed _ s1) as [[ok2 s2]|]; [|done]. cbn in E.
  destruct ok2; cbn in E; [|injection E as <- <- <-; done].
  destruct (Hnew eq_refl) as (new & -> & HR & HF & HP & HS & HL & Hn). cbn [app] in *.
  assert (Hcok : Forall chunk_ok new) by (eapply Forall_impl; [exact HR|]; intros ?; apply reserved_chunk_ok).
  destruct (uring_loop _ _ _ _ _ events _) as [[ok3 u]|] eqn:El; [|done]. cbn in E. injection E as <- <- <-.
  assert (Hios : Z.of_nat (length (flat 0 new)) < 2 ^ 32).
  { pose proof (length_flat new 0 Hcok) as Hlf. rewrite HL, Htot in Hlf. lia. }
  assert (Hls : lengths new <= zlen src) by lia.
  eapply (uring_loop_spec (queue_depth c) (nvme_block c) (flat 0 new) (write_prep src) (wprepared src)
    (fun b fs _ => block_holds fs src b) depth_bounds Hios (wprep_ok new src Hcok Hls)
    (wframe (nv_offsets st)) (wframe_preorder _) write_transfer (write_accept (flat 0 new))
    (wstep_ok new (nv_offsets st) src Hcok HP Hls HF)) in El as [Hfr Hfin]; [|by apply uinv_start].
  cbn in Hfr. assert (He2 : evolves c st (st1 <| nv_fs := ur_fs u |>)).
  { destruct st as [fs o], st1 as [fs1 o1]. destruct He1 as [Ho1 Hf1], Hfr as [_ Hf2]. split; [exact Ho1|].
    intros path f Hf. destruct (Hf1 path f Hf) as (f1 & Hf1' & H1). destruct (Hf2 path f1 Hf1') as (f2 & Hf2' & H2).
    exists f2. split; [exact Hf2'|]. intros k b Hk Hb Hlt. apply H2; [done|by apply H1|exact Hlt]. }
  split_and!; [done|exact Hw1|]. intros Ht. specialize (Hfin Ht). split; [|exact HR].
  replace src with (slice 0 (lengths new) src) by (rewrite HL, Htot; apply slice_all).
  apply flat_holds; [done|done| |lia|by apply Forall_forall].
  eapply Forall_impl; [exact HS|]. intros ch [f Hf]. destruct Hfr as [_ Hfr].
  destruct (Hfr _ _ Hf) as (f' & Hf' & _). by exists f'.
Qed.
End Store.
