(* ===== verification/ColdProps.v ===== *)
(** * The cold tiers keep what they are given

    A tensor drained to the pageable or to the NVMe tier is read back unchanged,
    whatever was drained after it and whichever engine reads it; and with a kernel
    that serves every call the engines return. *)
From stdpp Require Import base gmap strings list fin_maps list_numbers relations.
From Stdlib Require Import ZArith Lia Strings.Byte.
From S2P Require Import Prelude.
From S2P Require Import Files.
From S2P Require Import State.
From S2P Require Import Alloc.
From S2P Require Import Drain.
From S2P Require Import Nvme.
From S2P Require Import NvmeProps.
From S2P Require Import NvmeUring.
From S2P Require Import NvmeStore.
Open Scope Z_scope.
Open Scope offload_scope.
#[local] Arguments all_succeed : simpl never.

Section Cold.
Context (c : DaemonConfig) (Hc : nvme_config_ok c).
#[local] Abbreviation stripes := (nvme_stripe_count c).
#[local] Abbreviation flat := (flatten_blocks (nvme_block c)).

(** ** Reading an entry *)
(** An entry as the writers make it: stored, and with at most one chunk per
    stripe. *)
Definition entry_ok (st : Nvme) (chunks : list NvmeChunk) (bs : list byte) : Prop :=
  stored c st chunks bs /\ Z.of_nat (length chunks) <= stripes /\ zlen bs / nvme_block c + stripes < 2 ^ 32.
Lemma stored_chunks_ok st chunks bs : stored c st chunks bs -> Forall chunk_ok chunks.
Proof. intros [_ H]. eapply Forall_impl; [exact H|]. intros ?. apply reserved_chunk_ok. Qed.

Lemma fill_pipe_dst qd prep ios free : forall u pending,
  ur_dst (fill_pipe qd prep ios free u pending).1 = ur_dst u.
Proof.
  induction free as [|bi free IH]; intros u pending; cbn [fill_pipe]; [done|].
  case_decide; [|done]. destruct (ios !! ur_next u); [|done]. by rewrite IH.
Qed.
Lemma read_loop_dst qd prep ios script : forall u ok u',
  uring_loop qd prep ios read_transfer (read_accept ios) script u = Some (ok, u') ->
  zlen (ur_dst u') = zlen (ur_dst u).
Proof.
  induction script as [|e script IH]; intros u ok u'; cbn [uring_loop]; case_decide;
    [done|by intros [= <- <-]| |by intros [= <- <-]].
  pose proof (fill_pipe_dst qd prep ios (ur_free u) u []) as Hf.
  destruct (fill_pipe _ _ _ _ u []) as [u1 pend]. cbn in Hf.
  destruct e as [k res|]; [|intros [= <- <-]; by rewrite Hf].
  destruct (ur_inflight _ !! _) as [op|]; [|done].
  destruct (read_transfer op res _) as [n u2] eqn:Et.
  assert (Hd2 : ur_dst u2 = ur_dst u).
  { unfold read_transfer in Et. case_decide; injection Et as <- <-; exact Hf. }
  destruct (read_accept ios _ _ n u2) as [ok1 u3] eqn:Ea.
  assert (Hd3 : zlen (ur_dst u3) = zlen (ur_dst u)).
  { unfold read_accept in Ea. case_decide; injection Ea as <- <-; cbn; by rewrite ?zlen_buf_write, Hd2. }
  destruct ok1; [intros E%IH; cbn in E; lia|]. intros [= <- <-]. exact Hd3.
Qed.
(** Blocks that stand at their places make up the whole. *)
Lemma flat_mem_holds dst bs chunks : forall consumed, 0 <= consumed -> Forall chunk_ok chunks ->
  consumed + lengths chunks <= zlen bs ->
  Forall (fun b => holds_at dst (bi_mem_off b) (slice (bi_mem_off b) (bi_len b) bs)) (flat consumed chunks) ->
  holds_at dst consumed (slice consumed (lengths chunks) bs).
Proof.
  induction chunks as [|ch chunks IH]; intros consumed Hcs Hok Hlen HF; [apply holds_at_nil|].
  pose proof Hok as [Hch Hok']%Forall_cons. pose proof (lengths_nonneg _ Hok') as Hpos.
  change (lengths (ch :: chunks)) with (ch_length ch + lengths chunks) in *.
  cbn [flatten_blocks] in HF. apply Forall_app in HF as [H1 H2]. rewrite Forall_fmap in H1.
  destruct (segment_blocks_spec c Hc ch Hch) as [HFb _]. destruct Hch as (Ho & Hl & Hd & Hb).
  rewrite slice_split by lia. apply holds_at_app; [done|]. rewrite zlen_slice by lia.
  split; [|apply IH; done || lia].
  set (P := fun o n => 0 <= o -> o + n <= ch_length ch -> holds_at dst (consumed + o) (slice (consumed + o) n bs)).
  assert (HP : P 0 (ch_length ch)).
  { apply (segment_cover c Hc); [done|intros o _ _; apply holds_at_nil| |].
    - intros o n m Hn Hm Pn Pm Ho0 Hle. rewrite slice_split by lia. apply holds_at_app; [lia|].
      rewrite zlen_slice by lia. split; [apply Pn; lia|].
      rewrite <- !Z.add_assoc. apply Pm; lia.
    - eapply Forall_impl; [exact H1|]. intros p Hp _ _. exact Hp. }
  specialize (HP ltac:(lia) ltac:(lia)). by rewrite !Z.add_0_r in HP.
Qed.

Lemma read_uring_spec script events garbage st chunks bs dst dst' : entry_ok st chunks bs ->
  zlen bs <= zlen dst -> nvme_block c <= zlen garbage ->
  nvme_read_uring c script events garbage chunks dst (nv_fs st) = Some (true, dst') ->
  slice 0 (zlen bs) dst' = bs.
Proof.
  intros (Hst & Hn & Hb) Hroom Hg E. pose proof (stored_chunks_ok _ _ _ Hst) as Hok. destruct Hst as [Hh _].
  destruct (chunks_hold_flat c Hc (nv_fs st) chunks 0 [] bs eq_refl Hok Hh) as [_ HL].
  unfold nvme_read_uring in E.
  destruct (open_chunks script chunks _) as [[[] s1]|]; [cbn in E|done..].
  destruct (all_succeed _ s1) as [[[] s2]|]; [cbn in E|done..].
  destruct (uring_loop _ _ _ _ _ events _) as [[ok u]|] eqn:El; [|done]. cbn in E. injection E as -> <-.
  assert (Hios : Z.of_nat (length (flat 0 chunks)) < 2 ^ 32).
  { pose proof (length_flat c Hc chunks 0 Hok) as Hlf. rewrite HL in Hlf. lia. }
  pose proof (read_loop_dst _ _ _ _ _ _ _ El) as Hd. cbn in Hd.
  eapply (uring_loop_spec (queue_depth c) (nvme_block c) (flat 0 chunks) (fun _ buf => buf) (fun _ _ => True)
    (rfin (nv_fs st) bs (zlen dst)) (depth_bounds c Hc) Hios (fun _ _ _ _ => conj Logic.I eq_refl)
    eq (Equivalence_PreOrder eq_equivalence) read_transfer (read_accept (flat 0 chunks))
    (rstep_ok c Hc chunks (nv_fs st) bs (zlen dst) Hok Hh Hroom)) in El as [Hfs Hfin]; [|by apply uinv_start].
  specialize (Hfin eq_refl). cbn in Hfs. apply holds_at_slice; [lia|].
  rewrite <- (slice_all bs), <- HL. apply flat_mem_holds; [lia|done|lia|].
  apply Forall_forall. intros b Hbin. apply (Hfin b Hbin); congruence.
Qed.

(** Every system call of the script succeeds. *)
Definition calls_succeed (script : list sysres) : Prop := Forall (fun r => exists n, r = SysOk n) script.
Lemma pread_loop_clean script f roff bpad : forall r abuf ok abuf' s, calls_succeed script ->
  pread_loop script f roff bpad r abuf = Some (ok, abuf', s) -> ok = true /\ calls_succeed s.
Proof.
  induction script as [|x script IH]; intros r abuf ok abuf' s Hs; cbn [pread_loop]; case_decide;
    try (by intros [= <- <- <-]).
  apply Forall_cons in Hs as [[n ->] Hs]. case_decide; [by intros [= <- <- <-]|by apply IH].
Qed.
Lemma read_blocks_clean blocks f offset consumed : forall script abuf dst ok abuf' dst' s, calls_succeed script ->
  read_blocks script blocks f offset consumed abuf dst = Some (ok, abuf', dst', s) -> ok = true /\ calls_succeed s.
Proof.
  induction blocks as [|[off len] blocks IH]; intros script abuf dst ok abuf' dst' s Hs; cbn [read_blocks].
  - by intros [= <- <- <- <-].
  - destruct (pread_loop script _ _ _ 0 abuf) as [[[ok1 a1] s1]|] eqn:E1; [|done].
    apply pread_loop_clean in E1 as [-> Hs1]; [|done]. cbn. by apply IH.
Qed.
Lemma pread_chunks_clean block chunks fs : forall script consumed abuf dst ok n dst' s, calls_succeed script ->
  Forall (fun ch => is_Some (fs !! ch_path ch)) chunks ->
  pread_chunks block script chunks fs true consumed abuf dst = Some (ok, n, dst', s) -> ok = true.
Proof.
  induction chunks as [|ch chunks IH]; intros script consumed abuf dst ok n dst' s Hs HF; cbn [pread_chunks].
  - by intros [= <- <- <- <-].
  - apply Forall_cons in HF as [[f Hf] HF]. destruct script as [|x script]; [done|].
    apply Forall_cons in Hs as [[m ->] Hs]. cbn [open_file]. rewrite Hf. cbn.
    destruct (read_blocks script _ _ _ _ _ _) as [[[[ok1 a1] d1] s1]|] eqn:E1; [|done].
    apply read_blocks_clean in E1 as [-> Hs1]; [|done]. cbn. by apply IH.
Qed.
Lemma chunks_hold_exist fs chunks : forall bs, chunks_hold fs chunks bs ->
  Forall (fun ch => is_Some (fs !! ch_path ch)) chunks.
Proof. induction chunks as [|ch chunks IH]; intros bs; [constructor|]. intros (b1 & b2 & f & _ & _ & Hf & _ & H). constructor; [by exists f|by eapply IH]. Qed.

Lemma read_pwrite_spec script garbage st chunks bs dst ok dst' s : entry_ok st chunks bs ->
  zlen bs <= zlen dst -> nvme_block c <= zlen garbage -> calls_succeed script ->
  nvme_read_pwrite c script garbage chunks dst (nv_fs st) = Some (ok, dst', s) -> slice 0 (zlen bs) dst' = bs.
Proof.
  intros (Hst & _) Hroom Hg Hs E. destruct script as [|x script]; [done|]. apply Forall_cons in Hs as [[n ->] Hs].
  cbn in E. destruct (pread_chunks _ script _ _ _ _ _ _) as [[[[ok1 m] d1] s1]|] eqn:E1; [|done].
  cbn in E. injection E as <- <- <-.
  pose proof (pread_chunks_clean _ _ _ _ _ _ _ _ _ _ _ Hs (chunks_hold_exist _ _ _ (proj1 Hst)) E1) as ->.
  rewrite (pread_chunks_spec c Hc st chunks bs Hst _ _ _ _ _ _ _ _ (Z.le_refl 0) Hg E1 eq_refl).
  apply buf_write_same; lia.
Qed.

(** ** Writing an entry *)
Lemma pwrite_segments_length segs src : forall script consumed chunks st ok chunks' st' s,
  pwrite_segments c script segs src consumed chunks st = Some (ok, chunks', st', s) ->
  (length chunks' <= length chunks + length segs)%nat.
Proof.
  induction segs as [|[i seg] segs IH]; intros script consumed chunks st ok chunks' st' s; cbn [pwrite_segments].
  - intros [= <- <- <- <-]. lia.
  - destruct (_ && _); [intros E%IH; cbn [length]; lia|].
    destruct (open_file _ _ script _) as [[[[] ?] s1]|]; cbn; [| |done]; [|intros [= <- <- <- <-]; lia].
    destruct (write_blocks s1 _ _ _ _) as [[[[] ?] s2]|]; cbn; [| |done]; [|intros [= <- <- <- <-]; lia].
    intros E%IH. rewrite length_app in E. cbn [length] in *. lia.
Qed.
Lemma open_stripes_length segs : forall script chunks st ok chunks' st' s,
  open_stripes c script segs chunks st = Some (ok, chunks', st', s) ->
  (length chunks' <= length chunks + length segs)%nat.
Proof.
  induction segs as [|[i seg] segs IH]; intros script chunks st ok chunks' st' s; cbn [open_stripes].
  - intros [= <- <- <- <-]. lia.
  - destruct (_ && _); [intros E%IH; cbn [length]; lia|].
    destruct (open_file _ _ script _) as [[[[] ?] s1]|]; cbn; [| |done]; [|intros [= <- <- <- <-]; lia].
    intros E%IH. rewrite length_app in E. cbn [length] in *. lia.
Qed.
Lemma nvme_write_length k src st ok chunks st' : zlen src < 2 ^ 63 ->
  nvme_write c k src st = Some (ok, chunks, st') -> Z.of_nat (length chunks) <= stripes.
Proof.
  intros Hz. destruct (segments_spec c Hc src Hz) as (_ & _ & _ & Hl). unfold segments in Hl. destruct (nc_stripes c Hc).
  unfold nvme_write. destruct (use_uring_engine c).
  - unfold nvme_write_uring. destruct (open_stripes _ _ _ _ _) as [[[[ok1 ch] st1] s1]|] eqn:Eo; [|done].
    apply open_stripes_length in Eo. cbn in Eo. cbn.
    destruct ok1; [|intros [= <- <- <-]; lia]. cbn.
    destruct (all_succeed _ s1) as [[[] s2]|]; cbn; [|intros [= <- <- <-]; lia|done].
    destruct (uring_loop _ _ _ _ _ _ _) as [[ok3 u]|]; cbn; [intros [= <- <- <-]; lia|done].
  - unfold nvme_write_pwrite. destruct (k_script k) as [|[m| |] script]; [done|..]; cbn;
      [|intros [= <- <- <-]; cbn; lia..].
    destruct (pwrite_segments _ _ _ _ _ _ _) as [[[[ok1 ch] st1] s1]|] eqn:Eo; [|done]. cbn. intros [= <- <- <-].
    apply pwrite_segments_length in Eo. cbn in Eo. lia.
Qed.
Lemma nvme_write_spec k src st ok chunks st' : fits c st src -> nvme_block c <= zlen (k_garbage k) ->
  nvme_write c k src st = Some (ok, chunks, st') ->
  evolves c st st' /\ nvme_wf c st' 0 /\ (ok = true -> entry_ok st' chunks src).
Proof.
  intros Hf Hg E. pose proof (nvme_write_length _ _ _ _ _ _ ltac:(by destruct Hf as (_ & ? & _)) E) as Hl.
  assert (Hspec : evolves c st st' /\ nvme_wf c st' 0 /\ (ok = true -> stored c st' chunks src)).
  { unfold nvme_write in E. destruct (use_uring_engine c); [by eapply write_uring_spec|].
    destruct (nvme_write_pwrite _ _ _ _) as [[[[ok1 ch1] st1] s1]|] eqn:Ew; [|done]. cbn in E. injection E as <- <- <-.
    by eapply write_pwrite_spec. }
  destruct Hspec as (He & Hw & Hs). split_and!; [done..|]. intros Ht. split_and!; [by apply Hs|done|by apply Hf].
Qed.
Lemma entry_ok_evolves st st' chunks bs : evolves c st st' -> entry_ok st chunks bs -> entry_ok st' chunks bs.
Proof. intros He (Hs & ? & ?). split_and!; [by eapply stored_evolves|done..]. Qed.
Lemma nvme_read_spec k st chunks bs dst dst' : entry_ok st chunks bs -> zlen bs <= zlen dst ->
  nvme_block c <= zlen (k_garbage k) -> (use_uring_engine c = true \/ calls_succeed (k_script k)) ->
  nvme_read c k chunks dst (nv_fs st) = Some (true, dst') -> slice 0 (zlen bs) dst' = bs.
Proof.
  intros He Hr Hg Hk E. unfold nvme_read in E. destruct (use_uring_engine c); [by eapply read_uring_spec|].
  destruct Hk as [?|Hk]; [done|].
  destruct (nvme_read_pwrite _ _ _ _ _ _) as [[[ok1 d1] s1]|] eqn:Er; [|done]. cbn in E. injection E as -> <-.
  by eapply read_pwrite_spec.
Qed.

(** ** Executions of the cold tiers *)
(** One drain, successful or not.  [malloc] returns memory that is not in use. *)
Definition drain_step (w w' : ColdWorld) : Prop :=
  exists k buf src ok cold, nvme_block c <= zlen (k_garbage k) /\ fits c (cw_nvme w) src
    /\ (forall a, buf = Some a -> cw_heap w !! a = None) /\ drain_copy c k buf src w = Some (ok, cold, w').
Definition entry_holds (w : ColdWorld) (cold : ColdEntry) (bs : list byte) : Prop :=
  match co_kind cold with
  | LOC_PAGEABLE => exists a, co_pageable cold = Some a /\ cw_heap w !! a = Some bs
  | LOC_NVME => entry_ok (cw_nvme w) (co_nvme_chunks cold) bs
  | _ => False
  end.
Lemma drain_copy_holds k buf src w cold w' : fits c (cw_nvme w) src -> nvme_block c <= zlen (k_garbage k) ->
  drain_copy c k buf src w = Some (true, cold, w') -> entry_holds w' cold src.
Proof.
  intros Hf Hg. unfold drain_copy. destruct (drain_wants_pageable c).
  - destruct buf as [a|]; [|done]. intros [= <- <-]. exists a. cbn. by rewrite lookup_insert_eq.
  - destruct (nvme_write c k src (cw_nvme w)) as [[[ok chunks] st]|] eqn:E; [|done]. cbn. intros [= -> <- <-].
    apply nvme_write_spec in E as (_ & _ & H); [|done..]. by apply H.
Qed.
Lemma drain_step_holds w w' cold bs : drain_step w w' -> entry_holds w cold bs -> entry_holds w' cold bs.
Proof.
  intros (k & buf & src & ok & cold' & Hg & Hf & Hfresh & E). unfold drain_copy in E.
  destruct (drain_wants_pageable c).
  - destruct buf as [a|]; injection E as <- <- <-; [|done]. unfold entry_holds. destruct (co_kind cold); try done.
    intros (a' & Ha & Hb). exists a'. split; [done|]. cbn. rewrite lookup_insert_ne; [done|].
    intros ->. by rewrite (Hfresh a' eq_refl) in Hb.
  - destruct (nvme_write c k src (cw_nvme w)) as [[[ok1 chunks] st]|] eqn:E1; [|done]. cbn in E. injection E as <- <- <-.
    apply nvme_write_spec in E1 as (He & _ & _); [|done..]. unfold entry_holds. destruct (co_kind cold); try done.
    by apply entry_ok_evolves.
Qed.
Lemma drain_steps_hold w w' cold bs : rtc drain_step w w' -> entry_holds w cold bs -> entry_holds w' cold bs.
Proof. induction 1; [done|]. intros. eauto using drain_step_holds. Qed.
Lemma readback_copy_holds k cold bs dst w dst' : entry_holds w cold bs -> zlen bs <= zlen dst ->
  nvme_block c <= zlen (k_garbage k) -> (use_uring_engine c = true \/ calls_succeed (k_script k)) ->
  readback_copy c k cold (zlen bs) dst w = Some (true, dst') -> slice 0 (zlen bs) dst' = bs.
Proof.
  intros H Hr Hg Hk. unfold entry_holds in H. unfold readback_copy. destruct (co_kind cold); try done.
  - destruct H as (a & -> & Ha). rewrite Ha. cbn. unfold id. rewrite slice_all. intros [= <-]. by apply buf_write_same.
  - by eapply nvme_read_spec.
Qed.

(** ** A kernel that serves every call

    Every call succeeds and transfers all it is asked for, and there are at least
    [N] of them. *)
Definition full_call (r : sysres) : Prop := exists n, r = SysOk n /\ 2 ^ 64 <= n.
Definition serves (N : nat) (k : Kernel) : Prop :=
  Forall full_call (k_script k) /\ Forall full_event (k_events k)
  /\ (N <= length (k_script k))%nat /\ (N <= length (k_events k))%nat /\ nvme_block c <= zlen (k_garbage k).
Lemma full_calls_succeed script : Forall full_call script -> calls_succeed script.
Proof. intros H. eapply Forall_impl; [exact H|]. intros r (n & -> & _). by exists n. Qed.
Lemma open_file_full create path script fs : Forall full_call script -> script ≠ [] ->
  (create = true \/ is_Some (fs !! path)) -> exists fs', open_file create path script fs = Some (true, fs', tail script).
Proof.
  intros [|x l (n & -> & _) Hl] Hne Hp; [done|]. cbn. destruct (fs !! path) eqn:E; [eauto|].
  destruct Hp as [->|[? ?]]; [eauto|done].
Qed.
Lemma pwrite_loop_full script buf woff f : Forall full_call script -> script ≠ [] -> 0 < zlen buf < 2 ^ 64 ->
  exists f', pwrite_loop script buf woff 0 f = Some (true, f', tail script).
Proof.
  intros [|x l (n & -> & Hn) Hl] Hne Hz; [done|]. cbn [pwrite_loop tail]. rewrite decide_True by lia.
  replace (0 + Z.max 0 (Z.min n (zlen buf - 0))) with (zlen buf) by lia.
  destruct l; cbn [pwrite_loop]; rewrite decide_False by lia; eauto.
Qed.
Lemma write_blocks_full seg base blocks : forall script f, Forall full_call script ->
  (length blocks <= length script)%nat -> zlen seg < 2 ^ 63 ->
  Forall (fun p => 0 <= p.1 /\ 0 < p.2 /\ p.1 + p.2 <= zlen seg) blocks ->
  exists f', write_blocks script blocks seg base f = Some (true, f', drop (length blocks) script).
Proof.
  induction blocks as [|[off len] blocks IH]; intros script f Hs Hl Hz HF; [cbn; eauto|].
  apply Forall_cons in HF as [(Ho & Hlen & Hsum) HF]. cbn in Ho, Hlen, Hsum. cbn [length] in Hl.
  assert (Hzs : zlen (slice off len seg) = len) by (apply zlen_slice; lia).
  destruct (pwrite_loop_full script (bounce (slice off len seg)) (u64 (base + off)) f) as [f1 E1];
    [done|intros ->; cbn in Hl; lia|rewrite zlen_bounce, Hzs by lia; pose proof (roundup_spec len 4096 ltac:(lia) ltac:(lia) ltac:(lia)); lia|].
  cbn [write_blocks]. rewrite E1. cbn. destruct script as [|x script]; [cbn in Hl; lia|]. cbn [tail].
  apply Forall_cons in Hs as [_ Hs]. destruct (IH script f1) as [f2 E2]; [done|cbn in Hl; lia|done|done|]. eauto.
Qed.
Definition calls_for (segs : list (Z * Z)) : nat :=
  foldr (fun p n => 1 + length (segment_blocks (nvme_block c) p.2) + n)%nat 0%nat segs.
Lemma pwrite_segments_full src segs : forall script consumed chunks st, Forall full_call script ->
  (calls_for segs <= length script)%nat -> segs_ok c segs -> 0 <= consumed -> consumed + total segs.*2 = zlen src ->
  zlen src + 4096 < 2 ^ 63 -> exists chunks' st' s, pwrite_segments c script segs src consumed chunks st = Some (true, chunks', st', s).
Proof.
  induction segs as [|[i seg] segs IH]; intros script consumed chunks st Hs Hl Hok Hcs Htot Hz; [cbn; eauto|].
  apply Forall_cons in Hok as [[Hi Hseg] Hok]. cbn in Hi, Hseg.
  change (S (length (segment_blocks (nvme_block c) seg) + calls_for segs) <= length script)%nat in Hl.
  change (total (((i, seg) :: segs).*2)) with (seg + total segs.*2) in Htot.
  assert (Htn : 0 <= total segs.*2).
  { clear -Hok. induction Hok as [|p l [? ?] ? IH]; [done|]. change (0 <= p.2 + total l.*2). lia. }
  cbn [pwrite_segments]. destruct (_ && _) eqn:Hskip.
  { apply andb_true_iff in Hskip as [->%bool_decide_eq_true _]. apply IH; done || lia. }
  destruct (open_file_full true (stripe_path c i) script (nv_fs st)) as [fs' Eo]; [done|intros ->; cbn in Hl; lia|by left|].
  rewrite Eo. cbn. destruct script as [|x script]; [cbn in Hl; lia|]. apply Forall_cons in Hs as [_ Hs]. cbn [tail length] in Hl |- *.
  assert (Hzs : zlen (slice consumed seg src) = seg) by (apply zlen_slice; lia).
  destruct (segment_blocks_spec c Hc (mkChunk EmptyString 0 seg)) as [HFb _];
    [split_and!; cbn; lia || apply Z.divide_0_r|]. cbn in HFb.
  edestruct (write_blocks_full (slice consumed seg src)) as [f1 E1]; [exact Hs| |lia| |rewrite E1]; [lia| |].
  - eapply Forall_impl; [exact HFb|]. intros p (? & ? & ? & ?). lia.
  - cbn. apply IH; [by apply Forall_drop|rewrite length_drop; lia|done|lia|lia|done].
Qed.
Lemma all_succeed_full n : forall script, Forall full_call script -> (n <= length script)%nat ->
  all_succeed n script = Some (true, drop n script).
Proof.
  induction n as [|n IH]; intros script Hs Hl; [done|]. destruct script as [|x script]; [cbn in Hl; lia|].
  apply Forall_cons in Hs as [(m & -> & _) Hs]. cbn. apply IH; [done|cbn in Hl; lia].
Qed.
Lemma open_stripes_full segs : forall script chunks st, Forall full_call script -> (length segs <= length script)%nat ->
  exists chunks' st' s, open_stripes c script segs chunks st = Some (true, chunks', st', s)
    /\ Forall full_call s /\ (length script <= length s + length segs)%nat.
Proof.
  induction segs as [|[i seg] segs IH]; intros script chunks st Hs Hl; [cbn; do 3 eexists; split_and!; [done|done|lia]|].
  cbn [length] in Hl. cbn [open_stripes]. destruct (_ && _).
  { destruct (IH script chunks st) as (? & ? & ? & E & ? & ?); [done|lia|]. rewrite E. do 3 eexists. split_and!; [done|done|cbn [length]; lia]. }
  destruct (open_file_full true (stripe_path c i) script (nv_fs st)) as [fs' Eo]; [done|intros ->; cbn in Hl; lia|by left|].
  rewrite Eo. cbn. destruct script as [|x script]; [cbn in Hl; lia|]. apply Forall_cons in Hs as [_ Hs]. cbn [tail length] in *.
  edestruct IH as (? & ? & ? & E & ? & ?); [exact Hs|lia|]. rewrite E. do 3 eexists. split_and!; [done|done|lia].
Qed.

Lemma write_uring_completes st src : fits c st src -> forall script events garbage,
  Forall full_call script -> Forall full_event events -> nvme_block c <= zlen garbage ->
  (length (segments c src) + S (queue_depth c) <= length script)%nat ->
  zlen src / nvme_block c + stripes <= Z.of_nat (length events) ->
  exists chunks st', nvme_write_uring c script events garbage src st = Some (true, chunks, st').
Proof.
  intros (Hw & Hz & Hblk) script events garbage Hs He Hg Hl Hle.
  destruct (segments_spec c Hc src Hz) as (Hok & Hneed & Htot & Hlen).
  unfold nvme_write_uring. change (imap _ _) with (segments c src).
  destruct (open_stripes_full (segments c src) script [] st) as (ch1 & st1 & s1 & Eo & Hs1 & Hl1); [done|lia|].
  rewrite Eo. cbn. rewrite all_succeed_full by (done || lia). cbn.
  apply (open_stripes_spec c Hc _ _ _ _ _ _ _ _ (zlen src + 4096 * stripes)) in Eo as (He1 & Hw1 & Hnew); [|done|lia|done].
  destruct (Hnew eq_refl) as (new & -> & HR & HF & HP & HS & HL & Hn). cbn [app] in *.
  assert (Hcok : Forall chunk_ok new) by (eapply Forall_impl; [exact HR|]; intros ?; apply reserved_chunk_ok).
  pose proof (length_flat c Hc new 0 Hcok) as Hlf. rewrite HL, Htot in Hlf.
  assert (Hls : lengths new <= zlen src) by lia.
  edestruct (uring_loop_completes (queue_depth c) (nvme_block c) (flat 0 new) (write_prep src) (wprepared src)
    (fun b fs _ => block_holds fs src b) (depth_bounds c Hc) ltac:(lia) (wprep_ok c Hc new src Hcok Hls)
    (wframe c (nv_offsets st)) (wframe_preorder c _) write_transfer (write_accept (flat 0 new))
    (wstep_ok c Hc new (nv_offsets st) src Hcok HP Hls HF) (nv_fs st1)
    (fun op blk buf res u n u1 ok u2 A B C D E _ => wfull c Hc new src Hcok Hls op blk buf res u n u1 ok u2 A B C D E)
    events (uring_start c garbage (nv_fs st1) [])) as [u' El];
    [by apply uinv_start|apply evolves_refl|done|cbn; lia|]. rewrite El. cbn. eauto.
Qed.
Lemma nvme_write_completes st src : fits c st src -> exists N, forall k, serves N k ->
  exists chunks st', nvme_write c k src st = Some (true, chunks, st').
Proof.
  intros Hf. pose proof Hf as (Hw & Hz & Hblk).
  destruct (segments_spec c Hc src Hz) as (Hok & Hneed & Htot & Hlen).
  exists (S (length (segments c src) + S (queue_depth c) + calls_for (segments c src)
             + Z.to_nat (zlen src / nvme_block c + stripes)))%nat.
  intros k (Hs & He & Hls & Hle & Hg). unfold nvme_write. destruct (use_uring_engine c).
  - apply write_uring_completes; [done|done|done|done|lia|lia].
  - unfold nvme_write_pwrite. change (imap _ _) with (segments c src).
    destruct (k_script k) as [|x script]; [cbn in Hls; lia|]. apply Forall_cons in Hs as [(n & -> & _) Hs].
    edestruct (pwrite_segments_full src (segments c src) script 0 [] st) as (ch & st' & s' & E);
      [done|cbn in Hls; lia|done|done|lia| |rewrite E; cbn; eauto].
    destruct Hw as [_ Hw]. destruct (nc_stripes c Hc). destruct (Hw 0 ltac:(lia)) as (? & _ & ?). lia.
Qed.

(** Reading. *)
Lemma pread_loop_full script f roff bpad abuf : Forall full_call script -> (2 <= length script)%nat -> bpad < 2 ^ 64 ->
  exists a' s', pread_loop script f roff bpad 0 abuf = Some (true, a', s') /\ Forall full_call s'
    /\ (length script <= length s' + 2)%nat.
Proof.
  intros Hs Hl Hb. destruct script as [|x1 [|x2 script]]; cbn in Hl; [lia|lia|].
  apply Forall_cons in Hs as [(n1 & -> & H1) Hs]. apply Forall_cons in Hs as [(n2 & -> & H2) Hs].
  assert (Hs2 : Forall full_call (SysOk n2 :: script)) by (constructor; [by exists n2|done]).
  assert (Hs1 : Forall full_call (SysOk n1 :: SysOk n2 :: script)) by (constructor; [by exists n1|done]).
  cbn [pread_loop]. destruct (decide (0 < bpad)); [|do 2 eexists; split_and!; [done|done|cbn; lia]].
  destruct (decide (zlen f - (roff + 0) <= 0)); [do 2 eexists; split_and!; [done|done|cbn; lia]|].
  destruct (decide (0 + Z.min (Z.max 1 n1) (Z.min (zlen f - (roff + 0)) (bpad - 0)) < bpad)) as [Hlt|Hge].
  - rewrite decide_True by lia. do 2 eexists. split_and!; [done|done|cbn; lia].
  - do 2 eexists. split_and!; [done|done|cbn; lia].
Qed.
Lemma read_blocks_full f offset consumed blocks : forall script abuf dst, Forall full_call script ->
  (2 * length blocks <= length script)%nat -> Forall (fun p => roundup p.2 4096 < 2 ^ 64) blocks ->
  exists a' d' s', read_blocks script blocks f offset consumed abuf dst = Some (true, a', d', s')
    /\ Forall full_call s' /\ (length script <= length s' + 2 * length blocks)%nat.
Proof.
  induction blocks as [|[off len] blocks IH]; intros script abuf dst Hs Hl HF; [cbn; do 3 eexists; split_and!; [done|done|lia]|].
  apply Forall_cons in HF as [Hlen HF]. cbn [length] in Hl. cbn in Hlen.
  destruct (pread_loop_full script f (u64 (offset + off)) (roundup len 4096) abuf) as (a1 & s1 & E1 & Hs1 & Hl1); [done|lia|done|].
  cbn [read_blocks]. rewrite E1. cbn.
  edestruct (IH s1) as (a2 & d2 & s2 & E2 & Hs2 & Hl2); [done|lia|done|]. rewrite E2.
  do 3 eexists. split_and!; [done|done|cbn [length]; lia].
Qed.
Definition reads_for (chunks : list NvmeChunk) : nat :=
  foldr (fun ch n => 1 + 2 * length (segment_blocks (nvme_block c) (ch_length ch)) + n)%nat 0%nat chunks.
Lemma pread_chunks_full fs chunks : forall script consumed abuf dst, Forall full_call script ->
  (reads_for chunks <= length script)%nat -> Forall chunk_ok chunks ->
  Forall (fun ch => is_Some (fs !! ch_path ch)) chunks ->
  exists n d' s', pread_chunks (nvme_block c) script chunks fs true consumed abuf dst = Some (true, n, d', s').
Proof.
  induction chunks as [|ch chunks IH]; intros script consumed abuf dst Hs Hl Hok HF; [cbn; eauto|].
  change (S (2 * length (segment_blocks (nvme_block c) (ch_length ch)) + reads_for chunks) <= length script)%nat in Hl.
  apply Forall_cons in Hok as [Hch Hok]. apply Forall_cons in HF as [Hf HF]. cbn [pread_chunks].
  destruct (open_file_full false (ch_path ch) script fs) as [fs' Eo]; [done|intros ->; cbn in Hl; lia|by right|].
  rewrite Eo. cbn. destruct script as [|x script]; [cbn in Hl; lia|]. apply Forall_cons in Hs as [_ Hs]. cbn [tail length] in *.
  edestruct read_blocks_full as (a1 & d1 & s1 & E1 & Hs1 & Hl1); [exact Hs| | |rewrite E1]; [lia| |].
  - destruct (segment_blocks_spec c Hc ch Hch) as [HFb _]. eapply Forall_impl; [exact HFb|].
    intros p (? & ? & ? & ?). destruct (nc_block c Hc). pose proof (roundup_spec p.2 4096 ltac:(lia) ltac:(lia) ltac:(lia)). lia.
  - cbn. apply IH; [done|lia|done|done].
Qed.
Lemma open_chunks_full fs chunks : forall script, Forall full_call script -> (length chunks <= length script)%nat ->
  Forall (fun ch => is_Some (fs !! ch_path ch)) chunks ->
  open_chunks script chunks fs = Some (true, drop (length chunks) script).
Proof.
  induction chunks as [|ch chunks IH]; intros script Hs Hl HF; [done|]. apply Forall_cons in HF as [Hf HF].
  cbn [open_chunks length] in *.
  destruct (open_file_full false (ch_path ch) script fs) as [fs' Eo]; [done|intros ->; cbn in Hl; lia|by right|].
  rewrite Eo. cbn. destruct script as [|x script]; [cbn in Hl; lia|]. apply Forall_cons in Hs as [_ Hs].
  cbn [tail length] in Hl |- *. apply IH; [done|lia|done].
Qed.
Lemma read_uring_completes st chunks bs dst : entry_ok st chunks bs -> zlen bs <= zlen dst -> forall script events garbage,
  Forall full_call script -> Forall full_event events -> nvme_block c <= zlen garbage ->
  (length chunks + S (queue_depth c) <= length script)%nat -> (length (flat 0 chunks) <= length events)%nat ->
  exists dst', nvme_read_uring c script events garbage chunks dst (nv_fs st) = Some (true, dst').
Proof.
  intros (Hst & Hn & Hb) Hroom script events garbage Hs He Hg Hl Hle.
  pose proof (stored_chunks_ok _ _ _ Hst) as Hok. destruct Hst as [Hh _].
  destruct (chunks_hold_flat c Hc (nv_fs st) chunks 0 [] bs eq_refl Hok Hh) as [_ HL].
  pose proof (length_flat c Hc chunks 0 Hok) as Hlf. rewrite HL in Hlf.
  unfold nvme_read_uring. rewrite open_chunks_full; [|done|lia|by eapply chunks_hold_exist]. cbn.
  rewrite all_succeed_full; [|by apply Forall_drop|rewrite length_drop; lia]. cbn.
  edestruct (uring_loop_completes (queue_depth c) (nvme_block c) (flat 0 chunks) (fun _ buf => buf) (fun _ _ => True)
    (rfin (nv_fs st) bs (zlen dst)) (depth_bounds c Hc) ltac:(lia) (fun _ _ _ _ => conj Logic.I eq_refl)
    eq (Equivalence_PreOrder eq_equivalence) read_transfer (read_accept (flat 0 chunks))
    (rstep_ok c Hc chunks (nv_fs st) bs (zlen dst) Hok Hh Hroom) (nv_fs st)) as [u' El];
    [|by apply uinv_start|done|done|cbn; lia|rewrite El; cbn; eauto].
  intros op blk buf res u n u1 ok u2 Hio HLn Hbuf _ Hres Hfs Et Ea.
  destruct (rblock c Hc chunks (nv_fs st) bs Hok Hh _ (list_elem_of_lookup_2 _ _ _ Hio)) as (? & ? & ? & ? & ? & ? & Hfl & _).
  unfold read_transfer in Et. rewrite decide_False in Et by lia. injection Et as <- <-.
  unfold read_accept, block_at in Ea. rewrite Hio in Ea. change (default _ (Some (op_io op))) with (op_io op) in Ea.
  rewrite decide_False in Ea; [by injection Ea as <- <-|]. destruct (nc_block c Hc).
  rewrite Hfs in Hfl. lia.
Qed.
Lemma nvme_read_completes st chunks bs dst : entry_ok st chunks bs -> zlen bs <= zlen dst ->
  exists N, forall k, serves N k -> exists dst', nvme_read c k chunks dst (nv_fs st) = Some (true, dst').
Proof.
  intros He Hr. exists (S (length chunks + S (queue_depth c) + length (flat 0 chunks) + reads_for chunks))%nat.
  intros k (Hs & Hev & Hls & Hle & Hg). unfold nvme_read. destruct (use_uring_engine c).
  - eapply read_uring_completes; [done|done|done|done|done|lia|lia].
  - unfold nvme_read_pwrite. destruct (k_script k) as [|x script]; [cbn in Hls; lia|].
    apply Forall_cons in Hs as [(n & -> & _) Hs]. destruct He as (Hst & _).
    edestruct (pread_chunks_full (nv_fs st) chunks script) as (m & d' & s' & E);
      [done|cbn in Hls; lia|by eapply stored_chunks_ok|by eapply chunks_hold_exist, Hst|rewrite E; cbn; eauto].
Qed.
End Cold.

(** ** Theorems *)
(** C8. What was drained to a cold tier is read back byte for byte, after any
    later drains, successful or not: for the pageable tier, and for the NVMe tier
    with either engine whatever order and sizes the kernel completes IO in, for a
    queue depth of at most 64 ([nvme_config_ok]; beyond it the engine reuses an iovec
    in flight).  (The synchronous reader reports success also when a call failed, so for it the
    calls are required to have succeeded.) *)
Theorem cold_roundtrip (c : DaemonConfig) (k1 k2 : Kernel) (buf : option Z) (src dst dst' : list byte)
  (w w1 w2 : ColdWorld) (cold : ColdEntry) :
  nvme_config_ok c -> fits c (cw_nvme w) src ->
  nvme_block c <= zlen (k_garbage k1) -> nvme_block c <= zlen (k_garbage k2) ->
  drain_copy c k1 buf src w = Some (true, cold, w1) ->
  rtc (drain_step c) w1 w2 ->
  zlen src <= zlen dst ->
  use_uring_engine c = true \/ calls_succeed (k_script k2) ->
  readback_copy c k2 cold (zlen src) dst w2 = Some (true, dst') ->
  slice 0 (zlen src) dst' = src.
Proof.
  intros Hc Hf Hg1 Hg2 Ed Hsteps Hdst Hk Er.
  eapply readback_copy_holds; [exact Hc| |exact Hdst|exact Hg2|exact Hk|exact Er].
  eapply drain_steps_hold; [exact Hc|exact Hsteps|].
  eapply drain_copy_holds; [exact Hc|exact Hf|exact Hg1|exact Ed].
Qed.

(** C25. With a kernel that serves every call in full, draining returns success and
    reading the entry back later returns success with the drained bytes: neither
    engine waits forever, and a bounded number of calls is enough. *)
Theorem cold_store_total (c : DaemonConfig) (w : ColdWorld) (src : list byte) :
  nvme_config_ok c -> fits c (cw_nvme w) src ->
  exists N, forall k buf, serves c N k -> exists cold w1,
    drain_copy c k (Some buf) src w = Some (true, cold, w1)
    /\ forall w2 dst, rtc (drain_step c) w1 w2 -> zlen src <= zlen dst ->
         exists M, forall k2, serves c M k2 -> exists dst',
           readback_copy c k2 cold (zlen src) dst w2 = Some (true, dst') /\ slice 0 (zlen src) dst' = src.
Proof.
  intros Hc Hf. destruct (nvme_write_completes c Hc _ _ Hf) as [N HN]. exists N. intros k buf Hk.
  assert (Hd : exists cold w1, drain_copy c k (Some buf) src w = Some (true, cold, w1)).
  { unfold drain_copy. destruct (drain_wants_pageable c); [eauto|].
    destruct (HN k Hk) as (chunks & st' & E). rewrite E. cbn. eauto. }
  destruct Hd as (cold & w1 & Ed). exists cold, w1. split; [exact Ed|]. intros w2 dst Hsteps Hdst.
  assert (He : entry_holds c w2 cold src).
  { eapply drain_steps_hold; [exact Hc|exact Hsteps|]. eapply drain_copy_holds; [exact Hc|exact Hf| |exact Ed]. apply Hk. }
  assert (HM : exists M, forall k2, serves c M k2 -> exists dst', readback_copy c k2 cold (zlen src) dst w2 = Some (true, dst')).
  { unfold entry_holds in He. unfold readback_copy. destruct (co_kind cold); try done.
    - destruct He as (a & -> & _). exists 0%nat. eauto.
    - by eapply nvme_read_completes. }
  destruct HM as [M HM]. exists M. intros k2 Hk2. destruct (HM k2 Hk2) as [dst' Er]. exists dst'. split; [exact Er|].
  destruct Hk2 as (Hs & _ & _ & _ & Hg).
  eapply readback_copy_holds; [exact Hc|exact He|exact Hdst|exact Hg|right; by apply full_calls_succeed|exact Er].
Qed.

(** ** Instances *)
(** Two stripes of 4096-byte blocks, through the pwrite engine and through
    io_uring. *)
Definition small_config (engine : string) : DaemonConfig :=
  default_config <| c_drain_target := kNvmeOnly |> <| c_nvme_io_engine := engine |>
    <| c_nvme_stripe_count := 2 |> <| c_nvme_block_bytes := 4096 |>.
Lemma small_config_ok engine : nvme_config_ok (small_config engine).
Proof.
  constructor.
  - by vm_compute.
  - intros i. destruct (decide (0 <= i < nvme_stripe_count (small_config engine))) as [Hi|]; [left|by right].
    change (nvme_stripe_count (small_config engine)) with 2 in Hi.
    assert (i = 0 \/ i = 1) as [-> | ->] by lia; vm_compute; lia.
  - by vm_compute.
  - exists 1. reflexivity.
  - vm_compute. lia.
Qed.
Definition empty_world : ColdWorld := mkColdWorld (nvme_init (small_config "pwrite") ∅) ∅.
Definition sample_bytes : list byte := [x01; x02; x03; x04; x05; x06; x07].
Lemma small_fits engine : fits (small_config engine) (cw_nvme empty_world) sample_bytes.
Proof.
  split_and!; [|by vm_compute..]. split; [done|]. intros i Hi. change (nvme_stripe_count (small_config engine)) with 2 in Hi.
  assert (i = 0 \/ i = 1) as [-> | ->] by lia; (split_and!; [by vm_compute|exists 0; reflexivity|by vm_compute]).
Qed.
Definition garbage_block : list byte := replicate 4096 xff.
(** The io_uring engine completes the second block first. *)
Definition busy_kernel : Kernel :=
  mkKernel (replicate 100 (SysOk (2 ^ 64))) (replicate 4 (UCqe 1 (2 ^ 64))) garbage_block.
(** The entry and the world after draining the sample. *)
Definition drained (engine : string) (k : Kernel) : ColdEntry * ColdWorld :=
  match drain_copy (small_config engine) k None sample_bytes empty_world with
  | Some (_, cold, w1) => (cold, w1)
  | None => (mkCold LOC_NONE 0 None [], empty_world)
  end.
Definition read_back (engine : string) (k : Kernel) : list byte :=
  match readback_copy (small_config engine) k (drained engine k).1 7 (replicate 8 x00) (drained engine k).2 with
  | Some (_, dst) => dst
  | None => []
  end.
Lemma cold_roundtrip_witness : slice 0 7 (read_back "io_uring" busy_kernel) = sample_bytes.
Proof.
  apply (cold_roundtrip (small_config "io_uring") busy_kernel busy_kernel None sample_bytes (replicate 8 x00)
    (read_back "io_uring" busy_kernel) empty_world (drained "io_uring" busy_kernel).2
    (drained "io_uring" busy_kernel).2 (drained "io_uring" busy_kernel).1
    (small_config_ok _) (small_fits _)).
  - vm_compute. discriminate.
  - vm_compute. discriminate.
  - vm_compute. reflexivity.
  - apply rtc_refl.
  - vm_compute. discriminate.
  - left. reflexivity.
  - vm_compute. reflexivity.
Defined.
Lemma cold_store_total_witness :
  exists N, forall k buf, serves (small_config "pwrite") N k -> exists cold w1,
    drain_copy (small_config "pwrite") k (Some buf) sample_bytes empty_world = Some (true, cold, w1).
Proof.
  destruct (cold_store_total (small_config "pwrite") empty_world sample_bytes (small_config_ok _) (small_fits _)) as [N HN].
  exists N. intros k buf Hk. destruct (HN k buf Hk) as (cold & w1 & E & _). eauto.
Defined.
