(* ===== verification/Socket.v ===== *)
(** * Sockets: frames on a stream that the kernel cuts as it likes

    [send_frame] and [recv_frame] of [uds.cpp] down to the system calls, and
    [OffloadDaemon::serve_connection].  A connected stream is a queue of bytes;
    the descriptors of an [SCM_RIGHTS] message hang on the first byte sent with
    it.  The outcome of every call is an element of a script ([Files.sysres]):
    how many bytes the kernel takes or delivers, [EINTR], or another error. *)
From stdpp Require Import base list strings.
From Stdlib Require Import ZArith Lia Strings.Byte.
From S2P Require Import Prelude.
From S2P Require Import Wire.
From S2P Require Import Protocol.
From S2P Require Import ProtocolV2.
From S2P Require Import Rpc.
From S2P Require Import Files.
Open Scope Z_scope.
Open Scope offload_scope.

(** A byte on the way, with the descriptors attached to it. *)
Definition cell : Type := byte * list Z.
Definition plain (bs : list byte) : list cell := (fun b => (b, [])) <$> bs.
Definition attach (fds : list Z) (bs : list byte) : list cell :=
  match bs with [] => [] | b :: bs => (b, fds) :: plain bs end.
Definition bytes_of (st : list cell) : list byte := fst <$> st.

(** What one receiving call finds: the descriptors of the first byte, and no byte
    beyond the next one that carries descriptors. *)
Fixpoint until_fds (st : list cell) : list cell :=
  match st with
  | (b, []) :: st => (b, []) :: until_fds st
  | _ => []
  end.
Definition readable (st : list cell) : list cell := match st with [] => [] | c :: st => c :: until_fds st end.
(** The number of bytes a call of at most [len] bytes delivers when the kernel
    offers [n]: at least one. *)
Definition delivered (n : Z) (len : nat) (st : list cell) : nat :=
  Nat.min (Nat.max 1 (Z.to_nat n)) (Nat.min len (length (readable st))).
Definition first_fds (st : list cell) : list Z := match st with [] => [] | c :: _ => c.2 end.

Definition kMaxFds : nat := 32.
(** What is left of the script, and what the call returned; [None] when the
    script ends first. *)
Definition io (A : Type) : Type := option (res A * list cell * list sysres).

Section Calls.
(** [strerror(errno)] *)
Context (strerror : string).

(** ** Sending *)
Fixpoint write_all (script : list sysres) (buf : list byte) (out : list cell) : io unit :=
  match buf with
  | [] => Some (Ok tt, out, script)
  | _ =>
      match script with
      | [] => None
      | SysEintr :: s => write_all s buf out
      | SysErr :: s => Some (Throw ("send failed: " +:+ strerror), out, s)
      | SysOk n :: s =>
          if decide (n <= 0) then Some (Throw "send returned 0 (peer closed)", out, s)
          else write_all s (drop (Z.to_nat n) buf) (out ++ plain (take (Z.to_nat n) buf))
      end
  end.
(** The [sendmsg] loop over the header: the descriptors go with the first call
    that succeeds. *)
Fixpoint send_header (script : list sysres) (hdr : list byte) (fds : list Z) (out : list cell) : io unit :=
  match hdr with
  | [] => Some (Ok tt, out, script)
  | _ =>
      match script with
      | [] => None
      | SysEintr :: s => send_header s hdr fds out
      | SysErr :: s => Some (Throw ("sendmsg failed: " +:+ strerror), out, s)
      | SysOk n :: s => send_header s (drop (Z.to_nat n) hdr) [] (out ++ attach fds (take (Z.to_nat n) hdr))
      end
  end.
Definition send_frame (script : list sysres) (frame : list byte) (fds : list Z) (out : list cell) : io unit :=
  if decide (zlen frame < kFrameHeaderSize) then Some (Throw "send_frame: frame smaller than header", out, script)
  else match fds with
  | [] => write_all script frame out
  | _ =>
      if decide (kMaxFds < length fds)%nat then Some (Throw "too many fds for one frame", out, script)
      else
        match send_header script (take 12 frame) fds out with
        | Some (Ok _, out, s) => write_all s (drop 12 frame) out
        | r => r
        end
  end.

(** ** Receiving *)
(** The [recvmsg] loop: [need] bytes of the header are missing; the first call
    has room for descriptors. *)
Fixpoint recv_header (script : list sysres) (need : nat) (hdr : list byte) (fds : list Z) (first : bool)
  (st : list cell) : io (option (list byte * list Z)) :=
  match need with
  | O => Some (Ok (Some (hdr, fds)), st, script)
  | _ =>
      match script with
      | [] => None
      | SysEintr :: s => recv_header s need hdr fds first st
      | SysErr :: s => Some (Throw ("recvmsg failed: " +:+ strerror), st, s)
      | SysOk n :: s =>
          match st with
          | [] => Some (if first then Ok None else Throw "recvmsg EOF mid-header", st, s)
          | _ =>
              let k := delivered n need st in
              recv_header s (need - k) (hdr ++ bytes_of (take k st))
                (if first then take kMaxFds (first_fds st) else fds) false (drop k st)
          end
      end
  end.
(** [read_all]: the bytes, or [None] for the end of the stream before the first. *)
Fixpoint read_all (script : list sysres) (need : nat) (buf : list byte) (st : list cell)
  : io (option (list byte)) :=
  match need with
  | O => Some (Ok (Some buf), st, script)
  | _ =>
      match script with
      | [] => None
      | SysEintr :: s => read_all s need buf st
      | SysErr :: s => Some (Throw ("recv failed: " +:+ strerror), st, s)
      | SysOk n :: s =>
          match st with
          | [] => Some (match buf with [] => Ok None | _ => Throw "recv EOF mid-message" end, st, s)
          | _ => let k := delivered n need st in
                 read_all s (need - k) (buf ++ bytes_of (take k st)) (drop k st)
          end
      end
  end.
(** Opcode, payload and descriptors of one frame, or [None] at the end. *)
Definition recv_frame_on (script : list sysres) (st : list cell) : io (option (Z * list byte * list Z)) :=
  match recv_header script 12 [] [] true st with
  | None => None
  | Some (Throw m, st, s) => Some (Throw m, st, s)
  | Some (Ok None, st, s) => Some (Ok None, st, s)
  | Some (Ok (Some (hdr, fds)), st, s) =>
      match parse_frame_header hdr with
      | Throw m => Some (Throw m, st, s)
      | Ok fh =>
          if decide (fh_payload_len fh > Z.shiftl 256 20) then Some (Throw "frame payload absurdly large", st, s)
          else match read_all s (Z.to_nat (fh_payload_len fh)) [] st with
          | None => None
          | Some (Throw m, st, s) => Some (Throw m, st, s)
          | Some (Ok None, st, s) => Some (Throw "EOF before payload", st, s)
          | Some (Ok (Some payload), st, s) => Some (Ok (Some (fh_opcode fh, payload, fds)), st, s)
          end
      end
  end.

(** ** Connecting *)
(** [uds_connect]: the outcomes of the attempts, [true] for [ENOENT] and
    [ECONNREFUSED]; the number of sleeps of 25 ms before the connection. *)
Inductive attempt := Connected | Refused (retry : bool).
Fixpoint uds_connect_loop (attempts : list attempt) (path : string) (timeout_ms waited : Z) : option (res Z) :=
  match attempts with
  | [] => None
  | Connected :: _ => Some (Ok waited)
  | Refused retry :: attempts =>
      if retry && bool_decide (waited < timeout_ms) then uds_connect_loop attempts path timeout_ms (waited + 25)
      else Some (Throw ("connect(" +:+ path +:+ ") failed: " +:+ strerror))
  end.
Definition uds_connect (attempts : list attempt) (path : string) (timeout_ms : Z) : option (res Z) :=
  if decide (Z.of_nat (String.length path) >= 108) then Some (Throw "socket path too long")
  else uds_connect_loop attempts path timeout_ms 0.
End Calls.

(** ** Serving a connection *)
(** [serve_connection] between the arrivals of requests: the scripts of the calls
    of one turn of the loop, and what the other threads do to the daemon between
    the receipt of the request and its handler. *)
Record turn (D : Type) := mkTurn { t_recv : list sysres; t_send : list sysres; t_env : D -> D }.
Arguments mkTurn {D}.
Arguments t_recv {D}.
Arguments t_send {D}.
Arguments t_env {D}.

Section Serve.
Context (strerror : string) {D : Type} `{!Handlers D}.
(** [running_], and the descriptors a handler puts into [out_fds]. *)
Context (running : D -> bool) (out_fds : request -> response -> list Z).

(** [dispatch] up to the reply; the daemon also after a failure. *)
Definition dispatch_on (op : Z) (payload : list byte) (d : D) : res (option (list byte * list Z)) * D :=
  match op_of_value op with
  | None => (Ok None, d)
  | Some o =>
      match decode_request o payload with
      | Throw m => (Throw m, d)
      | Ok None => (Ok None, d)
      | Ok (Some req) =>
          match handle req d with
          | Throw m => (Throw m, d)
          | Ok (resp, d') =>
              (res_bind (encode_response resp) (fun body =>
               res_bind (make_frame (op_value o) body 0) (fun frame => Ok (Some (frame, out_fds req resp)))), d')
          end
      end
  end.
(** What is sent, the descriptors received and closed, and the daemon when the
    connection is closed; [None] while it waits. *)
Fixpoint serve_connection (turns : list (turn D)) (inp out : list cell) (closed : list Z) (d : D)
  : option (list cell * list Z * D) :=
  match turns with
  | [] => None
  | t :: turns =>
      match recv_frame_on strerror (t_recv t) inp with
      | None => None
      | Some (Throw _, _, _) => Some (out, closed, d)
      | Some (Ok None, _, _) => Some (out, closed, d)
      | Some (Ok (Some (op, payload, fds)), inp, _) =>
          let closed := closed ++ fds in
          match dispatch_on op payload (t_env t d) with
          | (Throw _, d) => Some (out, closed, d)
          | (Ok None, d) => if running d then serve_connection turns inp out closed d else Some (out, closed, d)
          | (Ok (Some (frame, fds)), d) =>
              match send_frame strerror (t_send t) frame fds out with
              | None => None
              | Some (Throw _, out, _) => Some (out, closed, d)
              | Some (Ok _, out, _) =>
                  if running d then serve_connection turns inp out closed d else Some (out, closed, d)
              end
          end
      end
  end.
End Serve.

(** ** Lemmas *)
Lemma bytes_of_app a b : bytes_of (a ++ b) = bytes_of a ++ bytes_of b.
Proof. apply fmap_app. Qed.
Lemma bytes_of_plain bs : bytes_of (plain bs) = bs.
Proof. unfold bytes_of, plain. rewrite <- list_fmap_compose. by rewrite list_fmap_id. Qed.
Lemma bytes_of_attach fds bs : bytes_of (attach fds bs) = bs.
Proof. destruct bs as [|b bs]; [done|]. change (b :: bytes_of (plain bs) = b :: bs). by rewrite bytes_of_plain. Qed.
Lemma length_plain bs : length (plain bs) = length bs.
Proof. apply length_fmap. Qed.
Lemma length_attach fds bs : length (attach fds bs) = length bs.
Proof. destruct bs as [|b bs]; [done|]. cbn. by rewrite length_plain. Qed.
Lemma plain_app a b : plain (a ++ b) = plain a ++ plain b.
Proof. apply fmap_app. Qed.
Lemma attach_nil bs : attach [] bs = plain bs.
Proof. by destruct bs. Qed.
Lemma attach_app fds a b : a <> [] -> attach fds (a ++ b) = attach fds a ++ plain b.
Proof. intros Ha. destruct a as [|x a]; [done|]. cbn. by rewrite plain_app. Qed.

(** The calls do not fail, and a call that succeeds transfers something. *)
Definition fair (script : list sysres) : Prop :=
  Forall (fun r => match r with SysOk n => 0 < n | SysEintr => True | SysErr => False end) script.
(** The calls of the script that are not interrupted. *)
Definition progress (script : list sysres) : nat :=
  length (List.filter (fun r => match r with SysOk _ => true | _ => false end) script).

Section CallLemmas.
Context (strerror : string).
Lemma write_all_fair script : forall buf out, fair script -> (length buf <= progress script)%nat ->
  exists s, write_all strerror script buf out = Some (Ok tt, out ++ plain buf, s) /\
    (progress script <= progress s + length buf)%nat /\ fair s.
Proof.
  induction script as [|r script IH]; intros buf out Hf Hp.
  - destruct buf; [|cbn in Hp; lia]. exists []. cbn. by rewrite app_nil_r.
  - destruct buf as [|b buf]; [exists (r :: script); cbn [write_all plain fmap list_fmap]; rewrite app_nil_r; split_and!; [done|lia|done]|].
    apply Forall_cons in Hf as [Hr Hf]. destruct r as [n| |]; [| |done]; cbn [write_all].
    + rewrite decide_False by lia. assert (Hn : (1 <= Z.to_nat n)%nat) by lia.
      assert (Hd : (length (drop (Z.to_nat n) (b :: buf)) <= length buf)%nat) by (rewrite length_drop; cbn; lia).
      cbn in Hp. destruct (IH (drop (Z.to_nat n) (b :: buf)) (out ++ plain (take (Z.to_nat n) (b :: buf))) Hf) as (s & E & Hs & Hfs); [unfold progress; lia|].
      exists s. rewrite E, <- app_assoc, <- plain_app, take_drop. split_and!; [done|cbn; unfold progress in *; lia|done].
    + destruct (IH (b :: buf) out Hf Hp) as (s & E & Hs & Hfs). exists s. by split_and!.
Qed.
Lemma send_header_fair script : forall hdr fds out, fair script -> (length hdr <= progress script)%nat ->
  exists s, send_header strerror script hdr fds out = Some (Ok tt, out ++ attach fds hdr, s) /\
    (progress script <= progress s + length hdr)%nat /\ fair s.
Proof.
  induction script as [|r script IH]; intros hdr fds out Hf Hp.
  - destruct hdr; [|cbn in Hp; lia]. exists []. cbn. by rewrite app_nil_r.
  - destruct hdr as [|b hdr]; [exists (r :: script); cbn [send_header attach]; rewrite app_nil_r; split_and!; [done|lia|done]|].
    apply Forall_cons in Hf as [Hr Hf]. destruct r as [n| |]; [| |done]; cbn [send_header].
    + assert (Hn : (1 <= Z.to_nat n)%nat) by lia.
      assert (Hd : (length (drop (Z.to_nat n) (b :: hdr)) <= length hdr)%nat) by (rewrite length_drop; cbn; lia).
      cbn in Hp. destruct (IH (drop (Z.to_nat n) (b :: hdr)) [] (out ++ attach fds (take (Z.to_nat n) (b :: hdr))) Hf) as (s & E & Hs & Hfs);
        [unfold progress; lia|].
      exists s. rewrite E, <- app_assoc, attach_nil, <- attach_app, take_drop by (destruct (Z.to_nat n); [lia|done]).
      split_and!; [done|cbn; unfold progress in *; lia|done].
    + destruct (IH (b :: hdr) fds out Hf Hp) as (s & E & Hs & Hfs). exists s. by split_and!.
Qed.
(** A frame goes out whole, its descriptors on its first byte. *)
Lemma send_frame_fair script frame fds out : fair script -> (length frame <= progress script)%nat ->
  (12 <= length frame)%nat -> (length fds <= kMaxFds)%nat ->
  exists s, send_frame strerror script frame fds out = Some (Ok tt, out ++ attach fds frame, s).
Proof.
  intros Hf Hp Hl Hn. unfold send_frame. rewrite decide_False by (unfold zlen, kFrameHeaderSize; lia).
  destruct fds as [|fd fds].
  - destruct (write_all_fair script frame out Hf Hp) as (s & E & _). exists s. by rewrite E, attach_nil.
  - rewrite decide_False by lia. assert (Ht : length (take 12 frame) = 12%nat) by (rewrite length_take; lia).
    destruct (send_header_fair script (take 12 frame) (fd :: fds) out Hf) as (s & E & Hs & Hfs); [lia|]. rewrite E.
    destruct (write_all_fair s (drop 12 frame) (out ++ attach (fd :: fds) (take 12 frame)) Hfs) as (s' & E' & _);
      [rewrite length_drop; lia|].
    exists s'. rewrite E', <- app_assoc, <- attach_app, take_drop by (intros H; by rewrite H in Ht). done.
Qed.

Lemma delivered_bounds n need st : st <> [] -> (1 <= delivered n (S need) st <= S need)%nat /\ (delivered n (S need) st <= length st)%nat.
Proof.
  intros Hst. assert (Hu : forall l, (length (until_fds l) <= length l)%nat).
  { induction l as [|[b [|]] l IH]; cbn; lia. }
  destruct st as [|c st]; [done|]. specialize (Hu st). unfold delivered. cbn [readable length]. lia.
Qed.
(** One receiving call leaves the same bytes ahead. *)
Lemma deliver_split k need (st : list cell) buf : (k <= need)%nat -> (k <= length st)%nat ->
  (need - k <= length (drop k st) <-> need <= length st)%nat /\
  (buf ++ bytes_of (take k st)) ++ take (need - k) (bytes_of (drop k st)) = buf ++ take need (bytes_of st) /\
  (buf ++ bytes_of (take k st)) ++ bytes_of (drop k st) = buf ++ bytes_of st /\
  drop (need - k) (drop k st) = drop need st.
Proof.
  intros Hk Hl. split; [rewrite length_drop; lia|]. split_and!.
  - rewrite <- app_assoc. f_equal. unfold bytes_of. rewrite fmap_take, fmap_drop, take_take_drop. f_equal. lia.
  - by rewrite <- app_assoc, <- bytes_of_app, take_drop.
  - rewrite drop_drop. f_equal. lia.
Qed.
Lemma read_all_fair script : forall need buf st, fair script -> (Nat.min need (length st) < progress script)%nat ->
  exists s, read_all strerror script need buf st =
    Some (if decide (need <= length st)%nat then Ok (Some (buf ++ take need (bytes_of st)))
          else match buf ++ bytes_of st with [] => Ok None | _ => Throw "recv EOF mid-message" end, drop need st, s).
Proof.
  induction script as [|r script IH]; intros need buf st Hf Hp; [cbn in Hp; lia|].
  destruct need as [|need]; [exists (r :: script); cbn [read_all]; by rewrite take_0, app_nil_r|].
  apply Forall_cons in Hf as [Hr Hf]. destruct r as [n| |]; [| |done].
  - cbn [read_all]. destruct st as [|c st].
    + exists script. rewrite decide_False by (cbn; lia). by rewrite drop_nil, app_nil_r.
    + set (k := delivered n (S need) (c :: st)). destruct (delivered_bounds n need (c :: st)) as [H1 H2]; [done|].
      fold k in H1, H2. destruct (deliver_split k (S need) (c :: st) buf) as (Hd & Ht & Hb & Hdr); [lia|lia|].
      destruct (IH (S need - k)%nat (buf ++ bytes_of (take k (c :: st))) (drop k (c :: st)) Hf) as [s E];
        [rewrite length_drop; cbn [length] in *; unfold progress in *; cbn in Hp; lia|].
      exists s. rewrite E, Ht, Hb, Hdr. by rewrite (decide_ext _ _ _ _ Hd).
  - destruct (IH (S need) buf st Hf Hp) as [s E]. by exists s.
Qed.
Lemma recv_header_fair script : forall need hdr fds first st, fair script -> (Nat.min need (length st) < progress script)%nat ->
  (first = true -> hdr = [] /\ (0 < need)%nat) ->
  exists s, recv_header strerror script need hdr fds first st =
    Some (if decide (need <= length st)%nat
          then Ok (Some (hdr ++ take need (bytes_of st), if first then take kMaxFds (first_fds st) else fds))
          else if first then match st with [] => Ok None | _ => Throw "recvmsg EOF mid-header" end
               else Throw "recvmsg EOF mid-header", drop need st, s) /\
    (progress script <= progress s + Nat.min need (length st) + 1)%nat /\ fair s /\
    ((need <= length st)%nat -> (progress script <= progress s + need)%nat).
Proof.
  induction script as [|r script IH]; intros need hdr fds first st Hf Hp Hfirst; [cbn in Hp; lia|].
  destruct need as [|need].
  { exists (r :: script). destruct first; [by destruct (Hfirst eq_refl) as [_ ?]; lia|]. cbn [recv_header].
    rewrite take_0, app_nil_r. split_and!; [done|lia|done|lia]. }
  apply Forall_cons in Hf as [Hr Hf]. destruct r as [n| |]; [| |done].
  - cbn [recv_header]. destruct st as [|c st].
    + exists script. rewrite decide_False by (cbn; lia). rewrite drop_nil. cbn in Hp |- *. unfold progress. split_and!; [by destruct first|lia|done|lia].
    + set (k := delivered n (S need) (c :: st)). destruct (delivered_bounds n need (c :: st)) as [H1 H2]; [done|].
      fold k in H1, H2. destruct (deliver_split k (S need) (c :: st) hdr) as (Hd & Ht & Hb & Hdr); [lia|lia|].
      destruct (IH (S need - k)%nat (hdr ++ bytes_of (take k (c :: st))) (if first then take kMaxFds (first_fds (c :: st)) else fds)
                  false (drop k (c :: st)) Hf) as (s & E & Hs & Hfs & Hs'); [rewrite length_drop; cbn [length] in *; unfold progress in *; cbn in Hp; lia|done|].
      exists s. rewrite E, Ht, Hdr. rewrite (decide_ext _ _ _ _ Hd). cbn in Hp |- *. unfold progress in *.
      rewrite length_drop in Hs; cbn [length] in *. split_and!; [by destruct first|lia|done|]. intros Hle. apply Hd in Hle. specialize (Hs' Hle). lia.
  - destruct (IH (S need) hdr fds first st Hf Hp Hfirst) as (s & E & Hs). exists s. cbn [recv_header]. rewrite E. split; [done|exact Hs].
Qed.
End CallLemmas.

(** ** Messages on a stream *)
(** Opcode, body and descriptors. *)
Definition message : Type := Z * list byte * list Z.
Definition framed (m : message) : list byte := match make_frame m.1.1 m.1.2 0 with Ok f => f | Throw _ => [] end.
Definition queue (ms : list message) : list cell := concat ((fun m => attach m.2 (framed m)) <$> ms).
Definition wf_message (m : message) : Prop :=
  in_u16 m.1.1 /\ Z.of_nat (length m.1.2) <= Z.shiftl 256 20 /\ (length m.2 <= kMaxFds)%nat.
(** A script that serves a frame: the calls do not fail and there are enough. *)
Definition serves_frame (script : list sysres) (m : message) : Prop :=
  fair script /\ (length (framed m) < progress script)%nat.

Section Streams.
Context (strerror : string).
Fixpoint send_frames (scripts : list (list sysres)) (ms : list message) (out : list cell) : option (list cell) :=
  match scripts, ms with
  | _, [] => Some out
  | s :: scripts, m :: ms =>
      match send_frame strerror s (framed m) m.2 out with
      | Some (Ok _, out, _) => send_frames scripts ms out
      | _ => None
      end
  | _, _ => None
  end.
Fixpoint recv_frames (scripts : list (list sysres)) (st : list cell) : option (list message * list cell) :=
  match scripts with
  | [] => Some ([], st)
  | s :: scripts =>
      match recv_frame_on strerror s st with
      | Some (Ok (Some m), st, _) => '(ms, st) ← recv_frames scripts st; Some (m :: ms, st)
      | _ => None
      end
  end.

Lemma framed_ok m : wf_message m -> make_frame m.1.1 m.1.2 0 = Ok (framed m) /\ (12 <= length (framed m))%nat.
Proof.
  destruct m as [[op body] fds]. intros (_ & Hl & _). unfold framed. cbn [fst snd] in *. rewrite Z.shiftl_mul_pow2 in Hl by lia.
  rewrite make_frame_ok by lia. split; [done|]. rewrite !length_app, !length_le_bytes. lia.
Qed.
Lemma recv_frame_cases bs : recv_frame bs =
  if decide (12 <= length bs)%nat then
    match parse_frame_header (take 12 bs) with
    | Throw m => Throw m
    | Ok fh =>
        let n := Z.to_nat (fh_payload_len fh) in
        if decide (fh_payload_len fh > Z.shiftl 256 20) then Throw "frame payload absurdly large"
        else if decide (n <= length (drop 12 bs))%nat then Ok (Some (fh_opcode fh, take n (drop 12 bs), drop n (drop 12 bs)))
        else match drop 12 bs with [] => Throw "EOF before payload" | _ => Throw "recv EOF mid-message" end
    end
  else match bs with [] => Ok None | _ => Throw "recvmsg EOF mid-header" end.
Proof.
  unfold recv_frame, kFrameHeaderSize. destruct bs as [|b bs]; [done|]. set (q := b :: bs).
  destruct (decide (12 <= length q)%nat) as [H1|H1]; [rewrite decide_False by lia|by rewrite decide_True by lia].
  destruct (parse_frame_header (take 12 q)) as [fh|]; [|done]. cbv zeta.
  destruct (decide (fh_payload_len fh > _)); [done|].
  destruct (decide (Z.to_nat (fh_payload_len fh) <= length (drop 12 q))%nat) as [H2|H2];
    [by rewrite decide_False by lia|rewrite decide_True by lia].
  destruct (drop 12 q) as [|x l]; [done|]. by rewrite decide_False.
Qed.
(** What the receiving calls deliver is what [recv_frame] says of the bytes ahead. *)
Lemma recv_frame_on_fair script st : fair script -> (Nat.min 12 (length st) < progress script)%nat ->
  (forall fh, parse_frame_header (take 12 (bytes_of st)) = Ok fh -> fh_payload_len fh <= Z.shiftl 256 20 ->
     (Nat.min (12 + Z.to_nat (fh_payload_len fh)) (length st) < progress script)%nat) ->
  exists st' s, recv_frame_on strerror script st =
    Some (match recv_frame (bytes_of st) with
          | Ok None => Ok None
          | Ok (Some (op, payload, _)) => Ok (Some (op, payload, take kMaxFds (first_fds st)))
          | Throw m => Throw m
          end, st', s) /\
    (forall op payload rest, recv_frame (bytes_of st) = Ok (Some (op, payload, rest)) -> st' = drop (12 + length payload) st).
Proof.
  intros Hf Hp Hn. unfold recv_frame_on.
  destruct (recv_header_fair strerror script 12 [] [] true st Hf Hp) as (s & E & _ & Hfs & Hs); [by split; [|lia]|].
  rewrite E, recv_frame_cases. clear E. assert (Hlen : length (bytes_of st) = length st) by apply length_fmap. rewrite Hlen.
  case_decide as Hd; [|destruct st; by eexists _, s]. cbn [app]. specialize (Hs Hd).
  destruct (parse_frame_header (take 12 (bytes_of st))) as [fh|] eqn:Ep; [|by eexists _, s]. specialize (Hn fh eq_refl).
  cbv zeta. case_decide as Hbig; [by eexists _, s|]. specialize (Hn ltac:(lia)).
  assert (Hdl : length (drop 12 st) = (length st - 12)%nat) by apply length_drop.
  destruct (read_all_fair strerror s (Z.to_nat (fh_payload_len fh)) [] (drop 12 st) Hfs) as [s' E']; [lia|].
  rewrite E'. assert (Hbd : drop 12 (bytes_of st) = bytes_of (drop 12 st)) by (symmetry; apply fmap_drop).
  rewrite Hbd. replace (length (bytes_of (drop 12 st))) with (length (drop 12 st)) by (symmetry; apply length_fmap).
  case_decide as Hfit; cbn [app].
  - eexists _, s'. split; [reflexivity|]. intros op payload rest [= <- <- <-].
    rewrite drop_drop, length_take. replace (length (bytes_of (drop 12 st))) with (length (drop 12 st)) by (symmetry; apply length_fmap).
    f_equal. lia.
  - eexists _, s'. by destruct (bytes_of (drop 12 st)).
Qed.
Lemma recv_message script m rest : wf_message m -> serves_frame script m ->
  exists s, recv_frame_on strerror script (attach m.2 (framed m) ++ rest) = Some (Ok (Some m), rest, s).
Proof.
  intros Hm [Hf Hp]. destruct (framed_ok m Hm) as [Em Hl]. destruct m as [[op body] fds], Hm as (Ho & Hb & Hk). cbn [fst snd] in *.
  set (f := framed (op, body, fds)) in *. set (st := attach fds f ++ rest).
  assert (Hbs : bytes_of st = f ++ bytes_of rest) by (unfold st; by rewrite bytes_of_app, bytes_of_attach).
  pose proof (recv_make_frame op 0 body (bytes_of rest) f Ho ltac:(split; lia) Hb Em) as Er. rewrite <- Hbs in Er.
  assert (Hfl : length f = (12 + length body)%nat).
  { rewrite Z.shiftl_mul_pow2 in Hb by lia. rewrite make_frame_ok in Em by lia. match type of Em with Ok ?x = _ => assert (f = x) as -> by congruence end.
    rewrite !length_app, !length_le_bytes. lia. }
  destruct (recv_frame_on_fair script st Hf) as (st' & s & E & Hst').
  - lia.
  - intros fh Hfh Hmax. rewrite recv_frame_cases, Hfh in Er. cbv zeta in Er. case_decide; [|by destruct (bytes_of st)].
    rewrite decide_False in Er by lia. case_decide as Hfit; [|by destruct (drop 12 (bytes_of st))].
    injection Er as _ Ht _. apply (f_equal length) in Ht. rewrite length_take in Ht. lia.
  - exists s. rewrite E, Er. rewrite (Hst' _ _ _ Er). unfold st. rewrite drop_app_ge by (rewrite length_attach; lia).
    rewrite length_attach. replace (12 + length body - length f)%nat with 0%nat by lia. rewrite drop_0.
    destruct f as [|b f]; [done|]. cbn [attach app first_fds snd]. by rewrite take_ge by lia.
Qed.
Lemma send_frames_fair scripts : forall ms out, Forall wf_message ms -> Forall2 serves_frame scripts ms ->
  send_frames scripts ms out = Some (out ++ queue ms).
Proof.
  induction scripts as [|s scripts IH]; intros ms out Hm Hs; inversion Hs as [|? m ? ms' [Hf Hp] Hs']; subst;
    [by rewrite app_nil_r|]. apply Forall_cons in Hm as [Hm Hms]. destruct (framed_ok m Hm) as [_ Hl].
  destruct (send_frame_fair strerror s (framed m) m.2 out Hf) as [s' E]; [lia|done|apply Hm|].
  cbn [send_frames]. rewrite E, IH by done. unfold queue. cbn. by rewrite app_assoc.
Qed.
Lemma recv_frames_fair scripts : forall ms rest, Forall wf_message ms -> Forall2 serves_frame scripts ms ->
  recv_frames scripts (queue ms ++ rest) = Some (ms, rest).
Proof.
  induction scripts as [|s scripts IH]; intros ms rest Hm Hs; inversion Hs as [|? m ? ms' Hsm Hs']; subst; [done|].
  apply Forall_cons in Hm as [Hm Hms]. unfold queue. cbn [fmap list_fmap concat]. rewrite <- app_assoc. fold (queue ms').
  destruct (recv_message s m (queue ms' ++ rest) Hm Hsm) as [s' E]. cbn [recv_frames]. rewrite E, IH by done. done.
Qed.
End Streams.

(** ** A connection runs the handlers in order *)
Definition encoded (w : res (list byte)) : list byte := match w with Ok b => b | Throw _ => [] end.
Definition request_message (r : request) : message := (op_value (op_of_request r), encoded (encode_request r), []).

Section Answers.
Context (strerror : string) {D : Type} `{!Handlers D} (running : D -> bool) (out_fds : request -> response -> list Z).
(** The requests one after the other, each after what other threads did, until
    the daemon stops. *)
Fixpoint answers (reqs : list request) (envs : list (D -> D)) (d : D) : res (list (request * response) * D) :=
  match reqs, envs with
  | r :: reqs, env :: envs =>
      res_bind (handle r (env d)) (fun '(resp, d) =>
      if running d then res_bind (answers reqs envs d) (fun '(l, d) => Ok ((r, resp) :: l, d))
      else Ok ([(r, resp)], d))
  | _, _ => Ok ([], d)
  end.
Definition reply_message (rr : request * response) : message :=
  (op_value (op_of_request rr.1), encoded (encode_response rr.2), out_fds rr.1 rr.2).
Definition sendable (rr : request * response) : Prop :=
  (exists b, encode_response rr.2 = Ok b) /\ wf_message (reply_message rr).
Definition good_request (r : request) : Prop := wf_request r /\ wf_message (request_message r).

Lemma dispatch_request r d resp d' : good_request r -> handle r d = Ok (resp, d') -> sendable (r, resp) ->
  dispatch_on out_fds (op_value (op_of_request r)) (encoded (encode_request r)) d
  = (Ok (Some (framed (reply_message (r, resp)), out_fds r resp)), d').
Proof.
  intros [Hr Hm] Eh [[b Eb] Hw]. destruct (encode_request_total r Hr) as [body Ebody]. unfold dispatch_on.
  rewrite op_of_value_op_value, Ebody. cbn [encoded]. rewrite <- (app_nil_r body), (codec_request r Hr body [] Ebody), Eh.
  destruct (framed_ok _ Hw) as [Ef _]. unfold reply_message in Ef |- *. cbn [fst snd] in *. rewrite Eb in *. cbn [encoded] in *.
  cbn [res_bind]. by rewrite Ef.
Qed.
Lemma serve_requests (last : turn D) turns : forall reqs out d rrs d',
  Forall good_request reqs -> Forall2 (fun t r => serves_frame (t_recv t) (request_message r)) turns reqs ->
  fair (t_recv last) -> (0 < progress (t_recv last))%nat ->
  answers reqs (t_env <$> turns) d = Ok (rrs, d') -> Forall sendable rrs ->
  Forall (fun t => forall rr, rr ∈ rrs -> serves_frame (t_send t) (reply_message rr)) turns ->
  serve_connection strerror running out_fds (turns ++ [last]) (queue (request_message <$> reqs)) out [] d
  = Some (out ++ queue (reply_message <$> rrs), [], d').
Proof.
  induction turns as [|t turns IH]; intros reqs out d rrs d' Hr Hs Hl Hp Ha Hrr Hsend;
    inversion Hs as [|? r ? reqs' Hsr Hs']; subst; cbn [app serve_connection].
  - injection Ha as <- <-. cbn. rewrite app_nil_r.
    destruct (recv_frame_on_fair strerror (t_recv last) [] Hl) as (st' & s & E & _); [cbn; lia| |by rewrite E].
    intros fh Hfh. by cbn in Hfh.
  - apply Forall_cons in Hr as [Hr Hrs]. apply Forall_cons in Hsend as [Ht Hsend].
    change (queue (request_message <$> r :: reqs')) with
      (attach (request_message r).2 (framed (request_message r)) ++ queue (request_message <$> reqs')).
    destruct (recv_message strerror (t_recv t) (request_message r) (queue (request_message <$> reqs')) (proj2 Hr) Hsr) as [s E].
    rewrite E. cbn [request_message]. cbn [answers fmap list_fmap] in Ha.
    apply res_bind_ok in Ha as ([resp d1] & Eh & Ha).
    assert (Hrun : exists l, rrs = (r, resp) :: l /\ if running d1 then answers reqs' (t_env <$> turns) d1 = Ok (l, d') else l = [] /\ d' = d1).
    { destruct (running d1); [|injection Ha as <- <-; by exists []].
      apply res_bind_ok in Ha as ([l d2] & El & [= <- <-]). by exists l. }
    destruct Hrun as (l & -> & Hl'). apply Forall_cons in Hrr as [Hrr Hrrs].
    rewrite (dispatch_request r (t_env t d) resp d1 Hr Eh Hrr). cbn [app].
    destruct (Ht (r, resp) ltac:(by left)) as [Hf Hpr]. destruct (framed_ok _ (proj2 Hrr)) as [_ Hfl].
    destruct (send_frame_fair strerror (t_send t) (framed (reply_message (r, resp))) (out_fds r resp) out Hf) as [s' E'];
      [lia|done|apply Hrr|]. rewrite E'.
    assert (Hq : forall l, (out ++ attach (out_fds r resp) (framed (reply_message (r, resp)))) ++ queue (reply_message <$> l)
                           = out ++ queue (reply_message <$> (r, resp) :: l)) by (intros l0; by rewrite <- app_assoc).
    destruct (running d1); [|destruct Hl' as [-> ->]; rewrite <- Hq; cbn; by rewrite app_nil_r].
    rewrite <- Hq. apply IH; try done. eapply Forall_impl; [exact Hsend|]. intros t' Ht' rr Hin. apply Ht'. by right.
Qed.
End Answers.

(** ** Theorems *)
(** C28. Frames survive the kernel's cuts: frames sent one after another, each with
    its descriptors, through calls that may be interrupted and transfer as little
    as a byte at a time, are received in order, each with its opcode, its body and
    exactly its descriptors, by calls that are cut differently; both sides return,
    and nothing is left over. *)
Theorem socket_roundtrip (strerror : string) (ws rs : list (list sysres)) (ms : list message) :
  Forall wf_message ms -> Forall2 serves_frame ws ms -> Forall2 serves_frame rs ms ->
  exists q, send_frames strerror ws ms [] = Some q /\ recv_frames strerror rs q = Some (ms, []).
Proof.
  intros Hm Hw Hr. exists (queue ms). split; [by apply send_frames_fair|].
  rewrite <- (app_nil_r (queue ms)). by apply recv_frames_fair.
Qed.
(** A call that moves one byte, after an interruption. *)
Definition bytewise (n : nat) : list sysres := concat (replicate n [SysEintr; SysOk 1]).
Lemma socket_roundtrip_witness :
  let m1 := (1, [x07; x08], [40; 41]) in let m2 := (2, [x09], []) in
  exists q, send_frames "" [[SysOk 5; SysEintr; SysOk 100; SysOk 1; SysOk 1] ++ bytewise 20; bytewise 20] [m1; m2] [] = Some q /\
    recv_frames "" [bytewise 20; SysOk 4096 :: bytewise 20] q = Some ([m1; m2], []).
Proof.
  intros m1 m2. apply (socket_roundtrip "" [[SysOk 5; SysEintr; SysOk 100; SysOk 1; SysOk 1] ++ bytewise 20; bytewise 20]
    [bytewise 20; SysOk 4096 :: bytewise 20] [m1; m2]).
  - repeat constructor; vm_compute; congruence.
  - repeat constructor; vm_compute; lia.
  - repeat constructor; vm_compute; lia.
Defined.

(** C29. A received frame is the frame of the bytes: whatever bytes and descriptors
    are on the stream (also a stream that ends early, a bad header, an oversized
    length) and however the receiving calls cut them, [recv_frame] on the socket
    answers as the frame parser does on the bytes, with the same exception, takes
    the descriptors of the first byte, and leaves the stream behind the frame. *)
Theorem recv_frame_refines (strerror : string) (script : list sysres) (st : list cell) :
  fair script -> (length st < progress script)%nat ->
  exists st' s, recv_frame_on strerror script st =
    Some (match recv_frame (bytes_of st) with
          | Ok None => Ok None
          | Ok (Some (op, payload, _)) => Ok (Some (op, payload, take kMaxFds (first_fds st)))
          | Throw m => Throw m
          end, st', s) /\
    (forall op payload rest, recv_frame (bytes_of st) = Ok (Some (op, payload, rest)) -> bytes_of st' = rest).
Proof.
  intros Hf Hp. destruct (recv_frame_on_fair strerror script st Hf) as (st' & s & E & Hst); [lia|lia|].
  exists st', s. split; [exact E|]. intros op payload rest Er. rewrite (Hst _ _ _ Er).
  rewrite recv_frame_cases in Er. case_decide; [|by destruct (bytes_of st)]. destruct (parse_frame_header _) as [fh|]; [|done].
  cbv zeta in Er. case_decide; [done|]. case_decide; [|by destruct (drop 12 (bytes_of st))]. injection Er as <- <- <-.
  unfold bytes_of. rewrite fmap_drop, drop_drop, length_take. f_equal. unfold bytes_of in *. lia.
Qed.
Lemma recv_frame_refines_witness :
  exists st' s, recv_frame_on "" (bytewise 20) (plain [x01; x02; x03]) = Some (Throw "recvmsg EOF mid-header", st', s).
Proof.
  destruct (recv_frame_refines "" (bytewise 20) (plain [x01; x02; x03])) as (st' & s & E & _);
    [repeat constructor|vm_compute; lia|]. exists st', s. exact E.
Defined.

(** C11. A connection runs the handlers in the order of the requests: for a client
    that sends well-formed requests, [serve_connection] has exactly the effect on
    the daemon of handling them one after the other (each after whatever other
    threads did meanwhile) until a handler stops the daemon, the replies on the
    stream are the handlers' in the same order with the descriptors they hand out,
    and the connection is closed after the last. *)
Theorem serve_connection_refines (strerror : string) {D : Type} `{!Handlers D} (running : D -> bool)
  (out_fds : request -> response -> list Z) (turns : list (turn D)) (last : turn D) (reqs : list request)
  (rrs : list (request * response)) (d d' : D) :
  Forall good_request reqs -> Forall2 (fun t r => serves_frame (t_recv t) (request_message r)) turns reqs ->
  fair (t_recv last) -> (0 < progress (t_recv last))%nat ->
  answers running reqs (t_env <$> turns) d = Ok (rrs, d') -> Forall (sendable out_fds) rrs ->
  Forall (fun t => forall rr, rr ∈ rrs -> serves_frame (t_send t) (reply_message out_fds rr)) turns ->
  serve_connection strerror running out_fds (turns ++ [last]) (queue (request_message <$> reqs)) [] [] d
  = Some (queue (reply_message out_fds <$> rrs), [], d').
Proof.
  intros Hr Hs Hl Hp Ha Hrr Hsend. exact (serve_requests strerror running out_fds last turns reqs [] d rrs d' Hr Hs Hl Hp Ha Hrr Hsend).
Qed.
(** Two heartbeats over calls of one byte; another thread adds 100 in between. *)
Lemma serve_connection_refines_witness :
  let t0 := mkTurn (bytewise 60) (bytewise 60) id in
  let t1 := mkTurn (bytewise 60) (SysOk 4096 :: bytewise 60) (fun d => d + 100) in
  let reply := (hb_example, RespHeartbeat (mkHeartbeatResponse true "ok")) in
  @serve_connection "" Z echo_handlers (fun _ => true) (fun _ _ => []) ([t0; t1] ++ [t0])
    (queue (request_message <$> [hb_example; hb_example])) [] [] 5
  = Some (queue (reply_message (fun _ _ => []) <$> [reply; reply]), [], 119).
Proof.
  intros t0 t1 reply.
  assert (Hf : fair (bytewise 60)) by (repeat constructor).
  assert (Hq : serves_frame (bytewise 60) (request_message hb_example)) by (split; [exact Hf|vm_compute; lia]).
  assert (Hg : good_request hb_example) by (split; [|split_and!]; repeat split; vm_compute; first [congruence|lia]).
  assert (Hw : sendable (fun _ _ => []) reply)
    by (split; [eexists; vm_compute; reflexivity|split_and!; repeat split; vm_compute; first [congruence|lia]]).
  apply (@serve_connection_refines "" Z echo_handlers (fun _ => true) (fun _ _ => []) [t0; t1] t0
    [hb_example; hb_example] [reply; reply] 5 119).
  - apply Forall_cons_2; [exact Hg|apply Forall_cons_2; [exact Hg|apply Forall_nil_2]].
  - apply Forall2_cons_2; [exact Hq|apply Forall2_cons_2; [exact Hq|apply Forall2_nil_2]].
  - exact Hf.
  - vm_compute. lia.
  - vm_compute. reflexivity.
  - apply Forall_cons_2; [exact Hw|apply Forall_cons_2; [exact Hw|apply Forall_nil_2]].
  - assert (Hin : forall rr, rr ∈ [reply; reply] -> rr = reply)
      by (intros rr [->|[->|[]%not_elem_of_nil]%elem_of_cons]%elem_of_cons; reflexivity).
    assert (Hr0 : serves_frame (t_send t0) (reply_message (fun _ _ => []) reply)) by (split; [exact Hf|vm_compute; lia]).
    assert (Hr1 : serves_frame (t_send t1) (reply_message (fun _ _ => []) reply))
      by (split; [constructor; [lia|exact Hf]|vm_compute; lia]).
    apply Forall_cons_2; [intros rr Hrr; rewrite (Hin rr Hrr); exact Hr0|].
    apply Forall_cons_2; [intros rr Hrr; rewrite (Hin rr Hrr); exact Hr1|apply Forall_nil_2].
Defined.

(** [uds_connect] gives up: a refusal after [timeout_ms] of sleeps is final. *)
Lemma uds_connect_loop_ends strerror path timeout_ms attempts : forall waited,
  Forall (fun a => a = Refused true) attempts -> attempts <> [] ->
  timeout_ms <= waited + 25 * (Z.of_nat (length attempts) - 1) ->
  uds_connect_loop strerror attempts path timeout_ms waited = Some (Throw ("connect(" +:+ path +:+ ") failed: " +:+ strerror)).
Proof.
  induction attempts as [|a attempts IH]; intros waited Ha Hne Hw; [done|]. apply Forall_cons in Ha as [-> Ha].
  cbn [uds_connect_loop andb]. case_bool_decide; [|done]. cbn [length] in Hw. apply IH; [done| |lia].
  intros ->. cbn in Hw. lia.
Qed.
