(* ===== verification/Export.v ===== *)
(** * Export transports

    [export_backend.cpp] and [export_libfabric.cpp]: shipping the staged bytes of
    an object to a TCP peer, a file or, where it is compiled in, a libfabric
    endpoint.  The kernel and the fabric library are inputs: the outcome of the
    name resolution and the connection attempts, of [open], of every [write], and
    of the library's calls. *)
From stdpp Require Import base gmap strings list.
From Stdlib Require Import ZArith Lia Strings.Byte Strings.Ascii.
From S2P Require Import Prelude.
From S2P Require Import Wire.
From S2P Require Import Files.
Open Scope Z_scope.
Open Scope offload_scope.

Record ExportRequest := mkExportRequest {
  xq_object_id : Z; xq_nbytes : Z; xq_transport : Z; xq_target_descriptor : string;
  xq_content_hash_lo : Z; xq_content_hash_hi : Z }.
Record ExportResult := mkExportResult {
  xr_ok : bool; xr_message : string; xr_transport : Z; xr_bytes_sent : Z; xr_duration_ns : Z;
  xr_transport_metadata : string }.
#[export] Instance eta_ExportResult : Eta ExportResult := fun r => mkExportResult
  (xr_ok r) (xr_message r) (xr_transport r) (xr_bytes_sent r) (xr_duration_ns r) (xr_transport_metadata r).
Definition default_result : ExportResult := mkExportResult false "" 0 0 0 "".

Definition TK_TCP : Z := 1.
Definition TK_FILE : Z := 2.
Definition TK_LIBFABRIC_SEND : Z := 3.
Definition kExportMagic : Z := 0x4F464558.
(** The [ExportHeader] as it lies in memory: 40 bytes, without padding. *)
Definition export_header (req : ExportRequest) (nbytes : Z) : list byte :=
  le_bytes 4 kExportMagic ++ le_bytes 4 1 ++ le_bytes 8 (xq_object_id req) ++ le_bytes 8 nbytes
  ++ le_bytes 8 (xq_content_hash_lo req) ++ le_bytes 8 (xq_content_hash_hi req).

(** Where bytes end up: files, what the kernel accepted for each TCP connection
    ([write] returned it; whether the peer got it is not known to the code), and
    what the fabric took for each address. *)
Record Sinks := mkSinks {
  sk_files : gmap string (list byte);
  sk_peers : list (string * string * list byte);
  sk_fabric : list (string * string * list byte) }.
#[export] Instance eta_Sinks : Eta Sinks := fun s => mkSinks (sk_files s) (sk_peers s) (sk_fabric s).
(** The calls into the fabric library, in the order [send_libfabric] makes them. *)
Inductive fabric_call := FGetNetwork | FEndpoint | FConnect | FAlloc | FRegister | FSend | FUnregister | FClose.
(** What the outside does during one [export_send]. *)
Record Net := mkNet {
  (* the resolved addresses, each with the success of [socket] and of [connect] *)
  nt_addrs : option (list (bool * bool));
  nt_open : bool;
  nt_script : list sysres;
  nt_strerror : string;
  (* [OFLD_LIBFABRIC_NIC], the outcome of each of the library's calls (a [Throw] is
     an exception with that text), and how much a [Send] that throws had sent *)
  nt_env_nic : option string;
  nt_fabric : fabric_call -> res unit;
  nt_fabric_sent : nat;
  nt_t0 : Z; nt_t1 : Z }.

Fixpoint write_all (script : list sysres) (buf out : list byte) : option (bool * list byte * list sysres) :=
  match buf with
  | [] => Some (true, out, script)
  | _ =>
      match script with
      | [] => None
      | SysEintr :: s => write_all s buf out
      | SysErr :: s => Some (false, out, s)
      | SysOk n :: s =>
          if decide (n <= 0) then Some (false, out, s)
          else write_all s (drop (Z.to_nat n) buf) (out ++ take (Z.to_nat n) buf)
      end
  end.
(** [write_all(header) && write_all(data)] *)
Definition write_both (script : list sysres) (header data out : list byte) : option (bool * list byte) :=
  '(ok, out, script) ← write_all script header out;
  if negb ok then Some (false, out)
  else '(ok, out, _) ← write_all script data out; Some (ok, out).

(** The position of the last occurrence of [c]. *)
Fixpoint rfind (c : Ascii.ascii) (l : list Ascii.ascii) : option nat :=
  match l with
  | [] => None
  | x :: l => match rfind c l with
              | Some n => Some (S n)
              | None => if decide (x = c) then Some O else None
              end
  end.
Definition text_of (s : string) : list Ascii.ascii := String.list_ascii_of_string s.
Definition string_of (l : list Ascii.ascii) : string := String.string_of_list_ascii l.
Definition split_hostport (s : string) : option (string * string) :=
  let l := text_of s in
  match rfind ":"%char l with
  | None => None
  | Some pos =>
      if decide (pos = 0%nat \/ (length l <= pos + 1)%nat) then None
      else Some (string_of (take pos l), string_of (drop (pos + 1) l))
  end.
(** Whether an address of the list could be connected to. *)
Fixpoint tcp_connect_loop (addrs : list (bool * bool)) : bool :=
  match addrs with
  | [] => false
  | (socket_ok, connect_ok) :: addrs => if socket_ok && connect_ok then true else tcp_connect_loop addrs
  end.
Definition tcp_connect (addrs : option (list (bool * bool))) : bool :=
  match addrs with None => false | Some l => tcp_connect_loop l end.

Definition sent_ok (transport nbytes : Z) (metadata : string) : ExportResult :=
  mkExportResult true "ok" transport nbytes 0 metadata.
Definition send_tcp (n : Net) (req : ExportRequest) (data : list byte) (w : Sinks) : option (ExportResult * Sinks) :=
  let r := default_result <| xr_transport := TK_TCP |> in
  match split_hostport (xq_target_descriptor req) with
  | None => Some (r <| xr_message := "bad tcp target (want host:port)" |>, w)
  | Some (host, port) =>
      if negb (tcp_connect (nt_addrs n)) then Some (r <| xr_message := "tcp connect failed: " +:+ nt_strerror n |>, w)
      else
        '(ok, out) ← write_both (nt_script n) (export_header req (zlen data)) data [];
        Some (if ok : bool then sent_ok TK_TCP (zlen data) ("tcp:" +:+ xq_target_descriptor req)
              else r <| xr_message := "tcp write failed" |>,
              w <| sk_peers ::= (fun l => l ++ [(host, port, out)]) |>)
  end.
Definition send_file (n : Net) (req : ExportRequest) (data : list byte) (w : Sinks) : option (ExportResult * Sinks) :=
  let r := default_result <| xr_transport := TK_FILE |> in
  if negb (nt_open n) then Some (r <| xr_message := "open failed: " +:+ nt_strerror n |>, w)
  else
    '(ok, out) ← write_both (nt_script n) (export_header req (zlen data)) data [];
    Some (if ok : bool then sent_ok TK_FILE (zlen data) ("file:" +:+ xq_target_descriptor req)
          else r <| xr_message := "file write failed" |>,
          w <| sk_files ::= <[xq_target_descriptor req := out]> |>).

(** [find] of the first ['|']. *)
Fixpoint split_first (c : Ascii.ascii) (l : list Ascii.ascii) : option (list Ascii.ascii * list Ascii.ascii) :=
  match l with
  | [] => None
  | x :: l => if decide (x = c) then Some ([], l)
              else match split_first c l with Some (a, b) => Some (x :: a, b) | None => None end
  end.
Definition split_desc (s : string) : option (string * string) :=
  match split_first "|"%char (text_of s) with
  | Some (a, b) => match a, b with [], _ | _, [] => None | _, _ => Some (string_of a, string_of b) end
  | None => None
  end.
(** Calls made one after the other until one throws. *)
Fixpoint fabric_calls (n : Net) (cs : list fabric_call) : res unit :=
  match cs with [] => Ok tt | c :: cs => res_bind (nt_fabric n c) (fun _ => fabric_calls n cs) end.
Definition send_libfabric (n : Net) (req : ExportRequest) (data : list byte) (w : Sinks) : ExportResult * Sinks :=
  let r := default_result <| xr_transport := TK_LIBFABRIC_SEND |> in
  match split_desc (xq_target_descriptor req) with
  | None => (r <| xr_message := "bad libfabric target (want <nic>|<ib_address_hex>)" |>, w)
  | Some (nic, addr) =>
      let local_nic := match nt_env_nic n with
                       | Some e => if decide (e = EmptyString) then nic else e
                       | None => nic
                       end in
      let sent (k : nat) := w <| sk_fabric ::= (fun l => l ++ [(local_nic, addr, take k data)]) |> in
      let failed (m : string) (w : Sinks) := (r <| xr_message := "libfabric send failed: " +:+ m |>, w) in
      match fabric_calls n [FGetNetwork; FEndpoint; FConnect; FAlloc; FRegister] with
      | Throw m => failed m w
      | Ok _ =>
          match nt_fabric n FSend with
          | Throw m => failed m (sent (nt_fabric_sent n))
          | Ok _ =>
              match fabric_calls n [FUnregister; FClose] with
              | Throw m => failed m (sent (length data))
              | Ok _ => (sent_ok TK_LIBFABRIC_SEND (zlen data) ("libfabric:" +:+ nic), sent (length data))
              end
          end
      end
  end.

Section Backend.
(** [OFLD_WITH_LIBFABRIC] *)
Context (with_libfabric : bool).
(** [fuel] bounds the recursion through the fallback transport. *)
Fixpoint export_send (fuel : nat) (n : Net) (req : ExportRequest) (data : list byte) (fallback : Z) (w : Sinks)
  : option (ExportResult * Sinks) :=
  let timed (r : ExportResult) := r <| xr_duration_ns := u64 (nt_t1 n - nt_t0 n) |> in
  let tk := xq_transport req in
  if decide (tk = TK_TCP) then '(r, w) ← send_tcp n req data w; Some (timed r, w)
  else if decide (tk = TK_FILE) then '(r, w) ← send_file n req data w; Some (timed r, w)
  else if decide (tk = TK_LIBFABRIC_SEND) then
    if with_libfabric then let '(r, w) := send_libfabric n req data w in Some (timed r, w)
    else match fuel with
    | O => None
    | S fuel =>
        let fb := mkExportRequest (xq_object_id req) (xq_nbytes req) fallback (xq_target_descriptor req)
                    (xq_content_hash_lo req) (xq_content_hash_hi req) in
        '(r, w) ← export_send fuel n fb data TK_TCP w; Some (timed r, w)
    end
  else Some (timed (default_result <| xr_message := "unknown transport" |> <| xr_transport := tk |>), w).
End Backend.

(** ** What a transport delivers *)
(** The bytes a sink receives for a complete export. *)
Definition wire_bytes (tk : Z) (req : ExportRequest) (data : list byte) : list byte :=
  if decide (tk = TK_LIBFABRIC_SEND) then data else export_header req (zlen data) ++ data.
(** [w'] is [w] with [out] taken by the sink of [req] over [tk]. *)
Definition shipped (n : Net) (tk : Z) (req : ExportRequest) (out : list byte) (w w' : Sinks) : Prop :=
  (tk = TK_TCP /\ exists host port, split_hostport (xq_target_descriptor req) = Some (host, port) /\
     w' = w <| sk_peers ::= (fun l => l ++ [(host, port, out)]) |>) \/
  (tk = TK_FILE /\ w' = w <| sk_files ::= <[xq_target_descriptor req := out]> |>) \/
  (tk = TK_LIBFABRIC_SEND /\ exists nic addr, split_desc (xq_target_descriptor req) = Some (nic, addr) /\
     w' = w <| sk_fabric ::= (fun l => l ++
            [(match nt_env_nic n with Some e => if decide (e = EmptyString) then nic else e | None => nic end, addr, out)]) |>).
(** The receiver: [_recv_exact] of the header, [parse_export_header] of the Python
    client and [_recv_exact] of the payload. *)
Definition read_export (bs : list byte) : option (Z * Z * Z * list byte) :=
  let field off len := le_value (slice off len bs) in
  if decide (zlen bs < 40 \/ field 0 4 ≠ kExportMagic \/ zlen bs - 40 < field 16 8) then None
  else Some (field 8 8, field 24 8, field 32 8, slice 40 (field 16 8) bs).

Lemma write_all_prefix script : forall buf out ok out' s, write_all script buf out = Some (ok, out', s) ->
  exists k, out' = out ++ take k buf /\ (ok = true -> take k buf = buf) /\ (ok = false -> (k < length buf)%nat).
Proof.
  induction script as [|r script IH]; intros buf out ok out' s; destruct buf as [|b buf]; cbn [write_all].
  1, 3: intros [= <- <- <-]; exists 0%nat; by rewrite app_nil_r.
  - done.
  - destruct r as [n| |]; [|by apply IH|intros [= <- <- <-]; exists 0%nat; rewrite app_nil_r; split_and!; [done|done|cbn; lia]].
    case_decide; [intros [= <- <- <-]; exists 0%nat; rewrite app_nil_r; split_and!; [done|done|cbn; lia]|].
    intros (k & -> & H1 & H2)%IH. exists (Z.to_nat n + k)%nat. rewrite <- app_assoc, take_take_drop. split_and!; [done| |].
    + intros Ho. specialize (H1 Ho). apply (f_equal length) in H1. rewrite length_take in H1.
      apply take_ge. rewrite length_drop in H1. lia.
    + intros Ho. specialize (H2 Ho). rewrite length_drop in H2. lia.
Qed.
Lemma write_both_spec script header data ok out : write_both script header data [] = Some (ok, out) ->
  exists k, out = take k (header ++ data) /\ (ok = true -> out = header ++ data) /\ (ok = false -> (k < length (header ++ data))%nat).
Proof.
  unfold write_both. destruct (write_all script header []) as [[[ok1 out1] s1]|] eqn:E1; [|done]. cbn.
  apply write_all_prefix in E1 as (k1 & -> & H1 & H2). cbn [app]. destruct ok1; cbn.
  - rewrite H1 by done. destruct (write_all s1 data header) as [[[ok2 out2] s2]|] eqn:E2; [|done]. cbn. intros [= <- <-].
    apply write_all_prefix in E2 as (k2 & -> & H3 & H4). exists (length header + k2)%nat.
    rewrite take_app_ge by lia. replace (length header + k2 - length header)%nat with k2 by lia. split_and!; [done| |].
    + intros Ho. by rewrite H3.
    + intros Ho. rewrite length_app. specialize (H4 Ho). lia.
  - intros [= <- <-]. specialize (H2 eq_refl). exists k1. rewrite take_app_le by lia. split_and!; [done|done|].
    intros _. rewrite length_app. lia.
Qed.
(** The outcome of an export: all the bytes and a success, or an error and a prefix
    of them at most, over TCP and to a file a proper one (a fabric call may throw
    after the transfer). *)
Definition all_or_error (n : Net) (req : ExportRequest) (data : list byte) (w : Sinks) (r : ExportResult) (w' : Sinks) : Prop :=
  (xr_ok r = true /\ shipped n (xr_transport r) req (wire_bytes (xr_transport r) req data) w w' /\ xr_bytes_sent r = zlen data) \/
  (xr_ok r = false /\ (w' = w \/ exists k,
     (xr_transport r ≠ TK_LIBFABRIC_SEND -> (k < length (wire_bytes (xr_transport r) req data))%nat) /\
     shipped n (xr_transport r) req (take k (wire_bytes (xr_transport r) req data)) w w')).
Lemma send_tcp_spec n req data w r w' : send_tcp n req data w = Some (r, w') -> all_or_error n req data w r w'.
Proof.
  unfold send_tcp. destruct (split_hostport _) as [[host port]|] eqn:Eh; [|intros [= <- <-]; right; by split; [|left]].
  destruct (tcp_connect _); cbn [negb]; [|intros [= <- <-]; right; by split; [|left]].
  destruct (write_both _ _ _ _) as [[ok out]|] eqn:E; [|done]. cbn. intros [= <- <-].
  apply write_both_spec in E as (k & Ek & H1 & H2). destruct ok.
  - left. split_and!; [done| |done]. left. split; [done|]. exists host, port. split; [done|]. by rewrite H1.
  - right. split; [done|]. right. exists k. split; [intros _; by apply H2|]. left. split; [done|]. exists host, port. split; [done|].
    by rewrite Ek.
Qed.
Lemma send_file_spec n req data w r w' : send_file n req data w = Some (r, w') -> all_or_error n req data w r w'.
Proof.
  unfold send_file. destruct (nt_open n); cbn [negb]; [|intros [= <- <-]; right; by split; [|left]].
  destruct (write_both _ _ _ _) as [[ok out]|] eqn:E; [|done]. cbn. intros [= <- <-].
  apply write_both_spec in E as (k & Ek & H1 & H2). destruct ok.
  - left. split_and!; [done| |done]. right. left. split; [done|]. by rewrite H1.
  - right. split; [done|]. right. exists k. split; [intros _; by apply H2|]. right. left. split; [done|]. by rewrite Ek.
Qed.
Lemma send_libfabric_spec n req data w r w' : send_libfabric n req data w = (r, w') -> all_or_error n req data w r w'.
Proof.
  unfold send_libfabric. destruct (split_desc _) as [[nic addr]|] eqn:Eh; [|intros [= <- <-]; right; by split; [|left]].
  cbv zeta. destruct (fabric_calls n [FGetNetwork; _; _; _; _]); [|intros [= <- <-]; right; by split; [|left]].
  destruct (nt_fabric n FSend); [destruct (fabric_calls n [FUnregister; FClose])|]; intros [= <- <-].
  - left. split_and!; [done| |done]. right. right. split; [done|]. exists nic, addr. split; [done|].
    unfold wire_bytes. rewrite decide_True by done. by rewrite firstn_all.
  - right. split; [done|]. right. exists (length data). split; [done|]. right. right. split; [done|]. by exists nic, addr.
  - right. split; [done|]. right. exists (nt_fabric_sent n). split; [done|]. right. right. split; [done|].
    by exists nic, addr.
Qed.
Lemma export_header_length req nbytes : length (export_header req nbytes) = 40%nat.
Proof. unfold export_header. by rewrite !length_app, !length_le_bytes. Qed.
(** The receiver reads the object, its hashes and its bytes back. *)
Lemma read_export_header req data rest :
  in_u64 (xq_object_id req) -> in_u64 (xq_content_hash_lo req) -> in_u64 (xq_content_hash_hi req) -> in_u64 (zlen data) ->
  read_export (export_header req (zlen data) ++ data ++ rest)
  = Some (xq_object_id req, xq_content_hash_lo req, xq_content_hash_hi req, data).
Proof.
  intros Ho Hl Hh Hd. set (bs := export_header req (zlen data) ++ data ++ rest).
  assert (Hf : forall off len pre post n v, length pre = Z.to_nat off -> len = Z.of_nat n ->
    export_header req (zlen data) = pre ++ le_bytes n v ++ post -> in_u64 v -> n = 8%nat \/ (n = 4%nat /\ in_u32 v) ->
    le_value (slice off len bs) = v).
  { intros off len pre post n v Hp -> E Hv Hn. unfold bs. rewrite E, <- !app_assoc. unfold slice. rewrite Nat2Z.id, <- Hp, drop_app_length.
    rewrite take_app_length' by (symmetry; apply length_le_bytes). rewrite le_value_bytes. apply Z.mod_small.
    destruct Hn as [->|[-> Hn]]; [exact Hv|exact Hn]. }
  set (m := le_bytes 4 kExportMagic) in *. set (v1 := le_bytes 4 1) in *. set (o := le_bytes 8 (xq_object_id req)) in *.
  set (nb := le_bytes 8 (zlen data)) in *. set (lo := le_bytes 8 (xq_content_hash_lo req)) in *.
  assert (F0 : le_value (slice 0 4 bs) = kExportMagic).
  { apply (Hf 0 4 [] _ 4%nat kExportMagic eq_refl eq_refl eq_refl); [split; vm_compute; congruence|]. right. split; [done|split; vm_compute; congruence]. }
  assert (F8 : le_value (slice 8 8 bs) = xq_object_id req).
  { apply (Hf 8 8 (m ++ v1) (nb ++ lo ++ le_bytes 8 (xq_content_hash_hi req)) 8%nat); [by rewrite !length_app|done|by rewrite <- !app_assoc|done|by left]. }
  assert (F16 : le_value (slice 16 8 bs) = zlen data).
  { apply (Hf 16 8 (m ++ v1 ++ o) (lo ++ le_bytes 8 (xq_content_hash_hi req)) 8%nat); [by rewrite !length_app|done|by rewrite <- !app_assoc|done|by left]. }
  assert (F24 : le_value (slice 24 8 bs) = xq_content_hash_lo req).
  { apply (Hf 24 8 (m ++ v1 ++ o ++ nb) (le_bytes 8 (xq_content_hash_hi req)) 8%nat); [by rewrite !length_app|done|by rewrite <- !app_assoc|done|by left]. }
  assert (F32 : le_value (slice 32 8 bs) = xq_content_hash_hi req).
  { apply (Hf 32 8 (m ++ v1 ++ o ++ nb ++ lo) [] 8%nat); [by rewrite !length_app|done|by rewrite <- !app_assoc, app_nil_r|done|by left]. }
  assert (Hz : zlen bs = 40 + zlen data + zlen rest).
  { unfold bs. rewrite !zlen_app. unfold zlen at 1. rewrite export_header_length. lia. }
  unfold read_export. rewrite F0, F8, F16, F24, F32, Hz. pose proof (zlen_nonneg rest). rewrite decide_False by (unfold in_u64 in *; lia).
  do 2 f_equal. unfold bs. rewrite slice_app_r by (unfold zlen at 1; rewrite export_header_length; lia).
  unfold zlen at 1. rewrite export_header_length. change (40 - Z.of_nat 40) with 0. rewrite slice_app_l by (unfold in_u64 in *; lia). apply slice_all.
Qed.

(** The calls that were not interrupted. *)
Definition answered (script : list sysres) : nat :=
  length (List.filter (fun r => match r with SysEintr => false | _ => true end) script).
Lemma write_all_answers script : forall buf out, (length buf <= answered script)%nat ->
  exists ok out' s, write_all script buf out = Some (ok, out', s) /\ (ok = true -> (answered script <= answered s + length buf)%nat).
Proof.
  induction script as [|r script IH]; intros buf out Ha.
  - destruct buf; [|cbn in Ha; lia]. eexists true, _, _. split; [reflexivity|]. cbn. lia.
  - destruct buf as [|b buf]; [eexists true, _, (r :: script); split; [reflexivity|cbn [length]; lia]|].
    destruct r as [n| |]; cbn [write_all].
    + case_decide; [by eexists false, _, _|].
      assert (Hd : (length (drop (Z.to_nat n) (b :: buf)) <= length buf)%nat) by (rewrite length_drop; cbn; lia).
      cbn in Ha. destruct (IH (drop (Z.to_nat n) (b :: buf)) (out ++ take (Z.to_nat n) (b :: buf))) as (ok & out' & s & E & Hs);
        [unfold answered; lia|].
      exists ok, out', s. split; [exact E|]. intros Ho. specialize (Hs Ho). cbn. unfold answered in *. lia.
    + by apply IH.
    + by eexists false, _, _.
Qed.
Lemma write_both_answers script header data : (length (header ++ data) <= answered script)%nat ->
  exists ok out, write_both script header data [] = Some (ok, out).
Proof.
  rewrite length_app. intros Ha. unfold write_both.
  destruct (write_all_answers script header []) as (ok & out & s & -> & Hs); [lia|]. cbn. destruct ok; cbn; [|eauto].
  specialize (Hs eq_refl). destruct (write_all_answers s data out) as (ok & out' & s' & -> & _); [lia|]. cbn. eauto.
Qed.

Lemma all_or_error_timed n req data w r w' t : all_or_error n req data w r w' ->
  all_or_error n req data w (r <| xr_duration_ns := t |>) w'.
Proof. done. Qed.
Lemma send_tcp_ends n req data w : (length (export_header req (zlen data) ++ data) <= answered (nt_script n))%nat ->
  exists r w', send_tcp n req data w = Some (r, w') /\ all_or_error n req data w r w'.
Proof.
  intros Ha. assert (exists p, send_tcp n req data w = Some p) as [[r w'] E].
  { unfold send_tcp. destruct (split_hostport _) as [[host port]|]; [|eauto]. destruct (negb _); [eauto|].
    destruct (write_both_answers _ _ _ Ha) as (ok & out & ->). cbn. eauto. }
  exists r, w'. split; [exact E|by apply send_tcp_spec].
Qed.
Lemma send_file_ends n req data w : (length (export_header req (zlen data) ++ data) <= answered (nt_script n))%nat ->
  exists r w', send_file n req data w = Some (r, w') /\ all_or_error n req data w r w'.
Proof.
  intros Ha. assert (exists p, send_file n req data w = Some p) as [[r w'] E].
  { unfold send_file. destruct (negb _); [eauto|]. destruct (write_both_answers _ _ _ Ha) as (ok & out & ->). cbn. eauto. }
  exists r, w'. split; [exact E|by apply send_file_spec].
Qed.
(** One level: everything but the fallback. *)
Lemma export_send_step wl fuel n req data fallback w :
  (length (export_header req (zlen data) ++ data) <= answered (nt_script n))%nat ->
  (xq_transport req = TK_LIBFABRIC_SEND -> wl = false -> exists fuel', fuel = S fuel' /\
     let fb := mkExportRequest (xq_object_id req) (xq_nbytes req) fallback (xq_target_descriptor req)
                 (xq_content_hash_lo req) (xq_content_hash_hi req) in
     exists r w', export_send wl fuel' n fb data TK_TCP w = Some (r, w') /\ all_or_error n fb data w r w') ->
  exists r w', export_send wl fuel n req data fallback w = Some (r, w') /\ all_or_error n req data w r w'.
Proof.
  intros Ha Hfb. destruct fuel; cbn [export_send];
    (case_decide; [destruct (send_tcp_ends n req data w Ha) as (r & w' & -> & ?); eexists _, _; split; [reflexivity|by apply all_or_error_timed]|]);
    (case_decide; [destruct (send_file_ends n req data w Ha) as (r & w' & -> & ?); eexists _, _; split; [reflexivity|by apply all_or_error_timed]|]);
    (case_decide; [|eexists _, _; split; [reflexivity|right; by split; [|left]]]);
    destruct wl;
    try (destruct (send_libfabric n req data w) as [r w'] eqn:E; eexists _, _; split; [reflexivity|]; by apply all_or_error_timed, send_libfabric_spec).
  - by destruct (Hfb ltac:(done) eq_refl) as (fuel' & ? & _).
  - destruct (Hfb ltac:(done) eq_refl) as (fuel' & [= ->] & r & w' & E & Hf). rewrite E. eexists _, _. split; [reflexivity|].
    apply all_or_error_timed. exact Hf.
Qed.
Lemma export_send_ends wl n req data fallback w :
  (length (export_header req (zlen data) ++ data) <= answered (nt_script n))%nat ->
  exists r w', export_send wl 2 n req data fallback w = Some (r, w') /\ all_or_error n req data w r w'.
Proof.
  intros Ha. assert (Hl : forall q, length (export_header q (zlen data) ++ data) = (40 + length data)%nat)
    by (intros q; by rewrite length_app, export_header_length).
  rewrite Hl in Ha. apply export_send_step; [by rewrite Hl|]. intros _ _. exists 1%nat. split; [done|].
  apply export_send_step; [by rewrite Hl|]. intros _ _. exists 0%nat. split; [done|].
  apply export_send_step; [by rewrite Hl|]. intros [=].
Qed.
(** C30. An export hands over everything or reports an error: whatever the network,
    the disk and the fabric do, [export_send] returns once [40 + nbytes] writes were
    answered; when it answers ok, the sink of the request (the TCP connection, the
    file or the fabric) took the whole of the bytes over the transport it reports
    (behind the 40-byte header, from which the receiver of a TCP or file export
    reads the object id, the hashes and the bytes back); when it answers an error
    over TCP or to a file, the sink took at most a proper prefix, and over the
    fabric at most a prefix, possibly all of it ([libfabric_error_after_send]).
    What TCP took is what [write] accepted.  Without libfabric the fallback is
    reached in at most two steps. *)
Theorem export_delivers (with_libfabric : bool) (n : Net) (req : ExportRequest) (data : list byte) (fallback : Z) (w : Sinks) :
  in_u64 (xq_object_id req) -> in_u64 (xq_content_hash_lo req) -> in_u64 (xq_content_hash_hi req) -> in_u64 (zlen data) ->
  40 + zlen data <= Z.of_nat (answered (nt_script n)) ->
  exists r w', export_send with_libfabric 2 n req data fallback w = Some (r, w') /\ all_or_error n req data w r w' /\
    (forall tk rest, tk <> TK_LIBFABRIC_SEND -> read_export (wire_bytes tk req data ++ rest)
       = Some (xq_object_id req, xq_content_hash_lo req, xq_content_hash_hi req, data)).
Proof.
  intros Ho Hl Hh Hd Ha. destruct (export_send_ends with_libfabric n req data fallback w) as (r & w' & E & H).
  { rewrite length_app, export_header_length. unfold zlen in Ha. lia. }
  exists r, w'. split_and!; [done..|]. intros tk rest Htk. unfold wire_bytes. rewrite decide_False by done.
  rewrite <- app_assoc. by apply read_export_header.
Qed.
(** Sent to a file in pieces; and libfabric wanted, not compiled in, sent over TCP. *)
Definition sample_net : Net :=
  mkNet (Some [(false, true); (true, true)]) true ([SysEintr; SysOk 7] ++ replicate 60 (SysOk 3)) "" None
    (fun _ => Ok tt) 0 5 9.
Definition sample_export (tk : Z) : ExportRequest := mkExportRequest 17 3 tk "10.0.0.1:7000" 11 12.
Lemma export_delivers_witness :
  let data := [x01; x02; x03] in
  exists w', export_send false 2 sample_net (sample_export 3) data 3 (mkSinks ∅ [] [])
      = Some (mkExportResult true "ok" 1 3 4 "tcp:10.0.0.1:7000", w') /\
    all_or_error sample_net (sample_export 3) data (mkSinks ∅ [] []) (mkExportResult true "ok" 1 3 4 "tcp:10.0.0.1:7000") w'.
Proof.
  intros data.
  destruct (export_delivers false sample_net (sample_export 3) data 3 (mkSinks ∅ [] [])) as (r & w' & E & H & _);
    [split; vm_compute; congruence..|vm_compute; congruence|].
  assert (Hr : Some r = Some (mkExportResult true "ok" 1 3 4 "tcp:10.0.0.1:7000")).
  { change (Some r) with (fst <$> Some (r, w')). rewrite <- E. vm_compute. reflexivity. }
  injection Hr as Hr. rewrite Hr in E, H. exists w'. split; [exact E|exact H].
Defined.
(** When the library throws on closing the endpoint, the answer is an error although
    all the bytes were sent. *)
Lemma libfabric_error_after_send :
  let n := mkNet None false [] "" None (fun c => match c with FClose => Throw "close" | _ => Ok tt end) 0 5 9 in
  let req := mkExportRequest 17 3 TK_LIBFABRIC_SEND "mlx5_0|0a0b" 11 12 in
  export_send true 2 n req [x01; x02; x03] TK_TCP (mkSinks ∅ [] [])
  = Some (mkExportResult false "libfabric send failed: close" 3 0 4 "",
          mkSinks ∅ [] [("mlx5_0", "0a0b", [x01; x02; x03])]).
Proof. vm_compute. reflexivity. Qed.
