(* ===== verification/Session.v ===== *)
(** * Sessions

    Models [handle_register] with its [invalidate] lambda, [handle_heartbeat],
    one sweep of [heartbeat_monitor_loop], one sweep and the final drain of
    [ring_poller_loop] ([src/daemon/daemon.cpp]).

    The loops over [leases_] and [sessions_] visit the map in the order of
    [map_to_list].  The fds that accompany a register response are the arena fds
    followed by the control fd, in the order of [rrs_arenas]; they are not
    values of the model. *)
From stdpp Require Import base gmap strings list fin_maps list_numbers.
From Stdlib Require Import ZArith Lia.
From S2P Require Import Prelude.
From S2P Require Import Ring.
From S2P Require Import Protocol.
From S2P Require Import State.
From S2P Require Import Alloc.
From S2P Require Import Drain.
From S2P Require Import Offload.
From S2P Require Import Store.
Open Scope Z_scope.
Open Scope offload_scope.

(** ** Recovery of a dead session's leases *)
Definition lease_of_session (s : Session) (L : Lease) : bool :=
  bool_decide (le_owner_rank L = se_rank_id s) && bool_decide (le_rank_epoch L = se_rank_epoch s).
(** The slots whose bytes are safe or in the hands of a worker are kept. *)
Definition data_safe (st : slot_state_t) : bool :=
  match st with
  | SLOT_PINNED_VALID | SLOT_COLD_VALID | SLOT_DRAIN_IN_FLIGHT => true
  | _ => false
  end.
Definition recover_leases (now : Z) (s : Session) (d : Daemon) : Daemon :=
  let owned := filter (fun kv => lease_of_session s kv.2 = true) (map_to_list (leases d)) in
  let d := foldl (fun d kv =>
    let L := kv.2 : Lease in
    if data_safe (slot_state d (le_base_slot L)) then d
    else free_slots now (le_base_slot L) (le_slot_count L)
           (set_slot_state now (le_base_slot L) SLOT_ERROR d)) d owned in
  d <| leases ::= fun m => foldl (fun m kv => delete (le_lease_id kv.2) m) m owned |>.

(** ** Rings *)
(** [while (budget-- > 0 && ring_pop(rh, &e)) apply_ring_completion(...)]: at most
    [fuel] completions of ring [index]. *)
Fixpoint drain_ring (fuel : nat) (now index rank_id rank_epoch : Z) (d : Daemon) : Daemon :=
  match fuel with
  | O => d
  | S n =>
      match rings d !! index with
      | None => d
      | Some rh =>
          match ring_pop rh with
          | (None, _) => d
          | (Some e, rh') =>
              drain_ring n now index rank_id rank_epoch
                (apply_ring_completion now rank_id rank_epoch e (d <| rings ::= <[index := rh']> |>))
          end
      end
  end.
(** An unbounded [while (ring_pop(...))] stops after the pending entries. *)
Definition ring_fuel (d : Daemon) (index : Z) : nat :=
  match rings d !! index with Some rh => Z.to_nat (ring_pending rh) | None => 0 end.

Definition release_ring (now : Z) (s : Session) (d : Daemon) : Daemon :=
  if decide (se_ring_index s < ring_max_ranks d) then
    let i := se_ring_index s in
    let d := drain_ring (ring_fuel d i) now i (se_rank_id s) (se_rank_epoch s) d in
    let d := d <| rings ::= alter (fun rh =>
                    rh <| r_owner_rank := NO_U32 |> <| r_rank_epoch := 0 |>) i |> in
    d <| ring_owner ::= <[Z.to_nat i := NO_U32]> |>
  else d.

(** ** RegisterRank *)
(** [invalidate(sessions_[key])] *)
Definition invalidate (now key : Z) (d : Daemon) : Daemon :=
  match sessions d !! key with
  | None => d
  | Some s =>
      if negb (se_alive s) then d
      else
        let d := d <| sessions ::= <[key := s <| se_alive := false |>]> |> in
        let d := metric_inc kRankSessionsInvalidated d in
        let d := recover_leases now s d in
        let d := release_ring now s d in
        purge_rank_from_canonical now (se_rank_id s) d
  end.
(** The other live sessions of the same process. *)
Definition same_pid (rank_id pid : Z) (kv : Z * Session) : Prop :=
  kv.1 ≠ rank_id /\ se_alive kv.2 = true /\ se_pid kv.2 = pid.
#[export] Instance same_pid_dec rank_id pid kv : Decision (same_pid rank_id pid kv).
Proof. unfold same_pid. apply _. Defined.
Definition invalidate_others (now rank_id pid : Z) (d : Daemon) : Daemon :=
  foldl (fun d kv => invalidate now kv.1 d) d
    (filter (same_pid rank_id pid) (map_to_list (sessions d))).

(** The first free ring, claimed for the rank; NO_U32 when there is none. *)
Definition free_ring (d : Daemon) : option Z :=
  list_find (fun i => ring_owner d !! Z.to_nat i = Some NO_U32) (seqZ 0 (ring_max_ranks d)) ≫= (fun x => Some x.2).
Definition resize_ring_owner (d : Daemon) : Daemon :=
  if decide (Z.of_nat (length (ring_owner d)) < ring_max_ranks d)
  then d <| ring_owner ::= resize (Z.to_nat (ring_max_ranks d)) NO_U32 |> else d.
Definition assign_ring (rank_id epoch : Z) (d : Daemon) : Z * Daemon :=
  let d := resize_ring_owner d in
  match free_ring d with
  | None => (NO_U32, d)
  | Some i =>
      (i, d <| ring_owner ::= <[Z.to_nat i := rank_id]> |>
            <| rings ::= alter (fun rh => rh <| r_head := 0 |> <| r_tail := 0 |>
                                   <| r_owner_rank := rank_id |> <| r_rank_epoch := epoch |>) i |>)
  end.
Definition arena_fd (i : nat) (a : Arena) : ArenaFd :=
  mkArenaFd (ar_arena_id a) (ar_numa_node a) OFLD_ARENA_DATA_PINNED (ar_size a) 0 0 0
    (u32 (Z.of_nat i)) (ar_registration_granularity a) (ar_allocation_granularity a).
Definition handle_register (now : Z) (req : RegisterRankRequest) (d : Daemon)
  : RegisterRankResponse * Daemon :=
  let d := invalidate now (rr_rank_id req) d in
  let d := invalidate_others now (rr_rank_id req) (rr_pid req) d in
  let epoch := u64 (next_rank_epoch d) in
  let d := d <| next_rank_epoch := next_rank_epoch d + 1 |> in
  let '(ring, d) := assign_ring (rr_rank_id req) epoch d in
  let s := mkSession (rr_rank_id req) epoch (rr_pid req) (rr_gpu_id req) (rr_numa_node req)
             now true ring in
  let d := d <| sessions ::= <[rr_rank_id req := s]> |> in
  (mkRegisterRankResponse true "ok" epoch (generation d) (imap arena_fd (arenas d))
     (u32 (Z.of_nat (length (arenas d)))) (control_size d) (num_slots d) ring, d).

Definition handle_heartbeat (now : Z) (req : HeartbeatRequest) (d : Daemon)
  : HeartbeatResponse * Daemon :=
  if negb (epoch_valid d (hb_rank_id req) (hb_rank_epoch req)) then
    (mkHeartbeatResponse false "epoch invalid", metric_inc kEpochMismatchRejected d)
  else
    (mkHeartbeatResponse true "ok",
     d <| sessions ::= alter (fun s => s <| se_last_heartbeat_ns := now |>) (hb_rank_id req) |>
       <| header_heartbeat_ns := now |>).

(** ** Heartbeat monitor *)
Definition timed_out (now timeout_ns : Z) (s : Session) : bool :=
  se_alive s && negb (bool_decide (u64 (now - se_last_heartbeat_ns s) <= timeout_ns)).
Definition expire_session (now timeout_ns key : Z) (d : Daemon) : Daemon :=
  match sessions d !! key with
  | None => d
  | Some s =>
      if timed_out now timeout_ns s then
        let d := d <| sessions ::= <[key := s <| se_alive := false |>]> |> in
        let d := metric_inc kRankSessionsInvalidated d in
        let d := recover_leases now s d in
        purge_rank_from_canonical now (se_rank_id s) d
      else d
  end.
Definition heartbeat_monitor_sweep (now : Z) (d : Daemon) : Daemon :=
  let timeout_ns := u64 (c_heartbeat_timeout_ms (cfg d) * 1000000) in
  let d := d <| header_heartbeat_ns := now |> in
  foldl (fun d key => expire_session now timeout_ns key d) d (map_to_list (sessions d)).*1.

(** ** Ring poller *)
(** One ring of a sweep; [budget] is 256, or the pending count at shutdown. *)
Definition poll_ring (now : Z) (budget : Daemon -> Z -> nat) (d : Daemon) (i : Z) : Daemon :=
  match ring_owner d !! Z.to_nat i with
  | None => d
  | Some owner =>
      if decide (owner = NO_U32) then d
      else match rings d !! i with
      | None => d
      | Some rh =>
          if decide (r_rank_epoch rh = 0) then d
          else drain_ring (budget d i) now i (r_owner_rank rh) (r_rank_epoch rh) d
      end
  end.
Definition ring_poller_sweep (now : Z) (d : Daemon) : Daemon :=
  foldl (poll_ring now (fun _ _ => 256%nat)) d (seqZ 0 (ring_max_ranks d)).
Definition ring_poller_final (now : Z) (d : Daemon) : Daemon :=
  foldl (poll_ring now ring_fuel) d (seqZ 0 (ring_max_ranks d)).
