(* ===== verification/Canonical.v ===== *)
(** * Canonical objects: attach, create, commit, release

    Models [handle_register_job], [handle_request_canonical_evict] (with its
    lambdas [reserve] and [fill_slot_resp]), [handle_commit_canonical_object] and
    [handle_release_canonical] of [src/daemon/canonical.cpp].

    [handle_request_canonical_evict] keeps the pointer [existing] across
    [reserve], which may release [mu_]; reading it after another thread erased
    the object is undefined behaviour, the result [Throw] here. *)
From stdpp Require Import base gmap strings list fin_maps fin_sets pretty list_numbers.
From Stdlib Require Import ZArith Lia.
From S2P Require Import Prelude.
From S2P Require Import Protocol.
From S2P Require Import ProtocolV2.
From S2P Require Import State.
From S2P Require Import Alloc.
From S2P Require Import Drain.
From S2P Require Import Offload.
From S2P Require Import Store.
Open Scope Z_scope.
Open Scope offload_scope.

(** ** RegisterJob *)
Definition empty_job : JobKeyWire := mkJobKeyWire 0 0 0 "".
Definition derive_job_id (req : RegisterJobRequest) : Z :=
  if decide (rj_scheduler_job_id req ≠ 0) then rj_scheduler_job_id req
  else
    let lo := (hash_bytes (string_bytes (pretty (rj_tenant_id req) +:+ "/" +:+ rj_job_name req))).1 in
    if decide (lo ≠ 0) then lo else 1.
Definition live_job (tenant_id job_id : Z) (j : JobRecord) : bool :=
  bool_decide (ju_tenant_id (jr_uid j) = tenant_id) && bool_decide (ju_job_id (jr_uid j) = job_id)
  && bool_decide (jr_state j ≠ kTerminated).
Definition find_live_job (d : Daemon) (tenant_id job_id : Z) : option JobRecord :=
  snd <$> (snd <$> list_find (fun kv => live_job tenant_id job_id kv.2) (map_to_list (jobs d))).
Definition job_wire (j : JobRecord) : JobKeyWire :=
  mkJobKeyWire (ju_tenant_id (jr_uid j)) (ju_job_id (jr_uid j)) (ju_launch_epoch (jr_uid j))
    (jr_job_name j).
Definition handle_register_job (now : Z) (req : RegisterJobRequest) (d : Daemon)
  : RegisterJobResponse * Daemon :=
  if negb (c_v2_enable_canonical_store (cfg d)) then
    (mkRegisterJobResponse false "canonical store disabled" empty_job 0, d)
  else
    let job_id := derive_job_id req in
    match find_live_job d (rj_tenant_id req) job_id with
    | Some ex => (mkRegisterJobResponse true "ok (joined existing job)" (job_wire ex) (generation d), d)
    | None =>
        let '(epoch, d) :=
          if c_v2_include_launch_epoch (cfg d)
          then (u64 (next_launch_epoch d), d <| next_launch_epoch := next_launch_epoch d + 1 |>)
          else (1, d) in
        let uid := mkJobUID (rj_tenant_id req) job_id epoch in
        let jr := mkJob uid (rj_job_name req) kRunning 0 now now 0 0 0 0 0 0
                    (c_v2_quota_max_pinned_bytes (cfg d)) (c_v2_quota_max_pageable_bytes (cfg d))
                    (c_v2_quota_max_nvme_bytes (cfg d)) (c_v2_quota_max_inflight_d2h_bytes (cfg d))
                    (c_v2_quota_max_inflight_export_bytes (cfg d)) in
        let d := metric_inc kJobsRegistered (d <| jobs ::= <[uid := jr]> |>) in
        (mkRegisterJobResponse true "ok" (job_wire jr) (generation d), d)
    end.

(** ** RequestCanonicalEvict *)
Definition evict_refused (action : Z) (msg : string) : RequestCanonicalEvictResponse :=
  mkRequestCanonicalEvictResponse false msg action 0 0 0 0 0 0 0.
Definition readable_state (st : object_state_t) : bool :=
  match st with
  | OBJ_VALID_PINNED | OBJ_VALID_PAGEABLE | OBJ_VALID_NVME | OBJ_VALID_MULTI_TIER
  | OBJ_SEALED | OBJ_EXPORT_IN_FLIGHT => true
  | _ => false
  end.
Definition canonical_entry (now : Z) (req : RequestCanonicalEvictRequest)
  (tid version lease_id owner_pid : Z) (k : Z) (e : slot_entry) : slot_entry :=
  e <| sl_tensor_id := tid |> <| sl_version := version |> <| sl_lease_id := lease_id |>
    <| sl_owner_rank := ce_rank_id req |> <| sl_owner_pid := owner_pid |>
    <| sl_rank_epoch := ce_rank_epoch req |>
    <| sl_nbytes := if decide (k = 0) then k_nbytes (ce_key req) else sl_capacity e |>
    <| sl_flags := OFLD_FLAG_DESTRUCTIVE |>
    <| sl_last_touch_ns := now |> <| sl_state := SLOT_RESERVED_D2H |>.
(** [reserve]: the lease, base and count of the reserved run, and the clock. *)
Definition reserve (now : Z) (gaps : nat -> IoGap) (req : RequestCanonicalEvictRequest)
  (uid : JobUID) (tid version : Z) (d : Daemon) : option (Z * Z * Z * Z) * Daemon :=
  let nbytes := k_nbytes (ce_key req) in
  if match find_job d uid with Some job => negb (quota_allows_pinned job nbytes) | None => false end
  then (None, metric_inc kQuotaRejections d)
  else
    let count := slots_for_bytes d nbytes in
    match alloc_with_drain kDrainAttempts now gaps (ce_gpu_id req) (ce_numa_node req) nbytes
            OFLD_FLAG_DESTRUCTIVE d with
    | (None, _, d) => (None, metric_inc kBlockedReservations d)
    | (Some (base, _), now, d) =>
        let lease_id := u64 (next_lease_id d) in
        let d := d <| next_lease_id := next_lease_id d + 1 |> in
        let owner_pid := session_pid d (ce_rank_id req) in
        let d := d <| slots ::= update_run (canonical_entry now req tid version lease_id owner_pid)
                        base count |> in
        let d := metric_add kUsedPinnedBytes (run_bytes d count) d in
        let L := mkLease lease_id base count tid version (ce_rank_id req) owner_pid
                   (ce_rank_epoch req) nbytes false in
        let d := d <| leases ::= <[lease_id := L]> |>
                   <| jobs ::= alter (fun j =>
                        j <| jr_pinned_bytes := u64 (jr_pinned_bytes j + nbytes) |>) uid |> in
        (Some (lease_id, base, count, now), d)
    end.
(** [fill_slot_resp] on a granted response. *)
Definition slot_resp (req : RequestCanonicalEvictRequest) (msg : string)
  (action object_id lease_id base tid : Z) (d : Daemon) : RequestCanonicalEvictResponse :=
  mkRequestCanonicalEvictResponse true msg action object_id lease_id base
    (sl_arena_id (slot d base)) (sl_arena_offset (slot d base))
    (run_bytes d (slots_for_bytes d (k_nbytes (ce_key req)))) tid.

Definition attach_existing (now : Z) (req : RequestCanonicalEvictRequest)
  (existing : CanonicalObject) (d : Daemon) : RequestCanonicalEvictResponse * Daemon :=
  let nbytes := k_nbytes (ce_key req) in
  let o := (add_holder (ce_rank_id req) existing) <| ob_last_access_ns := now |> in
  let d := d <| objects ::= <[ob_object_id existing := o]> |> in
  let d := metric_add kCanonicalD2HBytesAvoided nbytes
             (metric_add kCanonicalDedupBytesSaved nbytes (metric_inc kCanonicalAttachExisting d)) in
  (mkRequestCanonicalEvictResponse true "attached existing" ATTACH_ACTION_ATTACHED_EXISTING
     (ob_object_id existing) 0 0 0 0 0 0, d).
(** A throwaway candidate run, to be compared with [existing] at commit. *)
Definition grant_candidate (now : Z) (gaps : nat -> IoGap) (req : RequestCanonicalEvictRequest)
  (uid : JobUID) (existing : CanonicalObject) (refused granted : string) (d : Daemon)
  : res (RequestCanonicalEvictResponse * Daemon) :=
  let seq := u64 (next_object_id d) in
  let d := d <| next_object_id := next_object_id d + 1 |> in
  let cand_tid := candidate_tid seq in
  match reserve now gaps req uid cand_tid 1 d with
  | (None, d) => Ok (evict_refused ATTACH_ACTION_QUOTA_EXCEEDED refused, d)
  | (Some (lease_id, base, _, _), d) =>
      match find_object d (ob_object_id existing) with
      | None => Throw "undefined behaviour: object freed while referenced"
      | Some o =>
          let resp := slot_resp req granted ATTACH_ACTION_DUPLICATE_CANDIDATE (ob_object_id o)
                        lease_id base cand_tid d in
          Ok (resp, metric_inc kCanonicalDuplicateCandidate d)
      end
  end.
Definition evict_valid (now : Z) (gaps : nat -> IoGap) (req : RequestCanonicalEvictRequest)
  (uid : JobUID) (existing : CanonicalObject) (d : Daemon)
  : res (RequestCanonicalEvictResponse * Daemon) :=
  if negb (ce_attach_if_exists req) then
    Ok (evict_refused ATTACH_ACTION_ERROR "exists but attach disabled", d)
  else if decide (ce_dedup_mode req ≠ DEDUP_HASH_VERIFIED /\ ce_dedup_mode req ≠ DEDUP_SAMPLED_HASH)
  then Ok (attach_existing now req existing d)
  else grant_candidate now gaps req uid existing "no capacity for verify candidate"
         "verify candidate (hash)" d.
Definition evict_creating (now : Z) (gaps : nat -> IoGap) (req : RequestCanonicalEvictRequest)
  (uid : JobUID) (existing : CanonicalObject) (d : Daemon)
  : res (RequestCanonicalEvictResponse * Daemon) :=
  let pressure_hi :=
    double_geb (pinned_pressure d) (c_v2_duplicate_candidate_gpu_pressure_threshold (cfg d)) in
  let want_dup := ce_allow_duplicate_candidate req
    || (bool_decide (c_v2_creating_policy (cfg d) = 1) && pressure_hi) in
  if negb want_dup then
    Ok (mkRequestCanonicalEvictResponse true "wait for creator" ATTACH_ACTION_WAIT_FOR_CREATOR
          (ob_object_id existing) 0 0 0 0 0 0, metric_inc kCanonicalAttachWait d)
  else grant_candidate now gaps req uid existing "no capacity for duplicate candidate"
         "duplicate candidate" d.
Definition new_object (now : Z) (req : RequestCanonicalEvictRequest) (key_str : string)
  (object_id tid lease_id base count : Z) : CanonicalObject :=
  mkObject object_id (ce_key req) key_str (k_nbytes (ce_key req)) OBJ_CREATING 1 0 0
    (ce_rank_id req) 0 {[ ce_rank_id req ]} 0 0 tid 1 lease_id base count (ce_rank_id req)
    now 0 now.
Definition evict_create (now : Z) (gaps : nat -> IoGap) (req : RequestCanonicalEvictRequest)
  (uid : JobUID) (key_str : string) (d : Daemon) : RequestCanonicalEvictResponse * Daemon :=
  if negb (ce_create_if_missing req) then
    (evict_refused ATTACH_ACTION_ERROR "missing and create disabled", d)
  else
    let object_id := u64 (next_object_id d) in
    let d := d <| next_object_id := next_object_id d + 1 |> in
    let tid := canonical_tid object_id in
    match reserve now gaps req uid tid 1 d with
    | (None, d) => (evict_refused ATTACH_ACTION_QUOTA_EXCEEDED "no pinned capacity / quota", d)
    | (Some (lease_id, base, count, now), d) =>
        let obj := new_object now req key_str object_id tid lease_id base count in
        let d := d <| objects ::= <[object_id := obj]> |>
                   <| object_by_key ::= <[key_str := object_id]> |>
                   <| jobs ::= alter (fun j => j <| jr_canonical_object_count :=
                                  u64 (jr_canonical_object_count j + 1) |>) uid |> in
        (slot_resp req "need d2h create" ATTACH_ACTION_NEED_D2H_CREATE object_id lease_id base tid d,
         metric_inc kCanonicalObjectsCreated d)
    end.
Definition version_sealed (d : Daemon) (vk : VersionKey) : bool :=
  match manifests d !! vk with
  | Some m => bool_decide (ma_state m = MANIFEST_SEALED)
  | None => false
  end.
Definition handle_request_canonical_evict (now : Z) (gaps : nat -> IoGap)
  (req : RequestCanonicalEvictRequest) (d : Daemon)
  : res (RequestCanonicalEvictResponse * Daemon) :=
  if negb (c_v2_enable_canonical_store (cfg d)) then
    Ok (evict_refused ATTACH_ACTION_ERROR "canonical store disabled", d)
  else if negb (epoch_valid d (ce_rank_id req) (ce_rank_epoch req)) then
    Ok (evict_refused ATTACH_ACTION_ERROR "epoch invalid", metric_inc kEpochMismatchRejected d)
  else match find_job_by_wire d (k_job (ce_key req)) with
  | None => Ok (evict_refused ATTACH_ACTION_ERROR "job not registered", d)
  | Some job =>
      let uid := uid_of_wire (k_job (ce_key req)) in
      if version_sealed d (mkVersionKey (jr_uid job) (k_model_role (ce_key req)) (k_model_version (ce_key req)))
      then Ok (evict_refused ATTACH_ACTION_REJECTED_STALE_VERSION "model_version already sealed",
               metric_inc kCanonicalStaleVersionReject d)
      else
        let key_str := canonical_key_string (ce_key req) in
        match find_object_by_key d key_str with
        | None => Ok (evict_create now gaps req uid key_str d)
        | Some existing =>
            if decide (ob_nbytes existing ≠ k_nbytes (ce_key req)) then
              Ok (evict_refused ATTACH_ACTION_ERROR "nbytes mismatch vs existing object", d)
            else if readable_state (ob_state existing) then
              evict_valid now gaps req uid existing d
            else if decide (ob_state existing = OBJ_CREATING) then
              evict_creating now gaps req uid existing d
            else Ok (evict_create now gaps req uid key_str d)
        end
  end.

(** ** CommitCanonicalObject *)
Definition commit_resp (ok won : bool) (msg : string) (req : CommitCanonicalObjectRequest)
  : CommitCanonicalObjectResponse :=
  mkCommitCanonicalObjectResponse ok msg (cc_object_id req) won.
(** The state of the tier the bytes live in at commit. *)
Definition tier_state (k : location_kind_t) : object_state_t :=
  match k with
  | LOC_PAGEABLE => OBJ_VALID_PAGEABLE
  | LOC_NVME => OBJ_VALID_NVME
  | _ => OBJ_VALID_PINNED
  end.
Definition commit_creator (now : Z) (req : CommitCanonicalObjectRequest) (obj : CanonicalObject)
  (d : Daemon) : CommitCanonicalObjectResponse * Daemon :=
  let refused := (commit_resp false false "object bytes not yet valid" req,
                  metric_inc kInvalidTransitionRejected d) in
  match locations d !! ob_synthetic_tid obj with
  | None => refused
  | Some loc =>
      if decide (lo_kind loc = LOC_NONE \/ lo_kind loc = LOC_DELETED) then refused
      else
        let o := obj <| ob_content_hash_lo := cc_content_hash_lo req |>
                     <| ob_content_hash_hi := cc_content_hash_hi req |>
                     <| ob_state := tier_state (lo_kind loc) |>
                     <| ob_creating_rank := NO_U32 |> <| ob_last_access_ns := now |> in
        (commit_resp true true "committed" req, d <| objects ::= <[cc_object_id req := o]> |>)
  end.
Definition attachable (st : object_state_t) : bool :=
  match st with
  | OBJ_CREATING | OBJ_MISSING | OBJ_ERROR | OBJ_DELETED => false
  | _ => true
  end.
Definition hash_present (lo hi : Z) : bool := bool_decide (lo ≠ 0) || bool_decide (hi ≠ 0).
Definition hash_matches (req : CommitCanonicalObjectRequest) (obj : CanonicalObject) : bool :=
  if attachable (ob_state obj) && hash_present (ob_content_hash_lo obj) (ob_content_hash_hi obj)
     && hash_present (cc_content_hash_lo req) (cc_content_hash_hi req)
  then bool_decide (ob_content_hash_lo obj = cc_content_hash_lo req)
       && bool_decide (ob_content_hash_hi obj = cc_content_hash_hi req)
  else true.
(** The named lease is discarded with its run and location. *)
Definition discard_candidate (now : Z) (req : CommitCanonicalObjectRequest)
  (obj : CanonicalObject) (d : Daemon) : Daemon :=
  match find_lease d (cc_lease_id req) with
  | None => d
  | Some L =>
      let d := match slot_state d (le_base_slot L) with
               | SLOT_PINNED_VALID | SLOT_RESERVED_D2H | SLOT_D2H_IN_FLIGHT =>
                   free_slots now (le_base_slot L) (le_slot_count L) d
               | _ => d
               end in
      d <| locations ::= delete (le_tensor_id L) |>
        <| leases ::= delete (cc_lease_id req) |>
        <| jobs ::= alter (uncharge_pinned (ob_nbytes obj)) (uid_of_wire (k_job (ob_key obj))) |>
  end.
Definition commit_candidate (now : Z) (req : CommitCanonicalObjectRequest) (obj : CanonicalObject)
  (d : Daemon) : CommitCanonicalObjectResponse * Daemon :=
  let d := discard_candidate now req obj d in
  if negb (attachable (ob_state obj)) then
    (commit_resp false false "canonical object not valid for attach" req, d)
  else if negb (hash_matches req obj) then
    (commit_resp false false "content hash mismatch (corrupt replica)" req,
     metric_inc kChecksumMismatch (metric_inc kCanonicalHashMismatch d))
  else
    let o := (add_holder (cc_rank_id req) obj) <| ob_last_access_ns := now |> in
    let d := d <| objects ::= <[cc_object_id req := o]> |> in
    (commit_resp true false "attached after verify" req,
     metric_add kCanonicalDedupBytesSaved (ob_nbytes obj) (metric_inc kCanonicalAttachExisting d)).
Definition handle_commit_canonical_object (now : Z) (req : CommitCanonicalObjectRequest)
  (d : Daemon) : CommitCanonicalObjectResponse * Daemon :=
  if negb (c_v2_enable_canonical_store (cfg d)) then
    (commit_resp false false "canonical store disabled" req, d)
  else if negb (epoch_valid d (cc_rank_id req) (cc_rank_epoch req)) then
    (commit_resp false false "epoch invalid" req, metric_inc kEpochMismatchRejected d)
  else match find_object d (cc_object_id req) with
  | None => (commit_resp false false "unknown object" req, d)
  | Some obj =>
      if decide (ob_state obj = OBJ_CREATING /\ ob_lease_id obj = cc_lease_id req)
      then commit_creator now req obj d
      else commit_candidate now req obj d
  end.

(** ** ReleaseCanonical *)
Definition of_version (uid : JobUID) (model_role model_version : Z) (o : CanonicalObject) : bool :=
  bool_decide (uid_of_wire (k_job (ob_key o)) = uid)
  && bool_decide (k_model_role (ob_key o) = model_role)
  && bool_decide (k_model_version (ob_key o) = model_version).
Definition version_objects (d : Daemon) (uid : JobUID) (model_role model_version : Z) : list Z :=
  (fun kv => ob_object_id kv.2) <$>
    filter (fun kv => of_version uid model_role model_version kv.2 = true) (map_to_list (objects d)).
(** One object of the release loop; the counters are (released, freed, bytes). *)
Definition release_one (now rank_id : Z) (acc : Z * Z * Z * Daemon) (oid : Z)
  : Z * Z * Z * Daemon :=
  let '(released, freed, bytes, d) := acc in
  match find_object d oid with
  | None => acc
  | Some o =>
      if decide (rank_id ∉ ob_holders o) then acc
      else
        let o := drop_holder rank_id o in
        let d := d <| objects ::= <[oid := o]> |> in
        match maybe_free_object now o d with
        | (true, d) => (u64 (released + 1), u64 (freed + 1), u64 (bytes + ob_nbytes o), d)
        | (false, d) => (u64 (released + 1), freed, bytes, d)
        end
  end.
Definition handle_release_canonical (now : Z) (req : ReleaseCanonicalRequest) (d : Daemon)
  : ReleaseCanonicalResponse * Daemon :=
  if negb (c_v2_enable_canonical_store (cfg d)) then
    (mkReleaseCanonicalResponse false "canonical store disabled" 0 0 0, d)
  else if negb (epoch_valid d (rc_rank_id req) (rc_rank_epoch req)) then
    (mkReleaseCanonicalResponse false "epoch invalid" 0 0 0, metric_inc kEpochMismatchRejected d)
  else match find_job_by_wire d (rc_job req) with
  | None => (mkReleaseCanonicalResponse false "job not registered" 0 0 0, d)
  | Some job =>
      let ids := if decide (rc_object_id req ≠ 0) then [rc_object_id req]
                 else version_objects d (jr_uid job) (rc_model_role req) (rc_model_version req) in
      let '(released, freed, bytes, d) :=
        foldl (release_one now (rc_rank_id req)) (0, 0, 0, d) ids in
      (mkReleaseCanonicalResponse true "ok" released freed bytes, d)
  end.
