(* ===== verification/Rollout.v ===== *)
(** * Manifests, rollout export, canonical restore and retention

    Models [src/daemon/canonical_rollout.cpp]: [handle_seal_model_version],
    [handle_get_latest_sealed_version], [handle_get_manifest],
    [stage_object_for_export], [handle_pull_tensor],
    [handle_request_canonical_restore], [handle_release_canonical_restore],
    [handle_drop_canonical_version] and [enforce_sealed_retention].

    The transport ([export_send]) is network IO: its result is the argument
    [ExportResult] of [handle_pull_tensor].  [handle_request_canonical_restore]
    keeps the pointer [obj] across gaps; using it after another thread erased
    the object is undefined behaviour, the result [Throw]. *)
From stdpp Require Import base gmap strings list fin_maps fin_sets sorting list_numbers.
From Stdlib Require Import ZArith Lia.
From S2P Require Import Prelude.
From S2P Require Import Protocol.
From S2P Require Import ProtocolV2.
From S2P Require Import State.
From S2P Require Import Alloc.
From S2P Require Import Drain.
From S2P Require Import Offload.
From S2P Require Import Store.
From S2P Require Import Export.
From S2P Require Import Canonical.
Open Scope Z_scope.
Open Scope offload_scope.

Definition loc_hint (k : location_kind_t) : string :=
  match k with
  | LOC_PINNED => "pinned" | LOC_PAGEABLE => "pageable" | LOC_NVME => "nvme" | LOC_GPU => "gpu"
  | _ => "none"
  end.

(** ** Retention *)
Definition geZ (a b : Z) : Prop := b <= a.
#[export] Instance geZ_dec a b : Decision (geZ a b).
Proof. unfold geZ. apply _. Defined.
Definition sealed_versions (d : Daemon) (uid : JobUID) (model_role : Z) : list Z :=
  (fun kv => vk_model_version kv.1) <$>
    filter (fun kv : VersionKey * Manifest =>
              vk_job kv.1 = uid /\ vk_model_role kv.1 = model_role /\ ma_state kv.2 = MANIFEST_SEALED)
      (map_to_list (manifests d)).
(** Releases every object of a version; false when one was in flight. *)
Definition release_version (now : Z) (uid : JobUID) (model_role ver : Z) (d : Daemon)
  : bool * Daemon :=
  foldl (fun '(all_freed, d) oid =>
    match find_object d oid with
    | None => (all_freed, d)
    | Some o => match release_object now o d with
                | (true, d) => (all_freed, d)
                | (false, d) => (false, d)
                end
    end) (true, d) (version_objects d uid model_role ver).
Definition retention_evict (now : Z) (uid : JobUID) (model_role latest : Z) (d : Daemon) (ver : Z)
  : Daemon :=
  if decide (ver = latest) then d
  else match release_version now uid model_role ver d with
       | (true, d) => d <| manifests ::= delete (mkVersionKey uid model_role ver) |>
       | (false, d) => d
       end.
Definition enforce_sealed_retention (now : Z) (uid : JobUID) (model_role : Z) (d : Daemon)
  : Daemon :=
  let keep := c_v2_retain_sealed_versions (cfg d) in
  if decide (keep = 0) then d
  else
    let sealed := sealed_versions d uid model_role in
    if decide (Z.of_nat (length sealed) <= keep) then d
    else
      let sealed := merge_sort geZ sealed in
      let latest := default 0 (latest_sealed d !! mkRoleKey uid model_role) in
      foldl (retention_evict now uid model_role latest) d (drop (Z.to_nat keep) sealed).

(** ** SealModelVersion *)
Definition mix (h : Z * Z) (v : Z) : Z * Z :=
  (u64 (Z.lxor h.1 v * FNV_PRIME),
   u64 (Z.lxor h.2 (u64 (v + 11400714819323198485)) * FNV_PRIME)).
Definition mix_object (h : Z * Z) (oid : Z) (o : CanonicalObject) : Z * Z :=
  foldl mix h [oid; ob_content_hash_lo o; ob_content_hash_hi o; ob_nbytes o].
(** The objects of the version, split by validity. *)
Definition version_members (d : Daemon) (uid : JobUID) (model_role model_version : Z)
  : list CanonicalObject :=
  snd <$> filter (fun kv => of_version uid model_role model_version kv.2 = true)
            (map_to_list (objects d)).
Definition seal_members (d : Daemon) (uid : JobUID) (model_role model_version : Z)
  : list CanonicalObject :=
  filter (fun o => readable_state (ob_state o) = true) (version_members d uid model_role model_version).
(** An object is not readable, or an expected parameter has no readable object. *)
Definition seal_incomplete (d : Daemon) (uid : JobUID) (req : SealModelVersionRequest) : bool :=
  existsb (fun o => negb (readable_state (ob_state o)))
    (version_members d uid (sm_model_role req) (sm_model_version req))
  || negb (forallb (fun pid =>
       existsb (fun o => match find_object d (ob_object_id o) with
                         | Some o' => bool_decide (k_param_id (ob_key o') = pid)
                         | None => false
                         end)
         (seal_members d uid (sm_model_role req) (sm_model_version req)))
       (sm_expected_param_ids req)).
(** The loop over the sorted members: hash them and freeze them. *)
Definition freeze (now : Z) (o : CanonicalObject) : CanonicalObject :=
  o <| ob_state := OBJ_SEALED |> <| ob_sealed_ns := now |>.
Definition seal_one (now : Z) (acc : Z * Z * Daemon) (oid : Z) : Z * Z * Daemon :=
  let '(lo, hi, d) := acc in
  match find_object d oid with
  | None => acc
  | Some o =>
      let '(lo, hi) := mix_object (lo, hi) oid o in
      (lo, hi, d <| objects ::= <[oid := freeze now o]> |>)
  end.
Definition seal_freeze (now : Z) (ids : list Z) (d : Daemon) : Z * Z * Daemon :=
  foldl (seal_one now) (FNV_BASIS, 1099511628211, d) ids.
Definition seal_error (msg : string) : SealModelVersionResponse :=
  mkSealModelVersionResponse false msg (manifest_state_value MANIFEST_ERROR) 0 0 0 0.
Definition sealed_resp (msg : string) (m : Manifest) : SealModelVersionResponse :=
  mkSealModelVersionResponse true msg (manifest_state_value MANIFEST_SEALED)
    (Z.of_nat (length (ma_object_ids m))) (ma_total_nbytes m) (ma_manifest_hash_lo m)
    (ma_manifest_hash_hi m).
Definition seal_commit (now : Z) (uid : JobUID) (req : SealModelVersionRequest) (man : Manifest)
  (d : Daemon) : SealModelVersionResponse * Daemon :=
  let ids := merge_sort Z.le (ma_object_ids man) in
  let '(lo, hi, d) := seal_freeze now ids d in
  let man := man <| ma_object_ids := ids |> <| ma_manifest_hash_lo := lo |>
                 <| ma_manifest_hash_hi := hi |> <| ma_state := MANIFEST_SEALED |>
                 <| ma_sealed_ns := now |> in
  let vk := mkVersionKey uid (sm_model_role req) (sm_model_version req) in
  let d := metric_inc kManifestSealed (d <| manifests ::= <[vk := man]> |>) in
  let d := if sm_promote req then
             enforce_sealed_retention now uid (sm_model_role req)
               (d <| latest_sealed ::= <[mkRoleKey uid (sm_model_role req) := sm_model_version req]> |>)
           else d in
  (sealed_resp "sealed" man, d).
Definition handle_seal_model_version (now : Z) (req : SealModelVersionRequest) (d : Daemon)
  : SealModelVersionResponse * Daemon :=
  if negb (c_v2_enable_canonical_store (cfg d)) || negb (c_v2_enable_manifests (cfg d)) then
    (seal_error "manifests disabled", d)
  else match find_job_by_wire d (sm_job req) with
  | None => (seal_error "job not registered", d)
  | Some job =>
      let uid := jr_uid job in
      let vk := mkVersionKey uid (sm_model_role req) (sm_model_version req) in
      let seal :=
        let members := seal_members d uid (sm_model_role req) (sm_model_version req) in
        let man := mkManifest uid (sm_model_role req) (sm_model_version req) MANIFEST_SEALING
                     (ob_object_id <$> members)
                     (foldl (fun t o => u64 (t + ob_nbytes o)) 0 members) now 0 0 0 in
        if c_v2_seal_requires_all_objects_valid (cfg d) && sm_fail_if_missing req
           && seal_incomplete d uid req
        then (seal_error "seal failed: required objects missing/invalid",
              metric_inc kManifestSealFailed
                (d <| manifests ::= <[vk := man <| ma_state := MANIFEST_ERROR |>]> |>))
        else seal_commit now uid req man d in
      match manifests d !! vk with
      | Some m => if decide (ma_state m = MANIFEST_SEALED) then (sealed_resp "already sealed" m, d)
                  else seal
      | None => seal
      end
  end.

(** ** GetLatestSealedVersion, GetManifest *)
Definition handle_get_latest_sealed_version (req : GetLatestSealedVersionRequest) (d : Daemon)
  : GetLatestSealedVersionResponse * Daemon :=
  match find_job_by_wire d (gl_job req) with
  | None => (mkGetLatestSealedVersionResponse false "job not registered" false 0, d)
  | Some job =>
      match latest_sealed d !! mkRoleKey (jr_uid job) (gl_model_role req) with
      | None => (mkGetLatestSealedVersionResponse true "no sealed version promoted" false 0, d)
      | Some v => (mkGetLatestSealedVersionResponse true "ok" true v, d)
      end
  end.
(** [present && value != wanted] *)
Definition axis_excludes (present : bool) (wanted v : Z) : bool := present && bool_decide (v ≠ wanted).
Definition filter_excludes (f : ManifestFilterWire) (k : CanonicalTensorKeyWire) : bool :=
  axis_excludes (mf_pp_present f) (mf_pp_rank f) (k_pp_rank k)
  || axis_excludes (mf_tp_present f) (mf_tp_rank f) (k_tp_rank k)
  || axis_excludes (mf_ep_present f) (mf_ep_rank f) (k_ep_rank k)
  || axis_excludes (mf_etp_present f) (mf_etp_rank f) (k_etp_rank k)
  || axis_excludes (mf_expert_present f) (mf_expert_id f) (k_expert_id k).
Definition manifest_entry (d : Daemon) (f : ManifestFilterWire) (oid : Z)
  : option TensorManifestEntryWire :=
  match find_object d oid with
  | None => None
  | Some o =>
      if filter_excludes f (ob_key o) then None
      else Some (mkTensorManifestEntryWire (ob_key o) oid (ob_nbytes o) (ob_content_hash_lo o)
                   (ob_content_hash_hi o)
                   (loc_hint match locations d !! ob_synthetic_tid o with
                             | Some l => lo_kind l | None => LOC_NONE end))
  end.
Definition handle_get_manifest (req : GetManifestRequest) (d : Daemon)
  : GetManifestResponse * Daemon :=
  let err := manifest_state_value MANIFEST_ERROR in
  match find_job_by_wire d (gm_job req) with
  | None => (mkGetManifestResponse false "job not registered" empty_job 0 0 err [], d)
  | Some job =>
      let vk := mkVersionKey (jr_uid job) (gm_model_role req) (gm_model_version req) in
      let stale := (mkGetManifestResponse false "no sealed manifest for version" (gm_job req)
                      (gm_model_role req) (gm_model_version req) err [],
                    metric_inc kRolloutStaleManifestReject d) in
      match manifests d !! vk with
      | None => stale
      | Some man =>
          if decide (ma_state man ≠ MANIFEST_SEALED) then stale
          else (mkGetManifestResponse true "ok" (gm_job req) (gm_model_role req) (gm_model_version req)
                  (manifest_state_value (ma_state man))
                  (omap (manifest_entry d (gm_filter req)) (ma_object_ids man)),
                metric_inc kRolloutGetManifest d)
      end
  end.

(** ** PullTensor *)
(** Whether the bytes were staged.  On the cold path the lock is released: the
    superfluous [do_readback_from_cold], which writes at slot 0, uses gap 0, the copy into the export
    buffer and the other threads gap 1. *)
Definition stage_object_for_export (gaps : nat -> IoGap) (obj : CanonicalObject) (d : Daemon)
  : bool * Daemon :=
  match locations d !! ob_synthetic_tid obj with
  | None => (false, d)
  | Some loc =>
      match lo_kind loc with
      | LOC_PINNED => (true, metric_inc kExportFromPinned d)
      | LOC_PAGEABLE | LOC_NVME =>
          match cold_store d !! lo_cold_ref loc with
          | None => (false, d)
          | Some cold =>
              let '(_, d) := do_readback_from_cold 0 cold (ob_nbytes obj) (gaps 0%nat) d in
              let copied := match co_kind cold with
                            | LOC_PAGEABLE => bool_decide (is_Some (co_pageable cold))
                            | LOC_NVME => io_nvme_read (gaps 1%nat)
                            | _ => false
                            end in
              let d := io_env (gaps 1%nat) d in
              if negb copied then (false, d)
              else (true, metric_inc (if decide (lo_kind loc = LOC_NVME) then kExportFromNvme
                                      else kExportFromPageable) d)
          end
      | _ => (false, d)
      end
  end.
Definition pull_resp (ok : bool) (msg : string) (req : PullTensorRequest) : PullTensorResponse :=
  mkPullTensorResponse ok msg (pt_object_id req) 0 (pt_transport req) 0 0 "".
(** The guards of [handle_pull_tensor] up to the quota: the object to export. *)
Definition pull_guard (req : PullTensorRequest) (job : JobRecord) (d : Daemon)
  : (PullTensorResponse * Daemon) + CanonicalObject :=
  let vk := mkVersionKey (jr_uid job) (pt_model_role req) (pt_model_version req) in
  let unsealed := inl (pull_resp false "version not sealed; refusing pull" req,
                       metric_inc kRolloutStaleManifestReject d) in
  match manifests d !! vk with
  | None => unsealed
  | Some man =>
      if decide (ma_state man ≠ MANIFEST_SEALED) then unsealed
      else match find_object d (pt_object_id req) with
      | None => inl (pull_resp false "unknown object" req, d)
      | Some obj =>
          if decide (ob_state obj ≠ OBJ_SEALED) then inl (pull_resp false "object not sealed" req, d)
          else if decide (pt_object_id req ∉ ma_object_ids man) then
            inl (pull_resp false "object not in manifest" req, d)
          else if decide (0 < c_v2_max_concurrent_exports_per_job (cfg d) /\
                          0 < jr_inflight_export_bytes job /\
                          0 < jr_max_inflight_export_bytes job /\
                          u64 (jr_inflight_export_bytes job + ob_nbytes obj)
                            > jr_max_inflight_export_bytes job) then
            inl (pull_resp false "export inflight quota exceeded" req, metric_inc kQuotaRejections d)
          else inr obj
      end
  end.
Definition charge_export (nbytes : Z) (j : JobRecord) : JobRecord :=
  j <| jr_inflight_export_bytes := u64 (jr_inflight_export_bytes j + nbytes) |>.
(** The export lease: the refcount and the in-flight accounting. *)
Definition take_export (req : PullTensorRequest) (obj : CanonicalObject) (d : Daemon) : Daemon :=
  let o := obj <| ob_export_refcount := u32 (ob_export_refcount obj + 1) |>
               <| ob_state := OBJ_EXPORT_IN_FLIGHT |> in
  let d := d <| objects ::= <[pt_object_id req := o]> |>
             <| jobs ::= alter (charge_export (ob_nbytes obj)) (uid_of_wire (pt_job req)) |> in
  metric_add kExportInflightBytes (ob_nbytes obj) d.
Definition pull_staging_failed (req : PullTensorRequest) (nbytes : Z) (prev : object_state_t)
  (d : Daemon) : PullTensorResponse * Daemon :=
  let d := d <| objects ::= alter (fun o =>
                  o <| ob_export_refcount := u32 (ob_export_refcount o - 1) |> <| ob_state := prev |>)
                  (pt_object_id req) |>
             <| jobs ::= alter (fun j => j <| jr_inflight_export_bytes :=
                           u64 (jr_inflight_export_bytes j - nbytes) |>) (uid_of_wire (pt_job req)) |> in
  (pull_resp false "staging failed" req,
   metric_inc kExportTransportErrors (metric_sub kExportInflightBytes nbytes d)).
(** The end of the export: the lease and the accounting are released, and an
    object nobody holds any more is reclaimed. *)
Definition end_export (prev : object_state_t) (o : CanonicalObject) : CanonicalObject :=
  let o := if decide (0 < ob_export_refcount o)
           then o <| ob_export_refcount := ob_export_refcount o - 1 |> else o in
  if decide (ob_export_refcount o = 0) then o <| ob_state := prev |> else o.
Definition uncharge_export (nbytes : Z) (j : JobRecord) : JobRecord :=
  if decide (nbytes <= jr_inflight_export_bytes j)
  then j <| jr_inflight_export_bytes := jr_inflight_export_bytes j - nbytes |> else j.
Definition release_export (now : Z) (req : PullTensorRequest) (nbytes : Z) (prev : object_state_t)
  (d : Daemon) : Daemon :=
  let d := d <| objects ::= alter (end_export prev) (pt_object_id req) |>
             <| jobs ::= alter (uncharge_export nbytes) (uid_of_wire (pt_job req)) |> in
  let d := metric_sub kExportStagingBytes nbytes (metric_sub kExportInflightBytes nbytes d) in
  match find_object d (pt_object_id req) with
  | Some o => (maybe_free_object now o d).2
  | None => d
  end.
Definition handle_pull_tensor (gaps : nat -> IoGap) (xres : ExportResult) (req : PullTensorRequest)
  (d : Daemon) : PullTensorResponse * Daemon :=
  if negb (c_v2_enable_canonical_store (cfg d)) || negb (c_v2_enable_rollout_export (cfg d)) then
    (pull_resp false "rollout export disabled" req, d)
  else match find_job_by_wire d (pt_job req) with
  | None => (pull_resp false "job not registered" req, d)
  | Some job =>
      match pull_guard req job d with
      | inl refused => refused
      | inr obj =>
          let nbytes := ob_nbytes obj in
          let prev := ob_state obj in
          let '(staged, d) := stage_object_for_export gaps obj (take_export req obj d) in
          match find_object d (pt_object_id req) with
          | None => pull_staging_failed req nbytes prev d
          | Some _ =>
              if negb staged then pull_staging_failed req nbytes prev d
              else
                let d := metric_add kExportStagingBytes nbytes d in
                (* lk.unlock(); export_send(...); lk.lock() *)
                let d := io_env (gaps 2%nat) d in
                let d := release_export (io_now (gaps 2%nat)) req nbytes prev d in
                if negb (xr_ok xres) then
                  (pull_resp false ("transport failed: " +:+ xr_message xres) req,
                   metric_inc kExportTransportErrors d)
                else
                  (mkPullTensorResponse true "ok" (pt_object_id req) nbytes (xr_transport xres)
                     (ob_content_hash_lo obj) (ob_content_hash_hi obj) (xr_transport_metadata xres),
                   metric_add kRolloutPullBytes nbytes (metric_inc kRolloutPullTensor d))
          end
      end
  end.

(** ** Canonical restore *)
Definition restore_refused (retriable : bool) (msg : string) (req : RequestCanonicalRestoreRequest)
  : RequestCanonicalRestoreResponse :=
  mkRequestCanonicalRestoreResponse false msg retriable (cr_object_id req) 0 0 0.
(** The read guard on a resident run. *)
Definition restore_grant (now : Z) (req : RequestCanonicalRestoreRequest) (nbytes base_slot : Z)
  (o : CanonicalObject) (d : Daemon) : RequestCanonicalRestoreResponse * Daemon :=
  let o := o <| ob_restore_refcount := u32 (ob_restore_refcount o + 1) |>
             <| ob_last_access_ns := now |> in
  let d := metric_inc kCanonicalRestoreServed (d <| objects ::= <[cr_object_id req := o]> |>) in
  (mkRequestCanonicalRestoreResponse true "ok" false (cr_object_id req) nbytes
     (sl_arena_id (slot d base_slot)) (sl_arena_offset (slot d base_slot)), d).
Definition warm_entry (now : Z) (req : RequestCanonicalRestoreRequest)
  (tid version owner_pid nbytes : Z) (k : Z) (e : slot_entry) : slot_entry :=
  e <| sl_tensor_id := tid |> <| sl_version := version |> <| sl_owner_rank := cr_rank_id req |>
    <| sl_owner_pid := owner_pid |> <| sl_rank_epoch := cr_rank_epoch req |>
    <| sl_nbytes := if decide (k = 0) then nbytes else sl_capacity e |>
    <| sl_last_touch_ns := now |> <| sl_state := SLOT_READBACK_IN_FLIGHT |>.
(** After the cold bytes were read into the run [base, count]. *)
Definition warm_commit (now : Z) (req : RequestCanonicalRestoreRequest)
  (tid nbytes base count : Z) (d : Daemon) : res (RequestCanonicalRestoreResponse * Daemon) :=
  let d := set_run_state now base count SLOT_PINNED_VALID d in
  let d := metric_add kUsedPinnedBytes (run_bytes d count) d in
  let loc := default default_location (locations d !! tid) in
  let d := d <| locations ::= <[tid := loc <| lo_kind := LOC_PINNED |> <| lo_slot_id := base |>
                                           <| lo_nbytes := nbytes |>]> |> in
  match find_object d (cr_object_id req) with
  | None => Throw "undefined behaviour: object freed while referenced"
  | Some o =>
      Ok (restore_grant now req nbytes base
            (o <| ob_base_slot := base |> <| ob_slot_count := count |>
               <| ob_state := OBJ_VALID_MULTI_TIER |>) d)
  end.
Definition warm_restore (now : Z) (gaps : nat -> IoGap) (req : RequestCanonicalRestoreRequest)
  (tid nbytes : Z) (cold : ColdEntry) (d : Daemon) : res (RequestCanonicalRestoreResponse * Daemon) :=
  match alloc_with_drain kDrainAttempts now gaps (cr_gpu_id req) (cr_numa_node req) nbytes
          OFLD_FLAG_ALLOW_OVERFLOW d with
  | (None, _, d) => Ok (restore_refused false "no pinned capacity to warm object" req, d)
  | (Some (base, count), now, d) =>
      match find_object d (cr_object_id req) with
      | None => Throw "undefined behaviour: object freed while referenced"
      | Some obj =>
          let owner_pid := session_pid d (cr_rank_id req) in
          let d := d <| slots ::= update_run
                          (warm_entry now req tid (ob_version obj) owner_pid nbytes) base count |> in
          (* lk.unlock() *)
          let g := gaps kDrainAttempts in
          let '(rok, d) := do_readback_from_cold base cold nbytes g d in
          let d := io_env g d in
          (* lk.lock() *)
          if negb rok then
            let d := set_run_state (io_now g) base count SLOT_ERROR d in
            let d := free_slots (io_now g) base count d in
            Ok (restore_refused false "readback failed" req, metric_inc kIoFailure d)
          else warm_commit (io_now g) req tid nbytes base count d
      end
  end.
Definition handle_request_canonical_restore (now : Z) (gaps : nat -> IoGap)
  (req : RequestCanonicalRestoreRequest) (d : Daemon)
  : res (RequestCanonicalRestoreResponse * Daemon) :=
  if negb (c_v2_enable_canonical_store (cfg d)) then
    Ok (restore_refused false "canonical store disabled" req, d)
  else if negb (epoch_valid d (cr_rank_id req) (cr_rank_epoch req)) then
    Ok (restore_refused false "epoch invalid" req, metric_inc kEpochMismatchRejected d)
  else match find_object d (cr_object_id req) with
  | None => Ok (restore_refused false "unknown object" req, d)
  | Some obj =>
      if negb (readable_state (ob_state obj)) then
        Ok (restore_refused false "object not readable" req, d)
      else
        let tid := canonical_tid (cr_object_id req) in
        match locations d !! tid with
        | None => Ok (restore_refused false "object not resident" req, d)
        | Some loc =>
            match lo_kind loc with
            | LOC_NONE | LOC_DELETED => Ok (restore_refused false "object not resident" req, d)
            | LOC_PINNED =>
                if decide (slot_state d (lo_slot_id loc) = SLOT_PINNED_VALID)
                then Ok (restore_grant now req (ob_nbytes obj) (lo_slot_id loc) obj d)
                else Ok (restore_refused true "object transitioning between tiers" req, d)
            | LOC_PAGEABLE | LOC_NVME =>
                match (if decide (lo_cold_ref loc = 0) then None else cold_store d !! lo_cold_ref loc) with
                | None => Ok (restore_refused true "object cold reference not ready" req, d)
                | Some cold => warm_restore now gaps req tid (ob_nbytes obj) cold d
                end
            | _ => Ok (restore_refused true "object transitioning between tiers" req, d)
            end
        end
  end.

Definition end_restore (o : CanonicalObject) : CanonicalObject :=
  if decide (0 < ob_restore_refcount o)
  then o <| ob_restore_refcount := ob_restore_refcount o - 1 |> else o.
Definition handle_release_canonical_restore (now : Z) (req : ReleaseCanonicalRestoreRequest)
  (d : Daemon) : ReleaseCanonicalRestoreResponse * Daemon :=
  if negb (epoch_valid d (xr_rank_id req) (xr_rank_epoch req)) then
    (mkReleaseCanonicalRestoreResponse false "epoch invalid", metric_inc kEpochMismatchRejected d)
  else
    let d := match find_object d (xr_object_id req) with
             | None => d
             | Some o =>
                 let o := end_restore o in
                 (maybe_free_object now o (d <| objects ::= <[xr_object_id req := o]> |>)).2
             end in
    (mkReleaseCanonicalRestoreResponse true "ok", d).

(** ** DropCanonicalVersion *)
(** One object of the drop loop; the counters are (dropped, skipped, bytes). *)
Definition drop_one (now : Z) (acc : Z * Z * Z * Daemon) (oid : Z) : Z * Z * Z * Daemon :=
  let '(dropped, skipped, bytes, d) := acc in
  match find_object d oid with
  | None => acc
  | Some o =>
      match release_object now o d with
      | (true, d) => (u64 (dropped + 1), skipped, u64 (bytes + ob_nbytes o), d)
      | (false, d) => (dropped, u64 (skipped + 1), bytes, d)
      end
  end.
Definition forget_version (uid : JobUID) (model_role model_version : Z) (d : Daemon) : Daemon :=
  let d := d <| manifests ::= delete (mkVersionKey uid model_role model_version) |> in
  let rk := mkRoleKey uid model_role in
  if decide (latest_sealed d !! rk = Some model_version)
  then d <| latest_sealed ::= delete rk |> else d.
Definition handle_drop_canonical_version (now : Z) (req : DropCanonicalVersionRequest) (d : Daemon)
  : DropCanonicalVersionResponse * Daemon :=
  if negb (c_v2_enable_canonical_store (cfg d)) then
    (mkDropCanonicalVersionResponse false "canonical store disabled" 0 0 0, d)
  else match find_job_by_wire d (dv_job req) with
  | None => (mkDropCanonicalVersionResponse false "job not registered" 0 0 0, d)
  | Some job =>
      let uid := jr_uid job in
      let '(dropped, skipped, bytes, d) :=
        foldl (drop_one now) (0, 0, 0, d)
          (version_objects d uid (dv_model_role req) (dv_model_version req)) in
      (mkDropCanonicalVersionResponse true "ok" dropped skipped bytes,
       forget_version uid (dv_model_role req) (dv_model_version req) d)
  end.
