(* ===== verification/Guarantee.v ===== *)
(** * What every operation guarantees

    [guarantee d d'] collects the facts no operation of the daemon may break,
    whatever it does: the configuration and the window tables are constant, a
    slot never changes its place in its arena, ranks' epochs, leases, cold
    references and canonical object ids are never reused, a lease or a cold entry
    never changes once written, and an object keeps its identity.  What it says
    about identifiers holds as long as their 64-bit counter has not wrapped: each
    such clause asks that of the later state, and a counter only grows.  It is a
    preorder, so it composes along executions and it is also what an operation
    that releases [mu_] relies on from the other threads ([rely]).

    The first part has the algebra of [guarantee]; the second part proves it for
    each primitive and routine of the allocator, the drain and readback paths and
    the v1 handlers. *)
From stdpp Require Import base gmap strings list fin_maps fin_sets list_numbers.
From Stdlib Require Import ZArith Lia.
From S2P Require Import Prelude.
From S2P Require Import Ring.
From S2P Require Import Protocol.
From S2P Require Import State.
From S2P Require Import Alloc.
From S2P Require Import Drain.
From S2P Require Import Offload.
From S2P Require Import Store.
From S2P Require Import ProtocolV2.
Open Scope Z_scope.
Open Scope offload_scope.

Create HintDb guarantee.

(** ** The relation *)
Definition geometry (e : slot_entry) : Z * Z * Z * Z * Z * Z :=
  (sl_slot_id e, sl_numa_node e, sl_gpu_preferred e, sl_arena_id e, sl_arena_offset e, sl_capacity e).
Definition same_geometry (e e' : slot_entry) : Prop := geometry e' = geometry e.
#[export] Instance same_geometry_preorder : PreOrder same_geometry.
Proof. split; [done|]. intros x y z Hxy Hyz. unfold same_geometry in *. congruence. Qed.
Definition slots_geometry (s s' : gmap Z slot_entry) : Prop :=
  forall id, option_Forall2 same_geometry (s !! id) (s' !! id).
#[export] Instance slots_geometry_preorder : PreOrder slots_geometry.
Proof.
  split; [intros s id; reflexivity|]. intros s1 s2 s3 H1 H2 id. etrans; [apply H1|apply H2].
Qed.

Definition static (d : Daemon) :=
  (cfg d, windows d, window_index d, num_slots d, arenas d, ring_max_ranks d, generation d).
Definition lease_ids_ok (d : Daemon) : Prop :=
  0 < next_lease_id d /\ forall id L, leases d !! id = Some L -> le_lease_id L = id /\ 0 < id < next_lease_id d.
(** Keys of an object that never change. *)
Definition identity (o : CanonicalObject) :=
  (ob_object_id o, ob_key o, ob_key_str o, ob_nbytes o, ob_synthetic_tid o, ob_lease_id o, ob_version o).
(** The informational count is the number of holders. *)
Definition counted (o : CanonicalObject) : Prop :=
  ob_refcount o = u32 (Z.of_nat (size (ob_holders o))).
(** The derived keys of an object are the ones computed from its id and key. *)
Definition genuine (o : CanonicalObject) : Prop :=
  ob_key_str o = canonical_key_string (ob_key o) /\ ob_nbytes o = k_nbytes (ob_key o) /\
  ob_synthetic_tid o = canonical_tid (ob_object_id o).
Definition object_ids_ok (d : Daemon) : Prop :=
  0 < next_object_id d /\
  forall id o, objects d !! id = Some o ->
    ob_object_id o = id /\ 0 < id < next_object_id d /\ counted o /\ genuine o.
(** [object_by_key_] names no object under another object's key string. *)
Definition index_ok (d : Daemon) : Prop :=
  forall s id, object_by_key d !! s = Some id ->
    id < next_object_id d /\ forall o, objects d !! id = Some o -> ob_key_str o = s.
(** An update that keeps an object the same object. *)
Definition same_object (o o' : CanonicalObject) : Prop :=
  identity o' = identity o /\ (counted o -> counted o').
Definition jobs_ok (d : Daemon) : Prop := forall uid j, jobs d !! uid = Some j -> jr_uid j = uid.

Record guarantee (d d' : Daemon) : Prop := {
  g_static : static d' = static d;
  g_geometry : slots_geometry (slots d) (slots d');
  g_epoch_next : next_rank_epoch d <= next_rank_epoch d';
  g_epoch : next_rank_epoch d' <= 2 ^ 64 ->
    forall r e, 0 <= e < next_rank_epoch d -> epoch_valid d' r e = true -> epoch_valid d r e = true;
  g_cold_next : next_cold_ref d <= next_cold_ref d';
  g_cold : 0 <= next_cold_ref d -> next_cold_ref d' <= 2 ^ 64 ->
    forall r c, cold_store d' !! r = Some c ->
    cold_store d !! r = Some c \/ next_cold_ref d <= r;
  g_lease_next : next_lease_id d <= next_lease_id d';
  g_lease : next_lease_id d' <= 2 ^ 64 -> lease_ids_ok d -> lease_ids_ok d' /\
    forall id L, leases d' !! id = Some L -> leases d !! id = Some L \/ next_lease_id d <= id;
  g_object_next : next_object_id d <= next_object_id d';
  g_object : next_object_id d' <= 2 ^ 64 -> object_ids_ok d -> object_ids_ok d' /\
    forall id o', objects d' !! id = Some o' ->
      (exists o, objects d !! id = Some o /\ identity o' = identity o) \/ next_object_id d <= id;
  g_index : next_object_id d' <= 2 ^ 64 -> object_ids_ok d -> index_ok d -> index_ok d' /\
    forall k id, object_by_key d' !! k = Some id ->
      object_by_key d !! k = Some id \/ next_object_id d <= id;
  g_jobs : jobs_ok d -> jobs_ok d' /\ forall uid, is_Some (jobs d !! uid) -> is_Some (jobs d' !! uid) }.

#[export] Instance guarantee_preorder : PreOrder guarantee.
Proof.
  split.
  - intros d. split; try done; try reflexivity; eauto 6.
  - intros a b c [A1 A2 A3 A4 A5 A6 A7 A8 A9 A10 A12 A11] [B1 B2 B3 B4 B5 B6 B7 B8 B9 B10 B12 B11].
    split; try congruence; try lia; [by etrans|..].
    + intros Hw r e He Hv. apply A4; [lia..|]. apply B4; [lia..|done].
    + intros Hp Hw r x Hx. destruct (B6 ltac:(lia) Hw _ _ Hx) as [?|?]; [|right; lia].
      destruct (A6 Hp ltac:(lia) r x); auto.
    + intros Hw Ha. destruct (A8 ltac:(lia) Ha) as [Hb A8']. destruct (B8 Hw Hb) as [Hc B8']. split; [done|].
      intros id L HL. destruct (B8' _ _ HL); [|right; lia]. auto.
    + intros Hw Ha. destruct (A10 ltac:(lia) Ha) as [Hb A10']. destruct (B10 Hw Hb) as [Hc B10']. split; [done|].
      intros id o HL. destruct (B10' _ _ HL) as [(o1 & H1 & E1)|]; [|right; lia].
      destruct (A10' _ _ H1) as [(o2 & H2 & E2)|]; [left; exists o2; split; congruence|by right].
    + intros Hw Ho Ha. assert (Hw' : next_object_id b <= 2 ^ 64) by lia. destruct (A12 Hw' Ho Ha) as [Hb A12'].
      destruct (B12 Hw (proj1 (A10 Hw' Ho)) Hb) as [Hc B12'].
      split; [done|]. intros k id Hk. destruct (B12' _ _ Hk); [auto|right; lia].
    + intros Ha. destruct (A11 Ha) as [Hb A11']. destruct (B11 Hb) as [Hc B11']. split; [done|]. auto.
Qed.

(** What an operation that releases the lock relies on. *)
Definition rely (g : IoGap) : Prop := forall x, guarantee x (io_env g x).

(** ** Primitive updates *)
(** The tables [guarantee] speaks about. *)
Definition observed (d : Daemon) :=
  (static d, slots d, sessions d, next_rank_epoch d, (cold_store d, next_cold_ref d),
   (leases d, next_lease_id d), (objects d, next_object_id d, object_by_key d), jobs d).
Lemma guarantee_frame d d' : observed d' = observed d -> guarantee d d'.
Proof.
  intros E. pose proof (reflexivity d : guarantee d d) as H. destruct d, d'.
  unfold observed, static in E. simpl in E. simplify_eq. by destruct H.
Qed.

(** Keeps the goals on the tables an update of [d] changes. *)
Ltac frame_fields d :=
  let H := fresh "H" in
  etransitivity; [eassumption|]; pose proof (reflexivity d : guarantee d d) as H;
  destruct d; destruct H; split; try assumption; simpl in *.

(** The lemmas below extend a proved [guarantee d0 d] by one update. *)
Section Primitives.
  Context (d0 d : Daemon) (Hd : guarantee d0 d).

Lemma g_step d' : guarantee d d' -> guarantee d0 d'.
Proof. intros H. by transitivity d. Qed.
Lemma g_metric_add m v : guarantee d0 (metric_add m v d).
Proof. apply g_step. by apply guarantee_frame. Qed.
Lemma g_metric_sub m v : guarantee d0 (metric_sub m v d).
Proof. apply g_step. by apply guarantee_frame. Qed.
Lemma g_metric_inc m : guarantee d0 (metric_inc m d).
Proof. apply g_metric_add. Qed.
Lemma g_slots f :
  slots_geometry (slots d) (f (slots d)) -> guarantee d0 (d <| slots ::= f |>).
Proof.
  intros Hg. frame_fields d.
Qed.
Lemma g_update_run f base count :
  (forall k e, geometry (f k e) = geometry e) ->
  guarantee d0 (d <| slots ::= update_run f base count |>).
Proof. intros Hf. apply g_slots. intros id. apply update_run_rel; [apply _|]. intros k e. apply Hf. Qed.
Lemma g_set_run_state now base count st : guarantee d0 (set_run_state now base count st d).
Proof. by apply g_update_run. Qed.
Lemma g_set_slot_state now id st : guarantee d0 (set_slot_state now id st d).
Proof.
  apply g_slots. intros i. destruct (decide (id = i)) as [->|].
  - rewrite lookup_alter. rewrite decide_True by done. destruct (slots d !! i); by constructor.
  - rewrite lookup_alter_ne by done. reflexivity.
Qed.
Lemma g_leases_filter (f : gmap Z Lease -> gmap Z Lease) :
  (forall id L, f (leases d) !! id = Some L -> leases d !! id = Some L) ->
  guarantee d0 (d <| leases ::= f |>).
Proof.
  intros Hf. frame_fields d.
  intros _ [Hn Hok]. split; [split; [exact Hn|]|]; simpl in *; eauto.
Qed.
Lemma g_leases_vacuous f : ~ lease_ids_ok d -> guarantee d0 (d <| leases ::= f |>).
Proof. intros Hn. frame_fields d. intros _ Hok. by destruct Hn. Qed.
Lemma g_leases_delete id : guarantee d0 (d <| leases ::= delete id |>).
Proof. apply g_leases_filter. intros i L [_ HL]%lookup_delete_Some. done. Qed.
Lemma g_lease_new L :
  le_lease_id L = u64 (next_lease_id d) ->
  guarantee d0 (d <| next_lease_id := next_lease_id d + 1 |>
                  <| leases ::= <[u64 (next_lease_id d) := L]> |>).
Proof.
  intros HL. frame_fields d; [lia|].
  intros Hw [Hn Hok]. simpl in *. rewrite u64_small in HL |- * by (unfold in_u64; lia).
  split; [split; simpl in *; [lia|]|].
  - intros id L' [[<- <-]|[? H']]%lookup_insert_Some; [split; [done|lia]|].
    destruct (Hok _ _ H'). split; [done|lia].
  - intros id L' [[<- <-]|[? H']]%lookup_insert_Some; [right; simpl; lia|]. by left.
Qed.
Lemma g_lease_counter : guarantee d0 (d <| next_lease_id := next_lease_id d + 1 |>).
Proof.
  frame_fields d; [lia|].
  intros _ [Hn Hok]. split; [split; simpl in *; [lia|]|by left].
  intros id L HL. destruct (Hok _ _ HL). split; [done|lia].
Qed.
Lemma g_cold_new c :
  guarantee d0 (d <| next_cold_ref := next_cold_ref d + 1 |>
                  <| cold_store ::= <[u64 (next_cold_ref d) := c]> |>).
Proof.
  frame_fields d; [lia|].
  intros Hp Hw. rewrite u64_small by (unfold in_u64; lia). intros r x [[<- <-]|[? H']]%lookup_insert_Some; [right; simpl; lia|by left].
Qed.
Lemma g_cold_delete r : guarantee d0 (d <| cold_store ::= delete r |>).
Proof.
  frame_fields d.
  intros _ _ r' x [_ H']%lookup_delete_Some. by left.
Qed.
Lemma g_sessions (f : gmap Z Session -> gmap Z Session) :
  (forall r s', f (sessions d) !! r = Some s' -> se_alive s' = true ->
     exists s, sessions d !! r = Some s /\ se_alive s = true /\ se_rank_epoch s = se_rank_epoch s') ->
  guarantee d0 (d <| sessions ::= f |>).
Proof.
  intros Hf. frame_fields d.
  intros _ r e He. unfold epoch_valid; simpl in *. destruct (f sessions !! r) as [s'|] eqn:E; [|done].
  destruct (se_alive s') eqn:Ea; [|done]. simpl. case_decide as Hne; [done|]. intros _.
  destruct (Hf _ _ E Ea) as (s & -> & -> & Eq). simpl. case_decide; [|done]. congruence.
Qed.
Lemma g_session_new s r :
  se_rank_epoch s = u64 (next_rank_epoch d) ->
  guarantee d0 (d <| next_rank_epoch := next_rank_epoch d + 1 |> <| sessions ::= <[r := s]> |>).
Proof.
  intros Hs. frame_fields d; [lia|].
  intros Hw r' e He. unfold epoch_valid in *; simpl in *.
  rewrite u64_small in Hs by (unfold in_u64; lia). destruct (decide (r = r')) as [->|].
  - rewrite lookup_insert_eq. destruct (negb (se_alive s)); [done|].
    case_decide as Hne; [done|]. lia.
  - by rewrite lookup_insert_ne by done.
Qed.
Lemma identity_genuine o o' : identity o' = identity o -> genuine o -> genuine o'.
Proof. unfold identity, genuine. intros [=] (? & ? & ?). split_and!; congruence. Qed.
Lemma g_objects (f : gmap Z CanonicalObject -> gmap Z CanonicalObject) :
  (object_ids_ok d -> forall id o', f (objects d) !! id = Some o' ->
     exists o, objects d !! id = Some o /\ same_object o o') ->
  guarantee d0 (d <| objects ::= f |>).
Proof.
  intros Hf. frame_fields d.
  - intros _ Hok. pose proof Hok as [Hn Hok']. split; [split; [exact Hn|]|]; simpl in *.
    + intros id o' Ho'. destruct (Hf Hok _ _ Ho') as (o & Ho & Ei & Hc).
      destruct (Hok' _ _ Ho) as (<- & ? & ? & ?). pose proof (identity_genuine _ _ Ei).
      unfold identity in Ei. split_and!; [congruence|lia..|auto|auto].
    + intros id o' Ho'. left. destruct (Hf Hok _ _ Ho') as (o & Ho & Ei & _). eauto.
  - intros _ Hok Hix. split; [|by left]. intros k id Hk. destruct (Hix k id Hk) as [Hlt Ho].
    split; [done|]. simpl in *.
    intros o' Ho'. destruct (Hf Hok _ _ Ho') as (o & Ho0 & Ei & _). rewrite <- (Ho _ Ho0).
    unfold identity in Ei. congruence.
Qed.
Lemma g_object_counter : guarantee d0 (d <| next_object_id := next_object_id d + 1 |>).
Proof.
  frame_fields d; [lia|..].
  - intros _ [Hn Hok]. split; [split; simpl in *; [lia|]|left; eauto].
    intros id L HL. destruct (Hok _ _ HL) as (? & ? & ? & ?). split_and!; [done|lia..|done|done].
  - intros _ _ Hix. split; [|by left]. intros k id Hk. destruct (Hix k id Hk) as [Hlt Ho].
    simpl in *. split; [lia|done].
Qed.
Lemma g_index_delete k : guarantee d0 (d <| object_by_key ::= delete k |>).
Proof.
  frame_fields d. intros _ _ Hix.
  split; intros k' id; simpl; intros [_ Hk]%lookup_delete_Some; [exact (Hix k' id Hk)|by left].
Qed.
Lemma g_jobs_alter f uid :
  (forall j, jr_uid (f j) = jr_uid j) -> guarantee d0 (d <| jobs ::= alter f uid |>).
Proof.
  intros Hf. frame_fields d.
  intros Hok. split; unfold jobs_ok in *; simpl in *.
  - intros u j [(<- & j0 & H0 & ->)|[_ H0]]%lookup_alter_Some; [rewrite Hf|]; eauto.
  - intros u Hu. rewrite lookup_alter. case_decide; [|done].
    subst. by apply fmap_is_Some.
Qed.
Lemma g_jobs_insert j : guarantee d0 (d <| jobs ::= <[jr_uid j := j]> |>).
Proof.
  frame_fields d.
  intros Hok. split; unfold jobs_ok in *; simpl in *.
  - intros u j' [[<- <-]|[_ H0]]%lookup_insert_Some; eauto.
  - intros u Hu. rewrite lookup_insert. case_decide; [eauto|done].
Qed.
End Primitives.

(** Proves [guarantee d0 d'] for a [d'] built from primitives, case by case. *)
Ltac frame_step :=
  match goal with
  | |- guarantee _ (update _ _ ?x) => apply (g_step _ x); [|apply guarantee_frame; reflexivity]
  end.
Ltac guar_step :=
  match goal with
  | H : guarantee ?a ?b |- guarantee ?a ?b => exact H
  | |- guarantee ?a ?a => reflexivity
  | |- guarantee _ (metric_add _ _ _) => apply g_metric_add
  | |- guarantee _ (metric_sub _ _ _) => apply g_metric_sub
  | |- guarantee _ (metric_inc _ _) => apply g_metric_inc
  | |- guarantee _ (set_run_state _ _ _ _ _) => apply g_set_run_state
  | |- guarantee _ (set_slot_state _ _ _ _) => apply g_set_slot_state
  | |- guarantee _ (update slots (update_run _ _ _) _) => apply g_update_run; [|by intros]
  | |- guarantee _ (update leases (delete _) _) => apply g_leases_delete
  | |- guarantee _ (update cold_store (delete _) _) => apply g_cold_delete
  | |- guarantee _ (update jobs (alter _ _) _) => apply g_jobs_alter
  | |- guarantee _ (update locations _ _) => frame_step
  | |- guarantee _ (update drain_queue _ _) => frame_step
  | |- guarantee _ (update readback_queue _ _) => frame_step
  | |- guarantee _ (update rings _ _) => frame_step
  | |- guarantee _ (update arena_writes _ _) => frame_step
  | |- guarantee _ (update ring_owner _ _) => frame_step
  | |- guarantee _ (update header_heartbeat_ns _ _) => frame_step
  | |- guarantee _ (update running _ _) => frame_step
  | |- guarantee _ (update object_by_key (delete _) _) => apply g_index_delete
  | |- guarantee _ (update manifests _ _) => frame_step
  | |- guarantee _ (update latest_sealed _ _) => frame_step
  | |- guarantee _ (update next_launch_epoch _ _) => frame_step
  | Hr : rely ?g |- guarantee _ (io_env ?g _) => eapply g_step; [|apply Hr]
  | Hr : forall i, rely (?gs i) |- guarantee _ (io_env (?gs _) _) => eapply g_step; [|apply Hr]
  end.
Ltac guar := repeat guar_step; eauto with guarantee.

Lemma g_free_slots d0 d now base count : guarantee d0 d -> guarantee d0 (free_slots now base count d).
Proof. intros H. unfold free_slots. guar. Qed.
Lemma g_update_location d0 d tid v k s c n :
  guarantee d0 d -> guarantee d0 (update_location_if_latest tid v k s c n d).2.
Proof. intros H. unfold update_location_if_latest. cbv zeta. repeat case_match; cbn [snd]; guar. Qed.
#[export] Hint Resolve g_free_slots g_update_location : guarantee.

(** ** Drain and readback *)
Lemma g_do_drain d0 d n g : guarantee d0 d -> guarantee d0 (do_drain_to_cold n g d).2.
Proof. intros H. unfold do_drain_to_cold. cbv zeta. repeat case_match; cbn [snd]; guar. Qed.
Lemma g_do_readback d0 d b c n g : guarantee d0 d -> guarantee d0 (do_readback_from_cold b c n g d).2.
Proof. intros H. unfold do_readback_from_cold. cbv zeta. repeat case_match; cbn [snd]; guar. Qed.
#[export] Hint Resolve g_do_drain g_do_readback : guarantee.

Lemma g_drain_commit d0 d now base count tid v n lid c :
  guarantee d0 d -> guarantee d0 (drain_commit now base count tid v n lid c d).
Proof.
  intros H. unfold drain_commit. cbv zeta.
  match goal with |- context [update_location_if_latest ?a ?b ?c ?e ?f ?g ?x] =>
    assert (Hx : guarantee d0 x) by (guar; by apply g_cold_new);
    pose proof (g_update_location d0 x a b c e f g Hx) as Hu;
    destruct (update_location_if_latest a b c e f g x) as [ok d'] end.
  cbn [snd] in Hu. guar.
Qed.
#[export] Hint Resolve g_drain_commit : guarantee.

Lemma pick_drain_spec d :
  (pick_drain d).2 = 0 \/
  exists id L, leases d !! id = Some L /\ le_lease_id L = (pick_drain d).2 /\
               drain_candidate d L = true.
Proof.
  unfold pick_drain.
  enough (Hgen : forall l acc, (forall kv, kv ∈ l -> leases d !! kv.1 = Some kv.2) ->
    (acc.2 = 0 \/ exists id L, leases d !! id = Some L /\ le_lease_id L = acc.2 /\ drain_candidate d L = true) ->
    let r := foldl (fun '(best_ts, best_lease) kv =>
      let L := kv.2 : Lease in
      if drain_candidate d L then
        let ts := sl_last_touch_ns (slot d (le_base_slot L)) in
        if decide (ts < best_ts) then (ts, le_lease_id L) else (best_ts, best_lease)
      else (best_ts, best_lease)) acc l in
    r.2 = 0 \/ exists id L, leases d !! id = Some L /\ le_lease_id L = r.2 /\ drain_candidate d L = true).
  { apply Hgen; [|by left]. intros [k L] Hk. by apply elem_of_map_to_list in Hk. }
  induction l as [|[k L] l IH]; intros [ts b] Hl Hacc; [done|]. cbn [foldl snd]. apply IH.
  - intros kv Hkv. apply Hl. by apply list_elem_of_further.
  - destruct (drain_candidate d L) eqn:Hc; [|done]. case_decide; [|done]. right.
    exists k, L. cbn [snd]. split_and!; [|done..]. apply (Hl (k, L)). apply list_elem_of_here.
Qed.

Lemma g_leases_at d0 d : guarantee d0 d -> (pick_drain d).2 ≠ 0 ->
  guarantee d0 (leases_at (pick_drain d).2 d).2.
Proof.
  intros H Hne. unfold leases_at. destruct (leases d !! (pick_drain d).2) eqn:E; [done|].
  cbn [snd]. apply g_leases_vacuous; [done|]. intros [_ Hok].
  destruct (pick_drain_spec d) as [?|(id & L & HL & Hid & _)]; [done|].
  destruct (Hok _ _ HL). congruence.
Qed.

Lemma g_force_drain_one d0 d now g :
  rely g -> guarantee d0 d -> guarantee d0 (force_drain_one now g d).2.
Proof.
  intros Hr H. unfold force_drain_one. cbv zeta. case_decide as Hb; [done|].
  pose proof (g_leases_at d0 d H Hb) as Hl. destruct (leases_at (pick_drain d).2 d) as [L d1].
  cbn [snd] in Hl. match goal with |- context [do_drain_to_cold ?n ?g ?x] =>
    assert (Hx : guarantee d0 x) by guar; pose proof (g_do_drain d0 x n g Hx) as Hd;
    destruct (do_drain_to_cold n g x) as [[ok cold] d2] end.
  cbn [snd] in Hd. destruct ok; cbn [negb snd]; guar. apply g_drain_commit. guar.
Qed.
#[export] Hint Resolve g_force_drain_one : guarantee.

Lemma g_allocate_slots d0 d gpu numa n fl :
  guarantee d0 d -> guarantee d0 (allocate_slots gpu numa n fl d).2.
Proof. intros H. unfold allocate_slots. cbv zeta. repeat case_match; cbn [snd]; guar. Qed.
#[export] Hint Resolve g_allocate_slots : guarantee.

Lemma g_alloc_with_drain n d0 d now gaps gpu numa nb fl :
  (forall i, rely (gaps i)) -> guarantee d0 d ->
  guarantee d0 (alloc_with_drain n now gaps gpu numa nb fl d).2.
Proof.
  revert d now gaps. induction n as [|n IH]; intros d now gaps Hr H; [done|]. cbn [alloc_with_drain].
  pose proof (g_allocate_slots d0 d gpu numa nb fl H) as Ha.
  destruct (allocate_slots gpu numa nb fl d) as [[run|] d1]; [done|]. cbn [snd] in Ha.
  pose proof (g_force_drain_one d0 d1 now (gaps 0%nat) (Hr 0%nat) Ha) as Hf.
  destruct (force_drain_one now (gaps 0%nat) d1) as [[] d2]; [|done]. apply IH; [|done].
  intros i. apply Hr.
Qed.
#[export] Hint Resolve g_alloc_with_drain : guarantee.

(** Opens the result of a routine whose guarantee is known: [H] its lemma. *)
Ltac open_call H :=
  let Hc := fresh "Hc" in
  pose proof H as Hc;
  match type of Hc with
  | guarantee _ (?f .2) => destruct f eqn:?; cbn [snd] in Hc
  end.

Lemma g_drain_worker d0 d gaps :
  (forall i, rely (gaps i)) -> guarantee d0 d -> guarantee d0 (drain_worker_step gaps d).
Proof.
  intros Hr H. unfold drain_worker_step. destruct (drain_queue d) as [|job rest]; [done|]. cbv zeta.
  set (d1 := io_env (gaps 0%nat) _). assert (H1 : guarantee d0 d1) by (unfold d1; guar).
  clearbody d1. case_decide; [guar|].
  pose proof (g_do_drain d0 d1 (sl_nbytes (slot d1 (dj_base_slot job))) (gaps 1%nat) H1) as Hd.
  destruct (do_drain_to_cold _ _ d1) as [[ok cold] d2]. cbn [snd] in Hd.
  case_decide; [guar|]. destruct ok; cbn [negb]; guar. apply g_drain_commit. guar.
Qed.
Lemma g_readback_worker d0 d gaps :
  (forall i, rely (gaps i)) -> guarantee d0 d -> guarantee d0 (readback_worker_step gaps d).
Proof.
  intros Hr H. unfold readback_worker_step. destruct (readback_queue d) as [|job rest]; [done|].
  cbv zeta. set (d1 := io_env (gaps 0%nat) _).
  assert (H1 : guarantee d0 d1) by (unfold d1; guar). clearbody d1.
  case_decide; [done|]. destruct (cold_store d1 !! _) as [cold|]; [|unfold readback_fail; guar].
  pose proof (g_do_readback d0 d1 (rj_base_slot job) cold (rj_nbytes job) (gaps 1%nat) H1) as Hd.
  destruct (do_readback_from_cold _ _ _ _ d1) as [ok d2]. cbn [snd] in Hd.
  case_decide; [guar|]. destruct ok; cbn [negb]; [|unfold readback_fail; guar].
  match goal with |- context [update_location_if_latest ?a ?b ?c ?e ?f ?g ?x] =>
    assert (Hx : guarantee d0 x) by guar;
    pose proof (g_update_location d0 x a b c e f g Hx) as Hu;
    destruct (update_location_if_latest a b c e f g x) as [l d3] end.
  cbn [snd] in Hu. guar.
Qed.

(** A lease inserted under an id taken before a gap. *)
Lemma g_lease_late d d2 L :
  guarantee (d <| next_lease_id := next_lease_id d + 1 |>) d2 -> le_lease_id L = u64 (next_lease_id d) ->
  guarantee d (d2 <| leases ::= <[u64 (next_lease_id d) := L]> |>).
Proof.
  intros H2 HL. pose proof (g_lease_counter d d (reflexivity d)) as H1.
  assert (H : guarantee d d2) by (by transitivity (d <| next_lease_id := next_lease_id d + 1 |>)).
  assert (Hn := g_lease_next _ _ H2). simpl in Hn.
  destruct H as [A1 A2 A3 A4 A5 A6 A7 A8 A9 A10 A11]. split; try assumption. simpl in *.
  intros Hw Hok. destruct (A8 Hw Hok) as [[Hpos Hok2] Hback]. destruct Hok as [Hpos1 _].
  rewrite u64_small in HL |- * by (unfold in_u64; lia).
  split; [split; simpl; [done|]|]; simpl.
  - intros id L' [[<- <-]|[? H']]%lookup_insert_Some; [split; [done|lia]|]. eauto.
  - intros id L' [[<- <-]|[? H']]%lookup_insert_Some; [right; lia|]. eauto.
Qed.

(** ** v1 handlers *)
Lemma g_grant_offload d0 d now req base count pid :
  guarantee d0 d -> guarantee d0 (grant_offload now req base count pid d).2.
Proof.
  intros H. unfold grant_offload. cbv zeta. cbn [snd].
  apply (g_step _ (d <| slots ::= update_run (reserve_entry now req (u64 (next_lease_id d)) pid) base count |>)).
  { guar. }
  eapply g_step; [apply (g_lease_new _ _ (reflexivity _) (mkLease (u64 (next_lease_id d)) base count
    (ro_tensor_id req) (ro_version req) (ro_rank_id req) pid (ro_rank_epoch req) (ro_nbytes req) false));
    reflexivity|].
  by apply guarantee_frame.
Qed.
Lemma g_request_offload d0 d now gaps req :
  (forall i, rely (gaps i)) -> guarantee d0 d -> guarantee d0 (handle_request_offload now gaps req d).2.
Proof.
  intros Hr H. unfold handle_request_offload. cbv zeta. repeat (case_match; cbn [snd]); guar;
    match goal with E : alloc_with_drain ?n ?w ?gs ?a ?b ?c ?e ?x = _ |- _ =>
      assert (Hx : guarantee d0 x) by guar;
      pose proof (g_alloc_with_drain n d0 x w gs a b c e Hr Hx) as Ha; rewrite E in Ha; cbn [snd] in Ha
    end; subst; guar.
  by apply g_grant_offload.
Qed.
Lemma g_mark_d2h_submitted d0 d now req :
  guarantee d0 d -> guarantee d0 (handle_mark_d2h_submitted now req d).2.
Proof. intros H. unfold handle_mark_d2h_submitted. cbv zeta. repeat (case_match; cbn [snd]); guar. Qed.
Lemma g_apply_d2h d0 d now r e l t v s q :
  guarantee d0 d -> guarantee d0 (apply_d2h_complete now r e l t v s q d).2.
Proof.
  intros H. unfold apply_d2h_complete. cbv zeta. repeat (case_match; cbn [snd]); guar;
    match goal with E : update_location_if_latest ?a ?b ?c ?e ?f ?g ?x = _ |- _ =>
      assert (Hx : guarantee d0 x) by guar;
      pose proof (g_update_location d0 x a b c e f g Hx) as Hu; rewrite E in Hu; cbn [snd] in Hu
    end; [unfold enqueue_drain; guar|done].
Qed.
#[export] Hint Resolve g_apply_d2h : guarantee.
Lemma g_mark_d2h_complete d0 d now req :
  guarantee d0 d -> guarantee d0 (handle_mark_d2h_complete now req d).2.
Proof.
  intros H. unfold handle_mark_d2h_complete.
  open_call (g_apply_d2h d0 d now (dc_rank_id req) (dc_rank_epoch req) (dc_lease_id req)
    (dc_tensor_id req) (dc_version req) (dc_slot_id req) (dc_complete_seq req) H).
  by repeat case_match.
Qed.
Lemma g_request_prefetch d0 d now gaps req :
  (forall i, rely (gaps i)) -> guarantee d0 d -> guarantee d0 (handle_request_prefetch now gaps req d).2.
Proof.
  intros Hr H. unfold handle_request_prefetch. cbv zeta.
  destruct (negb _); [cbn [snd]; guar|]. destruct (locations _ !! _) as [loc|]; [|cbn [snd]; guar].
  match goal with |- context [decide (?w ≠ lo_version loc)] => generalize w; intros wv end.
  case_decide; [cbn [snd]; guar|]. case_decide; [cbn [snd]; guar|].
  destruct (find_prefetch _ _ _); [cbn [snd]; guar|]. case_decide.
  - unfold prefetch_resident. cbn [snd].
    eapply g_step; [apply (g_metric_inc _ _ H)|]. eapply g_lease_late; [reflexivity|done].
  - match goal with |- context [alloc_with_drain ?n ?w ?gs ?a ?b ?c ?e ?x] =>
      pose proof (g_alloc_with_drain n x x w gs a b c e Hr (reflexivity x)) as Ha;
      destruct (alloc_with_drain n w gs a b c e x) as [[[[base cnt]|] now'] d2] end;
      cbn [snd] in Ha |- *.
    + eapply g_step; [apply (g_metric_inc _ _ H)|]. unfold prefetch_readback. cbn [snd].
      apply g_metric_inc. frame_step. eapply g_lease_late; [|done]. guar.
    + eapply g_step; [apply (g_metric_inc _ _ H)|]. apply g_metric_inc.
      eapply g_step; [apply (g_lease_counter _ _ (reflexivity _))|done].
Qed.
Lemma g_mark_h2d_submitted d0 d now req :
  guarantee d0 d -> guarantee d0 (handle_mark_h2d_submitted now req d).2.
Proof. intros H. unfold handle_mark_h2d_submitted. cbv zeta. repeat (case_match; cbn [snd]); guar. Qed.
Lemma g_apply_h2d d0 d now r e l t v s k q :
  guarantee d0 d -> guarantee d0 (apply_h2d_complete now r e l t v s k q d).2.
Proof.
  intros H. unfold apply_h2d_complete, keep_resident, demote_location. cbv zeta.
  repeat (case_match; cbn [snd]); guar; try (apply g_update_location; guar);
    apply g_free_slots; guar.
Qed.
#[export] Hint Resolve g_apply_h2d : guarantee.
Lemma g_mark_h2d_complete d0 d now req :
  guarantee d0 d -> guarantee d0 (handle_mark_h2d_complete now req d).2.
Proof.
  intros H. unfold handle_mark_h2d_complete.
  match goal with |- context [apply_h2d_complete ?a ?b ?c ?e ?f ?g ?h ?i ?j ?x] =>
    pose proof (g_apply_h2d d0 x a b c e f g h i j H) as Hc;
    destruct (apply_h2d_complete a b c e f g h i j x) end.
  done.
Qed.
Lemma g_release_lease d0 d now req :
  guarantee d0 d -> guarantee d0 (handle_release_lease now req d).2.
Proof.
  intros H. unfold handle_release_lease, forget_pinned. cbv zeta.
  repeat (case_match; cbn [snd]); guar. apply g_free_slots. guar.
Qed.
Lemma g_batch_one d0 d now r e c :
  guarantee d0 d -> guarantee d0 (apply_batch_one now r e c d).2.
Proof.
  intros H. unfold apply_batch_one. case_decide; [|case_decide; [by apply g_apply_h2d|cbn [snd]; guar]].
  match goal with |- context [apply_d2h_complete ?a ?b ?c ?e ?f ?g ?h ?i ?x] =>
    pose proof (g_apply_d2h d0 x a b c e f g h i H) as Hc;
    destruct (apply_d2h_complete a b c e f g h i x) as [[[? ?] ?] ?] end.
  done.
Qed.
Lemma g_batch_complete d0 d now req :
  guarantee d0 d -> guarantee d0 (handle_batch_complete now req d).2.
Proof.
  intros H. unfold handle_batch_complete.
  enough (Hb : forall cs acc, guarantee d0 acc.2 ->
    guarantee d0 (batch_loop now (bq_rank_id req) (bq_rank_epoch req) cs acc).2).
  { specialize (Hb (bq_completions req) (0, 0, d) H). by destruct (batch_loop _ _ _ _ _) as [[? ?] ?]. }
  unfold batch_loop. induction cs as [|c cs IH]; intros [[a r] x] Hx; [done|]. cbn [foldl]. apply IH.
  pose proof (g_batch_one d0 x now (bq_rank_id req) (bq_rank_epoch req) c Hx) as Hc.
  by destruct (apply_batch_one _ _ _ c x) as [[] ?].
Qed.
Lemma g_ring_completion d0 d now r e c :
  guarantee d0 d -> guarantee d0 (apply_ring_completion now r e c d).
Proof. intros H. unfold apply_ring_completion. repeat case_decide; guar. Qed.
#[export] Hint Resolve g_ring_completion : guarantee.
