(* ===== verification/Fencing.v ===== *)
(** * The guarantee of the session and canonical-store operations

    Extends [Guarantee] to the operations of [Store], [Session], [Canonical] and
    [Rollout], collects every operation of the daemon in one step relation
    [dstep] and proves the guarantee for it, hence for every execution. *)
From stdpp Require Import base gmap strings list fin_maps fin_sets list_numbers relations.
From Stdlib Require Import ZArith Lia.
From S2P Require Import Prelude.
From S2P Require Import Ring.
From S2P Require Import Protocol.
From S2P Require Import ProtocolV2.
From S2P Require Import State.
From S2P Require Import Alloc.
From S2P Require Import Drain.
From S2P Require Import Offload.
From S2P Require Import Store.
From S2P Require Import Session.
From S2P Require Import Canonical.
From S2P Require Import Rollout.
From S2P Require Import Guarantee.
Open Scope Z_scope.
Open Scope offload_scope.

(** ** Objects *)
Lemma g_objects_delete d0 d id : guarantee d0 d -> guarantee d0 (d <| objects ::= delete id |>).
Proof.
  intros H. apply g_objects; [done|]. intros _ i o [_ Ho]%lookup_delete_Some. exists o. by repeat split.
Qed.
Lemma g_objects_insert d0 d id o o' :
  guarantee d0 d -> objects d !! id = Some o -> same_object o o' ->
  guarantee d0 (d <| objects ::= <[id := o']> |>).
Proof.
  intros H Ho Hi. apply g_objects; [done|].
  intros _ i x [[<- <-]|[_ Hx]]%lookup_insert_Some; [eauto|]. exists x. by repeat split.
Qed.
Lemma g_objects_alter d0 d id f :
  (forall o, same_object o (f o)) -> guarantee d0 d ->
  guarantee d0 (d <| objects ::= alter f id |>).
Proof.
  intros Hf H. apply g_objects; [done|].
  intros _ i x [(<- & o & Ho & ->)|[_ Hx]]%lookup_alter_Some; [eauto|]. exists x. by repeat split.
Qed.
Lemma g_object_late d d2 o :
  guarantee (d <| next_object_id := next_object_id d + 1 |>) d2 -> ob_object_id o = u64 (next_object_id d) ->
  counted o -> genuine o ->
  guarantee d (d2 <| objects ::= <[u64 (next_object_id d) := o]> |>
                  <| object_by_key ::= <[ob_key_str o := u64 (next_object_id d)]> |>).
Proof.
  intros H2 HL Hcnt Hgen. pose proof (g_object_counter d d (reflexivity d)) as H1.
  assert (H : guarantee d d2) by (by transitivity (d <| next_object_id := next_object_id d + 1 |>)).
  assert (Hn := g_object_next _ _ H2). simpl in Hn.
  destruct H as [A1 A2 A3 A4 A5 A6 A7 A8 A9 A10 A12 A11]. split; try assumption; simpl in *.
  - intros Hw Hok. destruct (A10 Hw Hok) as [[Hpos Hok2] Hback]. destruct Hok as [Hpos1 _].
    rewrite u64_small in HL |- * by (unfold in_u64; lia). split; [split; simpl; [done|]|]; simpl.
    + intros id L' [[<- <-]|[? H']]%lookup_insert_Some; [split_and!; [done|lia..|done|done]|]. eauto.
    + intros id L' [[<- <-]|[? H']]%lookup_insert_Some; [right; lia|]. eauto.
  - intros Hw Hok Hix. destruct (A12 Hw Hok Hix) as [Hix2 Hnew].
    assert (Hw1 : next_object_id (d <| next_object_id := next_object_id d + 1 |>) <= 2 ^ 64) by (simpl; lia).
    destruct (g_object _ _ H1 Hw1 Hok) as [Hok1 _]. destruct (g_index _ _ H1 Hw1 Hok Hix) as [Hix1 _].
    destruct (g_index _ _ H2 Hw Hok1 Hix1) as [_ Hfresh]. simpl in Hfresh. destruct Hok as [Hpos _].
    rewrite u64_small in HL |- * by (unfold in_u64; lia).
    split.
    + intros k id; simpl; intros [[<- <-]|[? Hk]]%lookup_insert_Some.
      { split; [lia|]. intros x. rewrite lookup_insert_eq. congruence. }
      destruct (Hix2 _ _ Hk) as [Hlt Hx]. split; [done|].
      intros x [[<- <-]|[? Hx']]%lookup_insert_Some; [|auto].
      destruct (Hfresh _ _ Hk) as [Hk0|]; [|lia]. destruct (Hix _ _ Hk0). lia.
    + intros k id [[<- <-]|[? Hk]]%lookup_insert_Some; [right; lia|auto].
Qed.

(** ** Reclamation *)
Lemma jobs_release_uid n j : jr_uid (uncount_object (uncharge_pinned n j)) = jr_uid j.
Proof. unfold uncount_object, uncharge_pinned. by repeat case_decide. Qed.
Lemma jobs_uncharge_uid n j : jr_uid (uncharge_pinned n j) = jr_uid j.
Proof. unfold uncharge_pinned. by case_decide. Qed.
#[export] Hint Resolve jobs_release_uid jobs_uncharge_uid g_objects_delete : guarantee.

Lemma g_release_backing d0 d now o :
  guarantee d0 d -> guarantee d0 (release_backing now o d).
Proof. intros H. unfold release_backing. cbv zeta. repeat case_match; guar. Qed.
#[export] Hint Resolve g_release_backing : guarantee.
Lemma g_release_object d0 d now o :
  guarantee d0 d -> guarantee d0 (release_object now o d).2.
Proof.
  intros H. unfold release_object. cbv zeta. case_match; cbn [snd]; [done|].
  apply g_objects_delete. guar.
Qed.
#[export] Hint Resolve g_release_object : guarantee.
Lemma g_maybe_free d0 d now o : guarantee d0 d -> guarantee d0 (maybe_free_object now o d).2.
Proof. intros H. unfold maybe_free_object. repeat (case_match; cbn [snd]); guar. Qed.
#[export] Hint Resolve g_maybe_free : guarantee.
(** Operations that issue no object id keep the object table in order, whatever
    the counter. *)
Lemma object_ids_frame d d' :
  guarantee d d' -> objects d' = objects d -> object_ids_ok d -> object_ids_ok d'.
Proof.
  intros HG E [Hp Hok]. pose proof (g_object_next _ _ HG). split; [lia|]. rewrite E.
  intros id o Ho. destruct (Hok _ _ Ho) as (? & ? & ? & ?). split_and!; [done|lia..|done|done].
Qed.
Lemma object_ids_release now o d : object_ids_ok d -> object_ids_ok (release_object now o d).2.
Proof.
  unfold release_object. destruct (object_busy o); [done|]. cbv zeta. cbn [snd].
  intros [Hp Hok]. assert (En : next_object_id (release_backing now o d) = next_object_id d /\
    objects (release_backing now o d) = objects d) by (unfold release_backing; by repeat case_match).
  destruct En as [En Eo]. split; simpl; rewrite En; [done|]. rewrite Eo.
  intros id x [_ Hx]%lookup_delete_Some. eauto.
Qed.
(** A fold of steps that each keep the guarantee. *)
Lemma g_foldl {A} d0 d (f : Daemon -> A -> Daemon) (l : list A) :
  (forall x a, guarantee d0 x -> guarantee d0 (f x a)) -> guarantee d0 d ->
  guarantee d0 (foldl f d l).
Proof. intros Hf. revert d. induction l as [|a l IH]; intros d H; [done|]. apply IH, Hf, H. Qed.
Lemma g_foldl_acc {A B} d0 (acc : B * Daemon) (f : B * Daemon -> A -> B * Daemon) (l : list A) :
  (forall x a, guarantee d0 x.2 -> guarantee d0 (f x a).2) -> guarantee d0 acc.2 ->
  guarantee d0 (foldl f acc l).2.
Proof. intros Hf. revert acc. induction l as [|a l IH]; intros acc H; [done|]. apply IH, Hf, H. Qed.
Lemma g_purge d0 d now r : guarantee d0 d -> guarantee d0 (purge_rank_from_canonical now r d).
Proof.
  intros H. unfold purge_rank_from_canonical, free_unheld. cbv zeta. apply g_foldl.
  - intros x a Hx. case_match; guar.
  - apply g_objects; [done|]. intros _ id o'. rewrite lookup_fmap. intros Ho'.
    destruct (objects d !! id) as [o|]; [|done]. simpl in Ho'. simplify_eq. exists o.
    case_match; by repeat split.
Qed.
#[export] Hint Resolve g_purge : guarantee.

(** ** Sessions *)
Lemma foldl_delete_lookup (l : list (Z * Lease)) (m : gmap Z Lease) id L :
  foldl (fun m kv => delete (le_lease_id kv.2) m) m l !! id = Some L -> m !! id = Some L.
Proof.
  revert m. induction l as [|kv l IH]; intros m; [done|]. cbn [foldl]. intros HL%IH.
  by apply lookup_delete_Some in HL as [_ ?].
Qed.
Lemma g_recover_leases d0 d now s : guarantee d0 d -> guarantee d0 (recover_leases now s d).
Proof.
  intros H. unfold recover_leases. cbv zeta. apply g_leases_filter.
  - apply g_foldl; [|done]. intros x [k L] Hx. cbn [snd]. case_match; guar.
    apply g_free_slots. guar.
  - intros id L. apply foldl_delete_lookup.
Qed.
#[export] Hint Resolve g_recover_leases : guarantee.
Lemma g_drain_ring fuel d0 d now i r e :
  guarantee d0 d -> guarantee d0 (drain_ring fuel now i r e d).
Proof.
  revert d. induction fuel as [|n IH]; intros d H; [done|]. cbn [drain_ring].
  repeat case_match; try done. apply IH, g_ring_completion. guar.
Qed.
#[export] Hint Resolve g_drain_ring : guarantee.
Lemma g_release_ring d0 d now s : guarantee d0 d -> guarantee d0 (release_ring now s d).
Proof. intros H. unfold release_ring. case_decide; [|done]. cbv zeta. guar. Qed.
#[export] Hint Resolve g_release_ring : guarantee.
Lemma g_session_kill d0 d key s :
  guarantee d0 d -> guarantee d0 (d <| sessions ::= <[key := s <| se_alive := false |>]> |>).
Proof.
  intros H. apply g_sessions; [done|].
  intros r s' [[<- <-]|[_ Hs]]%lookup_insert_Some Ha; [done|eauto].
Qed.
Lemma objects_drain_ring fuel now i r e d : objects (drain_ring fuel now i r e d) = objects d.
Proof.
  revert d. induction fuel as [|n IH]; intros d; [done|]. cbn [drain_ring].
  destruct (rings d !! i) as [rh|]; [|done]. destruct (ring_pop rh) as [[x|] rh']; [|done]. rewrite IH.
  unfold apply_ring_completion. case_decide; [|case_decide; [|done]].
  - unfold apply_d2h_complete, update_location_if_latest, enqueue_drain. by repeat (case_match; simplify_eq/=).
  - unfold apply_h2d_complete, keep_resident, update_location_if_latest, demote_location.
    by repeat (case_match; simplify_eq/=).
Qed.
Lemma recover_leases_tables now s d :
  objects (recover_leases now s d) = objects d /\ locations (recover_leases now s d) = locations d.
Proof.
  unfold recover_leases. cbv zeta. simpl. generalize (filter (fun kv : Z * Lease => lease_of_session s kv.2 = true)
    (map_to_list (leases d))). intros l. revert d. induction l as [|kv l IH]; intros d; [done|].
  cbn [foldl]. edestruct IH as [-> ->]. by case_match.
Qed.
Lemma g_invalidate d0 d now key : guarantee d0 d -> guarantee d0 (invalidate now key d).
Proof.
  intros H. unfold invalidate. repeat case_match; try done. cbv zeta.
  apply g_purge, g_release_ring, g_recover_leases, g_metric_inc, g_session_kill, H.
Qed.
Lemma assign_ring_observed r e d : observed (assign_ring r e d).2 = observed d.
Proof. unfold assign_ring, resize_ring_owner. cbv zeta. by repeat (case_match; cbn [snd]). Qed.
Lemma observed_sessions x y f :
  observed x = observed y -> observed (x <| sessions ::= f |>) = observed (y <| sessions ::= f |>).
Proof. destruct x, y. unfold observed, static. simpl. intros [=]. by simplify_eq. Qed.
Lemma g_register d0 d now req : guarantee d0 d -> guarantee d0 (handle_register now req d).2.
Proof.
  intros H. unfold handle_register. cbv zeta.
  set (d1 := invalidate_others _ _ _ _).
  assert (H1 : guarantee d0 d1).
  { unfold d1, invalidate_others. apply g_foldl; [intros; by apply g_invalidate|by apply g_invalidate]. }
  clearbody d1. pose proof (assign_ring_observed (rr_rank_id req) (u64 (next_rank_epoch d1))
    (d1 <| next_rank_epoch := next_rank_epoch d1 + 1 |>)) as Ho.
  destruct (assign_ring _ _ _) as [ring d2]. cbn [snd] in *.
  eapply g_step; [apply (g_session_new d0 d1 H1 (mkSession (rr_rank_id req) (u64 (next_rank_epoch d1))
    (rr_pid req) (rr_gpu_id req) (rr_numa_node req) now true ring) (rr_rank_id req)); reflexivity|].
  apply guarantee_frame. by apply observed_sessions.
Qed.
Lemma g_heartbeat d0 d now req : guarantee d0 d -> guarantee d0 (handle_heartbeat now req d).2.
Proof.
  intros H. unfold handle_heartbeat. case_match; cbn [snd]; [guar|]. frame_step.
  apply g_sessions; [done|]. intros r s' [(<- & s & Hs & ->)|[_ Hs]]%lookup_alter_Some Ha; eauto.
Qed.
Lemma g_monitor d0 d now : guarantee d0 d -> guarantee d0 (heartbeat_monitor_sweep now d).
Proof.
  intros H. unfold heartbeat_monitor_sweep. cbv zeta. apply g_foldl; [|guar].
  intros x key Hx. unfold expire_session. repeat case_match; try done. cbv zeta.
  apply g_purge, g_recover_leases, g_metric_inc, g_session_kill, Hx.
Qed.
Lemma g_poll d0 d now budget l : guarantee d0 d -> guarantee d0 (foldl (poll_ring now budget) d l).
Proof.
  apply g_foldl. intros x i Hx. unfold poll_ring. repeat case_match; guar.
Qed.

(** ** Canonical handlers *)
Lemma g_register_job d0 d now req :
  guarantee d0 d -> guarantee d0 (handle_register_job now req d).2.
Proof.
  intros H. unfold handle_register_job. cbv zeta. case_match; cbn [snd]; [done|].
  case_match; cbn [snd]; [done|].
  destruct (if c_v2_include_launch_epoch (cfg d) then _ else _) as [epoch d1] eqn:E.
  assert (Hd1 : guarantee d0 d1) by (case_match; simplify_eq; guar).
  cbn [snd]. guar. apply (g_jobs_insert _ _ Hd1 (mkJob _ _ _ _ _ _ _ _ _ _ _ _ _ _ _ _ _)).
Qed.
Lemma g_reserve d0 d now gaps req uid tid v :
  (forall i, rely (gaps i)) -> guarantee d0 d -> guarantee d0 (reserve now gaps req uid tid v d).2.
Proof.
  intros Hr H. unfold reserve. cbv zeta.
  match goal with |- guarantee _ (if ?b then _ else _).2 => destruct b; [cbn [snd]; guar|] end.
  match goal with |- context [alloc_with_drain ?n ?w ?gs ?a ?b ?c ?e ?x] =>
    pose proof (g_alloc_with_drain n d0 x w gs a b c e Hr H) as Ha;
    destruct (alloc_with_drain n w gs a b c e x) as [[[[base cnt]|] now'] d2] end;
    cbn [snd] in Ha |- *; [|guar].
  guar. set (count := slots_for_bytes d _).
  apply (g_step _ (d2 <| slots ::= update_run (canonical_entry now' req tid v (u64 (next_lease_id d2))
    (session_pid d2 (ce_rank_id req))) base count |>)); [guar|].
  eapply g_step; [apply (g_lease_new _ _ (reflexivity _) (mkLease (u64 (next_lease_id d2)) base count tid v
    (ce_rank_id req) (session_pid d2 (ce_rank_id req)) (ce_rank_epoch req) (k_nbytes (ce_key req)) false));
    reflexivity|].
  by apply guarantee_frame.
Qed.
Lemma g_grant_candidate d0 d now gaps req uid ex m1 m2 r d' :
  (forall i, rely (gaps i)) -> guarantee d0 d ->
  grant_candidate now gaps req uid ex m1 m2 d = Ok (r, d') -> guarantee d0 d'.
Proof.
  intros Hr H. unfold grant_candidate. cbv zeta.
  match goal with |- context [reserve ?a ?b ?c ?e ?f ?g ?x] =>
    pose proof (g_reserve d0 x a b c e f g Hr (g_object_counter _ _ H)) as Ha;
    destruct (reserve a b c e f g x) as [[[[[lid base] cnt] now']|] d1] end; cbn [snd] in Ha.
  - case_match; intros [= _ <-]. guar.
  - by intros [= _ <-].
Qed.
Lemma g_evict_create d0 d now gaps req uid k :
  k = canonical_key_string (ce_key req) ->
  (forall i, rely (gaps i)) -> guarantee d0 d -> guarantee d0 (evict_create now gaps req uid k d).2.
Proof.
  intros Hk Hr H. unfold evict_create. cbv zeta. case_match; cbn [snd]; [done|].
  match goal with |- context [reserve ?a ?b ?c ?e ?f ?g ?x] =>
    pose proof (g_reserve x x a b c e f g Hr (reflexivity x)) as Ha;
    destruct (reserve a b c e f g x) as [[[[[lid base] cnt] now']|] d1] end; cbn [snd] in Ha |- *.
  - apply (g_step _ d); [done|]. guar.
    match goal with |- context [new_object ?n ?r ?s ?i ?t ?l ?b ?c] =>
      apply (g_object_late d d1 (new_object n r s i t l b c)) end; [done|reflexivity|..].
    + unfold counted, new_object. cbn [ob_refcount ob_holders]. by rewrite size_singleton.
    + split_and!; [exact Hk|reflexivity|reflexivity].
  - transitivity (d <| next_object_id := next_object_id d + 1 |>); [by apply g_object_counter|done].
Qed.
Lemma g_request_canonical_evict d0 d now gaps req r d' :
  (forall i, rely (gaps i)) -> guarantee d0 d ->
  handle_request_canonical_evict now gaps req d = Ok (r, d') -> guarantee d0 d'.
Proof.
  intros Hr H. unfold handle_request_canonical_evict. cbv zeta.
  destruct (negb _); [intros [= _ <-]; guar|]. destruct (negb _); [intros [= _ <-]; guar|].
  destruct (find_job_by_wire d _); [|intros [= _ <-]; guar].
  destruct (version_sealed d _); [intros [= _ <-]; guar|].
  destruct (find_object_by_key d _) as [ex|] eqn:Ek;
    [|intros [= E]; apply (f_equal snd) in E; cbn [snd] in E; subst d'; by apply g_evict_create].
  case_decide; [intros [= _ <-]; guar|]. destruct (readable_state _).
  - unfold evict_valid. destruct (negb _); [intros [= _ <-]; guar|]. case_decide.
    + intros [= _ <-]. guar. apply g_objects; [done|]. intros [_ Hok] id o'.
      unfold find_object_by_key in Ek. case_match; [|done]. unfold find_object in Ek.
      destruct (Hok _ _ Ek) as [-> _].
      intros [[<- <-]|[_ Ho]]%lookup_insert_Some; [exists ex|exists o']; by repeat split.
    + by apply g_grant_candidate.
  - case_decide; [|intros [= E]; apply (f_equal snd) in E; cbn [snd] in E; subst d'; by apply g_evict_create].
    unfold evict_creating. cbv zeta. destruct (negb _); [intros [= _ <-]; guar|].
    by apply g_grant_candidate.
Qed.
Lemma g_discard_candidate d0 d now req o :
  guarantee d0 d -> guarantee d0 (discard_candidate now req o d).
Proof. intros H. unfold discard_candidate. repeat case_match; guar. Qed.
Lemma discard_candidate_objects now req o d : objects (discard_candidate now req o d) = objects d.
Proof. unfold discard_candidate. by repeat case_match. Qed.
Lemma g_commit d0 d now req :
  guarantee d0 d -> guarantee d0 (handle_commit_canonical_object now req d).2.
Proof.
  intros H. unfold handle_commit_canonical_object. case_match; cbn [snd]; [done|].
  case_match; cbn [snd]; [guar|]. destruct (find_object d _) as [o|] eqn:Eo; [|done]. case_decide.
  - unfold commit_creator. cbv zeta. repeat (case_match; cbn [snd]); guar.
    eapply g_objects_insert; [..|exact Eo|by repeat split]; guar.
  - unfold commit_candidate. cbv zeta. pose proof (g_discard_candidate d0 d now req o H) as Hc.
    repeat (case_match; cbn [snd]); guar.
    apply (g_objects_insert _ _ _ o); [done| |by repeat split]. rewrite discard_candidate_objects. exact Eo.
Qed.
Lemma g_release_canonical d0 d now req :
  guarantee d0 d -> guarantee d0 (handle_release_canonical now req d).2.
Proof.
  intros H. unfold handle_release_canonical. cbv zeta. case_match; cbn [snd]; [done|].
  case_match; cbn [snd]; [guar|]. destruct (find_job_by_wire d _); [|done].
  match goal with |- context [foldl (release_one now ?r) ?a ?l] =>
    pose proof (g_foldl_acc d0 a (release_one now r) l) as Hf;
    destruct (foldl (release_one now r) a l) as [[[? ?] ?] d1] end. cbn [snd] in *.
  apply Hf; [|done]. intros [[[a b] c] x] oid Hx. unfold release_one. cbn [snd] in *.
  destruct (find_object x oid) as [o|] eqn:Eo; [|done]. case_decide; [done|].
  match goal with |- context [maybe_free_object ?n ?o ?y] =>
    pose proof (g_maybe_free d0 y n o) as Hm; destruct (maybe_free_object n o y) as [[] y'] end;
    cbn [snd] in *; (apply Hm; apply (g_objects_insert _ _ _ o); [done|exact Eo|by repeat split]).
Qed.

(** ** Rollout handlers *)
Lemma g_release_version d0 d now uid role ver :
  guarantee d0 d -> guarantee d0 (release_version now uid role ver d).2.
Proof.
  intros H. unfold release_version. apply (g_foldl_acc d0 (true, d)); [|done].
  intros [b x] oid Hx. cbn [snd] in *. destruct (find_object x oid) as [o|]; [|done].
  pose proof (g_release_object d0 x now o Hx). by destruct (release_object now o x) as [[] ?].
Qed.
Lemma g_retention d0 d now uid role :
  guarantee d0 d -> guarantee d0 (enforce_sealed_retention now uid role d).
Proof.
  intros H. unfold enforce_sealed_retention. cbv zeta. repeat (case_decide; [done|]).
  apply g_foldl; [|done]. intros x ver Hx. unfold retention_evict. case_decide; [done|].
  pose proof (g_release_version d0 x now uid role ver Hx) as Hv.
  destruct (release_version now uid role ver x) as [[] x']; cbn [snd] in Hv; guar.
Qed.
Lemma g_seal_freeze d0 d now ids : guarantee d0 d -> guarantee d0 (seal_freeze now ids d).2.
Proof.
  intros H. unfold seal_freeze. apply (g_foldl_acc d0 (FNV_BASIS, 1099511628211, d)); [|done].
  intros [[lo hi] x] oid Hx. unfold seal_one. cbn [snd] in *.
  destruct (find_object x oid) as [o|] eqn:Eo; [|done]. destruct (mix_object (lo, hi) oid o). cbn [snd]. eapply g_objects_insert; [..|exact Eo|by repeat split]; guar.
Qed.
Lemma g_seal d0 d now req :
  guarantee d0 d -> guarantee d0 (handle_seal_model_version now req d).2.
Proof.
  intros H. unfold handle_seal_model_version. cbv zeta. case_match; cbn [snd]; [done|].
  destruct (find_job_by_wire d _) as [job|]; [|done].
  match goal with |- context [seal_commit ?n ?u ?r ?m ?x] =>
    assert (Hc : guarantee d0 (seal_commit n u r m x).2) end.
  { unfold seal_commit. cbv zeta.
    match goal with |- context [seal_freeze ?n ?i ?x] =>
      pose proof (g_seal_freeze d0 x n i H) as Hf; destruct (seal_freeze n i x) as [[lo hi] d1] end.
    cbn [snd] in *. case_match; [apply g_retention|]; guar. }
  repeat (case_match; cbn [snd]); guar.
Qed.
Lemma pull_guard_spec req job d obj :
  pull_guard req job d = inr obj ->
  find_object d (pt_object_id req) = Some obj /\ ob_state obj = OBJ_SEALED /\
  exists man, manifests d !! mkVersionKey (jr_uid job) (pt_model_role req) (pt_model_version req) = Some man /\
    ma_state man = MANIFEST_SEALED /\ pt_object_id req ∈ ma_object_ids man.
Proof.
  unfold pull_guard. intros H. destruct (manifests d !! _) as [man|]; [|done].
  case_decide as Hm; [done|]. destruct (find_object d _) as [o|]; [|done].
  case_decide as Hs; [done|]. case_decide as Hin; [done|]. case_decide; [done|]. simplify_eq.
  split_and!; [done..|]. by exists man.
Qed.
Lemma g_stage d0 d gaps o :
  (forall i, rely (gaps i)) -> guarantee d0 d -> guarantee d0 (stage_object_for_export gaps o d).2.
Proof.
  intros Hr H. unfold stage_object_for_export. destruct (locations d !! _) as [loc|]; [|done].
  destruct (lo_kind loc); try done; try (cbn [snd]; guar);
    (destruct (cold_store d !! _) as [cold|]; [|done];
     pose proof (g_do_readback d0 d 0 cold (ob_nbytes o) (gaps 0%nat) H) as Hd;
     destruct (do_readback_from_cold _ _ _ _ d) as [ok d1]; cbn [snd] in Hd; cbv zeta;
     destruct (negb _); cbn [snd]; guar).
Qed.
Lemma jobs_export_uid n j : jr_uid (uncharge_export n j) = jr_uid j.
Proof. unfold uncharge_export. by case_decide. Qed.
Lemma end_export_same p o : same_object o (end_export p o).
Proof. unfold end_export. cbv zeta. repeat case_decide; by repeat split. Qed.
#[export] Hint Resolve jobs_export_uid end_export_same : guarantee.
Lemma g_pull_failed d0 d req n p : guarantee d0 d -> guarantee d0 (pull_staging_failed req n p d).2.
Proof.
  intros H. unfold pull_staging_failed. cbv zeta. cbn [snd]. guar.
  apply g_objects_alter; [|done]. by repeat split.
Qed.
Lemma g_release_export d0 d now req n p : guarantee d0 d -> guarantee d0 (release_export now req n p d).
Proof.
  intros H. unfold release_export. cbv zeta.
  match goal with |- context [find_object ?x _] => set (d1 := x) end.
  assert (H1 : guarantee d0 d1).
  { unfold d1. guar. apply g_objects_alter; [|done]. intros. apply end_export_same. }
  clearbody d1. case_match; guar.
Qed.
Lemma g_pull d0 d gaps xres req :
  (forall i, rely (gaps i)) -> guarantee d0 d -> guarantee d0 (handle_pull_tensor gaps xres req d).2.
Proof.
  intros Hr H. unfold handle_pull_tensor. destruct (_ || _); [done|].
  destruct (find_job_by_wire d _) as [job|]; [|done].
  destruct (pull_guard req job d) as [ref|obj] eqn:Eg.
  - revert Eg. unfold pull_guard. cbv zeta. repeat case_match; intros [= <-]; cbn [snd]; guar.
  - cbv zeta. assert (Ht : guarantee d0 (take_export req obj d)).
    { destruct (pull_guard_spec _ _ _ _ Eg) as [Ho _]. unfold take_export. cbv zeta. guar.
      eapply g_objects_insert; [done|exact Ho|by repeat split]. }
    pose proof (g_stage d0 _ gaps obj Hr Ht) as Hs.
    destruct (stage_object_for_export gaps obj _) as [staged d1]. cbn [snd] in Hs.
    destruct (find_object d1 _); [|by apply g_pull_failed].
    destruct staged; cbn [negb]; [|by apply g_pull_failed].
    match goal with |- context [release_export ?n ?r ?b ?p ?x] =>
      assert (Hx : guarantee d0 (release_export n r b p x)) by (apply g_release_export; guar) end.
    destruct (negb _); cbn [snd]; guar.
Qed.
Lemma g_warm_restore d0 d now gaps req tid n cold r d' :
  (forall i, rely (gaps i)) -> guarantee d0 d ->
  warm_restore now gaps req tid n cold d = Ok (r, d') -> guarantee d0 d'.
Proof.
  intros Hr H. unfold warm_restore.
  match goal with |- context [alloc_with_drain ?m ?w ?gs ?a ?b ?c ?e ?x] =>
    pose proof (g_alloc_with_drain m d0 x w gs a b c e Hr H) as Ha;
    destruct (alloc_with_drain m w gs a b c e x) as [[[[base cnt]|] now'] d2] end;
    cbn [snd] in Ha; [|by intros [= _ <-]].
  destruct (find_object d2 _) as [obj|]; [|done]. cbv zeta.
  match goal with |- context [do_readback_from_cold ?b ?c ?m ?g ?x] =>
    assert (Hx : guarantee d0 x) by guar; pose proof (g_do_readback d0 x b c m g Hx) as Hd;
    destruct (do_readback_from_cold b c m g x) as [rok d3] end. cbn [snd] in Hd.
  destruct rok; cbn [negb]; [|intros [= _ <-]; guar; apply g_free_slots; guar].
  unfold warm_commit. cbv zeta.
  match goal with |- context [find_object ?x _] =>
    assert (Hy : guarantee d0 x) by guar; destruct (find_object x _) as [o|] eqn:Eo end; [|done].
  intros [= _ <-]. guar. eapply g_objects_insert; [..|exact Eo|by repeat split]; guar.
Qed.
Lemma g_request_restore d0 d now gaps req r d' :
  (forall i, rely (gaps i)) -> guarantee d0 d ->
  handle_request_canonical_restore now gaps req d = Ok (r, d') -> guarantee d0 d'.
Proof.
  intros Hr H. unfold handle_request_canonical_restore. cbv zeta.
  destruct (negb _); [intros [= _ <-]; guar|]. destruct (negb _); [intros [= _ <-]; guar|].
  destruct (find_object d _) as [obj|] eqn:Eo; [|intros [= _ <-]; guar].
  destruct (negb _); [intros [= _ <-]; guar|].
  destruct (locations d !! _) as [loc|]; [|intros [= _ <-]; guar].
  destruct (lo_kind loc); try (intros [= _ <-]; guar; fail).
  - case_decide; [|intros [= _ <-]; guar]. intros [= _ <-]. guar. eapply g_objects_insert; [..|exact Eo|by repeat split]; guar.
  - destruct (if decide (lo_cold_ref loc = 0) then _ else _); [by apply g_warm_restore|intros [= _ <-]; guar].
  - destruct (if decide (lo_cold_ref loc = 0) then _ else _); [by apply g_warm_restore|intros [= _ <-]; guar].
Qed.
Lemma g_release_restore d0 d now req :
  guarantee d0 d -> guarantee d0 (handle_release_canonical_restore now req d).2.
Proof.
  intros H. unfold handle_release_canonical_restore. case_match; cbn [snd]; [guar|].
  destruct (find_object d _) as [o|] eqn:Eo; [|done]. apply g_maybe_free.
  eapply g_objects_insert; [done|exact Eo|]. unfold end_restore. case_decide; by repeat split.
Qed.
Lemma g_drop d0 d now req :
  guarantee d0 d -> guarantee d0 (handle_drop_canonical_version now req d).2.
Proof.
  intros H. unfold handle_drop_canonical_version. cbv zeta. case_match; cbn [snd]; [done|].
  destruct (find_job_by_wire d _); [|done].
  match goal with |- context [foldl (drop_one now) ?a ?l] =>
    pose proof (g_foldl_acc d0 a (drop_one now) l) as Hf;
    destruct (foldl (drop_one now) a l) as [[[? ?] ?] d1] end. cbn [snd] in *.
  assert (H1 : guarantee d0 d1).
  { apply Hf; [|done]. intros [[[a b] c] x] oid Hx. unfold drop_one. cbn [snd] in *.
    destruct (find_object x oid) as [o|]; [|done].
    pose proof (g_release_object d0 x now o Hx). by destruct (release_object now o x) as [[] ?]. }
  unfold forget_version. cbv zeta. case_decide; guar.
Qed.
