(* ===== verification/System.v ===== *)
(** * The whole daemon

    Every operation of the daemon as one type [op], its effect [run_op], the RPC
    handler table as an instance of the transport's interface [Handlers], and
    the executions [rtc dstep].  In an execution an operation that releases
    [mu_] may meet any interference that keeps [guarantee].

    The theorems: every execution keeps [guarantee]; hence stale epochs stay
    dead, lease and cold references are never reused, and the allocator's
    well-formedness holds in every reachable state. *)
From stdpp Require Import base gmap strings list fin_maps fin_sets list_numbers relations.
From Stdlib Require Import ZArith Lia SpecFloat.
From S2P Require Import Prelude.
From S2P Require Import Ring.
From S2P Require Import Protocol.
From S2P Require Import ProtocolV2.
From S2P Require Import Rpc.
From S2P Require Import Layout.
From S2P Require Import State.
From S2P Require Import Metrics.
From S2P Require Import Alloc.
From S2P Require Import Drain.
From S2P Require Import Offload.
From S2P Require Import Store.
From S2P Require Import Session.
From S2P Require Import Canonical.
From S2P Require Import Export.
From S2P Require Import Rollout.
From S2P Require Import Guarantee.
From S2P Require Import Fencing.
Open Scope Z_scope.
Open Scope offload_scope.

(** ** The handler table *)
(** What a handler run takes from outside: the clock, the gaps, the transport's
    answer, the window of bandwidth samples and what a conversion of a [double]
    that does not fit the integer type gives. *)
Record Ctx := mkCtx {
  x_now : Z; x_gaps : nat -> IoGap; x_export : ExportResult; x_samples : list spec_float; x_cast : spec_float -> Z }.

(** [Metrics::snapshot]: the counters, then three bandwidth percentiles. *)
Definition handle_get_stats (cast : spec_float -> Z) (samples : list spec_float) (d : Daemon) : GetStatsResponse * Daemon :=
  let pct := snapshot_percentiles cast samples in
  (mkGetStatsResponse true "ok" ((metric_name <$> all_metrics) ++ pct.*1) ((metric_get d <$> all_metrics) ++ pct.*2), d).

Definition reply {A} (c : A -> response) (r : A * Daemon) : res (response * Daemon) :=
  Ok (c r.1, r.2).
Definition reply_res {A} (c : A -> response) (r : res (A * Daemon)) : res (response * Daemon) :=
  res_bind r (reply c).
Definition handle_request (x : Ctx) (r : request) (d : Daemon) : res (response * Daemon) :=
  let now := x_now x in
  let gaps := x_gaps x in
  match r with
  | ReqRegisterRank m => reply RespRegisterRank (handle_register now m d)
  | ReqHeartbeat m => reply RespHeartbeat (handle_heartbeat now m d)
  | ReqRequestOffload m => reply RespRequestOffload (handle_request_offload now gaps m d)
  | ReqMarkD2HSubmitted m => reply RespMarkD2HSubmitted (handle_mark_d2h_submitted now m d)
  | ReqMarkD2HComplete m => reply RespMarkD2HComplete (handle_mark_d2h_complete now m d)
  | ReqRequestPrefetch m => reply RespRequestPrefetch (handle_request_prefetch now gaps m d)
  | ReqMarkH2DSubmitted m => reply RespMarkH2DSubmitted (handle_mark_h2d_submitted now m d)
  | ReqMarkH2DComplete m => reply RespMarkH2DComplete (handle_mark_h2d_complete now m d)
  | ReqReleaseLease m => reply RespReleaseLease (handle_release_lease now m d)
  | ReqQueryLocation m => reply RespQueryLocation (handle_query_location m d)
  | ReqBatchComplete m => reply RespBatchComplete (handle_batch_complete now m d)
  | ReqShutdown m => reply RespShutdown (handle_shutdown m d)
  | ReqGetStats m => reply RespGetStats (handle_get_stats (x_cast x) (x_samples x) d)
  | ReqRegisterJob m => reply RespRegisterJob (handle_register_job now m d)
  | ReqRequestCanonicalEvict m =>
      reply_res RespRequestCanonicalEvict (handle_request_canonical_evict now gaps m d)
  | ReqCommitCanonicalObject m =>
      reply RespCommitCanonicalObject (handle_commit_canonical_object now m d)
  | ReqSealModelVersion m => reply RespSealModelVersion (handle_seal_model_version now m d)
  | ReqGetLatestSealedVersion m =>
      reply RespGetLatestSealedVersion (handle_get_latest_sealed_version m d)
  | ReqGetManifest m => reply RespGetManifest (handle_get_manifest m d)
  | ReqPullTensor m => reply RespPullTensor (handle_pull_tensor gaps (x_export x) m d)
  | ReqRequestCanonicalRestore m =>
      reply_res RespRequestCanonicalRestore (handle_request_canonical_restore now gaps m d)
  | ReqReleaseCanonicalRestore m =>
      reply RespReleaseCanonicalRestore (handle_release_canonical_restore now m d)
  | ReqDropCanonicalVersion m =>
      reply RespDropCanonicalVersion (handle_drop_canonical_version now m d)
  | ReqReleaseCanonical m => reply RespReleaseCanonical (handle_release_canonical now m d)
  end.
(** The daemon discharges the interface the transport is proved against. *)
#[export] Instance daemon_handlers (x : Ctx) : Handlers Daemon := handle_request x.

(** ** Executions *)
Inductive op :=
  | OpRequest (x : Ctx) (r : request)
  | OpDrainWorker (gaps : nat -> IoGap)
  | OpReadbackWorker (gaps : nat -> IoGap)
  | OpHeartbeatMonitor (now : Z)
  | OpRingPoll (now : Z)
  | OpRingFinal (now : Z)
  (** a rank pushes a completion into ring [i] *)
  | OpRingPush (i : Z) (e : completion_entry).
Definition op_gaps (o : op) : nat -> IoGap :=
  match o with
  | OpRequest x _ => x_gaps x
  | OpDrainWorker gaps | OpReadbackWorker gaps => gaps
  | _ => fun _ => mkGap id None None false 0
  end.
Definition run_op (o : op) (d : Daemon) : res Daemon :=
  match o with
  | OpRequest x r => res_bind (handle_request x r d) (fun p => Ok p.2)
  | OpDrainWorker gaps => Ok (drain_worker_step gaps d)
  | OpReadbackWorker gaps => Ok (readback_worker_step gaps d)
  | OpHeartbeatMonitor now => Ok (heartbeat_monitor_sweep now d)
  | OpRingPoll now => Ok (ring_poller_sweep now d)
  | OpRingFinal now => Ok (ring_poller_final now d)
  | OpRingPush i e => Ok (d <| rings ::= alter (fun rh => (ring_push rh e).2) i |>)
  end.
(** No 64-bit identifier counter has wrapped: at most [2 ^ 64 - 1] identifiers of
    each kind were issued. *)
Record ids_in_range (d : Daemon) : Prop := {
  ir_lease : next_lease_id d <= 2 ^ 64;
  ir_epoch : next_rank_epoch d <= 2 ^ 64;
  ir_cold : next_cold_ref d <= 2 ^ 64;
  ir_object : next_object_id d <= 2 ^ 64 }.
(** One operation, with interference that keeps [guarantee] in its gaps, up to the
    wrap-around of an identifier counter. *)
Inductive dstep : Daemon -> Daemon -> Prop :=
  | dstep_op o d d' :
      (forall i, rely (op_gaps o i)) -> run_op o d = Ok d' -> ids_in_range d' -> dstep d d'.

Lemma handle_request_guarantee x r d resp d' :
  (forall i, rely (x_gaps x i)) -> handle_request x r d = Ok (resp, d') -> guarantee d d'.
Proof.
  intros Hr. pose proof (reflexivity d : guarantee d d) as H.
  destruct r as [m|m|m|m|m|m|m|m|m|m|m|m|m|m|m|m|m|m|m|m|m|m|m|m];
    cbn [handle_request reply]; unfold reply, reply_res.
  all: try (intros [= _ <-]).
  - by apply g_register.
  - by apply g_heartbeat.
  - by apply g_request_offload.
  - by apply g_mark_d2h_submitted.
  - by apply g_mark_d2h_complete.
  - by apply g_request_prefetch.
  - by apply g_mark_h2d_submitted.
  - by apply g_mark_h2d_complete.
  - by apply g_release_lease.
  - unfold handle_query_location. repeat case_match; done.
  - by apply g_batch_complete.
  - cbn [handle_shutdown snd]. guar.
  - unfold handle_get_stats. by repeat case_match.
  - by apply g_register_job.
  - destruct (handle_request_canonical_evict _ _ m d) as [[a b]|] eqn:E; [|done].
    intros [= _ <-]. by eapply g_request_canonical_evict.
  - by apply g_commit.
  - by apply g_seal.
  - unfold handle_get_latest_sealed_version. repeat case_match; done.
  - unfold handle_get_manifest. cbv zeta. repeat case_match; cbn [snd]; guar.
  - by apply g_pull.
  - destruct (handle_request_canonical_restore _ _ m d) as [[a b]|] eqn:E; [|done].
    intros [= _ <-]. by eapply g_request_restore.
  - by apply g_release_restore.
  - by apply g_drop.
  - by apply g_release_canonical.
Qed.

Lemma dstep_guarantee d d' : dstep d d' -> guarantee d d'.
Proof.
  intros [o x x' Hr H _]. destruct o as [c r|gaps|gaps|now|now|now|i e]; cbn [run_op op_gaps] in *.
  - destruct (handle_request c r x) as [[resp y]|] eqn:E; [|done]. cbn [res_bind] in H.
    simplify_eq. by eapply handle_request_guarantee.
  - simplify_eq. by apply g_drain_worker.
  - simplify_eq. by apply g_readback_worker.
  - simplify_eq. by apply g_monitor.
  - simplify_eq. by apply g_poll.
  - simplify_eq. by apply g_poll.
  - simplify_eq. guar.
Qed.
Lemma execution_guarantee d d' : rtc dstep d d' -> guarantee d d'.
Proof. induction 1; [done|]. etransitivity; [by apply dstep_guarantee|done]. Qed.
Lemma ids_in_range_before d d' : guarantee d d' -> ids_in_range d' -> ids_in_range d.
Proof.
  intros [_ _ He _ Hc _ Hl _ Ho _ _ _] [Wl We Wc Wo]. split; lia.
Qed.
Lemma execution_in_range d d' : rtc dstep d d' -> d' = d \/ ids_in_range d'.
Proof.
  intros H. apply rtc_inv_r in H as [->|(y & _ & Hs)]; [by left|]. right. by destruct Hs.
Qed.

(** ** Epoch fencing *)
(** The rank session a request acts for: every request that carries a rank and
    an epoch. *)
Definition session_of (r : request) : option (Z * Z) :=
  match r with
  | ReqHeartbeat m => Some (hb_rank_id m, hb_rank_epoch m)
  | ReqRequestOffload m => Some (ro_rank_id m, ro_rank_epoch m)
  | ReqMarkD2HSubmitted m => Some (ds_rank_id m, ds_rank_epoch m)
  | ReqMarkD2HComplete m => Some (dc_rank_id m, dc_rank_epoch m)
  | ReqRequestPrefetch m => Some (rp_rank_id m, rp_rank_epoch m)
  | ReqMarkH2DSubmitted m => Some (hs_rank_id m, hs_rank_epoch m)
  | ReqMarkH2DComplete m => Some (hc_rank_id m, hc_rank_epoch m)
  | ReqReleaseLease m => Some (rl_rank_id m, rl_rank_epoch m)
  | ReqBatchComplete m => Some (bq_rank_id m, bq_rank_epoch m)
  | ReqRequestCanonicalEvict m => Some (ce_rank_id m, ce_rank_epoch m)
  | ReqCommitCanonicalObject m => Some (cc_rank_id m, cc_rank_epoch m)
  | ReqRequestCanonicalRestore m => Some (cr_rank_id m, cr_rank_epoch m)
  | ReqReleaseCanonicalRestore m => Some (xr_rank_id m, xr_rank_epoch m)
  | ReqReleaseCanonical m => Some (rc_rank_id m, rc_rank_epoch m)
  | _ => None
  end.
Definition response_ok (r : response) : bool :=
  match r with
  | RespRegisterRank m => rrs_ok m | RespHeartbeat m => hbs_ok m
  | RespRequestOffload m => ros_ok m | RespMarkD2HSubmitted m => dss_ok m
  | RespMarkD2HComplete m => dcs_ok m | RespRequestPrefetch m => rps_ok m
  | RespMarkH2DSubmitted m => hss_ok m | RespMarkH2DComplete m => hcs_ok m
  | RespReleaseLease m => rls_ok m | RespQueryLocation m => lqs_ok m
  | RespBatchComplete m => bqs_ok m | RespShutdown m => sds_ok m | RespGetStats m => gss_ok m
  | RespRegisterJob m => rjs_ok m | RespRequestCanonicalEvict m => ces_ok m
  | RespCommitCanonicalObject m => ccs_ok m | RespSealModelVersion m => sms_ok m
  | RespGetLatestSealedVersion m => gls_ok m | RespGetManifest m => gms_ok m
  | RespPullTensor m => pts_ok m | RespRequestCanonicalRestore m => crs_ok m
  | RespReleaseCanonicalRestore m => xrs_ok m | RespDropCanonicalVersion m => dvs_ok m
  | RespReleaseCanonical m => rcs_ok m
  end.

(** Whether the daemon acted on the request: a batch is answered [ok] whatever it
    holds, and counts the entries it accepted. *)
Definition acted_on (r : response) : bool :=
  match r with
  | RespBatchComplete m => negb (bool_decide (bqs_accepted m = 0))
  | _ => response_ok r
  end.
(** The reports a request makes: a batch one per entry, any other request one. *)
Definition reports (r : request) : nat :=
  match r with ReqBatchComplete m => length (bq_completions m) | _ => 1 end.
(** [d'] is [d] with at most [n] increments of the rejection counters. *)
Definition only_rejected (n : nat) (d d' : Daemon) : Prop :=
  exists ms, (length ms <= n)%nat /\ d' = foldl (flip metric_inc) d ms /\
    Forall (fun m => m = kEpochMismatchRejected \/ m = kInvalidTransitionRejected) ms.
Lemma only_rejected_refl n d : only_rejected n d d.
Proof. exists []. split_and!; [simpl; lia|done|done]. Qed.
Lemma only_rejected_epoch d : only_rejected 1 d (metric_inc kEpochMismatchRejected d).
Proof. exists [kEpochMismatchRejected]. split_and!; [done|done|]. constructor; auto. Qed.
#[export] Hint Resolve only_rejected_refl only_rejected_epoch : offload.

Lemma stale_report_rejected now rank epoch c d :
  epoch_valid d rank epoch = false ->
  exists m, (m = kEpochMismatchRejected \/ m = kInvalidTransitionRejected) /\
    apply_batch_one now rank epoch c d = (false, metric_inc m d).
Proof.
  intros Hv. unfold apply_batch_one, apply_d2h_complete, apply_h2d_complete. rewrite Hv. cbn [negb].
  repeat case_decide; eauto.
Qed.
Lemma stale_batch_rejected now rank epoch cs a d :
  epoch_valid d rank epoch = false ->
  exists rej d', batch_loop now rank epoch cs (0, a, d) = (0, rej, d') /\ only_rejected (length cs) d d'.
Proof.
  revert a d. unfold batch_loop. induction cs as [|c cs IH]; intros a d Hv.
  { exists a, d. split; [done|]. apply only_rejected_refl. }
  cbn [foldl]. destruct (stale_report_rejected now rank epoch c d Hv) as (m & Hm & ->).
  destruct (IH (u32 (a + 1)) (metric_inc m d) Hv) as (rej & d' & -> & ms & Hl & -> & Hms).
  exists rej, (foldl (flip metric_inc) (metric_inc m d) ms). split; [done|].
  exists (m :: ms). split_and!; [simpl; lia|done|by constructor].
Qed.
Lemma stale_session_refused x r d rank epoch :
  session_of r = Some (rank, epoch) -> epoch_valid d rank epoch = false ->
  exists resp d', handle_request x r d = Ok (resp, d') /\ acted_on resp = false /\
    only_rejected (reports r) d d'.
Proof.
  intros Hs Hv. destruct r; simplify_eq/=;
    unfold reply, reply_res, handle_heartbeat, handle_request_offload, handle_mark_d2h_submitted,
      handle_mark_d2h_complete, apply_d2h_complete, handle_request_prefetch,
      handle_mark_h2d_submitted, handle_mark_h2d_complete, apply_h2d_complete, handle_release_lease,
      handle_request_canonical_evict, handle_commit_canonical_object,
      handle_request_canonical_restore, handle_release_canonical_restore, handle_release_canonical;
    rewrite ?Hv; cbn [negb fst snd res_bind];
    try (destruct (c_v2_enable_canonical_store (cfg d)); cbn [negb fst snd res_bind]);
    try (eexists _, _; split_and!; eauto with offload; fail).
  all: match goal with m : BatchCompleteRequest |- _ =>
    unfold handle_batch_complete;
    destruct (stale_batch_rejected (x_now x) (bq_rank_id m) (bq_rank_epoch m) (bq_completions m) 0 d Hv)
      as (rej & d' & -> & Hd) end; eexists _, d'; split_and!; done.
Qed.

(** C1. Fencing for good: once an issued epoch of a rank is not valid (its session
    expired or was replaced) it is never valid again in any execution, and in
    every later state each request that carries the epoch is refused: it is
    answered [ok = false], or, for a batch of completions, with no entry accepted,
    and it changes nothing but the rejection counters, once per report at most.
    Executions are those of [dstep]: what other threads do in an operation's lock
    gaps keeps [guarantee], and no 64-bit counter has wrapped. *)
Theorem stale_epoch_fenced (x : Ctx) (r : request) (d d' : Daemon) (rank epoch : Z) :
  rtc dstep d d' -> 0 <= epoch < next_rank_epoch d -> next_rank_epoch d <= 2 ^ 64 ->
  epoch_valid d rank epoch = false -> session_of r = Some (rank, epoch) ->
  epoch_valid d' rank epoch = false /\
  exists resp d'', handle_request x r d' = Ok (resp, d'') /\ acted_on resp = false /\
    only_rejected (reports r) d' d''.
Proof.
  intros Hex He Hw Hv Hs. assert (Hw' : next_rank_epoch d' <= 2 ^ 64).
  { destruct (execution_in_range _ _ Hex) as [->|H']; [done|apply H']. }
  apply execution_guarantee in Hex. assert (Hv' : epoch_valid d' rank epoch = false).
  { destruct (epoch_valid d' rank epoch) eqn:E; [|done].
    by rewrite (g_epoch _ _ Hex Hw' _ _ He E) in Hv. }
  split; [done|]. by eapply stale_session_refused.
Qed.

(** ** Initial states *)
Lemma daemon_init_ids c now d :
  daemon_init c now = Some d -> lease_ids_ok d /\ object_ids_ok d /\ jobs_ok d /\ index_ok d.
Proof.
  unfold daemon_init. destruct (round_ring_capacity 33 _); [|done]. simpl. intros [= <-].
  split_and!; [split; simpl; [lia|]|split; simpl; [lia|]|intros ??; simpl|intros ??; simpl];
    intros; by rewrite lookup_empty in *.
Qed.

Lemma daemon_init_counters c now d :
  daemon_init c now = Some d -> ids_in_range d /\ next_cold_ref d = 1 /\ next_rank_epoch d = 1.
Proof.
  unfold daemon_init. destruct (round_ring_capacity 33 _); [|done]. simpl. intros [= <-].
  split; [|done]. split; simpl; lia.
Qed.
Lemma reachable_in_range c now d0 d :
  daemon_init c now = Some d0 -> rtc dstep d0 d -> ids_in_range d.
Proof.
  intros Hi H. destruct (execution_in_range _ _ H) as [->|?]; [|done].
  by apply (daemon_init_counters _ _ _ Hi).
Qed.
(** What a guarantee says once no counter has wrapped. *)
Lemma guarantee_lease d d' :
  guarantee d d' -> ids_in_range d' -> lease_ids_ok d -> lease_ids_ok d' /\
  forall id L, leases d' !! id = Some L -> leases d !! id = Some L \/ next_lease_id d <= id.
Proof. intros H Hw. apply (g_lease _ _ H), Hw. Qed.
Lemma guarantee_object d d' :
  guarantee d d' -> ids_in_range d' -> object_ids_ok d -> object_ids_ok d' /\
  forall id o', objects d' !! id = Some o' ->
    (exists o, objects d !! id = Some o /\ identity o' = identity o) \/ next_object_id d <= id.
Proof. intros H Hw. apply (g_object _ _ H), Hw. Qed.

(** C2. Identifiers are never recycled before their 64-bit counter wraps: in any
    execution of a daemon, a lease that is held under an id issued before is the
    very lease that was granted under it, a cold reference issued before names the
    very entry filed under it, and an object id issued before names an object of
    the same identity; so an id that is no longer held is never given out again.
    Executions are those of [dstep]: sequences of whole operations, in which no
    counter has wrapped and what happens in an operation's lock gaps keeps
    [guarantee]; two operations that overlap without one lying in a gap of the other
    are not among them. *)
Theorem ids_never_reused (c : DaemonConfig) (now : Z) (d0 d d' : Daemon) :
  daemon_init c now = Some d0 -> rtc dstep d0 d -> rtc dstep d d' ->
  (forall id L, leases d' !! id = Some L -> id < next_lease_id d -> leases d !! id = Some L) /\
  (forall r e, cold_store d' !! r = Some e -> r < next_cold_ref d -> cold_store d !! r = Some e) /\
  (forall id o, objects d' !! id = Some o -> id < next_object_id d ->
     exists o0, objects d !! id = Some o0 /\ identity o = identity o0).
Proof.
  intros Hi H1 H2. pose proof (reachable_in_range _ _ _ _ Hi H1) as W1.
  pose proof (reachable_in_range _ _ _ _ Hi (transitivity H1 H2)) as W2.
  apply execution_guarantee in H1, H2.
  destruct (daemon_init_ids _ _ _ Hi) as (HL & HO & _). destruct (daemon_init_counters _ _ _ Hi) as (_ & HC & _).
  destruct (guarantee_lease _ _ H1 W1 HL) as [HLd _]. destruct (guarantee_object _ _ H1 W1 HO) as [HOd _].
  destruct (guarantee_lease _ _ H2 W2 HLd) as [_ Hl]. destruct (guarantee_object _ _ H2 W2 HOd) as [_ Ho].
  split_and!.
  - intros id L HL' Hlt. destruct (Hl _ _ HL') as [?|?]; [done|lia].
  - intros r e He Hlt. assert (0 <= next_cold_ref d) by (pose proof (g_cold_next _ _ H1); lia).
    destruct (g_cold _ _ H2 ltac:(done) (ir_cold _ W2) _ _ He) as [?|?]; [done|lia].
  - intros id o Ho' Hlt. destruct (Ho _ _ Ho') as [?|?]; [done|lia].
Qed.

Lemma reachable_tables c now d0 d :
  daemon_init c now = Some d0 -> rtc dstep d0 d ->
  lease_ids_ok d /\ object_ids_ok d /\ index_ok d /\ jobs_ok d.
Proof.
  intros Hi H. pose proof (reachable_in_range _ _ _ _ Hi H) as W. apply execution_guarantee in H.
  destruct (daemon_init_ids _ _ _ Hi) as (HL & HO & HJ & HX).
  split_and!; [by apply (g_lease _ _ H (ir_lease _ W))|by apply (g_object _ _ H (ir_object _ W))|
    by apply (g_index _ _ H (ir_object _ W))|by apply (g_jobs _ _ H)].
Qed.

(** ** The allocator's tables in every reachable state *)
Lemma windows_wf_guarantee d d' : guarantee d d' -> windows_wf d -> windows_wf d'.
Proof.
  intros H (next & Hn & Hw). exists next. split; [done|].
  pose proof (g_static _ _ H) as Hst. unfold static in Hst. injection Hst as Ec Ew _ _ _ _ _.
  rewrite Ew, Ec. eapply Forall_impl; [exact Hw|].
  intros w (b & n & a & o & Hids & Hb & Hpos & Hle & He). exists b, n, a, o.
  split_and!; [done..|]. intros k Hk. destruct (He k Hk) as (e & Hlk & Hat).
  pose proof (g_geometry _ _ H (b + k)) as Hg. rewrite Hlk in Hg. inversion Hg as [x y Hxy| ]; subst.
  exists y. split; [done|]. destruct Hat as (E1 & E2 & E3 & E4).
  unfold same_geometry, geometry in Hxy. injection Hxy as F1 _ _ F2 F3 F4.
  unfold slot_at. rewrite F1, F2, F3, F4. done.
Qed.
Lemma reachable_windows_wf c now d0 d :
  validate_config c = Ok tt -> config_in_range c -> daemon_init c now = Some d0 -> rtc dstep d0 d ->
  windows_wf d /\ cfg d = c.
Proof.
  intros Hv Hr Hi Hex. apply execution_guarantee in Hex.
  destruct (daemon_init_windows_wf c now d0 Hv Hr Hi) as [Hw Hc].
  split; [by eapply windows_wf_guarantee|].
  pose proof (g_static _ _ Hex) as Hst. unfold static in Hst. injection Hst. intros. congruence.
Qed.

(** ** Concrete executions *)
Definition quiet_gap : IoGap := mkGap id (Some 4096) (Some []) true 100.
Definition quiet_ctx (now : Z) : Ctx :=
  mkCtx now (fun _ => quiet_gap) (mkExportResult true "" 1 0 0 "") [] (fun _ => 0).
Lemma quiet_rely : rely quiet_gap.
Proof. intros x. reflexivity. Qed.
(** Runs requests one after the other without interference. *)
Definition run_requests (rs : list request) (d : Daemon) : res Daemon :=
  foldl (fun r q => res_bind r (run_op (OpRequest (quiet_ctx 10) q))) (Ok d) rs.
Definition ids_fit (d : Daemon) : bool :=
  (next_lease_id d <=? 2 ^ 64) && (next_rank_epoch d <=? 2 ^ 64) && (next_cold_ref d <=? 2 ^ 64)
  && (next_object_id d <=? 2 ^ 64).
Lemma ids_fit_spec d : ids_fit d = true -> ids_in_range d.
Proof. unfold ids_fit. rewrite !andb_true_iff, !Z.leb_le. intros [[[??]?]?]. by split. Qed.
Lemma run_requests_steps rs d d' : run_requests rs d = Ok d' -> ids_fit d' = true -> rtc dstep d d'.
Proof.
  unfold run_requests. intros H W%ids_fit_spec. revert H.
  enough (Hg : forall a, foldl (fun r q => res_bind r (run_op (OpRequest (quiet_ctx 10) q))) (Ok a) rs
    = Ok d' -> rtc dstep a d') by apply Hg.
  assert (Ht : forall l m, foldl (fun r q => res_bind r (run_op (OpRequest (quiet_ctx 10) q)))
    (Throw m) l = @Throw Daemon m) by (induction l; simpl; done).
  induction rs as [|q rs IH]; intros a; simpl; [by intros [= ->]|].
  destruct (res_bind (handle_request (quiet_ctx 10) q a) (fun p => Ok p.2)) as [b|m] eqn:E; [|by rewrite Ht].
  intros Hb. specialize (IH b Hb). eapply rtc_l; [|exact IH].
  apply (dstep_op (OpRequest (quiet_ctx 10) q)); [|done|].
  - intros i. apply quiet_rely.
  - eapply ids_in_range_before; [by apply execution_guarantee|done].
Qed.
Definition run_ok (rs : list request) (d : Daemon) : Daemon :=
  match run_requests rs d with Ok d' => d' | Throw _ => d end.

Definition reg (rank pid : Z) : request := ReqRegisterRank (mkRegisterRankRequest rank 0 0 0 0 pid 0).
Definition offload (rank epoch tensor version nbytes : Z) : request :=
  ReqRequestOffload (mkRequestOffloadRequest rank epoch tensor version nbytes 0 0 0 0 0 "").

Lemma stale_epoch_fenced_witness :
  let d := run_ok [reg 3 77; reg 3 78] (smoke_daemon []) in
  let d' := run_ok [offload 3 2 9 1 5000] d in
  epoch_valid d 3 2 = true /\ epoch_valid d' 3 1 = false.
Proof.
  intros d d'. split; [vm_compute; reflexivity|].
  apply (stale_epoch_fenced (quiet_ctx 10) (offload 3 1 9 1 5000) d d' 3 1).
  - apply (run_requests_steps [offload 3 2 9 1 5000]); vm_compute; reflexivity.
  - split; vm_compute; [discriminate|reflexivity].
  - vm_compute. discriminate.
  - vm_compute. reflexivity.
  - reflexivity.
Defined.
Lemma ids_never_reused_witness :
  let d := run_ok [reg 3 77; offload 3 1 9 1 5000] (smoke_daemon []) in
  let d' := run_ok [offload 3 1 10 1 5000] d in
  exists L, leases d' !! 1 = Some L /\ leases d !! 1 = Some L.
Proof.
  intros d d'. destruct (leases d' !! 1) as [L|] eqn:HL; [|vm_compute in HL; discriminate].
  exists L. split; [reflexivity|].
  apply (ids_never_reused smoke_config 0 (smoke_daemon []) d d'); [vm_compute; reflexivity| | |exact HL|vm_compute; reflexivity].
  - apply (run_requests_steps [reg 3 77; offload 3 1 9 1 5000]); vm_compute; reflexivity.
  - apply (run_requests_steps [offload 3 1 10 1 5000]); vm_compute; reflexivity.
Defined.
