(* ===== verification/Stat.v ===== *)
(** * The administrative tool

    Models [src/tools/offload_stat.cpp]: the command line, one GetStats or Shutdown
    call over the transport of [Rpc], the classification of the metrics and the
    two output formats.  What the tool prints is the value of the rendering
    functions.  The watch loop repeats [run_once] between sleeps until a signal:
    one round of it is a definition, its repetition is the given number of rounds. *)
From stdpp Require Import base strings list pretty sets.
From Stdlib Require Import ZArith Lia SpecFloat Strings.Ascii.
From S2P Require Import Prelude.
From S2P Require Import Wire.
From S2P Require Import Protocol.
From S2P Require Import Rpc.
From S2P Require Import State.
From S2P Require Import Yaml.
From S2P Require Import ConfigFile.
From S2P Require Import Metrics.
From S2P Require Import Alloc.
From S2P Require Import Drain.
From S2P Require Import Export.
From S2P Require Import System.
Open Scope Z_scope.
Open Scope offload_scope.

(** ** Options *)
Definition kDefaultSocket : string := "/tmp/state_spectre.sock".
Record StatOptions := mkStatOptions {
  so_socket_path : string; so_prometheus : bool; so_shutdown : bool; so_watch : bool; so_watch_seconds : Z }.
#[export] Instance eta_StatOptions : Eta StatOptions := fun o => mkStatOptions
  (so_socket_path o) (so_prometheus o) (so_shutdown o) (so_watch o) (so_watch_seconds o).
Definition default_stat_options : StatOptions := mkStatOptions kDefaultSocket false false false 0.
(** [std::strtol(v, &endp, 10)] with its end: a value only when the whole text is a
    numeral; it saturates. *)
Definition strtol_whole (s : string) : option Z :=
  let '(neg, t) := take_sign (drop_while isspace (chars s)) in
  match take_digits 10 t with
  | ([], _) | (_, _ :: _) => None
  | (ds, []) =>
      let v := if neg : bool then - digits_value 10 ds else digits_value 10 ds in
      Some (Z.max (- 2 ^ 63) (Z.min (2 ^ 63 - 1) v))
  end.
Definition usage_text (argv0 : string) : string :=
  "usage: " +:+ argv0 +:+ " [--socket PATH] [--prometheus] [--watch SECONDS] [--shutdown]" +:+ newline
  +:+ "  --socket PATH    daemon socket (default " +:+ kDefaultSocket +:+ ")" +:+ newline
  +:+ "  --prometheus     emit Prometheus text-exposition format" +:+ newline
  +:+ "  --watch N        repeat every N seconds (clear screen), until Ctrl-C" +:+ newline
  +:+ "  --shutdown       send a Shutdown RPC to the daemon and exit" +:+ newline.
Definition need_value_text (name : string) : string := "error: " +:+ name +:+ " requires an argument" +:+ newline.
(** The options, or what is written to the standard error and the exit code. *)
Fixpoint parse_stat_args (argv0 : string) (argv : list string) (o : StatOptions) : (string * Z) + StatOptions :=
  match argv with
  | [] => inr o
  | a :: argv =>
      if decide (a = "--socket") then
        match argv with
        | [] => inl (need_value_text "--socket", 2)
        | v :: argv => parse_stat_args argv0 argv (o <| so_socket_path := v |>)
        end
      else if decide (a = "--prometheus") then parse_stat_args argv0 argv (o <| so_prometheus := true |>)
      else if decide (a = "--shutdown") then parse_stat_args argv0 argv (o <| so_shutdown := true |>)
      else if decide (a = "--watch") then
        match argv with
        | [] => inl (need_value_text "--watch", 2)
        | v :: argv =>
            let bad := ("error: --watch expects a positive integer" +:+ newline, 2) in
            match strtol_whole v with
            | Some n => if decide (n <= 0) then inl bad
                        else parse_stat_args argv0 argv (o <| so_watch := true |> <| so_watch_seconds := i32 n |>)
            | None => inl bad
            end
        end
      else if decide (a = "-h" \/ a = "--help") then inl (usage_text argv0, 0)
      else inl ("error: unknown argument '" +:+ a +:+ "'" +:+ newline +:+ usage_text argv0, 2)
  end.

(** ** Classification *)
Fixpoint prefix_of (p s : text) : bool :=
  match p, s with
  | [], _ => true
  | c :: p, c' :: s => bool_decide (c = c') && prefix_of p s
  | _ :: _, [] => false
  end.
Fixpoint contains_text (s sub : text) : bool :=
  prefix_of sub s || match s with [] => false | _ :: s => contains_text s sub end.
Definition contains (s sub : string) : bool := contains_text (chars s) (chars sub).
Definition starts_with (s pre : string) : bool := prefix_of (chars pre) (chars s).
Definition is_percentile (key : string) : bool := contains key "bandwidth_mbps".
Definition is_bytes (key : string) : bool := contains key "bytes".
Definition is_gauge (key : string) : bool :=
  is_bytes key || starts_with key "used_" || starts_with key "inflight_" || starts_with key "draining_" || is_percentile key.

(** ** Sizes *)
Definition unit_name (u : nat) : string := nth u ["B"; "KiB"; "MiB"; "GiB"; "TiB"; "PiB"; "EiB"] "EiB".
Definition double_1024 : spec_float := double_of_Z 1024.
(** [while (d >= 1024.0 && u < 6) { d /= 1024.0; ++u; }] *)
Fixpoint scale (steps : nat) (d : spec_float) (u : nat) : spec_float * nat :=
  match steps with
  | O => (d, u)
  | S steps => if SFleb double_1024 d then scale steps (SFdiv 53 1024 d double_1024) (S u) else (d, u)
  end.
(** The integer nearest to [num / den], ties to even. *)
Definition round_half_even (num den : Z) : Z :=
  let q := num / den in
  let r := 2 * (num mod den) in
  if decide (r < den) then q else if decide (r > den) then q + 1 else if Z.even q then q else q + 1.
(** [%.2f] of a number that is not negative. *)
Definition hundredths (d : spec_float) : Z :=
  match d with
  | S754_finite _ m e => if decide (0 <= e) then Z.pos m * 2 ^ e * 100 else round_half_even (Z.pos m * 100) (2 ^ (- e))
  | _ => 0
  end.
Definition two_digits (n : Z) : string := if decide (n < 10) then "0" +:+ pretty n else pretty n.
Definition fixed2 (d : spec_float) : string := pretty (hundredths d / 100) +:+ "." +:+ two_digits (hundredths d mod 100).
Definition human_bytes (v : Z) : string :=
  let '(d, u) := scale 6 (double_of_Z v) 0 in
  if decide (u = 0%nat) then pretty v +:+ " " +:+ unit_name u else fixed2 d +:+ " " +:+ unit_name u.

(** ** Rendering *)
Definition spaces (n : nat) : string := str (replicate n " "%char).
Definition pad_right (w : nat) (s : string) : string := s +:+ spaces (w - String.length s).
Definition pad_left (w : nat) (s : string) : string := spaces (w - String.length s) +:+ s.
(** The first [min(keys.size(), values.size())] pairs. *)
Definition pairs (r : GetStatsResponse) : list (string * Z) := zip (gss_keys r) (gss_values r).
Definition metric_line (keyw : nat) (show_human : bool) (kv : string * Z) : string :=
  "  " +:+ pad_right keyw kv.1 +:+ "  " +:+ pad_left 20 (pretty kv.2)
  +:+ (if show_human then " (" +:+ human_bytes kv.2 +:+ ")" else "") +:+ newline.
Definition group (pred : string -> bool) (r : GetStatsResponse) : list (string * Z) :=
  filter (fun kv => pred kv.1 = true) (pairs r).
Definition concat_strings (l : list string) : string := foldr String.append "" l.
Definition print_group (keyw : nat) (title : string) (pred : string -> bool) (show_human : bool) (r : GetStatsResponse) : string :=
  match group pred r with
  | [] => ""
  | g => newline +:+ title +:+ newline +:+ "  " +:+ pad_right keyw "metric" +:+ "  " +:+ pad_left 20 "value" +:+ newline
         +:+ concat_strings (metric_line keyw show_human <$> g)
  end.
Definition is_counter (key : string) : bool := negb (is_bytes key) && negb (is_percentile key).
Definition error_text (r : GetStatsResponse) : string :=
  "daemon returned error: " +:+ (if decide (gss_message r = "") then "(no message)" else gss_message r) +:+ newline.
Definition render_human (r : GetStatsResponse) : string :=
  if negb (gss_ok r) then error_text r
  else
    let keyw := foldr (fun k w => Nat.max (String.length k) w) 6%nat (gss_keys r) in
    (if decide (gss_message r = "") then "" else "# " +:+ gss_message r +:+ newline)
    +:+ print_group keyw "bytes / occupancy" is_bytes true r
    +:+ print_group keyw "counters" is_counter false r
    +:+ print_group keyw "bandwidth (MB/s)" is_percentile false r
    +:+ newline.
Definition prometheus_entry (kv : string * Z) : string :=
  let name := "offload_" +:+ kv.1 in
  "# HELP " +:+ name +:+ " offload daemon metric " +:+ kv.1 +:+ newline
  +:+ "# TYPE " +:+ name +:+ " " +:+ (if is_gauge kv.1 then "gauge" else "counter") +:+ newline
  +:+ name +:+ " " +:+ pretty kv.2 +:+ newline.
Definition render_prometheus (r : GetStatsResponse) : string :=
  if negb (gss_ok r) then "# " +:+ error_text r
  else concat_strings (prometheus_entry <$> pairs r).

(** ** Calls *)
Section Client.
Context {D : Type} `{!Handlers D}.
(** [StatClient]: connecting, then one frame out and one back. *)
Definition stat_call (connected : res unit) (r : request) (d : D) : res (response * D) :=
  res_bind connected (fun _ =>
  res_bind (encode_request r) (fun body =>
  let op := op_value (op_of_request r) in
  res_bind (make_frame op body 0) (fun frame =>
  res_bind (serve_one frame d) (fun '(reply, d') =>
  res_bind (recv_frame (match reply with Some f => f | None => [] end)) (fun f =>
  match f with
  | None => Throw "daemon closed connection"
  | Some (rop, payload, _) =>
      if decide (rop <> op) then
        Throw ("unexpected reply opcode " +:+ pretty rop +:+ " (wanted " +:+ pretty op +:+ ")")
      else res_bind (decode_response (op_of_request r) payload) (fun resp =>
             match resp with Some x => Ok (x, d') | None => Throw "" end)
  end))))).
(** What is written to the standard output and error, and the result. *)
Definition unreachable (o : StatOptions) (e : string) : string :=
  "daemon unreachable (" +:+ so_socket_path o +:+ "): " +:+ e +:+ newline.
Definition run_once (connected : res unit) (o : StatOptions) (d : D) : (string * string * bool) * D :=
  match stat_call connected (ReqGetStats (mkGetStatsRequest 0)) d with
  | Ok (RespGetStats r, d') => ((if so_prometheus o then render_prometheus r else render_human r, "", gss_ok r), d')
  | Ok (_, d') => (("", unreachable o "", false), d')
  | Throw e => (("", unreachable o e, false), d)
  end.
Definition do_shutdown (connected : res unit) (o : StatOptions) (d : D) : (string * string * Z) * D :=
  match stat_call connected (ReqShutdown (mkShutdownRequest 0)) d with
  | Ok (RespShutdown r, d') =>
      (("shutdown: " +:+ (if sds_ok r then "ok" else "FAILED") +:+ (if decide (sds_message r = "") then "" else " - ")
        +:+ sds_message r +:+ newline, "", if sds_ok r then 0 else 1), d')
  | Ok (_, d') => (("", unreachable o "", 1), d')
  | Throw e => (("", unreachable o e, 1), d)
  end.
(** One round of the watch loop at the time [now] prints. *)
Definition clear_screen : string := str [ascii_of_nat 27; "["%char; "2"%char; "J"%char; ascii_of_nat 27; "["%char; "H"%char].
Definition watch_round (connected : res unit) (now : string) (o : StatOptions) (d : D) : (string * string) * D :=
  let '((out, err, _), d') := run_once connected o d in
  ((clear_screen +:+ "offload-stat --watch " +:+ pretty (so_watch_seconds o) +:+ "s   " +:+ now +:+ "   socket="
    +:+ so_socket_path o +:+ newline +:+ out, err), d').
(** The rounds until a signal arrives, each with its connection and time. *)
Fixpoint do_watch (rounds : list (res unit * string)) (o : StatOptions) (d : D) : (string * string * Z) * D :=
  match rounds with
  | [] => (("", "", 0), d)
  | (connected, now) :: rounds =>
      let '((out, err), d) := watch_round connected now o d in
      let '((out', err', code), d) := do_watch rounds o d in
      ((out +:+ out', err +:+ err', code), d)
  end.
Definition stat_main (argv0 : string) (argv : list string) (connected : res unit) (rounds : list (res unit * string)) (d : D)
  : (string * string * Z) * D :=
  match parse_stat_args argv0 argv default_stat_options with
  | inl (err, n) => (("", err, n), d)
  | inr o =>
      if so_shutdown o then
        if so_watch o then (("", "error: --shutdown and --watch are mutually exclusive" +:+ newline, 2), d)
        else do_shutdown connected o d
      else if so_watch o then do_watch rounds o d
      else let '((out, err, ok), d) := run_once connected o d in ((out, err, if ok : bool then 0 else 1), d)
  end.
End Client.

(** The first lines of both formats. *)
Example human_entry : metric_line 10 true ("d2h_bytes", 1536) =
  "  d2h_bytes                   1536 (1.50 KiB)" +:+ newline.
Proof. vm_compute. reflexivity. Qed.
Example watch_needs_number : parse_stat_args "offload-stat" ["--watch"; "5x"] default_stat_options =
  inl ("error: --watch expects a positive integer" +:+ newline, 2).
Proof. vm_compute. reflexivity. Qed.
(** Cumulative byte counters are typed as gauges. *)
Example cumulative_bytes_typed_gauge : is_gauge (metric_name kD2HBytes) = true.
Proof. vm_compute. reflexivity. Qed.
