(* ===== verification/StatProps.v ===== *)
(** * What the administrative tool shows

    [offload-stat] prints the daemon's own numbers: reading its output back line by
    line, the way a Prometheus scraper or a script does, gives the daemon's metrics
    and bandwidth percentiles. *)
From stdpp Require Import base strings list pretty sets.
From Stdlib Require Import ZArith Lia SpecFloat Strings.Ascii.
From S2P Require Import Prelude.
From S2P Require Import Wire.
From S2P Require Import Protocol.
From S2P Require Import Rpc.
From S2P Require Import State.
From S2P Require Import Yaml.
From S2P Require Import ConfigFile.
From S2P Require Import ConfigProps.
From S2P Require Import Metrics.
From S2P Require Import Alloc.
From S2P Require Import Drain.
From S2P Require Import Export.
From S2P Require Import System.
From S2P Require Import Stat.
Open Scope Z_scope.
Open Scope offload_scope.

(** ** The answer of the daemon *)
Lemma w_seq_length c ws : forall b, (forall w, w ∈ ws -> forall b', w = Ok b' -> (length b' <= c)%nat) ->
  w_seq ws = Ok b -> (length b <= length ws * c)%nat.
Proof.
  induction ws as [|w ws IH]; intros b Hw; cbn [w_seq]; [by intros [= <-]|].
  destruct w as [b0|] eqn:E0; [|done]. cbn [res_bind]. destruct (w_seq ws) as [b1|]; [|done]. intros [= <-].
  rewrite length_app. specialize (Hw (Ok b0) ltac:(set_solver) b0 eq_refl) as H0.
  specialize (IH b1 (fun w H => Hw w ltac:(set_solver)) eq_refl). cbn [length]. lia.
Qed.
(** The size of an answer with short keys. *)
Definition short (s : string) : Prop := (length (bytes_of_string s) <= 40)%nat.
Lemma w_str_length s b : short s -> w_str s = Ok b -> (length b <= 44)%nat.
Proof. unfold short, w_str. intros Hs. case_decide; [done|]. intros [= <-]. cbn [length]. lia. Qed.
Lemma stats_body_length m body : short (gss_message m) -> Forall short (gss_keys m) ->
  encode_GetStatsResponse m = Ok body -> (length body <= 3 * (104 * (1 + length (gss_keys m))))%nat.
Proof.
  intros Hm Hk H. apply w_seq_length with (c := (104 * (1 + length (gss_keys m)))%nat) in H; [cbn [length] in H; lia|].
  intros w Hw b E. rewrite !elem_of_cons, elem_of_nil in Hw. destruct Hw as [->|[->|[->|[]]]].
  - injection E as <-. cbn. lia.
  - apply w_str_length in E; [lia|done].
  - apply w_seq_length with (c := 104%nat) in E; [cbn [length] in E; rewrite length_map, length_imap in E; lia|].
    intros w [->|(ik & -> & Hik)%list_elem_of_fmap]%elem_of_cons b' E'; [injection E' as <-; cbn; lia|].
    apply elem_of_lookup_imap in Hik as (i & k & -> & Hi). unfold put_stats_pair in E'. cbn [fst snd] in E'. case_match; [|done].
    apply w_seq_length with (c := 44%nat) in E'; [cbn [length] in E'; lia|].
    rewrite Forall_lookup in Hk. specialize (Hk i k Hi).
    intros w Hw b'' Ew. rewrite !elem_of_cons, elem_of_nil in Hw. destruct Hw as [->|[->|[]]].
    + by apply w_str_length in Ew.
    + injection Ew as <-. cbn. lia.
Qed.

(** The answer of the daemon. *)
Section Shown.
Context (x : Ctx) (d : Daemon).
Context (Hmetric : forall m, in_u64 (metric_get d m)) (Hcast : forall v, in_u64 (x_cast x v)).
Definition shown : GetStatsResponse := (handle_get_stats (x_cast x) (x_samples x) d).1.
Lemma shown_pairs : pairs shown =
  ((fun m => (metric_name m, metric_get d m)) <$> all_metrics) ++ snapshot_percentiles (x_cast x) (x_samples x).
Proof. reflexivity. Qed.
Lemma shown_keys_short : Forall short (gss_keys shown).
Proof. unfold short. cbn. repeat (constructor; [vm_compute; lia|]). constructor. Qed.
Lemma u64_of_double_range v : in_u64 (u64_of_double (x_cast x) v).
Proof. unfold u64_of_double. repeat case_match; [by unfold in_u64; lia|by apply Hcast|by apply Hcast]. Qed.
Lemma shown_wf : wf_GetStatsResponse shown.
Proof.
  split; [by vm_compute|]. split; [|split; [|done]].
  - split; [by vm_compute|]. eapply Forall_impl; [apply shown_keys_short|]. unfold short, in_str. intros k Hk. lia.
  - split; [by vm_compute|]. cbn [shown handle_get_stats fst gss_values]. apply Forall_app. split.
    + apply Forall_fmap, Forall_true. intros m. apply Hmetric.
    + cbn. repeat (constructor; [apply u64_of_double_range|]). constructor.
Qed.
Lemma stat_call_shown :
  stat_call (D := Daemon) (Handlers0 := daemon_handlers x) (Ok tt) (ReqGetStats (mkGetStatsRequest 0)) d = Ok (RespGetStats shown, d).
Proof.
  destruct (codec_GetStatsResponse shown shown_wf) as (rbody & Erb & _).
  assert (Lrb : Z.of_nat (length rbody) <= Z.shiftl 256 20).
  { apply stats_body_length in Erb; [|by unfold short; vm_compute; lia|apply shown_keys_short].
    change (Z.shiftl 256 20) with 268435456. assert (Hn : (length (gss_keys shown) <= 100)%nat) by (cbn; lia). lia. }
  assert (Hr : wf_request (ReqGetStats (mkGetStatsRequest 0))) by by vm_compute.
  destruct (encode_request_total _ Hr) as [body Eb].
  assert (Lb : Z.of_nat (length body) <= Z.shiftl 256 20) by (injection Eb as <-; by vm_compute).
  destruct (make_frame_total (op_value kGetStats) body Lb) as [f Ef].
  destruct (make_frame_total (op_value kGetStats) rbody Lrb) as [rf Erf].
  unfold stat_call, serve_one. rewrite Eb. cbn [res_bind op_of_request]. rewrite Ef. cbn [res_bind].
  rewrite (recv_make_frame_nil _ _ _ (op_value_u16 _) Lb Ef). cbn [res_bind].
  unfold dispatch. rewrite op_of_value_op_value.
  pose proof (codec_request _ Hr body [] Eb) as Hd. rewrite (app_nil_r body) in Hd. cbn [op_of_request] in Hd. rewrite Hd. cbn [res_bind].
  change (handle (Handlers := daemon_handlers x) (ReqGetStats (mkGetStatsRequest 0)) d) with (Ok (A := response * Daemon) (RespGetStats shown, d)).
  cbn [res_bind encode_response]. rewrite Erb. cbn [res_bind]. rewrite Erf. cbn [res_bind].
  rewrite (recv_make_frame_nil _ _ _ (op_value_u16 _) Lrb Erf). cbn [res_bind]. rewrite decide_False by auto.
  pose proof (codec_response (RespGetStats shown) shown_wf rbody [] Erb) as Hs. rewrite (app_nil_r rbody) in Hs.
  cbn [op_of_response] in Hs. by rewrite Hs.
Qed.
End Shown.
(** Three predicates of which every key satisfies exactly one split the pairs. *)
Lemma groups_partition (r : GetStatsResponse) :
  Forall (fun k => is_bytes k && is_percentile k = false) (gss_keys r) ->
  group is_bytes r ++ group is_counter r ++ group is_percentile r ≡ₚ pairs r.
Proof.
  unfold group, pairs. intros H. revert H. generalize (gss_values r).
  induction (gss_keys r) as [|k ks IH]; intros vs H; [done|]. apply Forall_cons in H as [Hk H].
  destruct vs as [|v vs]; [done|]. specialize (IH vs H). cbn [zip]. rewrite !filter_cons. cbn [fst].
  change (is_counter k) with (negb (is_bytes k) && negb (is_percentile k)).
  destruct (is_bytes k), (is_percentile k); try done; cbn [negb andb];
    rewrite ?(decide_True (P := true = true)), ?(decide_False (P := false = true)) by done.
  - by apply Permutation_skip.
  - rewrite app_assoc, <- Permutation_middle, <- app_assoc. by apply Permutation_skip.
  - cbn [app]. rewrite <- Permutation_middle. by apply Permutation_skip.
Qed.

(** ** Reading the output back *)
(** The lines of a text, each without its newline; what follows the last newline is
    not a line. *)
Definition nl : ascii := ascii_of_nat 10.
Fixpoint read_lines (t line : text) : list text :=
  match t with
  | [] => []
  | c :: t => if decide (c = nl) then line :: read_lines t [] else read_lines t (line ++ [c])
  end.
(** The words of a line: maximal runs of characters other than spaces. *)
Fixpoint read_words (t word : text) : list text :=
  let rest ws := match word with [] => ws | _ => word :: ws end in
  match t with
  | [] => rest []
  | c :: t => if decide (c = " "%char) then rest (read_words t []) else read_words t (word ++ [c])
  end.
Definition read_number (t : text) : option Z :=
  match take_digits 10 t with
  | (d :: ds, []) => Some (digits_value 10 (d :: ds))
  | _ => None
  end.
(** A sample of the Prometheus format: [offload_<key> <value>], not a comment. *)
Definition read_sample (line : text) : list (string * Z) :=
  if prefix_of ["#"%char] line then []
  else match read_words line [] with
  | [name; value] =>
      if prefix_of (chars "offload_") name
      then match read_number value with Some v => [(str (drop 8 name), v)] | None => [] end
      else []
  | _ => []
  end.
Definition scrape_prometheus (out : string) : list (string * Z) :=
  mjoin (read_sample <$> read_lines (chars out) []).
(** A row of the human format: indented, a key and a number, anything after them. *)
Definition read_row (line : text) : list (string * Z) :=
  if prefix_of (chars "  ") line then
    match read_words line [] with
    | key :: value :: _ => match read_number value with Some v => [(str key, v)] | None => [] end
    | _ => []
    end
  else [].
Definition scrape_human (out : string) : list (string * Z) := mjoin (read_row <$> read_lines (chars out) []).

(** *** Texts *)
Lemma chars_str t : chars (str t) = t.
Proof. apply String.list_ascii_of_string_of_list_ascii. Qed.
Lemma chars_newline : chars newline = [nl].
Proof. reflexivity. Qed.
Definition no_nl (t : text) : Prop := Forall (fun c => c <> nl) t.
Definition one_word (t : text) : Prop := Forall (fun c => c <> nl /\ c <> " "%char) t.
Lemma one_word_no_nl t : one_word t -> no_nl t.
Proof. intros H. eapply Forall_impl; [exact H|]. by intros c []. Qed.
Lemma read_lines_line a : forall line t, no_nl a -> read_lines (a ++ nl :: t) line = (line ++ a) :: read_lines t [].
Proof.
  induction a as [|c a IH]; intros line t Ha; cbn [app read_lines].
  - rewrite decide_True by done. by rewrite app_nil_r.
  - apply Forall_cons in Ha as [Hc Ha]. rewrite decide_False by done. rewrite IH by done. by rewrite <- app_assoc.
Qed.
Lemma read_words_word w : forall acc t, one_word w -> acc ++ w <> [] ->
  match t with [] => True | c :: _ => c = " "%char end ->
  read_words (w ++ t) acc = (acc ++ w) :: read_words t [].
Proof.
  induction w as [|c w IH]; intros acc t Hw Hne Ht; cbn [app].
  - rewrite app_nil_r in *. destruct t as [|c t]; cbn [read_words]; [by destruct acc|]. subst c.
    rewrite decide_True by done. destruct acc; [done|]. cbn [read_words]. by rewrite decide_True.
  - apply Forall_cons in Hw as [[_ Hc] Hw]. cbn [read_words]. rewrite decide_False by done.
    rewrite IH; [by rewrite <- app_assoc|done|by destruct acc|done].
Qed.
Lemma read_words_spaces n : forall t, read_words (chars (spaces n) ++ t) [] = read_words t [].
Proof.
  unfold spaces. intros t. rewrite chars_str. induction n as [|n IH]; [done|]. cbn. exact IH.
Qed.
Lemma spaces_no_nl n : no_nl (chars (spaces n)).
Proof. unfold spaces. rewrite chars_str. apply Forall_replicate. discriminate. Qed.

(** *** Numbers *)
Lemma pretty_N_char_digit x : (x < 10)%N -> pretty_N_char x = digit_char (Z.of_N x).
Proof. intros H. destruct x as [|[[[[]|[]|]|[[]|[]|]|]|[[[]|[]|]|[[]|[]|]|]|]]; try lia; reflexivity. Qed.
Lemma pretty_N_go_digits x : forall s ds, chars s = List.map digit_char ds -> Forall is_digit ds ->
  exists ds', chars (pretty_N_go x s) = List.map digit_char (ds' ++ ds) /\ Forall is_digit ds' /\
    positional ds' = Z.of_N x /\ ((0 < x)%N -> ds' <> []).
Proof.
  induction (N.lt_wf_0 x) as [x _ IH]; intros s ds Hs Hd. destruct (decide (x = 0%N)) as [->|Hx].
  { rewrite pretty_N_go_0. exists []. split_and!; [done|constructor|done|lia]. }
  rewrite pretty_N_go_step by lia. pose proof (N.mod_lt x 10 ltac:(done)) as Hm.
  pose proof (N.div_mod x 10 ltac:(done)) as Hdm. pose proof (N.div_lt x 10 ltac:(lia) ltac:(lia)) as Hlt.
  generalize dependent (x `mod` 10)%N. generalize dependent (x `div` 10)%N. intros q Hlt m Hm Hdm.
  assert (Hi : is_digit (Z.of_N m)) by (unfold is_digit; lia).
  destruct (IH q Hlt (String (pretty_N_char m) s) (Z.of_N m :: ds)) as (ds' & E & Hd' & Hv & _).
  - cbn. rewrite pretty_N_char_digit by done. f_equal. exact Hs.
  - by constructor.
  - exists (ds' ++ [Z.of_N m]). rewrite <- app_assoc. split_and!; [exact E| | |].
    + apply Forall_app. split; [done|]. by apply Forall_singleton.
    + rewrite <- digits_value_positional in *. unfold digits_value in *. rewrite foldl_app. cbn [foldl]. rewrite Hv. lia.
    + intros _ H. by destruct ds'.
Qed.
Lemma pretty_digits v : 0 <= v -> exists ds, chars (pretty v) = List.map digit_char ds /\ ds <> [] /\
  Forall is_digit ds /\ digits_value 10 ds = v.
Proof.
  intros Hv. destruct v as [|p|p]; [|..|lia].
  { exists [0]. split_and!; [reflexivity|done|repeat constructor; lia|reflexivity]. }
  change (pretty (Z.pos p)) with (pretty (N.pos p)). unfold pretty, pretty_N. rewrite decide_False by done.
  destruct (pretty_N_go_digits (N.pos p) "" []) as (ds & E & Hd & Hp & Hne); [done|constructor|].
  rewrite app_nil_r in E. exists ds. split_and!; [exact E|by apply Hne|done|]. by rewrite digits_value_positional.
Qed.
Lemma digit_char_word d : is_digit d -> digit_char d <> nl /\ digit_char d <> " "%char.
Proof.
  intros Hd. pose proof (code_digit_char d Hd) as Hc. unfold is_digit in Hd. split; intros E; rewrite E in Hc.
  - change (code nl) with 10 in Hc. lia.
  - change (code " "%char) with 32 in Hc. lia.
Qed.
Lemma pretty_word v : 0 <= v -> one_word (chars (pretty v)) /\ chars (pretty v) <> [] /\ read_number (chars (pretty v)) = Some v.
Proof.
  intros Hv. destruct (pretty_digits v Hv) as (ds & E & Hne & Hd & Hval). rewrite E. split_and!.
  - apply Forall_map. eapply Forall_impl; [exact Hd|]. apply digit_char_word.
  - by destruct ds.
  - unfold read_number. pose proof (take_digits_map ds [] Hd I) as Ht. rewrite app_nil_r in Ht. rewrite Ht.
    destruct ds; [done|]. by rewrite Hval.
Qed.

(** *** Lines *)
(** Reading line by line distributes over a text that ends its lines. *)
Section Lines.
Context {A : Type} (read : text -> list A).
Definition scrape (t : text) : list A := mjoin (read <$> read_lines t []).
Lemma scrape_line a t : no_nl a -> scrape (a ++ nl :: t) = read a ++ scrape t.
Proof. intros Ha. unfold scrape. by rewrite read_lines_line. Qed.
Lemma scrape_entries {B} (entry : B -> string) (vals : B -> list A) (bs : list B) t :
  (forall b t, b ∈ bs -> scrape (chars (entry b) ++ t) = vals b ++ scrape t) ->
  scrape (chars (concat_strings (entry <$> bs)) ++ t) = mjoin (vals <$> bs) ++ scrape t.
Proof.
  induction bs as [|b bs IH]; intros H; [done|].
  change (concat_strings (entry <$> b :: bs)) with (entry b +:+ concat_strings (entry <$> bs)).
  rewrite chars_app, <- app_assoc, H by apply list_elem_of_here.
  rewrite IH by (intros; apply H; by apply list_elem_of_further). cbn. by rewrite app_assoc.
Qed.
End Lines.
Lemma join_singletons {A} (l : list A) : mjoin ((fun x => [x]) <$> l) = l.
Proof.
  induction l as [|x l IH]; [done|].
  change (mjoin ((fun x => [x]) <$> x :: l)) with ([x] ++ mjoin ((fun x => [x]) <$> l)). by rewrite IH.
Qed.
(** A metric that can be printed and read back. *)
Definition printable_metric (kv : string * Z) : Prop := one_word (chars kv.1) /\ chars kv.1 <> [] /\ 0 <= kv.2.

Lemma prefix_of_app p t : prefix_of p (p ++ t) = true.
Proof. induction p as [|c p IH]; [done|]. cbn. by rewrite bool_decide_eq_true_2, IH. Qed.
Lemma scrape_sample kv t : printable_metric kv ->
  scrape read_sample (chars (prometheus_entry kv) ++ t) = [kv] ++ scrape read_sample t.
Proof.
  intros (Hk & Hne & Hv). destruct kv as [k v]. cbn [fst snd] in *. destruct (pretty_word v Hv) as (Hp & Hpn & Hread).
  pose proof (one_word_no_nl _ Hk) as Hkn. pose proof (one_word_no_nl _ Hp) as Hpl.
  assert (Hname : one_word (chars ("offload_" +:+ k))).
  { rewrite chars_app. apply Forall_app. split; [|done]. repeat (constructor; [by split|]). constructor. }
  assert (E : chars (prometheus_entry (k, v)) =
    (chars ("# HELP offload_" +:+ k +:+ " offload daemon metric " +:+ k)) ++ nl ::
    (chars ("# TYPE offload_" +:+ k +:+ " " +:+ (if is_gauge k then "gauge" else "counter"))) ++ nl ::
    (chars ("offload_" +:+ k) ++ " "%char :: chars (pretty v)) ++ [nl]).
  { unfold prometheus_entry. cbn [fst snd]. rewrite !chars_app, chars_newline, <- !app_assoc. reflexivity. }
  rewrite E. clear E. rewrite <- !app_assoc. cbn [app]. rewrite <- !app_assoc. cbn [app].
  rewrite scrape_line by (rewrite !chars_app; repeat (apply Forall_app; split); try done; repeat (constructor; [discriminate|]); constructor).
  rewrite scrape_line by (rewrite !chars_app; repeat (apply Forall_app; split); try done;
    [..|case_match]; repeat (constructor; [discriminate|]); constructor).
  match goal with |- _ ++ _ ++ scrape _ ?x = _ =>
    replace x with ((chars ("offload_" +:+ k) ++ " "%char :: chars (pretty v)) ++ nl :: t)
      by (rewrite <- !app_assoc; cbn [app]; by rewrite <- ?app_assoc) end.
  rewrite scrape_line by (apply Forall_app; split; [by apply one_word_no_nl|constructor; [discriminate|done]]).
  change (read_sample (chars ("# HELP offload_" +:+ k +:+ " offload daemon metric " +:+ k))) with (@nil (string * Z)).
  change (read_sample (chars ("# TYPE offload_" +:+ k +:+ " " +:+ (if is_gauge k then "gauge" else "counter")))) with (@nil (string * Z)).
  cbn [app]. f_equal. unfold read_sample.
  change (prefix_of ["#"%char] (chars ("offload_" +:+ k) ++ " "%char :: chars (pretty v))) with false. cbn iota.
  rewrite read_words_word; [|done|done|done]. cbn [app].
  change (read_words (" "%char :: chars (pretty v)) []) with (read_words (chars (pretty v)) []).
  pose proof (read_words_word (chars (pretty v)) [] [] Hp Hpn I) as Ew. rewrite app_nil_r in Ew. rewrite Ew. cbn [app read_words].
  rewrite chars_app, prefix_of_app, Hread. change (drop 8 (chars "offload_" ++ chars k)) with (chars k). by rewrite str_chars.
Qed.

(** A text without newlines, by its parts. *)
Lemma no_nl_app a b : no_nl (chars a) -> no_nl (chars b) -> no_nl (chars (a +:+ b)).
Proof. intros Ha Hb. rewrite chars_app. by apply Forall_app. Qed.
Lemma no_nl_pretty (z : Z) : no_nl (chars (pretty z)).
Proof.
  destruct (decide (0 <= z)) as [Hz|Hz]; [by apply one_word_no_nl, pretty_word|].
  destruct z as [|p|p]; [lia..|]. change (pretty (Z.neg p)) with ("-" +:+ pretty (Z.pos p)).
  apply no_nl_app; [by repeat constructor|]. apply one_word_no_nl, pretty_word. lia.
Qed.
#[local] Hint Resolve no_nl_app no_nl_pretty : core.
Lemma no_nl_human_bytes v : no_nl (chars (human_bytes v)).
Proof.
  assert (Hu : forall u, no_nl (chars (unit_name u))).
  { intros u. do 8 (destruct u as [|u]; [by repeat constructor|]). unfold unit_name. by repeat constructor. }
  unfold human_bytes. destruct (scale 6 _ 0) as [d u]. assert (no_nl (chars " ")) by by repeat constructor.
  case_decide; [by auto|]. apply no_nl_app; [|by auto]. unfold fixed2, two_digits.
  assert (no_nl (chars ".")) by by repeat constructor. assert (no_nl (chars "0")) by by repeat constructor.
  case_decide; auto.
Qed.
Lemma scrape_row keyw show kv t : printable_metric kv ->
  scrape read_row (chars (metric_line keyw show kv) ++ t) = [kv] ++ scrape read_row t.
Proof.
  intros (Hk & Hne & Hv). destruct kv as [k v]. cbn [fst snd] in *. destruct (pretty_word v Hv) as (Hp & Hpn & Hread).
  set (rest := if show then " (" +:+ human_bytes v +:+ ")" else "").
  assert (Hrest : no_nl (chars rest) /\ match chars rest with [] => True | c :: _ => c = " "%char end).
  { unfold rest. destruct show; [|by split; [constructor|]]. split; [|done].
    repeat apply no_nl_app; try (by repeat constructor). apply no_nl_human_bytes. }
  destruct Hrest as [Hrn Hrs].
  set (a := (keyw - String.length k)%nat). set (b := (20 - String.length (pretty v))%nat).
  assert (E : chars (metric_line keyw show (k, v)) =
    (chars (spaces 2) ++ chars k ++ chars (spaces a) ++ chars (spaces 2) ++ chars (spaces b) ++ chars (pretty v)
     ++ chars rest) ++ [nl]).
  { unfold metric_line, pad_right, pad_left. cbn [fst snd]. fold a b rest.
    rewrite !chars_app, chars_newline, <- !app_assoc. reflexivity. }
  rewrite E, <- app_assoc. cbn [app].
  rewrite scrape_line by (repeat (apply Forall_app; split); first [apply spaces_no_nl|done|by apply one_word_no_nl]).
  f_equal. unfold read_row. rewrite read_words_spaces.
  assert (Hs : forall n t, match chars (spaces n) ++ " "%char :: t with [] => True | c :: _ => c = " "%char end)
    by (intros [] ?; reflexivity).
  rewrite (read_words_word (chars k)); [|done|by destruct (chars k)|exact (Hs a _)].
  rewrite !read_words_spaces, (read_words_word (chars (pretty v))); [|done|by destruct (chars (pretty v))|done].
  cbn [app]. rewrite Hread, str_chars. reflexivity.
Qed.

(** A group: its title and header lines hold no metric. *)
Lemma scrape_group keyw title pred show r t :
  no_nl (chars title) -> prefix_of (chars "  ") (chars title) = false -> Forall printable_metric (pairs r) ->
  scrape read_row (chars (print_group keyw title pred show r) ++ t) = group pred r ++ scrape read_row t.
Proof.
  intros Ht Hp Hr. assert (Hg : Forall printable_metric (group pred r)).
  { apply Forall_forall. intros kv [_ Hin]%list_elem_of_filter. by eapply Forall_forall in Hin; [|exact Hr]. }
  unfold print_group. destruct (group pred r) as [|g0 g'] eqn:Eg; [done|]. rewrite <- Eg in *. clear Eg.
  match goal with |- context [concat_strings ?l] => set (body := concat_strings l) end.
  set (a := (keyw - String.length "metric")%nat).
  match goal with |- scrape _ (chars ?x ++ t) = _ =>
    assert (E : chars x = [nl] ++ chars title ++ [nl]
      ++ (chars (spaces 2) ++ chars "metric" ++ chars (spaces a) ++ chars (spaces 2) ++ chars (spaces 15) ++ chars "value")
      ++ [nl] ++ chars body) end.
  { rewrite !chars_app, chars_newline. unfold pad_right, pad_left. rewrite !chars_app, <- !app_assoc. reflexivity. }
  rewrite E. clear E. rewrite <- !app_assoc. cbn [app].
  match goal with |- scrape _ (nl :: ?x) = _ => change (nl :: x) with ([] ++ nl :: x) end.
  rewrite (scrape_line read_row []) by constructor. rewrite (scrape_line read_row (chars title)) by done.
  match goal with |- _ ++ _ ++ scrape _ ?y = _ =>
    replace y with ((chars (spaces 2) ++ chars "metric" ++ chars (spaces a) ++ chars (spaces 2) ++ chars (spaces 15) ++ chars "value")
      ++ nl :: chars body ++ t) by (rewrite <- !app_assoc; reflexivity) end.
  rewrite scrape_line by (repeat (apply Forall_app; split); first [apply spaces_no_nl|repeat (constructor; [discriminate|]); constructor]).
  assert (Et : read_row (chars title) = []) by (unfold read_row; by rewrite Hp).
  match goal with |- _ ++ _ ++ read_row ?h ++ _ = _ => assert (Eh : read_row h = []) end.
  { unfold read_row. rewrite read_words_spaces.
    rewrite (read_words_word (chars "metric")); [|repeat (constructor; [by split|]); constructor|done|by destruct a].
    rewrite !read_words_spaces. reflexivity. }
  rewrite Et, Eh. cbn [app]. change (read_row []) with (@nil (string * Z)). cbn [app].
  unfold body. rewrite (scrape_entries read_row (metric_line keyw show) (fun kv => [kv])).
  - by rewrite join_singletons.
  - intros kv t' Hin. apply scrape_row. by eapply Forall_forall in Hin; [|exact Hg].
Qed.

(** ** What a run of the tool prints *)
Section Printed.
Context (r : GetStatsResponse) (Hok : gss_ok r = true) (Hr : Forall printable_metric (pairs r)).
Lemma scrape_rendered_prometheus : scrape_prometheus (render_prometheus r) = pairs r.
Proof using Hok Hr.
  unfold render_prometheus. rewrite Hok. cbn [negb].
  change (scrape_prometheus ?o) with (scrape read_sample (chars o)).
  rewrite <- (app_nil_r (chars _)), (scrape_entries read_sample prometheus_entry (fun kv => [kv])).
  - rewrite join_singletons. apply app_nil_r.
  - intros kv t Hin. apply scrape_sample. by eapply Forall_forall in Hin; [|exact Hr].
Qed.
Lemma scrape_rendered_human : gss_message r = "ok" ->
  scrape_human (render_human r) = group is_bytes r ++ group is_counter r ++ group is_percentile r.
Proof using Hok Hr.
  intros Hm. unfold render_human. rewrite Hok, Hm. cbn [negb]. rewrite decide_False by done. cbv zeta.
  generalize (foldr (fun k w => Nat.max (String.length k) w) 6%nat (gss_keys r)). intros keyw.
  change (scrape_human ?o) with (scrape read_row (chars o)). rewrite !chars_app, chars_newline, <- !app_assoc.
  change (chars "# " ++ chars "ok" ++ [nl] ++ ?t) with (chars "# ok" ++ nl :: t).
  rewrite scrape_line by (repeat (constructor; [discriminate|]); constructor).
  change (read_row (chars "# ok")) with (@nil (string * Z)). cbn [app].
  do 3 (rewrite scrape_group; [|repeat (constructor; [discriminate|]); constructor|reflexivity|exact Hr]).
  by rewrite app_nil_r.
Qed.
End Printed.

Lemma shown_printable x d : (forall m, in_u64 (metric_get d m)) -> (forall v, in_u64 (x_cast x v)) ->
  Forall printable_metric (pairs (shown x d)).
Proof.
  intros Hm Hc. rewrite shown_pairs. apply Forall_app. split.
  - apply Forall_fmap, Forall_true. intros m. split_and!; [|by destruct m|apply Hm].
    destruct m; repeat (constructor; [by split|]); constructor.
  - assert (Hw : forall k v, one_word (chars k) -> chars k <> [] -> printable_metric (k, u64_of_double (x_cast x) v))
      by (intros; split_and!; [done..|by apply u64_of_double_range]).
    cbn. repeat (constructor; [apply Hw; [repeat (constructor; [by split|]); constructor|done]|]). constructor.
Qed.

(** C40. What the tool shows: one run of [offload-stat] against the daemon, through
    its command line and the encoding, framing and dispatch on both sides, exits
    with code 0, writes nothing to the standard error and leaves the daemon as it
    was, and what it prints are the daemon's own numbers: scraping the Prometheus
    output line by line gives every counter with the value the daemon holds and
    the three percentiles of the bandwidth window, in that order and nothing else;
    the rows of the human-readable output give the same metrics, each once. *)
Theorem stat_shows_daemon (x : Ctx) (argv0 : string) (argv : list string) (o : StatOptions)
  (rounds : list (res unit * string)) (d : Daemon) :
  (forall m, in_u64 (metric_get d m)) -> (forall v, in_u64 (x_cast x v)) ->
  parse_stat_args argv0 argv default_stat_options = inr o -> so_shutdown o = false -> so_watch o = false ->
  let numbers := ((fun m => (metric_name m, metric_get d m)) <$> all_metrics)
                 ++ snapshot_percentiles (x_cast x) (x_samples x) in
  (forall m, m ∈ all_metrics) /\
  exists out, stat_main (Handlers0 := daemon_handlers x) argv0 argv (Ok tt) rounds d = ((out, "", 0), d) /\
    if so_prometheus o then scrape_prometheus out = numbers else scrape_human out ≡ₚ numbers.
Proof.
  intros Hm Hc Ho Hs Hw numbers.
  split; [intros []; repeat (apply list_elem_of_here || apply list_elem_of_further)|].
  unfold stat_main, run_once. rewrite Ho, Hs, Hw, stat_call_shown by done. cbn iota.
  eexists. split; [reflexivity|]. pose proof (shown_printable x d Hm Hc) as Hp. pose proof (shown_pairs x d) as Hn.
  destruct (so_prometheus o).
  - by rewrite scrape_rendered_prometheus.
  - rewrite scrape_rendered_human by done. unfold numbers. rewrite <- Hn. apply groups_partition.
    cbn. repeat (constructor; [reflexivity|]). constructor.
Qed.
Definition stat_ctx : Ctx := mkCtx 0 (fun _ => mkGap id None None false 0) default_result [] (fun _ => 0).
Definition stat_daemon : Daemon := (inhabitant : Daemon) <| metrics := fun m => match m with kD2HBytes => 4096 | _ => 0 end |>.
Lemma stat_shows_daemon_witness :
  exists out, stat_main (Handlers0 := daemon_handlers stat_ctx) "offload-stat" ["--prometheus"] (Ok tt) [] stat_daemon
      = ((out, "", 0), stat_daemon) /\
    scrape_prometheus out = ((fun m => (metric_name m, metric_get stat_daemon m)) <$> all_metrics)
      ++ snapshot_percentiles (fun _ => 0) [].
Proof.
  destruct (stat_shows_daemon stat_ctx "offload-stat" ["--prometheus"] (default_stat_options <| so_prometheus := true |>) [] stat_daemon)
    as (_ & out & H & Hs).
  - intros []; vm_compute; by split.
  - intros v. vm_compute. by split.
  - reflexivity.
  - reflexivity.
  - reflexivity.
  - exists out. exact (conj H Hs).
Defined.
