(* ===== verification/Control.v ===== *)
(** * The control region, byte for byte

    The tables of the daemon that ranks may see are bytes of one shared mapping.
    This file has the structures of [abi/offload_abi.h] and
    [src/common/completion_ring.h] with their members, what
    [OffloadDaemon::build_arenas_and_control] and [build_slot_plan]
    ([src/daemon/daemon.cpp]) store when the daemon starts, every later store of
    the daemon and of the ranks into the region, and what a rank loads
    ([src/agent/agent.cpp]).  [represents] relates the bytes to the tables of
    [State]; the theorems of [ControlProps] show that the stores keep it. *)
From stdpp Require Import base gmap strings list fin_maps list_numbers.
From Stdlib Require Import ZArith Lia Init.Byte.
From S2P Require Import Prelude.
From S2P Require Import Wire.
From S2P Require Import Structs.
From S2P Require Import Protocol.
From S2P Require Import ProtocolV2.
From S2P Require Import Ring.
From S2P Require Import Layout.
From S2P Require Import State.
From S2P Require Import Alloc.
From S2P Require Import Drain.
From S2P Require Import Offload.
From S2P Require Import Store.
From S2P Require Import Canonical.
From S2P Require Import Rollout.
Open Scope Z_scope.
Open Scope offload_scope.

(** ** Structures *)
Definition ofld_slot_table_header : list member :=
  [mb_u32 "magic"; mb_u32 "abi_version"; mb_u32 "num_slots"; mb_u32 "num_arenas";
   mb_u64 "generation"; mb_u64 "daemon_pid"; mb_u64 "daemon_epoch"; mb_u64 "heartbeat_ns";
   mb_u64 "flags"; mb_u64 "arena_desc_offset"; mb_u64 "slot_entries_offset"; mb_u64 "control_ring_offset";
   mb_bytes "reserved" 64].
Definition ofld_arena_desc : list member :=
  [mb_u64 "arena_id"; mb_u64 "base_offset"; mb_u64 "size"; mb_u32 "numa_node"; mb_u32 "kind";
   mb_u32 "registration_granularity"; mb_u32 "allocation_granularity"; mb_u32 "preferred_gpu"; mb_u64 "flags";
   mb_bytes "reserved" 24].
Definition ofld_slot_entry : list member :=
  [mb_u32 "state"; mb_u32 "slot_id"; mb_u32 "numa_node"; mb_u32 "gpu_preferred";
   mb_u64 "arena_id"; mb_u64 "arena_offset"; mb_u64 "capacity"; mb_u64 "nbytes";
   mb_u64 "tensor_id"; mb_u64 "version"; mb_u64 "lease_id"; mb_u64 "owner_rank";
   mb_u64 "owner_pid"; mb_u64 "rank_epoch"; mb_u64 "flags"; mb_u64 "cold_ref";
   mb_u64 "checksum"; mb_u64 "last_touch_ns"; mb_u64 "submit_seq"; mb_u64 "complete_seq";
   mb_bytes "reserved" 64].
Definition ofld_completion_entry : list member :=
  [mb_u64 "lease_id"; mb_u64 "tensor_id"; mb_u64 "version"; mb_u32 "slot_id"; mb_u32 "event_type"; mb_u64 "timestamp_ns"].
Definition CompletionRingHeader : list member :=
  [mb_u32 "capacity"; mb_u32 "owner_rank"; mb_u64 "rank_epoch"; mkMember "head" 8 OFLD_CACHELINE; mkMember "tail" 8 OFLD_CACHELINE].
Definition RingAreaMeta : list member := [mb_u32 "max_ranks"; mb_u32 "ring_stride"; mb_u32 "ring_capacity"; mb_u32 "_pad"].
(** Their integer members, placed. *)
Definition header_fields : list field := Eval vm_compute in integers ofld_slot_table_header.
Definition arena_fields : list field := Eval vm_compute in integers ofld_arena_desc.
Definition slot_fields : list field := Eval vm_compute in integers ofld_slot_entry.
Definition entry_fields : list field := Eval vm_compute in integers ofld_completion_entry.
Definition ring_fields : list field := Eval vm_compute in integers CompletionRingHeader.
Definition meta_fields : list field := Eval vm_compute in integers RingAreaMeta.
(** [ring_area_meta]: the ring metadata overlay [reserved] of the header. *)
Definition meta_base : Z := Eval vm_compute in offsetof ofld_slot_table_header "reserved".

(** ** Accessors *)
(** Addresses are relative to the mapping; the header is at 0. *)
Definition header_get (name : string) (m : Mem) : Z := get_field header_fields 0 name m.
Definition control_arena_desc (m : Mem) (i : Z) : Z := header_get "arena_desc_offset" m + i * sizeof_arena_desc.
Definition control_slot (m : Mem) (id : Z) : Z := header_get "slot_entries_offset" m + id * sizeof_slot_entry.
Definition meta_get (name : string) (m : Mem) : Z := get_field meta_fields meta_base name m.
Definition ring_at_index (m : Mem) (index : Z) : option Z :=
  if decide (meta_get "max_ranks" m = 0 \/ index >= meta_get "max_ranks" m) then None
  else Some (header_get "control_ring_offset" m + index * meta_get "ring_stride" m).
Definition ring_entry (h k : Z) : Z := h + sizeof_ring_header + k * sizeof_completion_entry.

(** ** Start-up *)
Definition write_header (l : ControlLayout) (pid epoch now : Z) (m : Mem) : Mem :=
  set_fields header_fields 0
    [("magic", OFLD_MAGIC); ("abi_version", OFLD_ABI_VERSION); ("num_slots", l_num_slots l); ("num_arenas", l_num_arenas l);
     ("generation", 1); ("daemon_pid", pid); ("daemon_epoch", epoch); ("heartbeat_ns", now); ("flags", 0);
     ("arena_desc_offset", l_arena_desc_offset l); ("slot_entries_offset", l_slot_entries_offset l);
     ("control_ring_offset", l_control_ring_offset l)] m.
Definition write_arena_desc (m : Mem) (ia : nat * Arena) : Mem :=
  let a := ia.2 in
  set_fields arena_fields (control_arena_desc m (Z.of_nat ia.1))
    [("arena_id", ar_arena_id a); ("base_offset", 0); ("size", ar_size a); ("numa_node", ar_numa_node a);
     ("kind", OFLD_ARENA_DATA_PINNED); ("registration_granularity", ar_registration_granularity a);
     ("allocation_granularity", ar_allocation_granularity a); ("preferred_gpu", 0); ("flags", 0)] m.
Definition write_ring_meta (l : ControlLayout) (cap : Z) (m : Mem) : Mem :=
  set_fields meta_fields meta_base
    [("max_ranks", l_max_ranks l); ("ring_stride", l_ring_stride l); ("ring_capacity", cap); ("_pad", 0)] m.
Definition init_ring (cap : Z) (m : Mem) (i : Z) : Mem :=
  match ring_at_index m i with
  | Some h => set_fields ring_fields h [("capacity", cap); ("owner_rank", NO_U32); ("rank_epoch", 0); ("head", 0); ("tail", 0)] m
  | None => m
  end.
Definition build_control (l : ControlLayout) (cap pid epoch now : Z) (arenas : list Arena) : Mem :=
  let m := write_header l pid epoch now zeroed in
  let m := foldl write_arena_desc m (imap pair arenas) in
  let m := write_ring_meta l cap m in
  foldl (init_ring cap) m (seqZ 0 (l_max_ranks l)).
(** The body of the loop of [carve_window], the state last. *)
Definition write_slot (id : Z) (e : slot_entry) (m : Mem) : Mem :=
  set_fields slot_fields (control_slot m id)
    [("slot_id", sl_slot_id e); ("numa_node", sl_numa_node e); ("gpu_preferred", sl_gpu_preferred e); ("arena_id", sl_arena_id e);
     ("arena_offset", sl_arena_offset e); ("capacity", sl_capacity e); ("nbytes", sl_nbytes e); ("tensor_id", sl_tensor_id e);
     ("version", sl_version e); ("lease_id", sl_lease_id e); ("owner_rank", sl_owner_rank e); ("owner_pid", sl_owner_pid e);
     ("rank_epoch", sl_rank_epoch e); ("flags", sl_flags e); ("cold_ref", sl_cold_ref e); ("checksum", sl_checksum e);
     ("last_touch_ns", sl_last_touch_ns e); ("submit_seq", sl_submit_seq e); ("complete_seq", sl_complete_seq e);
     ("state", slot_state_value (sl_state e))] m.
(** [build_slot_plan] with its stores: the plan of [Alloc] and the region. *)
Definition carve_window_stores (gran : Z) (ac : NumaArenaConfig) (arena : Arena) (pm : SlotPlan * Mem) (win : Z * bool * Z)
  : SlotPlan * Mem :=
  let '(p, m) := pm in
  let '(gpu0, is_overflow, bytes) := win in
  let gpu := if is_overflow : bool then kOverflowGpu else gpu0 in
  (carve_window gran ac arena p win,
   (foldl (fun '(m, next) s =>
      (write_slot next (carved_slot gran ac arena gpu is_overflow (p_cursor p) next s) m, u32 (next + 1)))
      (m, p_global_slot p) (seqZ 0 (bytes / gran))).1).
Definition carve_arena_stores (gran : Z) (pm : SlotPlan * Mem) (aca : NumaArenaConfig * Arena) : SlotPlan * Mem :=
  let '(ac, arena) := aca in
  foldl (carve_window_stores gran ac arena) (pm.1 <| p_cursor := 0 |>, pm.2) (arena_windows ac).
Definition build_slot_plan_stores (c : DaemonConfig) (slots0 : gmap Z slot_entry) (m : Mem) : SlotPlan * Mem :=
  foldl (carve_arena_stores (c_allocation_granularity_bytes c)) (mkPlan slots0 [] ∅ 0 0, m) (zip (c_per_numa c) (build_arenas c)).

(** The [OffloadDaemon] constructor: [build_arenas_and_control], then [build_slot_plan]. *)
Definition region_layout (c : DaemonConfig) (cap : Z) : ControlLayout :=
  build_layout (Z.of_nat (length (c_per_numa c))) (count_slots c) cap (c_completion_ring_max_ranks c).
Definition start_region (c : DaemonConfig) (cap pid epoch now : Z) : Mem :=
  (build_slot_plan_stores c (zero_slots (count_slots c))
     (build_control (region_layout c cap) cap pid epoch now (build_arenas c))).2.

(** ** Stores while the daemon runs *)
(** [set_slot_state]. *)
Definition state_stores (now : Z) (st : slot_state_t) : list (string * Z) :=
  [("last_touch_ns", now); ("state", slot_state_value st)].
(** The stores the handlers and workers make into the slots of a run. *)
Inductive slot_write :=
  | SwState (now : Z) (st : slot_state_t)
  | SwFree (now : Z)
  | SwReserve (now : Z) (req : RequestOffloadRequest) (lease_id owner_pid : Z)
  | SwCanonical (now : Z) (req : RequestCanonicalEvictRequest) (tid version lease_id owner_pid : Z)
  | SwSubmit (now seq : Z) (st : slot_state_t)
  | SwComplete (now seq : Z)
  | SwReadback (now : Z) (req : RequestPrefetchRequest) (loc : Location) (lease_id want_version owner_pid : Z)
  | SwWarm (now : Z) (req : RequestCanonicalRestoreRequest) (tid version owner_pid nbytes : Z)
  | SwColdRef (cref : Z)
  | SwCompleteSeq (seq : Z).
(** Their effect on the table, as the handlers have it. *)
Definition sw_table (w : slot_write) : Z -> slot_entry -> slot_entry :=
  match w with
  | SwState now st => fun _ e => e <| sl_last_touch_ns := now |> <| sl_state := st |>
  | SwFree now => fun _ => cleared_slot now
  | SwReserve now req lease_id owner_pid => reserve_entry now req lease_id owner_pid
  | SwCanonical now req tid version lease_id owner_pid => canonical_entry now req tid version lease_id owner_pid
  | SwSubmit now seq st => submit_entry now seq st
  | SwComplete now seq => complete_entry now seq
  | SwReadback now req loc lease_id want_version owner_pid => readback_entry now req loc lease_id want_version owner_pid
  | SwWarm now req tid version owner_pid nbytes => warm_entry now req tid version owner_pid nbytes
  | SwColdRef cref => fun _ e => e <| sl_cold_ref := cref |>
  | SwCompleteSeq seq => fun _ e => e <| sl_complete_seq := seq |>
  end.
(** Their stores in the order of the code; [capacity] is loaded from the entry. *)
Definition free_stores (now : Z) : list (string * Z) :=
  [("nbytes", 0); ("tensor_id", 0); ("version", 0); ("lease_id", 0); ("owner_rank", 0); ("owner_pid", 0);
   ("rank_epoch", 0); ("cold_ref", 0); ("submit_seq", 0); ("complete_seq", 0)] ++ state_stores now SLOT_FREE.
Definition reserve_stores (now : Z) (req : RequestOffloadRequest) (lease_id owner_pid k capacity : Z) : list (string * Z) :=
  [("tensor_id", ro_tensor_id req); ("version", ro_version req); ("lease_id", lease_id); ("owner_rank", ro_rank_id req);
   ("owner_pid", owner_pid); ("rank_epoch", ro_rank_epoch req); ("nbytes", if decide (k = 0) then ro_nbytes req else capacity);
   ("flags", ro_flags req)] ++ state_stores now SLOT_RESERVED_D2H.
Definition canonical_stores (now : Z) (req : RequestCanonicalEvictRequest) (tid version lease_id owner_pid k capacity : Z)
  : list (string * Z) :=
  [("tensor_id", tid); ("version", version); ("lease_id", lease_id); ("owner_rank", ce_rank_id req);
   ("owner_pid", owner_pid); ("rank_epoch", ce_rank_epoch req);
   ("nbytes", if decide (k = 0) then k_nbytes (ce_key req) else capacity);
   ("flags", OFLD_FLAG_DESTRUCTIVE)] ++ state_stores now SLOT_RESERVED_D2H.
Definition submit_stores (now seq : Z) (st : slot_state_t) : list (string * Z) := ("submit_seq", seq) :: state_stores now st.
Definition complete_stores (now seq : Z) : list (string * Z) := ("complete_seq", seq) :: state_stores now SLOT_PINNED_VALID.
Definition readback_stores (now : Z) (req : RequestPrefetchRequest) (loc : Location)
  (lease_id want_version owner_pid k capacity : Z) : list (string * Z) :=
  [("tensor_id", rp_tensor_id req); ("version", want_version); ("lease_id", lease_id); ("owner_rank", rp_rank_id req);
   ("owner_pid", owner_pid); ("rank_epoch", rp_rank_epoch req);
   ("nbytes", if decide (k = 0) then lo_nbytes loc else capacity);
   ("cold_ref", lo_cold_ref loc); ("flags", rp_flags req)] ++ state_stores now SLOT_READBACK_IN_FLIGHT.
Definition warm_stores (now : Z) (req : RequestCanonicalRestoreRequest) (tid version owner_pid nbytes k capacity : Z)
  : list (string * Z) :=
  [("tensor_id", tid); ("version", version); ("owner_rank", cr_rank_id req); ("owner_pid", owner_pid);
   ("rank_epoch", cr_rank_epoch req); ("nbytes", if decide (k = 0) then nbytes else capacity)]
  ++ state_stores now SLOT_READBACK_IN_FLIGHT.
Definition sw_stores (w : slot_write) (k capacity : Z) : list (string * Z) :=
  match w with
  | SwState now st => state_stores now st
  | SwFree now => free_stores now
  | SwReserve now req lease_id owner_pid => reserve_stores now req lease_id owner_pid k capacity
  | SwCanonical now req tid version lease_id owner_pid => canonical_stores now req tid version lease_id owner_pid k capacity
  | SwSubmit now seq st => submit_stores now seq st
  | SwComplete now seq => complete_stores now seq
  | SwReadback now req loc lease_id want_version owner_pid => readback_stores now req loc lease_id want_version owner_pid k capacity
  | SwWarm now req tid version owner_pid nbytes => warm_stores now req tid version owner_pid nbytes k capacity
  | SwColdRef cref => [("cold_ref", cref)]
  | SwCompleteSeq seq => [("complete_seq", seq)]
  end.
Definition store_slot (w : slot_write) (base : Z) (m : Mem) (k : Z) : Mem :=
  let a := control_slot m (u32 (base + k)) in
  set_fields slot_fields a (sw_stores w k (get_field slot_fields a "capacity" m)) m.
Definition store_run (w : slot_write) (base count : Z) (m : Mem) : Mem := foldl (store_slot w base) m (seqZ 0 count).

(** [ring_push] and [ring_pop] on the ring at [h]. *)
Definition push_bytes (h : Z) (e : completion_entry) (m : Mem) : bool * Mem :=
  let g name := get_field ring_fields h name m in
  let tail := g "tail" in
  let head := g "head" in
  if decide (u64 (tail - head) >= g "capacity") then (false, m)
  else
    let m := set_fields entry_fields (ring_entry h (Z.land tail (u32 (g "capacity" - 1))))
      [("lease_id", e_lease_id e); ("tensor_id", e_tensor_id e); ("version", e_version e); ("slot_id", e_slot_id e);
       ("event_type", e_event_type e); ("timestamp_ns", e_timestamp_ns e)] m in
    (true, set_fields ring_fields h [("tail", u64 (tail + 1))] m).
Definition load_entry (a : Z) (m : Mem) : completion_entry :=
  let g name := get_field entry_fields a name m in
  mkEntry (g "lease_id") (g "tensor_id") (g "version") (g "slot_id") (g "event_type") (g "timestamp_ns").
Definition pop_bytes (h : Z) (m : Mem) : option completion_entry * Mem :=
  let g name := get_field ring_fields h name m in
  let head := g "head" in
  let tail := g "tail" in
  if decide (head = tail) then (None, m)
  else (Some (load_entry (ring_entry h (Z.land head (u32 (g "capacity" - 1)))) m),
        set_fields ring_fields h [("head", u64 (head + 1))] m).

(** Every store into the region, by the daemon or by the rank that owns a ring. *)
Inductive control_write :=
  | CwRun (w : slot_write) (base count : Z)
  | CwHeartbeat (now : Z)
  | CwRingAssign (i rank_id epoch : Z)
  | CwRingRelease (i : Z)
  | CwRingPush (i : Z) (e : completion_entry)
  | CwRingPop (i : Z).
Definition heartbeat_stores (now : Z) : Mem -> Mem := set_fields header_fields 0 [("heartbeat_ns", now)].
Definition assign_ring_stores (rank_id epoch h : Z) : Mem -> Mem :=
  set_fields ring_fields h [("head", 0); ("tail", 0); ("owner_rank", rank_id); ("rank_epoch", epoch)].
Definition release_ring_stores (h : Z) : Mem -> Mem := set_fields ring_fields h [("owner_rank", NO_U32); ("rank_epoch", 0)].
Definition on_ring (i : Z) (f : Z -> Mem -> Mem) (m : Mem) : Mem :=
  match ring_at_index m i with Some h => f h m | None => m end.
Definition cw_stores (w : control_write) : Mem -> Mem :=
  match w with
  | CwRun w base count => store_run w base count
  | CwHeartbeat now => heartbeat_stores now
  | CwRingAssign i rank_id epoch => on_ring i (assign_ring_stores rank_id epoch)
  | CwRingRelease i => on_ring i release_ring_stores
  | CwRingPush i e => on_ring i (fun h m => (push_bytes h e m).2)
  | CwRingPop i => on_ring i (fun h m => (pop_bytes h m).2)
  end.
Definition cw_table (w : control_write) (d : Daemon) : Daemon :=
  match w with
  | CwRun w base count => d <| slots ::= update_run (sw_table w) base count |>
  | CwHeartbeat now => d <| header_heartbeat_ns := now |>
  | CwRingAssign i rank_id epoch => d <| rings ::= alter (fun rh =>
      rh <| r_head := 0 |> <| r_tail := 0 |> <| r_owner_rank := rank_id |> <| r_rank_epoch := epoch |>) i |>
  | CwRingRelease i => d <| rings ::= alter (fun rh => rh <| r_owner_rank := NO_U32 |> <| r_rank_epoch := 0 |>) i |>
  | CwRingPush i e => d <| rings ::= alter (fun rh => (ring_push rh e).2) i |>
  | CwRingPop i => d <| rings ::= alter (fun rh => (ring_pop rh).2) i |>
  end.

(** ** What a rank loads *)
(** The checks after the region was mapped. *)
Definition check_header (m : Mem) : res Z :=
  if decide (header_get "magic" m <> OFLD_MAGIC) then Throw "control header magic mismatch"
  else if decide (header_get "abi_version" m <> OFLD_ABI_VERSION) then Throw "control header ABI version mismatch"
  else Ok (header_get "num_slots" m).
(** The ring the rank may use. *)
Definition own_ring (ring_index rank_id rank_epoch : Z) (m : Mem) : option Z :=
  if decide (ring_index = NO_U32) then None
  else match ring_at_index m ring_index with
       | Some h =>
           if decide (get_field ring_fields h "owner_rank" m = rank_id /\ get_field ring_fields h "rank_epoch" m = rank_epoch)
           then Some h else None
       | None => None
       end.
Definition load_slot_state (id : Z) (m : Mem) : Z := get_field slot_fields (control_slot m id) "state" m.

(** ** The bytes and the tables *)
Definition header_values (l : ControlLayout) (pid epoch generation now : Z) : list Z :=
  [OFLD_MAGIC; OFLD_ABI_VERSION; l_num_slots l; l_num_arenas l; generation; pid; epoch; now; 0;
   l_arena_desc_offset l; l_slot_entries_offset l; l_control_ring_offset l].
Definition arena_values (a : Arena) : list Z :=
  [ar_arena_id a; 0; ar_size a; ar_numa_node a; OFLD_ARENA_DATA_PINNED; ar_registration_granularity a;
   ar_allocation_granularity a; 0; 0].
Definition slot_values (e : slot_entry) : list Z :=
  [slot_state_value (sl_state e); sl_slot_id e; sl_numa_node e; sl_gpu_preferred e; sl_arena_id e; sl_arena_offset e;
   sl_capacity e; sl_nbytes e; sl_tensor_id e; sl_version e; sl_lease_id e; sl_owner_rank e; sl_owner_pid e;
   sl_rank_epoch e; sl_flags e; sl_cold_ref e; sl_checksum e; sl_last_touch_ns e; sl_submit_seq e; sl_complete_seq e].
Definition entry_values (e : completion_entry) : list Z :=
  [e_lease_id e; e_tensor_id e; e_version e; e_slot_id e; e_event_type e; e_timestamp_ns e].
Definition ring_values (r : CompletionRing) : list Z :=
  [r_capacity r; r_owner_rank r; r_rank_epoch r; r_head r; r_tail r].
(** An entry whose fields are values of their C types. *)
Definition entry_fits (e : completion_entry) : Prop := cut_values entry_fields (entry_values e) = entry_values e.
Record ring_bytes (cap h : Z) (r : CompletionRing) (m : Mem) : Prop := {
  rb_header : values ring_fields h m = cut_values ring_fields (ring_values r);
  rb_capacity : r_capacity r = cap;
  rb_head : in_u64 (r_head r);
  rb_tail : in_u64 (r_tail r);
  rb_entries : forall k, 0 <= k < cap -> values entry_fields (ring_entry h k) m = entry_values (r_entries r !!! k);
}.
(** The daemon's configuration and the layout it computed. *)
Record layout_ok (l : ControlLayout) (cap : Z) : Prop := {
  lo_arenas : l_arena_desc_offset l = sizeof_slot_table_header /\ 0 <= l_num_arenas l < 2 ^ 32;
  lo_slots : l_arena_desc_offset l + l_num_arenas l * sizeof_arena_desc <= l_slot_entries_offset l /\ 0 <= l_num_slots l < 2 ^ 32;
  lo_rings : l_slot_entries_offset l + l_num_slots l * sizeof_slot_entry <= l_control_ring_offset l;
  lo_cap : pow2_cap cap;
  lo_stride : sizeof_ring_header + cap * sizeof_completion_entry <= l_ring_stride l < 2 ^ 32;
  lo_ranks : 0 <= l_max_ranks l < 2 ^ 32;
  lo_total : l_control_ring_offset l + l_max_ranks l * l_ring_stride l <= l_total_bytes l < 2 ^ 64;
}.
Definition slot_place (l : ControlLayout) (id : Z) : Z := l_slot_entries_offset l + id * sizeof_slot_entry.
Definition arena_place (l : ControlLayout) (i : Z) : Z := l_arena_desc_offset l + i * sizeof_arena_desc.
Definition ring_place (l : ControlLayout) (i : Z) : Z := l_control_ring_offset l + i * l_ring_stride l.
Record represents (l : ControlLayout) (cap : Z) (m : Mem) (d : Daemon) : Prop := {
  rp_header : exists pid epoch, values header_fields 0 m =
    cut_values header_fields (header_values l pid epoch (generation d) (header_heartbeat_ns d));
  rp_meta : values meta_fields meta_base m = [l_max_ranks l; l_ring_stride l; cap; 0];
  rp_arenas : forall i a, arenas d !! i = Some a -> Z.of_nat i < l_num_arenas l ->
    values arena_fields (arena_place l (Z.of_nat i)) m = cut_values arena_fields (arena_values a);
  rp_slots : forall id e, slots d !! id = Some e -> 0 <= id < l_num_slots l ->
    values slot_fields (slot_place l id) m = cut_values slot_fields (slot_values e);
  rp_rings : forall i r, rings d !! i = Some r -> 0 <= i < l_max_ranks l -> ring_bytes cap (ring_place l i) r m;
}.
