(* ===== verification/ControlProps.v ===== *)
(** * The control region represents the tables

    Properties of [Control]: the structure sizes the layout computes with are those
    the layout rule gives; what the daemon stores at start-up represents its
    initial tables; every later store keeps the representation and stays inside
    the region; what a rank loads is what the tables say. *)
From stdpp Require Import base gmap strings list fin_maps list_numbers.
From Stdlib Require Import ZArith Lia Init.Byte.
From S2P Require Import Prelude.
From S2P Require Import Wire.
From S2P Require Import Structs.
From S2P Require Import Protocol.
From S2P Require Import ProtocolV2.
From S2P Require Import Ring.
From S2P Require Import Layout.
From S2P Require Import State.
From S2P Require Import Alloc.
From S2P Require Import Drain.
From S2P Require Import Offload.
From S2P Require Import Store.
From S2P Require Import Canonical.
From S2P Require Import Rollout.
From S2P Require Import Control.
Open Scope Z_scope.
Open Scope offload_scope.

(** ** Sizes *)
Lemma struct_sizes :
  sizeof OFLD_CACHELINE ofld_slot_table_header = sizeof_slot_table_header /\
  sizeof 1 ofld_arena_desc = sizeof_arena_desc /\
  sizeof OFLD_CACHELINE ofld_slot_entry = sizeof_slot_entry /\
  sizeof 1 ofld_completion_entry = sizeof_completion_entry /\
  sizeof OFLD_CACHELINE CompletionRingHeader = sizeof_ring_header /\
  meta_base + sizeof 1 RingAreaMeta <= meta_base + 64.
Proof. by vm_compute. Qed.
Lemma header_chain : chain 0 80 header_fields.
Proof. vm_compute. repeat split; congruence. Qed.
Lemma meta_chain : chain 0 16 meta_fields.
Proof. vm_compute. repeat split; congruence. Qed.
Lemma arena_chain : chain 0 sizeof_arena_desc arena_fields.
Proof. vm_compute. repeat split; congruence. Qed.
Lemma slot_chain : chain 0 sizeof_slot_entry slot_fields.
Proof. vm_compute. repeat split; congruence. Qed.
Lemma entry_chain : chain 0 sizeof_completion_entry entry_fields.
Proof. vm_compute. repeat split; congruence. Qed.
Lemma ring_chain : chain 0 sizeof_ring_header ring_fields.
Proof. vm_compute. repeat split; congruence. Qed.
Create HintDb control.
#[export] Hint Resolve header_chain meta_chain arena_chain slot_chain entry_chain ring_chain : control.
Ltac places := unfold slot_place, arena_place, ring_place, ring_entry, meta_base, sizeof_slot_table_header,
  sizeof_arena_desc, sizeof_slot_entry, sizeof_completion_entry, sizeof_ring_header in *.

(** ** Loads *)
Lemma get_of_values fs base name m vs i o w v : position name fs = Some (i, (o, w)) ->
  values fs base m = vs -> vs !! i = Some v -> get_field fs base name m = v.
Proof. intros Hp Hv Hi. pose proof (get_field_values fs base name m i o w Hp) as H. rewrite Hv, Hi in H. by injection H. Qed.
Lemma cut_u64 v : in_u64 v -> cut 8 v = v.
Proof. unfold in_u64, cut. intros H. by apply Z.mod_small. Qed.
Lemma cut_u32 v : in_u32 v -> cut 4 v = v.
Proof. unfold in_u32, cut. intros H. by apply Z.mod_small. Qed.

Section Represented.
Context (l : ControlLayout) (cap : Z) (Hl : layout_ok l cap).
Lemma layout_facts : 192 = l_arena_desc_offset l /\ 0 <= l_num_arenas l < 2 ^ 32 /\
  l_arena_desc_offset l + l_num_arenas l * 80 <= l_slot_entries_offset l /\ 0 <= l_num_slots l < 2 ^ 32 /\
  l_slot_entries_offset l + l_num_slots l * 256 <= l_control_ring_offset l /\ 0 < cap < 2 ^ 32 /\
  192 + cap * 40 <= l_ring_stride l < 2 ^ 32 /\ 0 <= l_max_ranks l < 2 ^ 32 /\
  l_control_ring_offset l + l_max_ranks l * l_ring_stride l <= l_total_bytes l < 2 ^ 64 /\
  0 <= l_max_ranks l * l_ring_stride l.
Proof using Hl.
  destruct Hl as [[] [] ? (k & Hk & Hc) ? ? ?]. places. pose proof (Z.pow_pos_nonneg 2 k ltac:(lia) ltac:(lia)).
  assert (2 ^ k < 2 ^ 32) by (apply Z.pow_lt_mono_r; lia). repeat split; try lia. nia.
Qed.
Lemma ring_place_bounds i : 0 <= i < l_max_ranks l ->
  l_control_ring_offset l <= ring_place l i /\ ring_place l i + l_ring_stride l <= l_total_bytes l.
Proof using Hl. intros Hi. pose proof layout_facts. unfold ring_place. nia. Qed.
Lemma ring_place_apart i j : 0 <= i -> 0 <= j -> i <> j ->
  ring_place l i + l_ring_stride l <= ring_place l j \/ ring_place l j + l_ring_stride l <= ring_place l i.
Proof using Hl. intros Hi Hj Hne. pose proof layout_facts. unfold ring_place. destruct (decide (i < j)); [left|right]; nia. Qed.

Definition header_ok (m : Mem) : Prop := exists pid epoch g now,
  values header_fields 0 m = cut_values header_fields (header_values l pid epoch g now).
Definition meta_ok (m : Mem) : Prop := values meta_fields meta_base m = [l_max_ranks l; l_ring_stride l; cap; 0].
Lemma represents_header m d : represents l cap m d -> header_ok m.
Proof using. intros [(pid & epoch & H) _ _ _ _]. by exists pid, epoch, (generation d), (header_heartbeat_ns d). Qed.
Section Header.
Context (m : Mem) (Hm : header_ok m).
Lemma header_fields_loaded : header_get "magic" m = OFLD_MAGIC /\ header_get "abi_version" m = OFLD_ABI_VERSION /\
  header_get "num_slots" m = l_num_slots l /\ header_get "num_arenas" m = l_num_arenas l /\
  header_get "arena_desc_offset" m = l_arena_desc_offset l /\
  header_get "slot_entries_offset" m = l_slot_entries_offset l /\ header_get "control_ring_offset" m = l_control_ring_offset l.
Proof using Hl Hm.
  destruct Hm as (pid & epoch & g & now & Hv). pose proof layout_facts.
  places. split_and!; (eapply get_of_values; [reflexivity|exact Hv|]); cbn [cut_values zip_with header_fields header_values lookup list_lookup fst snd];
    f_equal; (apply cut_u64 || apply cut_u32); unfold in_u32, in_u64, OFLD_MAGIC, OFLD_ABI_VERSION; lia.
Qed.
Lemma control_slot_loaded id : control_slot m id = slot_place l id.
Proof using Hl Hm. unfold control_slot. destruct header_fields_loaded as (_ & _ & _ & _ & _ & -> & _). done. Qed.
Lemma control_arena_loaded i : control_arena_desc m i = arena_place l i.
Proof using Hl Hm. unfold control_arena_desc. destruct header_fields_loaded as (_ & _ & _ & _ & -> & _). done. Qed.
Lemma ring_loaded i : meta_ok m ->
  ring_at_index m i = if decide (l_max_ranks l = 0 \/ i >= l_max_ranks l) then None else Some (ring_place l i).
Proof using Hl Hm.
  intros Hv. unfold ring_at_index. destruct header_fields_loaded as (_ & _ & _ & _ & _ & _ & ->).
  unfold meta_get. rewrite (get_of_values meta_fields meta_base "max_ranks" m _ _ _ _ _ eq_refl Hv eq_refl).
  by rewrite (get_of_values meta_fields meta_base "ring_stride" m _ _ _ _ _ eq_refl Hv eq_refl).
Qed.
End Header.
Lemma ring_of m d i : represents l cap m d -> 0 <= i < l_max_ranks l -> ring_at_index m i = Some (ring_place l i).
Proof using Hl.
  intros Hm Hi. rewrite (ring_loaded m (represents_header m d Hm) i (rp_meta _ _ _ _ Hm)). apply decide_False. lia.
Qed.

(** ** Stores *)
(** Two memories that agree on a range hold the same structures there. *)
Lemma values_agree fs size base m m' : chain 0 size fs -> (forall x, base <= x < base + size -> m x = m' x) ->
  values fs base m = values fs base m'.
Proof using.
  intros Hc H. unfold values. apply list_fmap_ext. intros i [n [o w]] Hi. cbn [fst snd]. unfold load_int, load. f_equal.
  apply list_fmap_ext. intros j k [-> Hk]%lookup_seq. apply H.
  pose proof (chain_lookup _ _ _ _ _ _ _ Hc Hi). lia.
Qed.
(** The bytes of the rings, of the slots and of the rest. *)
Definition agree (lo hi : Z) (m m' : Mem) : Prop := forall x, lo <= x < hi -> m x = m' x.
Lemma ring_bytes_agree h r m m' : agree h (h + 192 + cap * 40) m m' -> ring_bytes cap h r m -> ring_bytes cap h r m'.
Proof using Hl.
  intros Ha [Hh Hc H1 H2 He]. pose proof layout_facts. split; try done.
  - rewrite <- Hh. apply (values_agree _ _ _ _ _ ring_chain). intros x Hx. places. symmetry. apply Ha. lia.
  - intros k Hk. rewrite <- He by done. apply (values_agree _ _ _ _ _ entry_chain). intros x Hx. places. symmetry. apply Ha. lia.
Qed.
(** A store into the slot table. *)
Lemma represents_slots m m' d s : represents l cap m d ->
  agree 0 (l_slot_entries_offset l) m m' -> agree (l_control_ring_offset l) (l_total_bytes l) m m' ->
  (forall id e, s !! id = Some e -> 0 <= id < l_num_slots l ->
     values slot_fields (slot_place l id) m' = cut_values slot_fields (slot_values e)) ->
  represents l cap m' (d <| slots := s |>).
Proof using Hl.
  intros [(pid & epoch & Hh) Hme Har Hsl Hri] H1 H2 Hs. pose proof layout_facts. split.
  - exists pid, epoch. refine (eq_trans _ Hh). apply (values_agree _ _ _ _ _ header_chain). intros x Hx. places. symmetry. apply H1. lia.
  - rewrite <- Hme. apply (values_agree _ _ _ _ _ meta_chain). intros x Hx. places. symmetry. apply H1. lia.
  - intros i a Ha Hi. rewrite <- (Har i a Ha Hi). apply (values_agree _ _ _ _ _ arena_chain). intros x Hx. places. symmetry. apply H1. lia.
  - done.
  - intros i r Hr Hi. eapply ring_bytes_agree; [|by eapply Hri]. intros x Hx. apply H2. pose proof (ring_place_bounds i Hi). lia.
Qed.
(** A store into one ring. *)
Lemma represents_ring m m' d i rs : represents l cap m d -> 0 <= i < l_max_ranks l ->
  agree 0 (ring_place l i) m m' -> agree (ring_place l i + l_ring_stride l) (l_total_bytes l) m m' ->
  (forall j, i <> j -> rs !! j = rings d !! j) -> (forall r, rs !! i = Some r -> ring_bytes cap (ring_place l i) r m') ->
  represents l cap m' (d <| rings := rs |>).
Proof using Hl.
  intros [(pid & epoch & Hh) Hme Har Hsl Hri] Hi H1 H2 Hrs Hf. pose proof layout_facts. pose proof (ring_place_bounds i Hi). split.
  - exists pid, epoch. refine (eq_trans _ Hh). apply (values_agree _ _ _ _ _ header_chain). intros x Hx. places. symmetry. apply H1. lia.
  - rewrite <- Hme. apply (values_agree _ _ _ _ _ meta_chain). intros x Hx. places. symmetry. apply H1. lia.
  - intros j a Ha Hj. rewrite <- (Har j a Ha Hj). apply (values_agree _ _ _ _ _ arena_chain). intros x Hx. places. symmetry. apply H1. lia.
  - intros id e He Hid. rewrite <- (Hsl id e He Hid). apply (values_agree _ _ _ _ _ slot_chain). intros x Hx. places. symmetry. apply H1. lia.
  - intros j r Hr Hj. change (rs !! j = Some r) in Hr. destruct (decide (i = j)) as [<-|Hne]; [by apply Hf|].
    rewrite Hrs in Hr by done. eapply ring_bytes_agree; [|by eapply Hri]. intros x Hx.
    pose proof (ring_place_bounds j Hj). destruct (ring_place_apart i j) as [?|?]; [lia..|done| |]; [apply H2|apply H1]; lia.
Qed.
Lemma represents_alter_ring m m' d i f : represents l cap m d -> 0 <= i < l_max_ranks l ->
  agree 0 (ring_place l i) m m' -> agree (ring_place l i + l_ring_stride l) (l_total_bytes l) m m' ->
  (forall r, rings d !! i = Some r -> ring_bytes cap (ring_place l i) (f r) m') ->
  represents l cap m' (d <| rings ::= alter f i |>).
Proof using Hl.
  intros Hm Hi H1 H2 Hf. apply (represents_ring m m' d i (alter f i (rings d)) Hm Hi H1 H2).
  - intros j Hj. by apply lookup_alter_ne.
  - intros r. rewrite lookup_alter_eq. destruct (rings d !! i) as [r0|]; [|done]. intros [= <-]. by apply Hf.
Qed.
(** One structure is assigned; the rest of the memory stays. *)
Lemma set_fields_agree fs size base nvs m lo hi : chain 0 size fs -> hi <= base \/ base + size <= lo ->
  agree lo hi m (set_fields fs base nvs m).
Proof using. intros Hc H x Hx. symmetry. apply (set_fields_outside fs size base nvs x Hc). lia. Qed.
Lemma sw_mirrors w k e :
  cut_values slot_fields (assigns slot_fields (sw_stores w k (cut 8 (sl_capacity e))) (slot_values e)) =
  cut_values slot_fields (slot_values (sw_table w k e)).
Proof using.
  destruct w; try reflexivity; unfold sw_stores, reserve_stores, canonical_stores, readback_stores, warm_stores, sw_table, reserve_entry, canonical_entry, readback_entry, warm_entry;
    case_decide; try reflexivity; lazy -[cut]; by rewrite cut_cut.
Qed.
Lemma store_slot_represents w base k m d : represents l cap m d -> 0 <= u32 (base + k) < l_num_slots l ->
  represents l cap (store_slot w base m k) (d <| slots ::= alter (sw_table w k) (u32 (base + k)) |>).
Proof using Hl.
  intros Hm Hid. unfold store_slot. rewrite (control_slot_loaded m (represents_header m d Hm)). set (id := u32 (base + k)) in *. pose proof layout_facts.
  eapply (represents_slots m _ d _ Hm).
  - eapply set_fields_agree; [apply slot_chain|]. places. lia.
  - eapply set_fields_agree; [apply slot_chain|]. places. lia.
  - intros j e Hj Hin. destruct (decide (id = j)) as [->|Hne].
    + rewrite lookup_alter_eq in Hj. destruct (slots d !! j) as [e0|] eqn:He; [|done]. injection Hj as <-.
      pose proof (rp_slots _ _ _ _ Hm j e0 He Hin) as Hv. rewrite <- sw_mirrors.
      rewrite (get_of_values slot_fields (slot_place l j) "capacity" m _ _ _ _ _ eq_refl Hv eq_refl).
      apply (values_set_fields slot_fields sizeof_slot_entry _ _ slot_chain); [done|exact Hv].
    + rewrite lookup_alter_ne in Hj by done. rewrite <- (rp_slots _ _ _ _ Hm j e Hj Hin).
      apply (set_fields_values _ _ _ _ _ _ _ _ slot_chain slot_chain). unfold disjoint. places. lia.
Qed.
(** The bytes outside the region. *)
Definition inside (m m' : Mem) : Prop := forall x, ~ (0 <= x < l_total_bytes l) -> m' x = m x.
Lemma store_slot_inside w base k m d : represents l cap m d -> 0 <= u32 (base + k) < l_num_slots l -> inside m (store_slot w base m k).
Proof using Hl.
  intros Hm Hid x Hx. pose proof layout_facts. unfold store_slot. rewrite (control_slot_loaded m (represents_header m d Hm)).
  apply (set_fields_outside _ _ _ _ _ slot_chain). places. lia.
Qed.
Lemma store_run_represents w base count m d : represents l cap m d -> 0 <= base -> base + count <= l_num_slots l ->
  represents l cap (store_run w base count m) (d <| slots ::= update_run (sw_table w) base count |>) /\ inside m (store_run w base count m).
Proof using Hl.
  intros Hm Hb Hc. unfold store_run. pose proof layout_facts.
  enough (H' : forall ks s m0, (forall k, k ∈ ks -> 0 <= k < count) -> represents l cap m0 (d <| slots := s |>) -> inside m m0 ->
    represents l cap (foldl (store_slot w base) m0 ks) (d <| slots := foldl (fun s k => alter (sw_table w k) (u32 (base + k)) s) s ks |>) /\
    inside m (foldl (store_slot w base) m0 ks)).
  { apply (H' (seqZ 0 count) (slots d) m); [intros k Hk%elem_of_seqZ; lia| |done]. by destruct d. }
  induction ks as [|k ks IH]; intros s m0 Hk H0 Hi; [done|]. cbn [foldl].
  assert (0 <= k < count) by (apply Hk; left). assert (0 <= u32 (base + k) < l_num_slots l) by (rewrite u32_small; unfold in_u32; lia).
  apply IH; [intros j Hj; apply Hk; by right|by apply (store_slot_represents w base k m0 _ H0)|].
  intros x Hx. rewrite <- (Hi x Hx). by apply (store_slot_inside w base k m0 _ H0).
Qed.

(** ** Rings *)
Section OneRing.
Context (h : Z) (r : CompletionRing) (m : Mem) (Hr : ring_bytes cap h r m).
Lemma ring_fields_loaded : get_field ring_fields h "capacity" m = cap /\ get_field ring_fields h "head" m = r_head r /\
  get_field ring_fields h "tail" m = r_tail r /\ get_field ring_fields h "owner_rank" m = cut 4 (r_owner_rank r) /\
  get_field ring_fields h "rank_epoch" m = cut 8 (r_rank_epoch r).
Proof using Hl Hr.
  destruct Hr as [Hh Hc H1 H2 _]. pose proof layout_facts.
  assert (cut 4 (r_capacity r) = cap) by (rewrite Hc; apply cut_u32; unfold in_u32; lia).
  split_and!.
  - rewrite (get_of_values ring_fields h "capacity" m _ _ _ _ _ eq_refl Hh eq_refl). done.
  - rewrite (get_of_values ring_fields h "head" m _ _ _ _ _ eq_refl Hh eq_refl). by apply cut_u64.
  - rewrite (get_of_values ring_fields h "tail" m _ _ _ _ _ eq_refl Hh eq_refl). by apply cut_u64.
  - exact (get_of_values ring_fields h "owner_rank" m _ _ _ _ _ eq_refl Hh eq_refl).
  - exact (get_of_values ring_fields h "rank_epoch" m _ _ _ _ _ eq_refl Hh eq_refl).
Qed.
Lemma index_loaded i : in_u64 i -> Z.land i (u32 (cap - 1)) = ring_index r i /\ 0 <= ring_index r i < cap.
Proof using Hl Hr.
  intros Hi. pose proof layout_facts. unfold ring_index. rewrite (rb_capacity _ _ _ _ Hr). rewrite u32_small by (unfold in_u32; lia).
  split; [done|]. rewrite <- (u64_small i Hi), (ring_mask cap i (lo_cap _ _ Hl)). apply Z.mod_pos_bound. lia.
Qed.
(** Assignments to the header of the ring. *)
Lemma set_ring_header nvs r' : r_capacity r' = cap -> in_u64 (r_head r') -> in_u64 (r_tail r') -> r_entries r' = r_entries r ->
  assigns ring_fields nvs (ring_values r) = ring_values r' -> ring_bytes cap h r' (set_fields ring_fields h nvs m).
Proof using Hl Hr.
  intros Hc H1 H2 He Ha. split; try done.
  - rewrite <- Ha. apply (values_set_fields _ _ _ _ ring_chain); [done|apply Hr].
  - intros k Hk. rewrite He, <- (rb_entries _ _ _ _ Hr k Hk).
    apply (set_fields_values _ _ _ _ _ _ _ _ ring_chain entry_chain). unfold disjoint. places. lia.
Qed.
End OneRing.
Lemma push_represents h r m e : ring_bytes cap h r m -> entry_fits e ->
  (push_bytes h e m).1 = (ring_push r e).1 /\ ring_bytes cap h (ring_push r e).2 (push_bytes h e m).2.
Proof using Hl.
  intros Hr He. pose proof layout_facts. unfold push_bytes, ring_push.
  destruct (ring_fields_loaded h r m Hr) as (-> & -> & -> & _). rewrite (rb_capacity _ _ _ _ Hr).
  case_decide; [done|]. split; [done|]. cbn [snd].
  destruct (index_loaded h r m Hr (r_tail r) (rb_tail _ _ _ _ Hr)) as [-> Hi]. set (k := ring_index r (r_tail r)) in *.
  set (m1 := set_fields entry_fields (ring_entry h k) _ m).
  assert (H1 : ring_bytes cap h (r <| r_entries ::= <[k := e]> |>) m1).
  { destruct Hr as [Hh Hc Ha Hb Hes]. split; try done.
    - refine (eq_trans _ Hh). apply (set_fields_values _ _ _ _ _ _ _ _ entry_chain ring_chain). unfold disjoint. places. lia.
    - intros j Hj. change (r_entries _ !!! j) with (<[k := e]> (r_entries r) !!! j). destruct (decide (k = j)) as [<-|Hne].
      + rewrite lookup_total_insert_eq, <- He. unfold m1. by rewrite (values_set_fields _ _ _ _ entry_chain (values entry_fields (ring_entry h k) m) m eq_refl (values_cut _ _ _)).
      + rewrite lookup_total_insert_ne by done. rewrite <- (Hes j Hj).
        apply (set_fields_values _ _ _ _ _ _ _ _ entry_chain entry_chain). unfold disjoint. places. lia. }
  apply (set_ring_header h _ m1 H1); try done; [apply Hr|apply Hr|apply u64_range].
Qed.
Lemma pop_represents h r m : ring_bytes cap h r m ->
  (pop_bytes h m).1 = (ring_pop r).1 /\ ring_bytes cap h (ring_pop r).2 (pop_bytes h m).2.
Proof using Hl.
  intros Hr. pose proof layout_facts. unfold pop_bytes, ring_pop.
  destruct (ring_fields_loaded h r m Hr) as (-> & -> & -> & _). case_decide; [done|]. cbn [fst snd].
  destruct (index_loaded h r m Hr (r_head r) (rb_head _ _ _ _ Hr)) as [-> Hi]. set (k := ring_index r (r_head r)) in *. split.
  - f_equal. pose proof (rb_entries _ _ _ _ Hr k Hi) as He. destruct (r_entries r !!! k) eqn:Ee.
    unfold load_entry. f_equal; (eapply get_of_values; [reflexivity|exact He|reflexivity]).
  - apply (set_ring_header h r m Hr); try done; [apply Hr|apply u64_range|apply Hr].
Qed.
(** The stores of both stay in the ring. *)
Lemma push_agree h r e m lo hi : ring_bytes cap h r m -> hi <= h \/ h + 192 + cap * 40 <= lo -> agree lo hi m (push_bytes h e m).2.
Proof using Hl.
  intros Hr Ho. pose proof layout_facts. unfold push_bytes. destruct (ring_fields_loaded h r m Hr) as (-> & -> & -> & _).
  case_decide; [done|]. cbn [snd]. destruct (index_loaded h r m Hr (r_tail r) (rb_tail _ _ _ _ Hr)) as [-> Hi].
  intros x Hx. rewrite (set_fields_outside ring_fields _ h _ x ring_chain) by (places; lia).
  rewrite (set_fields_outside entry_fields _ _ _ x entry_chain) by (places; lia). done.
Qed.
Lemma pop_agree h m lo hi : hi <= h \/ h + 192 <= lo -> agree lo hi m (pop_bytes h m).2.
Proof using.
  intros Ho. unfold pop_bytes. case_decide; [done|]. cbn [snd]. eapply set_fields_agree; [apply ring_chain|]. places. lia.
Qed.

(** ** Every store *)
Definition cw_ok (d : Daemon) (w : control_write) : Prop :=
  match w with
  | CwRun _ base count => 0 <= base /\ base + count <= l_num_slots l
  | CwHeartbeat _ => True
  | CwRingAssign i _ _ | CwRingRelease i | CwRingPop i => 0 <= i < l_max_ranks l /\ is_Some (rings d !! i)
  | CwRingPush i e => (0 <= i < l_max_ranks l /\ is_Some (rings d !! i)) /\ entry_fits e
  end.
Lemma heartbeat_represents now m d : represents l cap m d ->
  represents l cap (set_fields header_fields 0 [("heartbeat_ns", now)] m) (d <| header_heartbeat_ns := now |>).
Proof using Hl.
  intros [(pid & epoch & Hh) Hme Har Hsl Hri]. pose proof layout_facts. split.
  - exists pid, epoch. apply (values_set_fields _ _ _ [("heartbeat_ns", now)] header_chain (header_values l pid epoch (generation d) (header_heartbeat_ns d))); [done|exact Hh].
  - refine (eq_trans _ Hme). apply (set_fields_values _ _ _ _ _ _ _ _ header_chain meta_chain). unfold disjoint. places. lia.
  - intros i a Ha Hi. refine (eq_trans _ (Har i a Ha Hi)).
    apply (set_fields_values _ _ _ _ _ _ _ _ header_chain arena_chain). unfold disjoint. places. lia.
  - intros id e He Hid. refine (eq_trans _ (Hsl id e He Hid)).
    apply (set_fields_values _ _ _ _ _ _ _ _ header_chain slot_chain). unfold disjoint. places. lia.
  - intros i r Hr Hi. eapply ring_bytes_agree; [|by eapply Hri]. pose proof (ring_place_bounds i Hi).
    eapply set_fields_agree; [apply header_chain|]. lia.
Qed.
Lemma ring_header_represents m d i nvs f : represents l cap m d -> 0 <= i < l_max_ranks l ->
  (forall r, r_capacity (f r) = r_capacity r /\ r_entries (f r) = r_entries r /\
     assigns ring_fields nvs (ring_values r) = ring_values (f r) /\
     (in_u64 (r_head r) -> in_u64 (r_head (f r))) /\ (in_u64 (r_tail r) -> in_u64 (r_tail (f r)))) ->
  represents l cap (on_ring i (fun h => set_fields ring_fields h nvs) m) (d <| rings ::= alter f i |>).
Proof using Hl.
  intros Hm Hi Hf. unfold on_ring. rewrite (ring_of m d i Hm Hi). pose proof layout_facts.
  eapply (represents_alter_ring m); [done|done| | |].
  - eapply set_fields_agree; [apply ring_chain|]. lia.
  - eapply set_fields_agree; [apply ring_chain|]. places. lia.
  - intros r Hr. destruct (Hf r) as (H1 & H2 & H3 & H4 & H5). pose proof (rp_rings _ _ _ _ Hm i r Hr Hi) as Hb.
    apply (set_ring_header _ r m Hb); try done; [|by apply H4; apply Hb|by apply H5; apply Hb].
    rewrite H1. apply Hb.
Qed.
Lemma write_inside m d w : represents l cap m d -> cw_ok d w -> inside m (cw_stores w m).
Proof using Hl.
  intros Hm Hw. pose proof layout_facts.
  assert (Hr : forall i, 0 <= i < l_max_ranks l -> is_Some (rings d !! i) -> ring_at_index m i = Some (ring_place l i) /\
    0 <= ring_place l i /\ ring_place l i + 192 + cap * 40 <= l_total_bytes l /\ exists r, ring_bytes cap (ring_place l i) r m).
  { intros i Hi [r Hr]. pose proof (ring_place_bounds i Hi). split_and!; [by apply (ring_of m d)|lia|lia|].
    exists r. by apply (rp_rings _ _ _ _ Hm). }
  destruct w as [w base count|now|i rank_id epoch|i|i e|i]; cbn [cw_stores] in *; intros x Hx.
  - destruct Hw as [H1 H2]. by apply (proj2 (store_run_represents w base count m d Hm H1 H2)).
  - apply (set_fields_outside _ _ _ _ _ header_chain). lia.
  - destruct Hw as [Hi Hs], (Hr i Hi Hs) as (E & ? & ? & _). unfold on_ring. rewrite E.
    apply (set_fields_outside _ _ _ _ _ ring_chain). places. lia.
  - destruct Hw as [Hi Hs], (Hr i Hi Hs) as (E & ? & ? & _). unfold on_ring. rewrite E.
    apply (set_fields_outside _ _ _ _ _ ring_chain). places. lia.
  - destruct Hw as [[Hi Hs] _], (Hr i Hi Hs) as (E & ? & ? & r & Hb). unfold on_ring. rewrite E. symmetry.
    destruct (decide (x < 0)); [apply (push_agree _ r e m x 0 Hb)|apply (push_agree _ r e m x (x + 1) Hb)]; lia.
  - destruct Hw as [Hi Hs], (Hr i Hi Hs) as (E & ? & ? & _). unfold on_ring. rewrite E. symmetry.
    destruct (decide (x < 0)); [apply (pop_agree _ m x 0)|apply (pop_agree _ m x (x + 1))]; lia.
Qed.
Lemma write_represents m d w : represents l cap m d -> cw_ok d w -> represents l cap (cw_stores w m) (cw_table w d).
Proof using Hl.
  intros Hm Hw. pose proof layout_facts. destruct w as [w base count|now|i rank_id epoch|i|i e|i]; cbn [cw_stores cw_table].
  - destruct Hw. by apply store_run_represents.
  - by apply heartbeat_represents.
  - destruct Hw. apply ring_header_represents; [done|done|]. intros r. by split_and!.
  - destruct Hw. apply ring_header_represents; [done|done|]. intros r. by split_and!.
  - destruct Hw as [[Hi [r Hr]] He]. unfold on_ring. rewrite (ring_of m d i Hm Hi).
    pose proof (rp_rings _ _ _ _ Hm i r Hr Hi) as Hb. eapply (represents_alter_ring m); [done|done| | |].
    + eapply push_agree; [exact Hb|]. lia.
    + eapply push_agree; [exact Hb|]. lia.
    + intros r' Hr'. rewrite Hr in Hr'. injection Hr' as <-. by apply push_represents.
  - destruct Hw as [Hi [r Hr]]. unfold on_ring. rewrite (ring_of m d i Hm Hi).
    pose proof (rp_rings _ _ _ _ Hm i r Hr Hi) as Hb. eapply (represents_alter_ring m); [done|done| | |].
    + apply pop_agree. lia.
    + apply pop_agree. lia.
    + intros r' Hr'. rewrite Hr in Hr'. injection Hr' as <-. by apply pop_represents.
Qed.

(** ** Loads of a rank *)
Lemma load_slot m d id e : represents l cap m d -> slots d !! id = Some e -> 0 <= id < l_num_slots l ->
  load_slot_state id m = slot_state_value (sl_state e) /\
  get_field slot_fields (control_slot m id) "arena_id" m = cut 8 (sl_arena_id e) /\
  get_field slot_fields (control_slot m id) "arena_offset" m = cut 8 (sl_arena_offset e).
Proof using Hl.
  intros Hm He Hid. unfold load_slot_state. rewrite !(control_slot_loaded m (represents_header m d Hm)).
  pose proof (rp_slots _ _ _ _ Hm id e He Hid) as Hv.
  rewrite (get_of_values slot_fields _ "state" m _ _ _ _ _ eq_refl Hv eq_refl).
  rewrite (get_of_values slot_fields _ "arena_id" m _ _ _ _ _ eq_refl Hv eq_refl).
  rewrite (get_of_values slot_fields _ "arena_offset" m _ _ _ _ _ eq_refl Hv eq_refl). split; [|done]. by destruct (sl_state e).
Qed.
Lemma load_own_ring m d i r rank_id rank_epoch : represents l cap m d -> rings d !! i = Some r -> 0 <= i < l_max_ranks l ->
  own_ring i rank_id rank_epoch m =
  if decide (cut 4 (r_owner_rank r) = rank_id /\ cut 8 (r_rank_epoch r) = rank_epoch) then Some (ring_place l i) else None.
Proof using Hl.
  intros Hm Hr Hi. pose proof layout_facts. unfold own_ring. rewrite decide_False by (unfold NO_U32; lia).
  rewrite (ring_of m d i Hm Hi). destruct (ring_fields_loaded _ r m (rp_rings _ _ _ _ Hm i r Hr Hi)) as (_ & _ & _ & -> & ->). done.
Qed.
Lemma check_header_ok m d : represents l cap m d -> check_header m = Ok (l_num_slots l).
Proof using Hl.
  intros Hm. unfold check_header. destruct (header_fields_loaded m (represents_header m d Hm)) as (-> & -> & -> & _).
  by rewrite !decide_False by auto.
Qed.

(** ** Start-up *)
(** A structure whose bytes are zero. *)
Lemma values_zero fs size base m n : chain 0 size fs -> (forall x, base <= x < base + size -> m x = x00) -> n = length fs ->
  values fs base m = cut_values fs (replicate n 0).
Proof using. intros Hc Hz ->. rewrite <- (values_zeroed fs base). by apply (values_agree fs size). Qed.
(** All members are assigned. *)
Lemma written fs size base nvs m vs : chain 0 size fs -> assigns fs nvs (values fs base m) = vs ->
  values fs base (set_fields fs base nvs m) = cut_values fs vs.
Proof using.
  intros Hc <-. apply (values_set_fields fs size base nvs Hc (values fs base m) m); [unfold values; by rewrite length_fmap|apply values_cut].
Qed.
Lemma arenas_written arenas : forall k m, header_ok m -> Z.of_nat (k + length arenas) <= l_num_arenas l ->
  let m' := foldl write_arena_desc m (imap (fun i a => (k + i, a)%nat) arenas) in
  (forall x, x < arena_place l (Z.of_nat k) -> m x = m' x) /\ (forall x, l_slot_entries_offset l <= x -> m' x = m x) /\
  forall i a, arenas !! i = Some a ->
    values arena_fields (arena_place l (Z.of_nat (k + i))) m' = cut_values arena_fields (arena_values a).
Proof using Hl.
  pose proof layout_facts. induction arenas as [|a arenas IH]; intros k m Hm Hk; [done|]. cbn [imap foldl length] in *.
  assert (E1 : exists nvs, write_arena_desc m ((k + 0)%nat, a) = set_fields arena_fields (arena_place l (Z.of_nat k)) nvs m /\
    forall vs, length vs = 9%nat -> assigns arena_fields nvs vs = arena_values a).
  { eexists. unfold write_arena_desc. cbn [fst snd]. rewrite Nat.add_0_r, (control_arena_loaded m Hm). split; [reflexivity|].
    intros vs Hvs. do 10 (destruct vs as [|? vs]; try done). }
  destruct E1 as (nvs & -> & Hnvs). set (m1 := set_fields _ _ nvs m).
  assert (Hm1 : forall lo hi, hi <= arena_place l (Z.of_nat k) \/ arena_place l (Z.of_nat k) + 80 <= lo -> agree lo hi m m1)
    by (intros lo hi Hlh; apply (set_fields_agree _ _ _ _ _ _ _ arena_chain); done).
  assert (Hh1 : header_ok m1).
  { destruct Hm as (pid & epoch & g & now & Hv). exists pid, epoch, g, now. rewrite <- Hv. symmetry.
    apply (values_agree _ _ _ _ _ header_chain). apply Hm1. places. lia. }
  assert (Ei : imap (fun i a0 => ((k + S i)%nat, a0)) arenas = imap (fun i a0 => ((S k + i)%nat, a0)) arenas)
    by (apply imap_ext; intros; f_equal; lia).
  assert (Hp : arena_place l (Z.of_nat (S k)) = arena_place l (Z.of_nat k) + 80) by (places; lia).
  unfold compose. rewrite Ei. destruct (IH (S k) m1 Hh1 ltac:(lia)) as (H1 & H2 & H3). split_and!.
  - intros x Hx. rewrite (Hm1 x (x + 1) ltac:(lia) x ltac:(lia)). apply H1. lia.
  - intros x Hx. rewrite (H2 x Hx). symmetry. apply (Hm1 x (x + 1)); [|lia]. places. lia.
  - intros [|i] b Hb; [|rewrite <- (H3 i b Hb); do 2 f_equal; lia]. injection Hb as <-. rewrite Nat.add_0_r.
    transitivity (values arena_fields (arena_place l (Z.of_nat k)) m1).
    + symmetry. apply (values_agree _ _ _ _ _ arena_chain). intros x Hx. apply H1. places. lia.
    + apply (written _ _ _ _ _ _ arena_chain). by apply Hnvs.
Qed.
Lemma ring_written m d i : represents l cap m d -> 0 <= i < l_max_ranks l ->
  (forall x, ring_place l i + 192 <= x < ring_place l i + l_ring_stride l -> m x = x00) ->
  represents l cap (init_ring cap m i) (d <| rings ::= <[i := ring_init cap]> |>) /\
  (forall x, ~ (ring_place l i <= x < ring_place l i + 192) -> init_ring cap m i x = m x).
Proof using Hl.
  intros Hm Hi Hz. pose proof layout_facts. unfold init_ring. rewrite (ring_of m d i Hm Hi).
  assert (Ho : forall nvs x, ~ (ring_place l i <= x < ring_place l i + 192) -> set_fields ring_fields (ring_place l i) nvs m x = m x)
    by (intros nvs x Hx; apply (set_fields_outside _ _ _ _ _ ring_chain); places; lia).
  split; [|intros x Hx; by apply Ho]. eapply (represents_ring m _ d i); [done|done| | | |].
  - intros x Hx. rewrite Ho; [done|lia].
  - intros x Hx. rewrite Ho; [done|lia].
  - intros j Hj. by apply lookup_insert_ne.
  - intros r. rewrite lookup_insert_eq. intros [= <-]. split; [|done|unfold in_u64; cbn; lia|unfold in_u64; cbn; lia|].
    + by apply (written _ _ _ _ _ _ ring_chain).
    + intros k Hk. cbn [ring_init r_entries]. rewrite lookup_total_empty.
      rewrite (values_zero entry_fields 40 _ _ 6 entry_chain); [done| |done]. intros x Hx. places. rewrite Ho by lia. apply Hz. lia.
Qed.
Lemma rings_written ks : forall m d, represents l cap m d -> NoDup ks -> (forall i, i ∈ ks -> 0 <= i < l_max_ranks l) ->
  (forall i x, i ∈ ks -> ring_place l i <= x < ring_place l i + l_ring_stride l -> m x = x00) ->
  represents l cap (foldl (init_ring cap) m ks) (d <| rings := foldl (fun rs i => <[i := ring_init cap]> rs) (rings d) ks |>) /\
  inside m (foldl (init_ring cap) m ks).
Proof using Hl.
  pose proof layout_facts. induction ks as [|i ks IH]; intros m d Hm Hnd Hks Hz; [by destruct d|]. cbn [foldl].
  apply NoDup_cons in Hnd as [Hni Hnd]. assert (Hi : 0 <= i < l_max_ranks l) by (apply Hks; left).
  destruct (ring_written m d i Hm Hi) as [H1 H2]. { intros x Hx. apply (Hz i x); [left|lia]. }
  destruct (IH _ (d <| rings ::= <[i := ring_init cap]> |>) H1 Hnd) as [R1 R2]; [intros j Hj; apply Hks; by right| |].
  { intros j x Hj Hx. assert (j <> i) by (by intros ->). assert (0 <= j < l_max_ranks l) by (apply Hks; by right).
    rewrite H2; [apply (Hz j x); [by right|done]|]. destruct (ring_place_apart i j); lia. }
  split; [exact R1|]. intros x Hx. rewrite (R2 x Hx). apply H2. pose proof (ring_place_bounds i Hi). lia.
Qed.
Lemma build_control_represents pid epoch now arenas d : generation d = 1 -> header_heartbeat_ns d = now ->
  State.arenas d = arenas -> Z.of_nat (length arenas) = l_num_arenas l -> (forall id e, slots d !! id = Some e -> e = inhabitant) -> rings d = ∅ ->
  represents l cap (build_control l cap pid epoch now arenas)
    (d <| rings := foldl (fun rs i => <[i := ring_init cap]> rs) ∅ (seqZ 0 (l_max_ranks l)) |>) /\
  inside zeroed (build_control l cap pid epoch now arenas).
Proof using Hl.
  intros Hg Hn Ha Hla Hs Hr. pose proof layout_facts. unfold build_control. set (m1 := write_header l pid epoch now zeroed).
  assert (Hv1 : values header_fields 0 m1 = cut_values header_fields (header_values l pid epoch 1 now))
    by (by apply (written _ _ _ _ _ _ header_chain)).
  assert (Hz1 : forall x, 80 <= x -> m1 x = x00) by (intros x Hx; apply (set_fields_outside _ _ _ _ _ header_chain); lia).
  destruct (arenas_written arenas 0 m1) as (H1 & H2 & H3); [by exists pid, epoch, 1, now|cbn; lia|].
  change (imap (fun i a => ((0 + i)%nat, a)) arenas) with (imap pair arenas) in *. set (m2 := foldl write_arena_desc m1 _) in *.
  assert (Hz2 : forall x, l_slot_entries_offset l <= x -> m2 x = x00) by (intros x Hx; rewrite (H2 x Hx); apply Hz1; lia).
  set (m3 := write_ring_meta l cap m2).
  assert (Hm3 : forall x, ~ (80 <= x < 96) -> m3 x = m2 x) by (intros x Hx; apply (set_fields_outside _ _ _ _ _ meta_chain); places; lia).
  assert (R3 : represents l cap m3 d).
  { split.
    - exists pid, epoch. rewrite Hg, Hn, <- Hv1. apply (values_agree _ _ _ _ _ header_chain). intros x Hx. rewrite Hm3 by lia.
      symmetry. apply H1. places. lia.
    - unfold m3, write_ring_meta. etransitivity; [apply (written _ _ _ _ _ [l_max_ranks l; l_ring_stride l; cap; 0] meta_chain); reflexivity|].
      unfold cut_values, meta_fields. cbn [zip_with fst snd]. by rewrite !cut_u32 by (unfold in_u32; lia).
    - intros i a Hi Hlt. rewrite Ha in Hi. rewrite <- (H3 i a Hi). apply (values_agree _ _ _ _ _ arena_chain). intros x Hx. places. apply Hm3. lia.
    - intros id e He Hid. rewrite (Hs id e He). apply (values_zero _ _ _ _ 20 slot_chain); [|done].
      intros x Hx. places. rewrite Hm3 by lia. apply Hz2. lia.
    - intros i r Hi. by rewrite Hr in Hi. }
  destruct (rings_written (seqZ 0 (l_max_ranks l)) m3 d R3) as [R4 R5]; [apply NoDup_seqZ|intros i Hi%elem_of_seqZ; lia| |].
  { intros i x Hi%elem_of_seqZ Hx. pose proof (ring_place_bounds i ltac:(lia)). rewrite Hm3 by lia. apply Hz2. lia. }
  rewrite Hr in R4. split; [exact R4|]. intros x Hx. rewrite (R5 x Hx), Hm3 by lia. destruct (decide (x < 0)).
  - rewrite <- (H1 x) by (places; lia). apply (set_fields_outside _ _ _ _ _ header_chain). lia.
  - apply Hz2. lia.
Qed.
(** *** The slot plan *)
Context (d : Daemon).
Abbreviation holds m s := (represents l cap m (d <| slots := s |>) /\ inside zeroed m).
Lemma write_slot_represents m s id e : holds m s -> 0 <= id < l_num_slots l -> holds (write_slot id e m) (<[id := e]> s).
Proof using Hl.
  intros [Hm Hz] Hid. pose proof layout_facts. unfold write_slot. rewrite (control_slot_loaded m (represents_header _ _ Hm)).
  split; [|intros x Hx; rewrite <- (Hz x Hx); apply (set_fields_outside _ _ _ _ _ slot_chain); places; lia].
  apply (represents_slots m _ (d <| slots := s |>) (<[id := e]> s) Hm).
  - eapply set_fields_agree; [apply slot_chain|]. places. lia.
  - eapply set_fields_agree; [apply slot_chain|]. places. lia.
  - intros j e' Hj Hin. destruct (decide (id = j)) as [->|Hne].
    + rewrite lookup_insert_eq in Hj. injection Hj as <-. by apply (written _ _ _ _ _ _ slot_chain).
    + rewrite lookup_insert_ne in Hj by done. rewrite <- (rp_slots _ _ _ _ Hm j e' Hj Hin).
      apply (set_fields_values _ _ _ _ _ _ _ _ slot_chain slot_chain). unfold disjoint. places. lia.
Qed.
Lemma carve_slots_represents (entry : Z -> Z -> slot_entry) ks : forall m s ids next, holds m s ->
  0 <= next -> next + Z.of_nat (length ks) <= l_num_slots l ->
  let '(s', _, next') := foldl (fun '(m, ids, next) k => (<[next := entry next k]> m, ids ++ [next], u32 (next + 1))) (s, ids, next) ks in
  holds (foldl (fun '(m, next) k => (write_slot next (entry next k) m, u32 (next + 1))) (m, next) ks).1 s' /\
  next' = next + Z.of_nat (length ks).
Proof using Hl.
  pose proof layout_facts. induction ks as [|k ks IH]; intros m s ids next Hm H0 Hn; [split; [done|cbn; lia]|]. cbn [foldl length] in *.
  specialize (IH (write_slot next (entry next k) m) (<[next := entry next k]> s) (ids ++ [next]) (u32 (next + 1))).
  rewrite (u32_small (next + 1)) in IH |- * by (unfold in_u32; lia).
  destruct (foldl _ (<[next := entry next k]> s, _, _) ks) as [[s' ids'] next'].
  destruct IH as [H1 H2]; [apply write_slot_represents; [done|lia]|lia..|]. split; [done|lia].
Qed.
Lemma carve_window_represents gran ac arena p m win : 0 < gran -> holds m (p_slots p) -> 0 <= p_global_slot p -> 0 <= win.2 ->
  p_global_slot p + win.2 / gran <= l_num_slots l ->
  let pm := carve_window_stores gran ac arena (p, m) win in
  pm.1 = carve_window gran ac arena p win /\ holds pm.2 (p_slots pm.1) /\ p_global_slot pm.1 = p_global_slot p + win.2 / gran.
Proof using Hl.
  destruct win as [[gpu0 ov] bytes]. cbn [snd]. intros Hg Hm H0 Hb Hn. pose proof (Z.div_pos bytes gran Hb Hg). cbn [carve_window_stores fst snd].
  set (gpu := if ov then kOverflowGpu else gpu0). split; [done|]. unfold carve_window. case_decide as Hz.
  { rewrite Hz. cbn. by rewrite Z.add_0_r. }
  pose proof (carve_slots_represents (fun next k => carved_slot gran ac arena gpu ov (p_cursor p) next k) (seqZ 0 (bytes / gran)) m
    (p_slots p) [] (p_global_slot p) Hm H0) as HH. fold gpu. rewrite length_seqZ in HH.
  destruct (foldl _ (p_slots p, [], p_global_slot p) _) as [[s' ids] next']. destruct HH as [H1 H2]; [lia|]. split; [exact H1|]. cbn [p_global_slot fst]. lia.
Qed.
Lemma carve_windows_represents gran ac arena wins : forall p m, 0 < gran -> Forall (fun w => 0 <= w.2) wins -> holds m (p_slots p) ->
  0 <= p_global_slot p -> p_global_slot p + sumZ ((fun b => b / gran) <$> wins.*2) <= l_num_slots l ->
  let pm := foldl (carve_window_stores gran ac arena) (p, m) wins in
  pm.1 = foldl (carve_window gran ac arena) p wins /\ holds pm.2 (p_slots pm.1) /\
  p_global_slot pm.1 = p_global_slot p + sumZ ((fun b => b / gran) <$> wins.*2).
Proof using Hl.
  induction wins as [|w wins IH]; intros p m Hg Hw Hm H0 Hn; [unfold sumZ; cbn; by rewrite Z.add_0_r|].
  apply Forall_cons in Hw as [Hw Hws]. rewrite !fmap_cons, sumZ_cons in *. cbn [foldl].
  assert (0 <= sumZ ((fun b => b / gran) <$> wins.*2)).
  { apply sumZ_nonneg. apply Forall_fmap. eapply Forall_impl; [exact Hws|]. intros x Hx. by apply Z.div_pos. }
  pose proof (Z.div_pos w.2 gran Hw Hg).
  destruct (carve_window_represents gran ac arena p m w Hg Hm H0 Hw ltac:(lia)) as (E & R1 & R2).
  destruct (carve_window_stores gran ac arena (p, m) w) as [p1 m1]. cbn [fst snd] in *. subst p1.
  destruct (IH (carve_window gran ac arena p w) m1 Hg Hws R1) as (E2 & R3 & R4); [lia..|]. rewrite E2 in *. split; [done|]. split; [done|lia].
Qed.
Lemma carve_arenas_represents gran acs : forall p m, 0 < gran -> Forall (fun aca => Forall (fun w => 0 <= w.2) (arena_windows aca.1)) acs ->
  holds m (p_slots p) -> 0 <= p_global_slot p -> p_global_slot p + sumZ ((fun aca => arena_slots gran aca.1) <$> acs) <= l_num_slots l ->
  let pm := foldl (carve_arena_stores gran) (p, m) acs in
  pm.1 = foldl (carve_arena gran) p acs /\ holds pm.2 (p_slots pm.1).
Proof using Hl.
  induction acs as [|[ac arena] acs IH]; intros p m Hg Hw Hm H0 Hn; [done|].
  apply Forall_cons in Hw as [Hw Hws]. rewrite fmap_cons, sumZ_cons in Hn. cbn [foldl fst] in *.
  assert (Hge : forall wins : list (Z * bool * Z), Forall (fun w => 0 <= w.2) wins -> 0 <= sumZ ((fun b => b / gran) <$> wins.*2)).
  { intros wins Hx. apply sumZ_nonneg. apply Forall_fmap. eapply Forall_impl; [exact Hx|]. intros x Hx0. by apply Z.div_pos. }
  assert (0 <= sumZ ((fun aca => arena_slots gran aca.1) <$> acs)).
  { apply sumZ_nonneg. eapply Forall_impl; [exact Hws|]. intros x Hx. by apply Hge. }
  pose proof (Hge _ Hw : 0 <= arena_slots gran ac).
  set (p0 := p <| p_cursor := 0 |>).
  destruct (carve_windows_represents gran ac arena (arena_windows ac) p0 m Hg Hw Hm H0) as (E & R1 & R2).
  { change (p_global_slot p + arena_slots gran ac <= l_num_slots l). lia. }
  fold (arena_slots gran ac) in R2. change (p_global_slot p0) with (p_global_slot p) in R2.
  change (carve_arena_stores gran (p, m) (ac, arena)) with (foldl (carve_window_stores gran ac arena) (p0, m) (arena_windows ac)).
  change (carve_arena gran p (ac, arena)) with (foldl (carve_window gran ac arena) p0 (arena_windows ac)).
  set (pm1 := foldl (carve_window_stores gran ac arena) _ _) in *. rewrite (surjective_pairing pm1). rewrite E in *.
  apply IH; try done; rewrite R2; lia.
Qed.
End Represented.

(** ** The daemon's region *)
Lemma build_layout_ok na ns cap rmax : in_u32 na -> in_u32 ns -> pow2_cap cap -> cap <= 2 ^ 26 -> 0 <= rmax <= 2 ^ 20 ->
  layout_ok (build_layout na ns cap rmax) cap.
Proof.
  intros Ha Hs (k & Hk & Ek) Hc Hm. assert (1 <= cap) by (rewrite Ek; apply (Z.pow_le_mono_r 2 0 k); lia).
  destruct (completion_ring_bytes_spec cap) as [B _]; [lia|]. unfold sizeof_ring_header, sizeof_completion_entry in *.
  assert (Est : u32 (completion_ring_bytes cap) = completion_ring_bytes cap) by (apply u32_small; split; lia).
  unfold build_layout. rewrite Est. set (st := completion_ring_bytes cap) in *.
  assert (Harea : 0 <= rmax * st < 2 ^ 62) by nia.
  assert (Ea : (if decide (rmax = 0) then 0 else u64 (rmax * st)) = rmax * st).
  { case_decide; [subst; lia|]. apply u64_small. split; lia. }
  rewrite Ea. destruct (layout_spec na ns (rmax * st) Ha Hs Harea) as ((E1 & E2 & E3 & E4) & _).
  assert (En : l_num_arenas (compute_control_layout na ns (rmax * st)) = na /\ l_num_slots (compute_control_layout na ns (rmax * st)) = ns) by done.
  destruct (compute_control_layout na ns (rmax * st)) as [o1 o2 o3 o4 o5 o6 o7 o8 o9 o10]. unfold in_u32, sizeof_arena_desc, sizeof_slot_entry in *.
  cbn [l_num_arenas l_num_slots l_arena_desc_offset l_slot_entries_offset l_control_ring_offset l_total_bytes] in *. destruct En as [-> ->].
  split; cbn [update l_num_arenas l_num_slots l_arena_desc_offset l_slot_entries_offset l_control_ring_offset l_total_bytes l_max_ranks l_ring_stride];
    places; try lia. by exists k.
Qed.
Lemma insert_all_lookup {A} (v : A) ks : forall rs j,
  foldl (fun rs i => <[i := v]> rs) rs ks !! j = if decide (j ∈ ks) then Some v else (rs : gmap Z A) !! j.
Proof.
  induction ks as [|i ks IH]; intros rs j; cbn [foldl]; [by rewrite decide_False by set_solver|]. rewrite IH.
  destruct (decide (j ∈ ks)); [by rewrite decide_True by set_solver|]. destruct (decide (i = j)) as [->|Hne].
  - by rewrite lookup_insert_eq, decide_True by set_solver.
  - rewrite lookup_insert_ne by done. by rewrite decide_False by set_solver.
Qed.
Lemma insert_all {A} (v : A) ks : foldl (fun rs i => <[i := v]> rs) ∅ ks = (list_to_map ((fun i => (i, v)) <$> ks) : gmap Z A).
Proof.
  apply map_eq. intros j. rewrite insert_all_lookup. induction ks as [|i ks IH]; [by rewrite decide_False by set_solver|].
  cbn [fmap list_fmap list_to_map foldr uncurry]. destruct (decide (i = j)) as [->|Hne].
  - by rewrite lookup_insert_eq, decide_True by set_solver.
  - rewrite lookup_insert_ne, <- IH by done. destruct (decide (j ∈ ks)); [by rewrite decide_True by set_solver|].
    by rewrite decide_False by set_solver.
Qed.
Lemma zero_slots_lookup n id e : zero_slots n !! id = Some e -> e = inhabitant.
Proof. unfold zero_slots. intros H%elem_of_list_to_map_2. apply list_elem_of_fmap in H as (x & [= _ ->] & _). done. Qed.
Lemma ring_capacity_ok cfg_cap cap : 0 <= cfg_cap <= 2 ^ 26 -> round_ring_capacity 33 cfg_cap = Some cap -> pow2_cap cap /\ cap <= 2 ^ 26.
Proof.
  intros Hc. unfold round_ring_capacity. set (rc := if decide (cfg_cap < 2) then 2 else cfg_cap).
  assert (Hrc : 2 <= rc <= 2 ^ 26) by (unfold rc; case_decide; lia).
  destruct (round_up_loop_pow2 33 0 rc) as (j & E & Hj & Hge & Hlow); [lia..|auto|lia|]. change (2 ^ 0) with 1 in E. rewrite E.
  intros [= <-]. split; [exists j; split; [lia|done]|]. apply Z.pow_le_mono_r; [lia|].
  destruct Hlow as [->|Hlow]; [lia|]. destruct (decide (j <= 26)) as [|Hn]; [done|].
  assert (2 ^ 26 <= 2 ^ (j - 1)) by (apply Z.pow_le_mono_r; lia). lia.
Qed.
(** A configuration the daemon starts with. *)
Record region_config (c : DaemonConfig) : Prop := {
  rc_valid : validate_config c = Ok tt;
  rc_range : config_in_range c;
  rc_arenas : Z.of_nat (length (c_per_numa c)) < 2 ^ 32;
  rc_ranks : 0 <= c_completion_ring_max_ranks c <= 2 ^ 20;
  rc_capacity : 0 <= c_completion_ring_capacity c <= 2 ^ 26;
}.
Lemma start_represents c now cap pid epoch d0 : region_config c -> round_ring_capacity 33 (c_completion_ring_capacity c) = Some cap ->
  daemon_init c now = Some d0 -> layout_ok (region_layout c cap) cap /\ represents (region_layout c cap) cap (start_region c cap pid epoch now) d0 /\
  inside (region_layout c cap) zeroed (start_region c cap pid epoch now).
Proof.
  intros [Hval Hr Hna Hrm Hcap] Ecap. destruct (ring_capacity_ok _ _ Hcap Ecap) as [Hp Hc].
  destruct (validated_fits c Hval Hr) as [Hfit Hpos]. pose proof (count_slots_exact c Hfit Hr Hpos) as Ecs.
  assert (Hcs : in_u32 (count_slots c)).
  { rewrite Ecs. pose proof (cr_slots c Hr). split; [|lia]. apply sumZ_nonneg. pose proof (cr_arenas c Hr) as Ha.
    eapply Forall_impl; [exact Ha|]. intros ac [[? _] _]. by apply Z.div_pos. }
  assert (Hl : layout_ok (region_layout c cap) cap) by exact (build_layout_ok _ _ cap _ (conj (Zle_0_nat _) Hna) Hcs Hp Hc Hrm).
  intros Hd. split; [exact Hl|]. set (l := region_layout c cap) in *.
  assert (Eslots : slots d0 = p_slots (build_slot_plan c (zero_slots (count_slots c))) /\ arenas d0 = build_arenas c /\
    generation d0 = 1 /\ header_heartbeat_ns d0 = now /\
    rings d0 = list_to_map ((fun i => (i, ring_init cap)) <$> seqZ 0 (c_completion_ring_max_ranks c))).
  { unfold daemon_init in Hd. rewrite Ecap in Hd. cbn [mbind option_bind] in Hd. apply Some_inj in Hd. subst d0. split_and!; reflexivity. }
  destruct Eslots as (Es & Ea & Eg & Eh & Er). clear Hd.
  set (d1 := (d0 <| slots := zero_slots (count_slots c) |>) <| rings := ∅ |>).
  assert (H1 : represents l cap (build_control l cap pid epoch now (build_arenas c)) (d0 <| slots := zero_slots (count_slots c) |>) /\
    inside l zeroed (build_control l cap pid epoch now (build_arenas c))).
  { pose proof (build_control_represents l cap Hl pid epoch now (build_arenas c) d1 Eg Eh Ea) as H. rewrite insert_all in H.
    change (l_max_ranks l) with (c_completion_ring_max_ranks c) in H. rewrite <- Er in H.
    replace (d0 <| slots := zero_slots (count_slots c) |>) with (d1 <| rings := rings d0 |>) by (unfold d1; by destruct d0).
    apply H; [|intros id e; apply zero_slots_lookup|done]. unfold build_arenas. by rewrite length_imap. }
  destruct (carve_arenas_represents l cap Hl d0 (c_allocation_granularity_bytes c) (zip (c_per_numa c) (build_arenas c))
    (mkPlan (zero_slots (count_slots c)) [] ∅ 0 0) (build_control l cap pid epoch now (build_arenas c)) Hpos) as [E H2]; [|exact H1|done| |].
  - apply Forall_lookup. intros i [ac a] [Hac _]%lookup_zip_Some. pose proof (cr_arenas c Hr) as Ha. rewrite Forall_lookup in Ha.
    cbn [fst]. by destruct (Ha i ac Hac) as (_ & ? & _).
  - change (l_num_slots l) with (count_slots c). rewrite Ecs. cbn [p_global_slot].
    assert (Ez : (fun aca : NumaArenaConfig * Arena => arena_slots (c_allocation_granularity_bytes c) aca.1) <$> zip (c_per_numa c) (build_arenas c)
      = arena_slots (c_allocation_granularity_bytes c) <$> c_per_numa c).
    { rewrite <- (fst_zip (c_per_numa c) (build_arenas c)) at 2 by (unfold build_arenas; rewrite length_imap; lia).
      by rewrite <- list_fmap_compose. }
    rewrite Ez. apply sumZ_fmap_le. eapply Forall_impl; [exact Hfit|]. intros ac Hac. by apply arena_slots_bound.
  - unfold start_region, build_slot_plan_stores. fold l. rewrite E in H2. fold (build_slot_plan c (zero_slots (count_slots c))) in H2.
    rewrite <- Es in H2. by destruct d0.
Qed.
(** A sequence of stores, each in range of the tables it finds. *)
Fixpoint writes_ok (l : ControlLayout) (d : Daemon) (ws : list control_write) : Prop :=
  match ws with
  | [] => True
  | w :: ws => cw_ok l d w /\ writes_ok l (cw_table w d) ws
  end.
Definition stores (ws : list control_write) (m : Mem) : Mem := foldl (fun m w => cw_stores w m) m ws.
Definition tables (ws : list control_write) (d : Daemon) : Daemon := foldl (fun d w => cw_table w d) d ws.
Lemma writes_represent l cap ws : layout_ok l cap -> forall m d, represents l cap m d -> writes_ok l d ws ->
  represents l cap (stores ws m) (tables ws d) /\ inside l m (stores ws m).
Proof.
  intros Hl. induction ws as [|w ws IH]; intros m d Hm Hw; [done|]. destruct Hw as [Hw Hws].
  destruct (IH (cw_stores w m) (cw_table w d) (write_represents l cap Hl m d w Hm Hw) Hws) as [H1 H2]. split; [exact H1|].
  intros x Hx. change (stores (w :: ws) m) with (stores ws (cw_stores w m)). rewrite (H2 x Hx). by apply (write_inside l cap Hl m d w).
Qed.

(** C7. The shared control region implements the daemon's tables.  For a valid
    configuration whose sums do not wrap ([config_in_range]), with at most [2^20]
    rings of a configured capacity of at most [2^26], after start-up from zeroed
    memory and any sequence of stores to slots and rings the tables have (those of
    the daemon, and of ranks into their rings), the bytes represent the tables; a
    rank that maps the region accepts its header and loads, for every slot, the
    state and place the table holds, finds its ring exactly when the ring is
    assigned to it at its epoch, and its pushes, like the daemon's pops, answer as
    the queue of the tables does.  No byte outside the region is changed, by start-up
    or by a store.  For a greater capacity the stride of the rings is truncated and
    they overlap ([Layout.ring_stride_truncated]). *)
Theorem control_region_refines (c : DaemonConfig) (now cap pid epoch : Z) (d0 : Daemon) (ws : list control_write) :
  region_config c -> round_ring_capacity 33 (c_completion_ring_capacity c) = Some cap -> daemon_init c now = Some d0 ->
  let l := region_layout c cap in
  writes_ok l d0 ws ->
  let m := stores ws (start_region c cap pid epoch now) in
  let d := tables ws d0 in
  represents l cap m d /\
  check_header m = Ok (l_num_slots l) /\
  (forall id e, slots d !! id = Some e -> 0 <= id < l_num_slots l ->
     load_slot_state id m = slot_state_value (sl_state e) /\
     get_field slot_fields (control_slot m id) "arena_id" m = cut 8 (sl_arena_id e) /\
     get_field slot_fields (control_slot m id) "arena_offset" m = cut 8 (sl_arena_offset e)) /\
  (forall i r, rings d !! i = Some r -> 0 <= i < l_max_ranks l ->
     exists h, ring_at_index m i = Some h /\
       (forall rank_id rank_epoch, own_ring i rank_id rank_epoch m = Some h <->
          cut 4 (r_owner_rank r) = rank_id /\ cut 8 (r_rank_epoch r) = rank_epoch) /\
       (forall e, entry_fits e -> (push_bytes h e m).1 = (ring_push r e).1) /\
       (pop_bytes h m).1 = (ring_pop r).1) /\
  (forall x, ~ (0 <= x < l_total_bytes l) -> m x = zeroed x).
Proof.
  intros Hc Hcap Hd l Hws m d. destruct (start_represents c now cap pid epoch d0 Hc Hcap Hd) as (Hl & H0 & Hz).
  destruct (writes_represent l cap ws Hl _ d0 H0 Hws) as [Hm Hin]. fold m d in Hm, Hin.
  split_and!; [exact Hm|by apply (check_header_ok l cap Hl m d)|intros id e; by apply (load_slot l cap Hl m d)| |
    intros x Hx; rewrite (Hin x Hx); exact (Hz x Hx)].
  intros i r Hr Hi. pose proof (rp_rings _ _ _ _ Hm i r Hr Hi) as Hb. exists (ring_place l i).
  split_and!; [by apply (ring_of l cap Hl m d)| |intros e He; by apply (push_represents l cap Hl)|by apply (pop_represents l cap Hl)].
  intros rank_id rank_epoch. rewrite (load_own_ring l cap Hl m d i r rank_id rank_epoch Hm Hr Hi). by case_decide.
Qed.
Definition sample_writes : list control_write :=
  [CwRingAssign 0 7 1; CwRun (SwState 5 SLOT_PINNED_VALID) 0 2; CwRingPush 0 (mkEntry 1 2 3 0 1 9)].
Definition sample_start : Daemon := default inhabitant (daemon_init smoke_config 0).
Lemma control_region_refines_witness :
  check_header (stores sample_writes (start_region smoke_config 1024 11 22 0)) = Ok 16 /\
  load_slot_state 1 (stores sample_writes (start_region smoke_config 1024 11 22 0)) = 3.
Proof.
  assert (Hc : region_config smoke_config).
  { split; [reflexivity|exact smoke_config_in_range| | |]; vm_compute; try split; congruence. }
  assert (Hd : daemon_init smoke_config 0 = Some sample_start) by (vm_compute; reflexivity).
  assert (Hw : writes_ok (region_layout smoke_config 1024) sample_start sample_writes).
  { cbn [writes_ok cw_ok sample_writes].
    assert (Hs : forall d, d = sample_start \/ d = cw_table (CwRun (SwState 5 SLOT_PINNED_VALID) 0 2) (cw_table (CwRingAssign 0 7 1) sample_start) ->
      0 <= 0 < l_max_ranks (region_layout smoke_config 1024) /\ is_Some (rings d !! 0)).
    { intros d [-> | ->]; (split; [split; [lia|vm_compute; reflexivity]|]); eexists; vm_compute; reflexivity. }
    split; [apply Hs; left; reflexivity|]. split; [split; vm_compute; congruence|]. split; [split|exact I].
    - apply Hs. right. reflexivity.
    - vm_compute. reflexivity. }
  destruct (control_region_refines smoke_config 0 1024 11 22 sample_start sample_writes Hc eq_refl Hd Hw) as (_ & H1 & H2 & _).
  split; [exact H1|].
  destruct (slots (tables sample_writes sample_start) !! 1) as [e|] eqn:He; [|vm_compute in He; discriminate He].
  assert (Hst : sl_state e = SLOT_PINNED_VALID) by (vm_compute in He; injection He as <-; reflexivity).
  destruct (H2 1 e He) as [H3 _]; [split; [lia|vm_compute; reflexivity]|]. rewrite H3, Hst. reflexivity.
Defined.
