(* ===== verification/Scenarios.v ===== *)
(** * Concrete executions of the canonical store

    Builders of requests and the states of a small daemon (two ranks of one job,
    one shard) at which the theorems about the canonical store are instantiated:
    reserved, copied, committed, attached by the second rank, sealed. *)
From stdpp Require Import base gmap strings list relations.
From Stdlib Require Import ZArith Lia.
From S2P Require Import Prelude.
From S2P Require Import Protocol.
From S2P Require Import ProtocolV2.
From S2P Require Import State.
From S2P Require Import Alloc.
From S2P Require Import Rpc.
From S2P Require Import Store.
From S2P Require Import Canonical.
From S2P Require Import Rollout.
From S2P Require Import System.
From S2P Require Import Identity.
Open Scope Z_scope.
Open Scope offload_scope.

Definition d2h_submit (rank epoch lease tensor version slot : Z) : request :=
  ReqMarkD2HSubmitted (mkMarkD2HSubmittedRequest rank epoch lease tensor version slot 1 0).
Definition d2h_complete (rank epoch lease tensor version slot : Z) : request :=
  ReqMarkD2HComplete (mkMarkD2HCompleteRequest rank epoch lease tensor version slot 1 0).
(** The job of [sample_key]: tenant 1, job 2, launch epoch 1. *)
Definition job_key : JobKeyWire := mkJobKeyWire 1 2 1 "job".
Definition shard_key (param : Z) : CanonicalTensorKeyWire :=
  mkCanonicalTensorKeyWire job_key 0 7 param 18446744073709551615 "layer.0" 1 0 5000000 5 6 0 0 0 0
    (-1) 0 5000000.
Definition evict_request (rank epoch param dedup : Z) : RequestCanonicalEvictRequest :=
  mkRequestCanonicalEvictRequest rank epoch (shard_key param) 9 1 true true true dedup false 0 0 0 0.
Definition evict (rank epoch param dedup : Z) : request :=
  ReqRequestCanonicalEvict (evict_request rank epoch param dedup).
Definition commit_request (rank epoch object lease hash : Z) : CommitCanonicalObjectRequest :=
  mkCommitCanonicalObjectRequest rank epoch object lease 0 hash 0.
Definition commit (rank epoch object lease hash : Z) : request :=
  ReqCommitCanonicalObject (commit_request rank epoch object lease hash).
Definition seal_request (version : Z) : SealModelVersionRequest :=
  mkSealModelVersionRequest job_key 0 version true [11] true.
Definition seal (version : Z) : request := ReqSealModelVersion (seal_request version).
Definition pull_request (object : Z) : PullTensorRequest := mkPullTensorRequest job_key 0 7 object 1 "".
Definition pull (object : Z) : request := ReqPullTensor (pull_request object).
Definition release_request (rank epoch object : Z) : ReleaseCanonicalRequest :=
  mkReleaseCanonicalRequest rank epoch job_key 0 7 object.

(** Ranks 3 (epoch 1) and 4 (epoch 2) of a registered job. *)
Definition job_daemon : Daemon :=
  run_ok [reg 3 77; reg 4 78; ReqRegisterJob (mkRegisterJobRequest 1 "job" 2 [] [])] (smoke_daemon []).
(** Rank 3 is creating object 1 under lease 1. *)
Definition creating : Daemon := run_ok [evict 3 1 11 0] job_daemon.
Definition copied : Daemon :=
  run_ok [d2h_submit 3 1 1 (canonical_tid 1) 1 0; d2h_complete 3 1 1 (canonical_tid 1) 1 0] creating.
Definition committed : Daemon := run_ok [commit 3 1 1 1 42] copied.
Definition attached : Daemon := run_ok [evict 4 2 11 0] committed.
Definition sealed : Daemon := run_ok [seal 7] attached.
(** Rank 4 is reading object 1. *)
Definition restore (rank epoch object : Z) : request :=
  ReqRequestCanonicalRestore (mkRequestCanonicalRestoreRequest rank epoch object 0 0).
Definition restoring : Daemon := run_ok [restore 4 2 1] attached.

Lemma run_ok_steps rs d : ids_fit (run_ok rs d) = true -> rtc dstep d (run_ok rs d).
Proof.
  unfold run_ok. destruct (run_requests rs d) as [d'|m] eqn:E; [by eapply run_requests_steps|].
  intros _. apply rtc_refl.
Qed.
(** Proves that a state built with [run_ok] is reachable. *)
Ltac reach :=
  repeat match goal with
  | |- rtc dstep ?x ?x => apply rtc_refl
  | |- rtc dstep _ (run_ok ?rs ?d) => transitivity d; [|apply run_ok_steps; vm_compute; reflexivity]
  | |- rtc dstep _ ?d => unfold d
  end.
Lemma smoke_init : daemon_init smoke_config 0 = Some (smoke_daemon []).
Proof. vm_compute. reflexivity. Qed.
Lemma smoke_valid : validate_config smoke_config = Ok tt.
Proof. reflexivity. Qed.
