(* ===== verification/OffloadProps.v ===== *)
(** * Behaviour of the offload and prefetch handlers

    Functional theorems about [Offload] and [Drain]: what a granted reservation
    is, when a completion is accepted and what it does, when a copy to the device
    may start, that a batch is the sequence of its completions, that releasing is
    idempotent, that versions never go back, and which lease a forced drain
    takes. *)
From stdpp Require Import base gmap strings list fin_maps fin_sets list_numbers.
From Stdlib Require Import ZArith Lia.
From S2P Require Import Prelude.
From S2P Require Import Ring.
From S2P Require Import Protocol.
From S2P Require Import State.
From S2P Require Import Alloc.
From S2P Require Import Drain.
From S2P Require Import Offload.
From S2P Require Import Store.
From S2P Require Import Session.
From S2P Require Import Rpc.
From S2P Require Import Guarantee.
From S2P Require Import Fencing.
From S2P Require Import System.
From S2P Require Import Scenarios.
Open Scope Z_scope.
Open Scope offload_scope.

(** ** Reservations *)
Lemma run_available_metric d m v base count :
  run_available d base count -> run_available (metric_add m v d) base count.
Proof. done. Qed.
Lemma alloc_with_drain_spec n d now gaps gpu numa nb fl base count now' d1 :
  (forall i, rely (gaps i)) -> windows_wf d -> 0 < c_allocation_granularity_bytes (cfg d) ->
  0 < nb -> nb + c_allocation_granularity_bytes (cfg d) <= 2 ^ 64 ->
  nb <= (2 ^ 32 - 1) * c_allocation_granularity_bytes (cfg d) ->
  alloc_with_drain n now gaps gpu numa nb fl d = (Some (base, count), now', d1) ->
  guarantee d d1 /\ run_available d1 base count /\ count = slots_for_bytes d nb /\
  nb <= count * c_allocation_granularity_bytes (cfg d).
Proof.
  intros Hr Hw Hg Hb Hlim Hmax. revert d now gaps Hr Hw Hg Hlim Hmax.
  induction n as [|n IH]; intros d now gaps Hr Hw Hg Hlim Hmax; [done|]. cbn [alloc_with_drain].
  pose proof (g_allocate_slots d d gpu numa nb fl (reflexivity d)) as Ha.
  destruct (allocate_slots gpu numa nb fl d) as [[[b c]|] d2] eqn:E; cbn [snd] in Ha.
  - intros [= <- <- <- <-]. destruct (allocate_slots_spec _ _ _ _ _ _ _ _ Hw Hg Hb Hlim Hmax E)
      as (Hrun & [Hle _] & Hd). split_and!; [done| | |done].
    + destruct Hd as [->|[-> _]]; [done|]. by apply run_available_metric.
    + revert E. unfold allocate_slots. destruct (allocate_base _ _ _ _ _). case_decide; [done|].
      by intros [= _ <- _].
  - pose proof (g_force_drain_one d d2 now (gaps 0%nat) (Hr 0%nat) Ha) as Hf.
    destruct (force_drain_one now (gaps 0%nat) d2) as [[] d3]; cbn [snd] in Hf; [|done].
    pose proof (g_static _ _ Hf) as Hst. unfold static in Hst. injection Hst as Ec _ _ _ _ _ _.
    intros Hrec. eapply IH in Hrec as (H1 & H2 & H3 & H4);
      [|intros i; apply Hr|by eapply windows_wf_guarantee|by rewrite ?Ec..].
    split_and!; [by etransitivity|done| |by rewrite <- Ec].
    rewrite H3. unfold slots_for_bytes. by rewrite Ec.
Qed.

(** The next lease id, taken at a moment [d1] of an operation, is unused. *)
Lemma fresh_lease_id d d1 :
  guarantee d d1 -> lease_ids_ok d -> next_lease_id d1 < 2 ^ 64 ->
  leases d1 !! u64 (next_lease_id d1) = None.
Proof.
  intros HG HL W. destruct (g_lease _ _ HG ltac:(lia) HL) as [[Hp HL1] _].
  rewrite u64_small by (unfold in_u64; lia).
  destruct (leases d1 !! next_lease_id d1) as [L|] eqn:EL; [|done]. destruct (HL1 _ _ EL). lia.
Qed.

(** C4. A granted reservation.  In any state reached from a valid configuration
    whose sizes do not wrap ([config_in_range]), when [RequestOffload] answers [ok]
    to a request whose size does not wrap the slot count (the size plus a slot is
    at most [2 ^ 64], and it fills at most [2 ^ 32 - 1] slots) and no id counter
    has wrapped, there was a moment [d1] of the call at which the run it hands out
    was a run of FREE slots, contiguous in one arena and large enough; the lease id
    was unused; the call then reserved exactly that run for the tensor, left every
    other slot alone, recorded the lease, and reports the run's base, place and
    size.  Outside these bounds a run may be too small ([slots_for_bytes_wraps]). *)
Theorem offload_grant_safe (c : DaemonConfig) (t0 now : Z) (gaps : nat -> IoGap)
  (req : RequestOffloadRequest) (d0 d d' : Daemon) (resp : RequestOffloadResponse) :
  validate_config c = Ok tt -> config_in_range c -> daemon_init c t0 = Some d0 ->
  rtc dstep d0 d -> (forall i, rely (gaps i)) ->
  0 < ro_nbytes req -> ro_nbytes req + c_allocation_granularity_bytes c <= 2 ^ 64 ->
  ro_nbytes req <= (2 ^ 32 - 1) * c_allocation_granularity_bytes c ->
  handle_request_offload now gaps req d = (resp, d') -> ros_ok resp = true -> ids_in_range d' ->
  exists d1 count now1,
    guarantee d d1 /\ run_available d1 (ros_slot_id resp) count /\
    ro_nbytes req <= count * c_allocation_granularity_bytes c /\
    ros_capacity resp = u64 (count * c_allocation_granularity_bytes c) /\
    leases d1 !! ros_lease_id resp = None /\
    leases d' = <[ros_lease_id resp :=
      mkLease (ros_lease_id resp) (ros_slot_id resp) count (ro_tensor_id req) (ro_version req)
        (ro_rank_id req) (session_pid d (ro_rank_id req)) (ro_rank_epoch req) (ro_nbytes req) false]>
      (leases d1) /\
    (forall k, 0 <= k < count -> slots d' !! (ros_slot_id resp + k) =
       reserve_entry now1 req (ros_lease_id resp) (session_pid d (ro_rank_id req)) k
         <$> slots d1 !! (ros_slot_id resp + k)) /\
    (forall id, id ∉ run_ids (ros_slot_id resp) count -> slots d' !! id = slots d1 !! id) /\
    ros_arena_id resp = sl_arena_id (slot d' (ros_slot_id resp)) /\
    ros_arena_offset resp = sl_arena_offset (slot d' (ros_slot_id resp)).
Proof.
  intros Hv Hcr Hi Hex Hr Hb Hlim Hmax. unfold handle_request_offload.
  destruct (reachable_windows_wf c t0 d0 d Hv Hcr Hi Hex) as [Hw Hc].
  assert (Hg : 0 < c_allocation_granularity_bytes c) by apply (validated_fits c Hv Hcr).
  destruct (negb _); [by intros [= <- _]|]. case_decide; [by intros [= <- _]|]. cbv zeta.
  destruct (alloc_with_drain _ _ _ _ _ _ _ _) as [[[[base cnt]|] now1] d1] eqn:E; [|by intros [= <- _]].
  destruct (existsb _ _); [by intros [= <- _]|]. intros [= <- <-] _ W.
  assert (Ed : cfg (metric_inc kOffloadRequests d) = c) by exact Hc.
  apply alloc_with_drain_spec in E as (HG & Hrun & Hcnt & Hle);
    [|exact Hr|exact Hw|rewrite ?Ed; done..]. rewrite Ed in Hle.
  pose proof (g_static _ _ HG) as Hst. unfold static in Hst. injection Hst as Ec1 _ _ _ _ _ _.
  assert (HGd : guarantee d d1) by (etransitivity; [|exact HG]; apply g_metric_inc; reflexivity).
  exists d1, cnt, now1. rewrite <- Hcnt. cbn [ros_slot_id ros_lease_id ros_capacity].
  destruct Hrun as (Hb0 & Hcpos & Hbc & Hrun'). unfold NO_U32 in Hbc.
  split_and!; try done.
  - unfold run_bytes. simpl. by rewrite Ec1, Hc.
  - destruct (reachable_tables _ _ _ _ Hi Hex) as [HLd _]. pose proof (ir_lease _ W) as Wl. simpl in Wl.
    eapply fresh_lease_id; [exact HGd|exact HLd|lia].
  - intros k Hk. simpl. rewrite lookup_update_run by lia. done.
  - intros id Hid. simpl. by rewrite lookup_update_run_ne.
Qed.

(** ** Completions of device-to-host copies *)
Lemma lease_of_Some d lid r s L :
  lease_of d lid r s = Some L <->
  leases d !! lid = Some L /\ le_owner_rank L = r /\ le_base_slot L = s.
Proof.
  unfold lease_of, find_lease. destruct (leases d !! lid) as [L'|]; [|split; [done|by intros [? _]]].
  split.
  - repeat case_decide; try done. by intros [= ->].
  - intros (H & ? & ?). injection H as ->. by rewrite !decide_False by (intros Hn; by apply Hn).
Qed.
Lemma lease_of_None d lid r s :
  lease_of d lid r s = None -> ~ exists L, leases d !! lid = Some L /\ le_owner_rank L = r /\ le_base_slot L = s.
Proof.
  intros HN [L HL]. apply lease_of_Some in HL. by rewrite HN in HL.
Qed.
(** The version guard of the location table. *)
Lemma update_location_cases t v k s c n d :
  (exists l, locations d !! t = Some l /\ v < lo_version l /\
     update_location_if_latest t v k s c n d = (false, metric_inc kStaleVersionRejected d)) \/
  ((forall l, locations d !! t = Some l -> lo_version l <= v) /\
     update_location_if_latest t v k s c n d
       = (true, d <| locations ::= <[t := mkLocation t v k s c n]> |>)).
Proof.
  unfold update_location_if_latest. destruct (locations d !! t) as [l|] eqn:El.
  - case_bool_decide; [left; eauto|right]. split; [|done]. intros l' [= <-]. lia.
  - right. by split.
Qed.

(** The lease a completion refers to. *)
Definition d2h_ready (d : Daemon) (r e l t v s : Z) (L : Lease) : Prop :=
  epoch_valid d r e = true /\ leases d !! l = Some L /\ le_owner_rank L = r /\
  le_base_slot L = s /\ le_tensor_id L = t /\ le_version L = v /\
  slot_state d s = SLOT_D2H_IN_FLIGHT.

(** A D2H completion is accepted exactly when the session's epoch is current
    and the named lease belongs to the rank, starts at the named slot, carries
    the named tensor and version and is in flight; a rejected one is not
    reported as latest, queues no drain and changes only one counter. *)
Theorem d2h_complete_accepted_iff (now r e l t v s q : Z) (d : Daemon) :
  let '(ok, latest, enq, d') := apply_d2h_complete now r e l t v s q d in
  (ok = true <-> exists L, d2h_ready d r e l t v s L) /\
  (ok = false -> latest = false /\ enq = false /\ exists m, d' = metric_inc m d).
Proof.
  unfold apply_d2h_complete, d2h_ready. destruct (epoch_valid d r e) eqn:Ev; simpl;
    [|split; [|by eauto]; split; [done|by intros (? & ? & _)]].
  destruct (lease_of d l r s) as [L|] eqn:EL.
  - apply lease_of_Some in EL as (HL & HR & HS). case_decide as Htv.
    { split; [|eauto]. split; [done|]. intros (L' & _ & HL' & ? & ? & ? & ? & ?). simplify_eq.
      by destruct Htv. }
    case_decide as Hst.
    { split; [|eauto]. split; [done|]. intros (L' & _ & HL' & ? & ? & ? & ? & ?). by simplify_eq. }
    destruct (update_location_if_latest _ _ _ _ _ _ _) as [lat d1].
    assert (le_tensor_id L = t) by (apply dec_stable; auto).
    assert (le_version L = v) by (apply dec_stable; auto). rewrite HS in Hst.
    destruct (negb _ && _); (split; [|done]); (split; [|done]); intros _; by exists L.
  - split; [|eauto]. split; [done|]. intros (L' & _ & ? & ? & ? & _). by destruct (lease_of_None _ _ _ _ EL); eauto.
Qed.

(** The state of the slots of a run after a run update that sets it. *)
Lemma run_state_after (f : Z -> slot_entry -> slot_entry) st base count s k e :
  (forall k e, sl_state (f k e) = st) -> 0 <= base -> base + count <= 2 ^ 32 -> 0 <= k < count ->
  s !! (base + k) = Some e ->
  exists e', update_run f base count s !! (base + k) = Some e' /\ sl_state e' = st.
Proof.
  intros Hf Hb Hc Hk He. exists (f k e). rewrite lookup_update_run by done. rewrite He. split; [done|apply Hf].
Qed.

(** C16. The effect of an accepted D2H completion on the lease's run: every slot of
    the run becomes PINNED_VALID, or DRAIN_IN_FLIGHT when a drain is queued (one
    job, at the end of the queue), never for an object still being created; the
    other slots and the leases stay as they are; and the location moves to the
    pinned run exactly when no later version is recorded. *)
Theorem d2h_complete_effect (now r e l t v s q : Z) (d d' : Daemon) (L : Lease) (latest enq : bool) :
  apply_d2h_complete now r e l t v s q d = (true, latest, enq, d') ->
  leases d !! l = Some L -> 0 <= s -> s + le_slot_count L <= 2 ^ 32 ->
  (forall k x, 0 <= k < le_slot_count L -> slots d !! (s + k) = Some x ->
     exists x', slots d' !! (s + k) = Some x' /\
       sl_state x' = if enq then SLOT_DRAIN_IN_FLIGHT else SLOT_PINNED_VALID) /\
  (forall id, id ∉ run_ids s (le_slot_count L) -> slots d' !! id = slots d !! id) /\
  leases d' = leases d /\
  drain_queue d' = drain_queue d ++ (if enq then [mkDrainJob s (le_slot_count L)] else []) /\
  (enq = true -> creating_canonical d t = false /\ should_drain d = true) /\
  locations d' = (if latest then <[t := mkLocation t v LOC_PINNED s 0 (le_nbytes L)]> (locations d)
                  else locations d) /\
  (latest = false <-> exists x, locations d !! t = Some x /\ v < lo_version x).
Proof.
  unfold apply_d2h_complete. destruct (negb _); [done|].
  destruct (lease_of d l r s) as [L'|] eqn:EL; [|done]. apply lease_of_Some in EL as (HL & HR & HS).
  intros H HL' Hs Hc. rewrite HL in HL'. injection HL' as ->.
  case_decide; [done|]. case_decide; [done|]. rewrite HS in H.
  match type of H with context [update_location_if_latest ?a ?b ?c ?e ?f ?g ?x] =>
    destruct (update_location_cases a b c e f g x) as [(y & Hy & Hlt & Eu)|[Hle Eu]]; rewrite Eu in H
  end; clear Eu; (destruct (negb (creating_canonical _ t) && _) eqn:Ed; injection H as <- <- <-);
    unfold enqueue_drain; rewrite ?HS; cbn [locations leases drain_queue] in *.
  all: split_and!; try done; try (by rewrite app_nil_r).
  all: try (intros _; apply andb_true_iff in Ed as [Ed1 Ed2]; by rewrite negb_true_iff in Ed1).
  all: try (split; [|done]; intros _; by exists y).
  all: try (split; [done|]; intros (y & Hy & Hlt); specialize (Hle y Hy); lia).
  all: try (intros id Hid; simpl; by rewrite !lookup_update_run_ne).
  all: intros k x Hk Hx; simpl; rewrite !lookup_update_run by lia; rewrite Hx; by eexists.
Qed.

(** ** Versions never go back *)
Definition versions_le (d d' : Daemon) : Prop :=
  forall t l, locations d !! t = Some l ->
    exists l', locations d' !! t = Some l' /\ lo_version l <= lo_version l'.
#[export] Instance versions_le_preorder : PreOrder versions_le.
Proof.
  split.
  - intros d t l Hl. eauto with lia.
  - intros a b c Hab Hbc t l Hl. destruct (Hab _ _ Hl) as (l1 & H1 & ?).
    destruct (Hbc _ _ H1) as (l2 & H2 & ?). exists l2. split; [done|lia].
Qed.
Definition versions_rely (g : IoGap) : Prop := forall x, versions_le x (io_env g x).

Section Versions.
  Context (d0 d : Daemon) (Hd : versions_le d0 d).

Lemma v_step d' : versions_le d d' -> versions_le d0 d'.
Proof. intros H. by transitivity d. Qed.
Lemma v_frame d' : locations d' = locations d -> versions_le d0 d'.
Proof. intros E. apply v_step. intros t l Hl. exists l. by rewrite E. Qed.
Lemma v_alter f t :
  (forall l, lo_version (f l) = lo_version l) -> versions_le d0 (d <| locations ::= alter f t |>).
Proof.
  intros Hf. apply v_step. intros t' l Hl. simpl. rewrite lookup_alter. case_decide as Ht.
  - subst. rewrite Hl. simpl. exists (f l). rewrite Hf. split; [done|lia].
  - exists l. split; [done|lia].
Qed.
Lemma v_update_location t v k s c n :
  versions_le d0 (update_location_if_latest t v k s c n d).2.
Proof.
  destruct (update_location_cases t v k s c n d) as [(l & _ & _ & ->)|[Hle ->]]; [by apply v_frame|].
  apply v_step. intros t' l Hl. simpl. destruct (decide (t = t')) as [->|].
  - rewrite lookup_insert_eq. eexists. split; [done|]. simpl. auto.
  - rewrite lookup_insert_ne by done. eauto with lia.
Qed.
End Versions.

Ltac vers_op x := apply (v_frame _ x); [|reflexivity].
Ltac vers_step :=
  match goal with
  | H : versions_le ?a ?b |- versions_le ?a ?b => exact H
  | |- versions_le ?a ?a => reflexivity
  | |- versions_le _ (metric_add _ _ ?x) => vers_op x
  | |- versions_le _ (metric_sub _ _ ?x) => vers_op x
  | |- versions_le _ (metric_inc _ ?x) => vers_op x
  | |- versions_le _ (set_run_state _ _ _ _ ?x) => vers_op x
  | |- versions_le _ (set_slot_state _ _ _ ?x) => vers_op x
  | |- versions_le _ (free_slots _ _ _ ?x) => vers_op x
  | |- versions_le _ (update locations (alter _ _) _) => apply v_alter
  | |- versions_le _ (update _ _ ?x) => vers_op x
  | |- versions_le _ (update_location_if_latest _ _ _ _ _ _ _).2 => apply v_update_location
  | Hr : versions_rely ?g |- versions_le _ (io_env ?g _) => eapply v_step; [|apply Hr]
  | Hr : forall i, versions_rely (?gs i) |- versions_le _ (io_env (?gs _) _) => eapply v_step; [|apply Hr]
  end.
Ltac vers := repeat vers_step; try done.
(** Replaces a call of [update_location_if_latest] by its effect on versions. *)
Ltac vers_location d0 :=
  match goal with |- context [update_location_if_latest ?a ?b ?c ?e ?f ?g ?x] =>
    assert (versions_le d0 (update_location_if_latest a b c e f g x).2) by vers;
    destruct (update_location_if_latest a b c e f g x) end; cbn [snd] in *.

Lemma v_do_drain d0 d n g : versions_le d0 d -> versions_le d0 (do_drain_to_cold n g d).2.
Proof. intros H. unfold do_drain_to_cold. cbv zeta. repeat case_match; cbn [snd]; vers. Qed.
Lemma v_do_readback d0 d b c n g : versions_le d0 d -> versions_le d0 (do_readback_from_cold b c n g d).2.
Proof. intros H. unfold do_readback_from_cold. cbv zeta. repeat case_match; cbn [snd]; vers. Qed.
Lemma v_drain_commit d0 d now b c t v n l x :
  versions_le d0 d -> versions_le d0 (drain_commit now b c t v n l x d).
Proof. intros H. unfold drain_commit. cbv zeta. vers_location d0. vers. Qed.
Lemma v_force_drain_one d0 d now g :
  versions_rely g -> versions_le d0 d -> versions_le d0 (force_drain_one now g d).2.
Proof.
  intros Hr H. unfold force_drain_one. cbv zeta. case_decide; [done|].
  assert (Hl : versions_le d0 (leases_at (pick_drain d).2 d).2)
    by (unfold leases_at; case_match; cbn [snd]; vers).
  destruct (leases_at (pick_drain d).2 d) as [L d1]. cbn [snd] in Hl.
  match goal with |- context [do_drain_to_cold ?n ?g ?x] =>
    assert (Hx : versions_le d0 x) by vers; pose proof (v_do_drain d0 x n g Hx) as Hd;
    destruct (do_drain_to_cold n g x) as [[ok cold] d2] end. cbn [snd] in Hd.
  destruct ok; cbn [negb snd]; [apply v_drain_commit|]; vers.
Qed.
Lemma v_alloc_with_drain n d0 d now gaps gpu numa nb fl :
  (forall i, versions_rely (gaps i)) -> versions_le d0 d ->
  versions_le d0 (alloc_with_drain n now gaps gpu numa nb fl d).2.
Proof.
  revert d now gaps. induction n as [|n IH]; intros d now gaps Hr H; [done|]. cbn [alloc_with_drain].
  assert (Ha : versions_le d0 (allocate_slots gpu numa nb fl d).2)
    by (unfold allocate_slots; repeat case_match; cbn [snd]; vers).
  destruct (allocate_slots gpu numa nb fl d) as [[run|] d1]; [done|]. cbn [snd] in Ha.
  pose proof (v_force_drain_one d0 d1 now (gaps 0%nat) (Hr 0%nat) Ha) as Hf.
  destruct (force_drain_one now (gaps 0%nat) d1) as [[] d2]; [|done]. apply IH; [|done].
  intros i. apply Hr.
Qed.
Lemma v_apply_d2h d0 d now r e l t v s q :
  versions_le d0 d -> versions_le d0 (apply_d2h_complete now r e l t v s q d).2.
Proof.
  intros H. unfold apply_d2h_complete. cbv zeta. repeat (case_match; cbn [snd]); vers;
    match goal with E : update_location_if_latest ?a ?b ?c ?e ?f ?g ?x = _ |- _ =>
      assert (Hu : versions_le d0 (update_location_if_latest a b c e f g x).2) by vers;
      rewrite E in Hu; cbn [snd] in Hu end; unfold enqueue_drain; vers.
Qed.
Lemma v_apply_h2d d0 d now r e l t v s k q :
  versions_le d0 d -> versions_le d0 (apply_h2d_complete now r e l t v s k q d).2.
Proof.
  intros H. unfold apply_h2d_complete, keep_resident, demote_location. cbv zeta.
  repeat (case_match; cbn [snd]); vers; clear; intros x; by case_decide.
Qed.

Lemma v_batch_complete d0 d now req :
  versions_le d0 d -> versions_le d0 (handle_batch_complete now req d).2.
Proof.
  intros H. unfold handle_batch_complete.
  enough (Hb : forall cs acc, versions_le d0 acc.2 ->
    versions_le d0 (batch_loop now (bq_rank_id req) (bq_rank_epoch req) cs acc).2).
  { specialize (Hb (bq_completions req) (0, 0, d) H). by destruct (batch_loop _ _ _ _ _) as [[? ?] ?]. }
  unfold batch_loop. induction cs as [|c cs IH]; intros [[a r] x] Hx; [done|]. cbn [foldl]. apply IH.
  assert (Hc : versions_le d0 (apply_batch_one now (bq_rank_id req) (bq_rank_epoch req) c x).2).
  { unfold apply_batch_one. case_decide; [|case_decide; [by apply v_apply_h2d|cbn [snd]; vers]].
    match goal with |- context [apply_d2h_complete ?a ?b ?c ?e ?f ?g ?h ?i ?x] =>
      pose proof (v_apply_d2h d0 x a b c e f g h i Hx);
      by destruct (apply_d2h_complete a b c e f g h i x) as [[[? ?] ?] ?] end. }
  by destruct (apply_batch_one _ _ _ c x) as [[] ?].
Qed.
Lemma v_request_prefetch d0 d now gaps req :
  (forall i, versions_rely (gaps i)) -> versions_le d0 d ->
  versions_le d0 (handle_request_prefetch now gaps req d).2.
Proof.
  intros Hr H. unfold handle_request_prefetch. cbv zeta.
  destruct (negb _); [cbn [snd]; vers|]. destruct (locations _ !! _) as [loc|]; [|cbn [snd]; vers].
  match goal with |- context [decide (?w ≠ lo_version loc)] => generalize w; intros wv end.
  case_decide; [cbn [snd]; vers|]. case_decide; [cbn [snd]; vers|].
  destruct (find_prefetch _ _ _); [cbn [snd]; vers|].
  case_decide; [unfold prefetch_resident; cbn [snd]; vers|].
  match goal with |- context [alloc_with_drain ?n ?w ?gs ?a ?b ?c ?e ?x] =>
    assert (Hx : versions_le d0 x) by vers;
    pose proof (v_alloc_with_drain n d0 x w gs a b c e Hr Hx) as Ha;
    destruct (alloc_with_drain n w gs a b c e x) as [[[[base cnt]|] now'] d2] end;
    cbn [snd] in Ha |- *; unfold prefetch_readback; cbn [snd]; vers.
Qed.
Lemma v_request_offload d0 d now gaps req :
  (forall i, versions_rely (gaps i)) -> versions_le d0 d ->
  versions_le d0 (handle_request_offload now gaps req d).2.
Proof.
  intros Hr H. unfold handle_request_offload. cbv zeta.
  destruct (negb _); [cbn [snd]; vers|]. case_decide; [done|].
  match goal with |- context [alloc_with_drain ?n ?w ?gs ?a ?b ?c ?e ?x] =>
    assert (Hx : versions_le d0 x) by vers;
    pose proof (v_alloc_with_drain n d0 x w gs a b c e Hr Hx) as Ha;
    destruct (alloc_with_drain n w gs a b c e x) as [[[[base cnt]|] now'] d2] end;
    cbn [snd] in Ha |- *; [|vers].
  destruct (existsb _ _); unfold grant_offload; cbn [snd]; vers.
Qed.
Lemma v_drain_worker d0 d gaps :
  (forall i, versions_rely (gaps i)) -> versions_le d0 d -> versions_le d0 (drain_worker_step gaps d).
Proof.
  intros Hr H. unfold drain_worker_step. destruct (drain_queue d) as [|job rest]; [done|]. cbv zeta.
  set (d1 := io_env (gaps 0%nat) _). assert (H1 : versions_le d0 d1) by (unfold d1; vers).
  clearbody d1. case_decide; [vers|].
  pose proof (v_do_drain d0 d1 (sl_nbytes (slot d1 (dj_base_slot job))) (gaps 1%nat) H1) as Hd.
  destruct (do_drain_to_cold _ _ d1) as [[ok cold] d2]. cbn [snd] in Hd.
  case_decide; [vers|]. destruct ok; cbn [negb]; [apply v_drain_commit|]; vers.
Qed.
Lemma v_readback_worker d0 d gaps :
  (forall i, versions_rely (gaps i)) -> versions_le d0 d -> versions_le d0 (readback_worker_step gaps d).
Proof.
  intros Hr H. unfold readback_worker_step. destruct (readback_queue d) as [|job rest]; [done|].
  cbv zeta. set (d1 := io_env (gaps 0%nat) _).
  assert (H1 : versions_le d0 d1) by (unfold d1; vers). clearbody d1.
  case_decide; [done|]. destruct (cold_store d1 !! _) as [cold|]; [|unfold readback_fail; vers].
  pose proof (v_do_readback d0 d1 (rj_base_slot job) cold (rj_nbytes job) (gaps 1%nat) H1) as Hd.
  destruct (do_readback_from_cold _ _ _ _ d1) as [ok d2]. cbn [snd] in Hd.
  case_decide; [vers|]. destruct ok; cbn [negb]; [|unfold readback_fail; vers].
  vers_location d0. vers.
Qed.
Lemma v_release_lease d0 d now req :
  versions_le d0 d -> versions_le d0 (handle_release_lease now req d).2.
Proof.
  intros H. unfold handle_release_lease, forget_pinned. cbv zeta.
  repeat (case_match; cbn [snd]); vers; clear; intros x; by case_decide.
Qed.
Lemma v_ring_completion d0 d now r e c :
  versions_le d0 d -> versions_le d0 (apply_ring_completion now r e c d).
Proof.
  intros H. unfold apply_ring_completion. repeat case_decide; [by apply v_apply_d2h|by apply v_apply_h2d|vers].
Qed.
Lemma v_drain_ring fuel d0 d now i r e :
  versions_le d0 d -> versions_le d0 (drain_ring fuel now i r e d).
Proof.
  revert d. induction fuel as [|n IH]; intros d H; [done|]. cbn [drain_ring].
  repeat case_match; try done. apply IH, v_ring_completion. vers.
Qed.
Lemma v_poll d0 d now budget l : versions_le d0 d -> versions_le d0 (foldl (poll_ring now budget) d l).
Proof.
  revert d. induction l as [|i l IH]; intros d H; [done|]. apply IH. unfold poll_ring.
  repeat case_match; try done. by apply v_drain_ring.
Qed.

(** ** Dropped sessions *)
(** Dropping a session reclaims canonical objects nobody holds any more, and with
    them the locations of their tensor ids, which have the canonical bit.  The
    locations of all other tensors are kept as [versions_le] says. *)
Definition objects_marked (d : Daemon) : Prop :=
  forall id o, objects d !! id = Some o -> is_canonical_tid (ob_synthetic_tid o) = true.
Definition plain_le (d d' : Daemon) : Prop :=
  forall t l, is_canonical_tid t = false -> locations d !! t = Some l ->
    exists l', locations d' !! t = Some l' /\ lo_version l <= lo_version l'.
Definition drops (d d' : Daemon) : Prop := objects_marked d -> objects_marked d' /\ plain_le d d'.
#[export] Instance drops_preorder : PreOrder drops.
Proof.
  split.
  - intros d Hm. split; [done|]. intros t l _ Hl. exists l. split; [done|lia].
  - intros a b c Hab Hbc Hm. destruct (Hab Hm) as [Hb Lab]. destruct (Hbc Hb) as [Hc Lbc]. split; [done|].
    intros t l Ht Hl. destruct (Lab _ _ Ht Hl) as (l1 & H1 & ?). destruct (Lbc _ _ Ht H1) as (l2 & H2 & ?).
    exists l2. split; [done|lia].
Qed.
Lemma drops_versions d d' : objects d' = objects d -> versions_le d d' -> drops d d'.
Proof. intros Eo Hv Hm. split; [unfold objects_marked; by rewrite Eo|]. intros t l _. apply Hv. Qed.
Lemma drops_maybe_free now o d id : objects d !! id = Some o -> drops d (maybe_free_object now o d).2.
Proof.
  intros Ho Hm. pose proof (Hm _ _ Ho) as Ht.
  unfold maybe_free_object, release_object, release_backing. repeat (case_match; cbn [snd]; simplify_eq/=).
  all: split; [intros i x Hx; simpl in Hx; try (apply lookup_delete_Some in Hx as [_ Hx]); by eapply Hm|].
  all: intros t' l' Hp Hl; exists l'; split; [simpl; try (rewrite lookup_delete_ne; [done|congruence]); done|lia].
Qed.
Lemma drops_foldl {A} (f : Daemon -> A -> Daemon) l d :
  (forall x a, drops x (f x a)) -> drops d (foldl f d l).
Proof. intros Hf. revert d. induction l as [|a l IH]; intros d; [reflexivity|]. cbn [foldl]. by etrans; [apply Hf|]. Qed.
Lemma drops_purge now r d : drops d (purge_rank_from_canonical now r d).
Proof.
  unfold purge_rank_from_canonical, free_unheld. cbv zeta. etrans; [|apply drops_foldl].
  - intros Hm. split; [|intros t l _ Hl; exists l; split; [done|lia]]. intros id o. simpl. rewrite lookup_fmap.
    destruct (objects d !! id) as [x|] eqn:Ex; [|done]. simpl. intros [= <-]. pose proof (Hm _ _ Ex).
    by case_match.
  - intros x oid. destruct (find_object x oid) as [o|] eqn:Eo; [|reflexivity]. by eapply drops_maybe_free.
Qed.
Lemma drops_expire now key s d :
  drops d (recover_leases now s (metric_inc kRankSessionsInvalidated (d <| sessions ::= <[key := s <| se_alive := false |>]> |>))).
Proof.
  match goal with |- drops _ (recover_leases _ _ ?x) => destruct (recover_leases_tables now s x) as [Eo El] end.
  apply drops_versions; [by rewrite Eo|]. apply (v_frame _ d); [reflexivity|by rewrite El].
Qed.
Lemma drops_invalidate now key d : drops d (invalidate now key d).
Proof.
  unfold invalidate. destruct (sessions d !! key) as [s|]; [|reflexivity]. destruct (negb _); [reflexivity|].
  cbv zeta. etrans; [apply drops_expire|]. etrans; [|apply drops_purge].
  unfold release_ring. case_decide; [|reflexivity]. cbv zeta. apply drops_versions.
  - simpl. by rewrite objects_drain_ring.
  - etrans; [apply v_drain_ring; reflexivity|]. by apply (v_frame _ _ (reflexivity _)).
Qed.
Lemma drops_register now req d : drops d (handle_register now req d).2.
Proof.
  unfold handle_register, invalidate_others. cbv zeta. set (y := foldl _ _ _).
  assert (Hy : drops d y).
  { unfold y. etrans; [apply drops_invalidate|]. apply drops_foldl. intros. apply drops_invalidate. }
  clearbody y. etrans; [exact Hy|]. apply drops_versions; [|apply (v_frame _ _ (reflexivity y))];
    (unfold assign_ring, resize_ring_owner; cbv zeta; by repeat (case_match; simplify_eq/=)).
Qed.
Lemma drops_monitor now d : drops d (heartbeat_monitor_sweep now d).
Proof.
  unfold heartbeat_monitor_sweep. cbv zeta.
  match goal with |- drops _ (foldl _ ?x _) => transitivity x; [apply drops_versions; [done|by apply (v_frame _ _ (reflexivity d))]|] end.
  apply drops_foldl. intros x key. unfold expire_session. destruct (sessions x !! key) as [s|]; [|reflexivity].
  destruct (timed_out _ _ _); [|reflexivity]. cbv zeta. etrans; [apply drops_expire|apply drops_purge].
Qed.
Lemma canonical_tid_marked id : is_canonical_tid (canonical_tid id) = true.
Proof.
  unfold is_canonical_tid, canonical_tid. apply negb_true_iff, Z.eqb_neq. intros H.
  apply (f_equal (fun z => Z.testbit z 63)) in H. revert H.
  rewrite Z.land_spec, Z.lor_spec, Z.bits_0. by vm_compute.
Qed.
Lemma reachable_marked c t0 d0 d : daemon_init c t0 = Some d0 -> rtc dstep d0 d -> objects_marked d.
Proof.
  intros Hi Hex. destruct (reachable_tables _ _ _ _ Hi Hex) as (_ & [_ HO] & _). intros id o Ho.
  destruct (HO _ _ Ho) as (_ & _ & _ & _ & _ & ->). apply canonical_tid_marked.
Qed.

(** The operations of the v1 protocol and the background threads; those that drop
    sessions reclaim canonical objects too. *)
Definition v1_op (o : op) : bool :=
  match o with
  | OpRequest _ r =>
      match r with
      | ReqRegisterRank _ | ReqHeartbeat _ | ReqRequestOffload _ | ReqMarkD2HSubmitted _ | ReqMarkD2HComplete _
      | ReqRequestPrefetch _ | ReqMarkH2DSubmitted _ | ReqMarkH2DComplete _ | ReqReleaseLease _
      | ReqQueryLocation _ | ReqBatchComplete _ | ReqShutdown _ | ReqGetStats _ => true
      | _ => false
      end
  | _ => true
  end.
Definition drops_sessions (o : op) : bool :=
  match o with OpRequest _ (ReqRegisterRank _) | OpHeartbeatMonitor _ => true | _ => false end.

Lemma v1_op_versions o d d' :
  v1_op o = true -> drops_sessions o = false -> (forall i, versions_rely (op_gaps o i)) ->
  run_op o d = Ok d' -> versions_le d d'.
Proof.
  intros Ho Hd Hr Hrun. pose proof (reflexivity d : versions_le d d) as H.
  destruct o as [x r|gaps|gaps|now|now|now|i e]; cbn [run_op op_gaps] in *; try discriminate;
    try (injection Hrun as <-).
  - destruct r; try discriminate; cbn [handle_request] in Hrun; injection Hrun as <-.
    + unfold handle_heartbeat. case_match; cbn [snd]; vers.
    + by apply v_request_offload.
    + unfold handle_mark_d2h_submitted. repeat (case_match; cbn [snd]); vers.
    + unfold handle_mark_d2h_complete.
      match goal with |- context [apply_d2h_complete ?a ?b ?c ?e ?f ?g ?h ?i ?x] =>
        pose proof (v_apply_d2h x x a b c e f g h i H);
        by destruct (apply_d2h_complete a b c e f g h i x) as [[[? ?] ?] ?] end.
    + by apply v_request_prefetch.
    + unfold handle_mark_h2d_submitted. repeat (case_match; cbn [snd]); vers.
    + unfold handle_mark_h2d_complete.
      match goal with |- context [apply_h2d_complete ?a ?b ?c ?e ?f ?g ?h ?i ?j ?x] =>
        pose proof (v_apply_h2d x x a b c e f g h i j H);
        by destruct (apply_h2d_complete a b c e f g h i j x) end.
    + by apply v_release_lease.
    + unfold handle_query_location. by repeat case_match.
    + by apply v_batch_complete.
    + vers.
    + unfold handle_get_stats. by repeat case_match.
  - by apply v_drain_worker.
  - by apply v_readback_worker.
  - by apply v_poll.
  - by apply v_poll.
  - vers.
Qed.

(** C15. The location table never goes back in version: in every reachable state no
    v1 request (registering a rank included), background worker, heartbeat sweep or
    ring sweep makes the version recorded for a tensor smaller or forgets the
    tensor, if the other threads do not either while the operation has released
    the lock.  For registrations and heartbeat sweeps this excepts canonical
    tensor ids, whose object may be reclaimed with its last holder. *)
Theorem versions_monotone (o : op) (c : DaemonConfig) (t0 : Z) (d0 d d' : Daemon) (t : Z) (l : Location) :
  daemon_init c t0 = Some d0 -> rtc dstep d0 d ->
  v1_op o = true -> (forall i, versions_rely (op_gaps o i)) -> run_op o d = Ok d' ->
  locations d !! t = Some l -> (drops_sessions o = true -> is_canonical_tid t = false) ->
  exists l', locations d' !! t = Some l' /\ lo_version l <= lo_version l'.
Proof.
  intros Hi Hex Ho Hr Hrun Hl Ht. destruct (drops_sessions o) eqn:Ed; [|by eapply v1_op_versions].
  pose proof (reachable_marked _ _ _ _ Hi Hex) as Hm. assert (Hd : drops d d').
  { destruct o as [x r| | |now| | |]; try discriminate; [destruct r; try discriminate|];
      cbn [run_op handle_request] in Hrun; injection Hrun as <-; [apply drops_register|apply drops_monitor]. }
  destruct (Hd Hm) as [_ Hp]. apply Hp; auto.
Qed.

(** ** Host-to-device copies start from readable slots only *)
(** [MarkH2DSubmitted] is answered [ok] exactly when the session is current,
    the lease is the rank's own and its base slot is PINNED_VALID; it then moves
    exactly the lease's run to H2D_IN_FLIGHT.  In particular a slot that is being
    drained, read back or reserved is never handed to a device copy. *)
Theorem h2d_submit_readable (now : Z) (req : MarkH2DSubmittedRequest) (d : Daemon) :
  let '(resp, d') := handle_mark_h2d_submitted now req d in
  (hss_ok resp = true <->
     epoch_valid d (hs_rank_id req) (hs_rank_epoch req) = true /\
     exists L, leases d !! hs_lease_id req = Some L /\ le_owner_rank L = hs_rank_id req /\
       le_base_slot L = hs_slot_id req /\ slot_state d (hs_slot_id req) = SLOT_PINNED_VALID) /\
  (hss_ok resp = false -> exists m, d' = metric_inc m d) /\
  (hss_ok resp = true -> forall L, leases d !! hs_lease_id req = Some L ->
     0 <= le_base_slot L -> le_base_slot L + le_slot_count L <= 2 ^ 32 ->
     (forall k e, 0 <= k < le_slot_count L -> slots d !! (le_base_slot L + k) = Some e ->
        exists e', slots d' !! (le_base_slot L + k) = Some e' /\ sl_state e' = SLOT_H2D_IN_FLIGHT) /\
     (forall id, id ∉ run_ids (le_base_slot L) (le_slot_count L) -> slots d' !! id = slots d !! id) /\
     locations d' = locations d /\ leases d' = leases d).
Proof.
  unfold handle_mark_h2d_submitted. destruct (epoch_valid d _ _); simpl;
    [|split_and!; [split; [done|by intros [? _]]|eauto|done]].
  destruct (lease_of d _ _ _) as [L|] eqn:EL.
  - apply lease_of_Some in EL as (HL & HR & HS). rewrite HS. case_decide as Hst; simpl.
    + split_and!; [|eauto|done]. split; [done|]. intros (_ & L' & HL' & _ & _ & ?). done.
    + split_and!; [|done|].
      * split; [|done]. intros _. split; [done|]. exists L. by split_and!.
      * intros _ L' HL' Hb Hc. rewrite HL in HL'. injection HL' as <-. rewrite HS in *.
        split_and!; [|intros id Hid; by rewrite lookup_update_run_ne|done|done].
        intros k e Hk He. by eapply run_state_after.
  - simpl. split_and!; [|eauto|done]. split; [done|].
    intros (_ & L & ? & ? & ? & _). destruct (lease_of_None _ _ _ _ EL); eauto.
Qed.

(** ** A batch is the sequence of its completions *)
(** One completion sent as its own RPC. *)
Definition single_completion (now rank epoch : Z) (c : BatchCompletion) (d : Daemon) : bool * Daemon :=
  if decide (bc_event_type c = EVENT_D2H_COMPLETE) then
    let '(r, d) := handle_mark_d2h_complete now (mkMarkD2HCompleteRequest rank epoch (bc_lease_id c)
      (bc_tensor_id c) (bc_version c) (bc_slot_id c) (bc_seq c) (bc_timestamp_ns c)) d in
    (dcs_ok r, d)
  else if decide (bc_event_type c = EVENT_H2D_COMPLETE) then
    let '(r, d) := handle_mark_h2d_complete now (mkMarkH2DCompleteRequest rank epoch (bc_lease_id c)
      (bc_tensor_id c) (bc_version c) (bc_slot_id c) (bc_keep_pinned c) (bc_seq c)
      (bc_timestamp_ns c)) d in
    (hcs_ok r, d)
  else (false, metric_inc kInvalidTransitionRejected d).
(** The answers and the final state of sending the completions one by one. *)
Definition sequential (now rank epoch : Z) (cs : list BatchCompletion) (d : Daemon)
  : list bool * Daemon :=
  foldl (fun '(oks, d) c => let '(ok, d) := single_completion now rank epoch c d in (oks ++ [ok], d))
    ([], d) cs.

Lemma batch_one_single now rank epoch c d :
  apply_batch_one now rank epoch c d = single_completion now rank epoch c d.
Proof.
  unfold apply_batch_one, single_completion. case_decide; [|case_decide; [|done]].
  - unfold handle_mark_d2h_complete. simpl.
    by destruct (apply_d2h_complete _ _ _ _ _ _ _ _ _) as [[[? ?] ?] ?].
  - unfold handle_mark_h2d_complete. simpl. by destruct (apply_h2d_complete _ _ _ _ _ _ _ _ _ _).
Qed.
Lemma u32_succ n : u32 (u32 (Z.of_nat n) + 1) = u32 (Z.of_nat (n + 1)).
Proof. unfold u32. rewrite Zplus_mod_idemp_l. f_equal. lia. Qed.
Lemma batch_loop_sequential now rank epoch cs d :
  batch_loop now rank epoch cs (0, 0, d) =
  (u32 (Z.of_nat (length (filter (fun ok => ok = true) (sequential now rank epoch cs d).1))),
   u32 (Z.of_nat (length (filter (fun ok => ok = false) (sequential now rank epoch cs d).1))),
   (sequential now rank epoch cs d).2).
Proof.
  induction cs as [|c cs IH] using rev_ind; [done|].
  unfold batch_loop, sequential in *. rewrite !foldl_snoc, IH.
  destruct (foldl _ ([], d) cs) as [oks x]. cbn [fst snd]. rewrite batch_one_single.
  destruct (single_completion now rank epoch c x) as [[] y]; cbn [fst snd];
    rewrite !filter_app, !length_app, u32_succ; cbn; by rewrite Nat.add_0_r.
Qed.

(** [BatchComplete] is equivalent to sending its completions one by one with
    [MarkD2HComplete] and [MarkH2DComplete]: the same final daemon, [accepted]
    and [rejected] count the answers of the single calls, and together they
    account for every completion of the batch. *)
Theorem batch_is_sequential (now : Z) (req : BatchCompleteRequest) (d : Daemon) :
  let s := sequential now (bq_rank_id req) (bq_rank_epoch req) (bq_completions req) d in
  let '(resp, d') := handle_batch_complete now req d in
  d' = s.2 /\
  bqs_accepted resp = u32 (Z.of_nat (length (filter (fun ok => ok = true) s.1))) /\
  u32 (bqs_accepted resp + bqs_rejected resp) = u32 (Z.of_nat (length (bq_completions req))).
Proof.
  unfold handle_batch_complete. rewrite batch_loop_sequential. cbn [bqs_accepted bqs_rejected].
  split_and!; [done..|].
  assert (Hlen : forall l : list bool,
    (length (filter (fun ok => ok = true) l) + length (filter (fun ok => ok = false) l) = length l)%nat).
  { induction l as [|[] l IH]; [done|..]; rewrite !filter_cons;
      rewrite ?decide_True, ?decide_False by done; simpl; lia. }
  assert (Hs : length (sequential now (bq_rank_id req) (bq_rank_epoch req) (bq_completions req) d).1
               = length (bq_completions req)).
  { unfold sequential. induction (bq_completions req) as [|c cs IH] using rev_ind; [done|].
    rewrite foldl_snoc. destruct (foldl _ _ cs) as [oks x]. cbn [fst] in IH.
    destruct (single_completion _ _ _ _ _). cbn [fst]. rewrite !length_app. simpl. lia. }
  unfold u32. rewrite <- Zplus_mod. f_equal. rewrite <- Hs.
  rewrite <- (Hlen (sequential _ _ _ _ _).1) at 1. lia.
Qed.

(** ** Concrete executions *)
(** A rank registered under epoch 1. *)
Definition one_rank : Daemon := run_ok [reg 3 77] (smoke_daemon []).
(** It reserved a run of three slots for tensor 9 and submitted the copy. *)
Definition in_flight : Daemon := run_ok [offload 3 1 9 1 5000000; d2h_submit 3 1 1 9 1 0] one_rank.

Lemma offload_grant_safe_witness :
  exists resp d', handle_request_offload 10 (fun _ => quiet_gap)
      (mkRequestOffloadRequest 3 1 9 1 5000000 0 0 0 0 0 "") one_rank = (resp, d') /\
    ros_ok resp = true /\
    exists d1 count, run_available d1 (ros_slot_id resp) count /\ 5000000 <= count * 2097152.
Proof.
  destruct (handle_request_offload 10 (fun _ => quiet_gap)
    (mkRequestOffloadRequest 3 1 9 1 5000000 0 0 0 0 0 "") one_rank) as [resp d'] eqn:E.
  assert (Hok : ros_ok resp = true).
  { change (ros_ok (resp, d').1 = true). rewrite <- E. vm_compute. reflexivity. }
  assert (W : ids_in_range d').
  { apply ids_fit_spec. change (ids_fit (resp, d').2 = true). rewrite <- E. vm_compute. reflexivity. }
  exists resp, d'. split_and!; [done..|].
  edestruct (offload_grant_safe smoke_config 0 10 (fun _ => quiet_gap)
    (mkRequestOffloadRequest 3 1 9 1 5000000 0 0 0 0 0 "") (smoke_daemon []) one_rank d' resp)
    as (d1 & count & now1 & _ & Hrun & Hle & _);
    [reflexivity|exact smoke_config_in_range|vm_compute; reflexivity| |intros _; exact quiet_rely
    |reflexivity|vm_compute; discriminate|vm_compute; discriminate|exact E|exact Hok|exact W|].
  - apply (run_requests_steps [reg 3 77]); vm_compute; reflexivity.
  - exists d1, count. split; [exact Hrun|exact Hle].
Defined.
Lemma d2h_complete_effect_witness :
  exists d' L, apply_d2h_complete 10 3 1 1 9 1 0 1 in_flight = (true, true, true, d') /\
    leases in_flight !! 1 = Some L /\ leases d' = leases in_flight /\
    locations d' = <[9 := mkLocation 9 1 LOC_PINNED 0 0 (le_nbytes L)]> (locations in_flight).
Proof.
  destruct (leases in_flight !! 1) as [L|] eqn:EL; [|vm_compute in EL; discriminate].
  assert (Hc : le_slot_count L = 3).
  { change (default 0 (le_slot_count <$> Some L) = 3). rewrite <- EL. vm_compute. reflexivity. }
  destruct (apply_d2h_complete 10 3 1 1 9 1 0 1 in_flight) as [[[ok latest] enq] d'] eqn:E.
  assert (Hr : (ok, latest, enq) = (true, true, true)).
  { change ((ok, latest, enq, d').1 = (true, true, true)). rewrite <- E. vm_compute. reflexivity. }
  injection Hr as -> -> ->. exists d', L.
  edestruct (d2h_complete_effect 10 3 1 1 9 1 0 1 in_flight d' L true true)
    as (_ & _ & Hl & _ & _ & Hloc & _); [exact E|exact EL|lia|rewrite Hc; lia|].
  exact (conj eq_refl (conj eq_refl (conj Hl Hloc))).
Defined.
Lemma versions_monotone_witness :
  let d := run_ok [d2h_complete 3 1 1 9 1 0] in_flight in
  let d' := run_ok [reg 3 77] d in
  (lo_version <$> locations d !! 9) = Some 1 /\
  exists l', locations d' !! 9 = Some l' /\ 1 <= lo_version l'.
Proof.
  intros d d'. split; [vm_compute; reflexivity|].
  apply (versions_monotone (OpRequest (quiet_ctx 10) (reg 3 77)) smoke_config 0 (smoke_daemon []) d d' 9
    (mkLocation 9 1 LOC_PINNED 0 0 5000000)).
  - exact smoke_init.
  - unfold d. reach.
  - reflexivity.
  - intros i x. reflexivity.
  - vm_compute. reflexivity.
  - vm_compute. reflexivity.
  - reflexivity.
Defined.
