(* ===== verification/CanonicalProps.v ===== *)
(** * Behaviour of the canonical store

    Functional theorems about [Canonical] and [Store]: what attaching shares,
    when a creator is appointed, what a commit accepts and what it leaves alone
    when it refuses, which objects a release reclaims, and that nothing reclaims
    an object that is being exported or restored. *)
From stdpp Require Import base gmap strings list fin_maps fin_sets list_numbers relations.
From Stdlib Require Import ZArith Lia.
From S2P Require Import Prelude.
From S2P Require Import Ring.
From S2P Require Import Protocol.
From S2P Require Import ProtocolV2.
From S2P Require Import Rpc.
From S2P Require Import State.
From S2P Require Import Alloc.
From S2P Require Import Drain.
From S2P Require Import Offload.
From S2P Require Import Store.
From S2P Require Import Identity.
From S2P Require Import Session.
From S2P Require Import Canonical.
From S2P Require Import Rollout.
From S2P Require Import Guarantee.
From S2P Require Import Fencing.
From S2P Require Import System.
From S2P Require Import Scenarios.
From S2P Require Import OffloadProps.
Open Scope Z_scope.
Open Scope offload_scope.

(** ** Attach or create *)
Lemma find_by_key_spec d k o :
  object_ids_ok d -> index_ok d -> find_object_by_key d k = Some o ->
  objects d !! ob_object_id o = Some o /\ ob_key_str o = k /\ canonical_key_string (ob_key o) = k /\
  ob_nbytes o = k_nbytes (ob_key o).
Proof.
  intros [_ Hok] Hix. unfold find_object_by_key, find_object. destruct (object_by_key d !! k) as [id|] eqn:Ek;
    [|done]. intros Ho. destruct (Hok _ _ Ho) as (-> & _ & _ & Hs & Hn & _).
  destruct (Hix _ _ Ek) as [_ Hk]. specialize (Hk _ Ho). split_and!; [done|done|congruence|done].
Qed.
(** ** The store in every reachable state *)
(** C3. In every state a daemon can reach, the canonical store is consistent: an
    object is filed under its own id, its count is the number of its holders, its
    key string, size and tensor id are the ones computed from its key and id; the
    key index leads from a key to an object with exactly that key's axes; and a
    lease is filed under its own id. *)
Theorem reachable_store_consistent (c : DaemonConfig) (t0 : Z) (d0 d : Daemon) :
  daemon_init c t0 = Some d0 -> rtc dstep d0 d ->
  (forall id o, objects d !! id = Some o ->
     ob_object_id o = id /\ ob_refcount o = u32 (Z.of_nat (size (ob_holders o))) /\
     ob_key_str o = canonical_key_string (ob_key o) /\ ob_nbytes o = k_nbytes (ob_key o) /\
     ob_synthetic_tid o = canonical_tid id) /\
  (forall k o, find_object_by_key d (canonical_key_string k) = Some o ->
     wf_CanonicalTensorKeyWire k -> wf_CanonicalTensorKeyWire (ob_key o) ->
     (key_axes (ob_key o)).*2 = (key_axes k).*2) /\
  (forall id L, leases d !! id = Some L -> le_lease_id L = id /\ 0 < id < next_lease_id d).
Proof.
  intros Hi Hex. destruct (reachable_tables _ _ _ _ Hi Hex) as ([_ HL] & HO & HX & _). split_and!.
  - intros id o Ho. destruct (proj2 HO _ _ Ho) as (<- & _ & Hc & Hs & Hn & Ht). by split_and!.
  - intros k o Ho Hk Hko. destruct (find_by_key_spec _ _ _ HO HX Ho) as (_ & _ & Hs & _).
    by apply key_string_axes.
  - done.
Qed.

(** Inverts a branch of the evict handler that answers without changing the daemon. *)
Ltac evict_answer := intros [= <- <-]; cbn [ces_action ces_object_id]; try done.

Lemma grant_candidate_action now gaps req uid ex m1 m2 d r d' :
  grant_candidate now gaps req uid ex m1 m2 d = Ok (r, d') ->
  ces_action r = ATTACH_ACTION_QUOTA_EXCEEDED \/
  (ces_action r = ATTACH_ACTION_DUPLICATE_CANDIDATE /\
   exists o, objects d' !! ob_object_id ex = Some o /\ ces_object_id r = ob_object_id o).
Proof.
  unfold grant_candidate. cbv zeta. destruct (reserve _ _ _ _ _ _ _) as [[[[[lid b] c] n]|] d1];
    [|evict_answer; by left].
  destruct (find_object d1 _) as [o|] eqn:Eo; [|done]. evict_answer. right. split; [done|]. by exists o.
Qed.
Lemma evict_create_action now gaps req uid k d r d' :
  Ok (evict_create now gaps req uid k d) = Ok (r, d') ->
  ces_action r ≠ ATTACH_ACTION_ATTACHED_EXISTING /\ ces_action r ≠ ATTACH_ACTION_WAIT_FOR_CREATOR.
Proof.
  unfold evict_create. cbv zeta. destruct (negb _); [evict_answer|].
  destruct (reserve _ _ _ _ _ _ _) as [[[[[lid b] c] n]|] d1]; evict_answer.
Qed.

(** C10. Deduplication is sound: in every reachable state, when
    [RequestCanonicalEvict] attaches the rank to an existing object, that object
    is readable and has the identity string and the size of the request's key,
    so it is the same shard (the string determines every identity axis); attaching moves no bytes:
    no slot, lease, location or other object changes, and the rank becomes a
    holder. *)
Theorem attach_is_same_shard (c : DaemonConfig) (t0 now : Z) (gaps : nat -> IoGap)
  (req : RequestCanonicalEvictRequest) (d0 d d' : Daemon) (resp : RequestCanonicalEvictResponse) :
  daemon_init c t0 = Some d0 -> rtc dstep d0 d ->
  handle_request_canonical_evict now gaps req d = Ok (resp, d') ->
  ces_action resp = ATTACH_ACTION_ATTACHED_EXISTING ->
  exists o, objects d !! ces_object_id resp = Some o /\
    canonical_key_string (ob_key o) = canonical_key_string (ce_key req) /\
    ob_nbytes o = k_nbytes (ce_key req) /\ readable_state (ob_state o) = true /\
    (exists o', objects d' = <[ces_object_id resp := o']> (objects d) /\ identity o' = identity o /\
       ob_state o' = ob_state o /\ ob_holders o' = ob_holders o ∪ {[ ce_rank_id req ]} /\
       ob_refcount o' = u32 (Z.of_nat (size (ob_holders o')))) /\
    slots d' = slots d /\ leases d' = leases d /\ locations d' = locations d.
Proof.
  intros Hi Hex. destruct (reachable_tables _ _ _ _ Hi Hex) as (_ & HO & HX & _).
  unfold handle_request_canonical_evict. cbv zeta.
  destruct (negb _); [evict_answer|]. destruct (negb _); [evict_answer|].
  destruct (find_job_by_wire d _); [|evict_answer]. destruct (version_sealed d _); [evict_answer|].
  destruct (find_object_by_key d _) as [ex|] eqn:Ek.
  2:{ intros Hc Ha. by destruct (evict_create_action _ _ _ _ _ _ _ _ Hc). }
  destruct (find_by_key_spec _ _ _ HO HX Ek) as (Ho & Hs & Hks & Hn).
  case_decide as Hnb; [evict_answer|]. destruct (readable_state _) eqn:Er.
  - unfold evict_valid. destruct (negb _); [evict_answer|]. case_decide.
    + unfold attach_existing. cbv zeta. evict_answer. intros _. exists ex.
      split_and!; try done; eexists; split_and!; done.
    + intros Hg Ha. destruct (grant_candidate_action _ _ _ _ _ _ _ _ _ _ Hg) as [E|[E _]]; by rewrite E in Ha.
  - case_decide.
    + unfold evict_creating. cbv zeta. destruct (negb _); [evict_answer|].
      intros Hg Ha. destruct (grant_candidate_action _ _ _ _ _ _ _ _ _ _ Hg) as [E|[E _]]; by rewrite E in Ha.
    + intros Hc Ha. by destruct (evict_create_action _ _ _ _ _ _ _ _ Hc).
Qed.

(** A successful [reserve] at the moment [d1] the run was found free. *)
Lemma reserve_spec now gaps req uid tid v d lid base count now' d' :
  (forall i, rely (gaps i)) -> windows_wf d ->
  let n := k_nbytes (ce_key req) in let g := c_allocation_granularity_bytes (cfg d) in
  0 < g -> 0 < n -> n + g <= 2 ^ 64 -> n <= (2 ^ 32 - 1) * g ->
  reserve now gaps req uid tid v d = (Some (lid, base, count, now'), d') ->
  exists d1, guarantee d d1 /\ run_available d1 base count /\ n <= count * g /\
    lid = u64 (next_lease_id d1) /\
    next_lease_id d' = next_lease_id d1 + 1 /\
    leases d' = <[lid := mkLease lid base count tid v (ce_rank_id req) (session_pid d1 (ce_rank_id req))
                    (ce_rank_epoch req) n false]> (leases d1) /\
    slots d' = update_run (canonical_entry now' req tid v lid (session_pid d1 (ce_rank_id req)))
                 base count (slots d1) /\
    objects d' = objects d1 /\ object_by_key d' = object_by_key d1 /\ next_object_id d' = next_object_id d1.
Proof.
  intros Hr Hw n g Hg Hn Hlim Hmax. unfold reserve. cbv zeta.
  match goal with |- (if ?b then _ else _) = _ -> _ => destruct b; [done|] end.
  destruct (alloc_with_drain _ _ _ _ _ _ _ d) as [[[[b c]|] w] d1] eqn:E; [|done].
  intros [= <- <- <- <- <-].
  apply alloc_with_drain_spec in E as (HG & Hrun & Hc & Hle); [|done..]. subst c.
  exists d1. by split_and!.
Qed.

Lemma attach_only_existing now gaps req d resp d' :
  handle_request_canonical_evict now gaps req d = Ok (resp, d') ->
  ces_action resp = ATTACH_ACTION_NEED_D2H_CREATE ->
  evict_create now gaps req (uid_of_wire (k_job (ce_key req))) (canonical_key_string (ce_key req)) d
    = (resp, d') /\
  forall o, find_object_by_key d (canonical_key_string (ce_key req)) = Some o ->
    readable_state (ob_state o) = false /\ ob_state o ≠ OBJ_CREATING.
Proof.
  unfold handle_request_canonical_evict. cbv zeta.
  destruct (negb _); [evict_answer|]. destruct (negb _); [evict_answer|].
  destruct (find_job_by_wire d _); [|evict_answer]. destruct (version_sealed d _); [evict_answer|].
  destruct (find_object_by_key d _) as [ex|] eqn:Ek; [|by intros [= ->]].
  case_decide; [evict_answer|]. destruct (readable_state _) eqn:Er.
  - unfold evict_valid. destruct (negb _); [evict_answer|]. case_decide; [evict_answer|].
    intros Hg Ha. destruct (grant_candidate_action _ _ _ _ _ _ _ _ _ _ Hg) as [E|[E _]]; by rewrite E in Ha.
  - case_decide as Hc.
    + unfold evict_creating. cbv zeta. destruct (negb _); [evict_answer|].
      intros Hg Ha. destruct (grant_candidate_action _ _ _ _ _ _ _ _ _ _ Hg) as [E|[E _]]; by rewrite E in Ha.
    + intros [= ->] _. split; [done|]. intros o [= <-]. done.
Qed.

(** C13. Appointing a creator: in every reachable state of a valid configuration
    whose sizes do not wrap ([config_in_range]), for a size that does not wrap the
    slot count (the size plus a slot is at most [2 ^ 64], and it fills at most
    [2 ^ 32 - 1] slots), and while no id counter has wrapped, [RequestCanonicalEvict]
    answers NEED_D2H_CREATE only when the key names no object that is readable or
    being created, and then the answer names a fresh object, registered under the
    key in state CREATING with the rank as its only holder, and a fresh lease of
    the rank on a run that was free, contiguous and large enough. *)
Theorem creator_appointed (c : DaemonConfig) (t0 now : Z) (gaps : nat -> IoGap)
  (req : RequestCanonicalEvictRequest) (d0 d d' : Daemon) (resp : RequestCanonicalEvictResponse) :
  validate_config c = Ok tt -> config_in_range c -> daemon_init c t0 = Some d0 -> rtc dstep d0 d ->
  (forall i, rely (gaps i)) ->
  let n := k_nbytes (ce_key req) in let g := c_allocation_granularity_bytes c in
  0 < n -> n + g <= 2 ^ 64 -> n <= (2 ^ 32 - 1) * g ->
  handle_request_canonical_evict now gaps req d = Ok (resp, d') ->
  ces_action resp = ATTACH_ACTION_NEED_D2H_CREATE -> ids_in_range d' ->
  (forall o, find_object_by_key d (canonical_key_string (ce_key req)) = Some o ->
     readable_state (ob_state o) = false /\ ob_state o ≠ OBJ_CREATING) /\
  objects d !! ces_object_id resp = None /\
  (exists o, objects d' !! ces_object_id resp = Some o /\ ob_key o = ce_key req /\
     ob_state o = OBJ_CREATING /\ ob_holders o = {[ ce_rank_id req ]} /\
     ob_lease_id o = ces_lease_id resp) /\
  object_by_key d' !! canonical_key_string (ce_key req) = Some (ces_object_id resp) /\
  exists d1 L, guarantee d d1 /\ leases d1 !! ces_lease_id resp = None /\
    leases d' !! ces_lease_id resp = Some L /\ le_owner_rank L = ce_rank_id req /\
    le_base_slot L = ces_slot_id resp /\ le_tensor_id L = canonical_tid (ces_object_id resp) /\
    run_available d1 (le_base_slot L) (le_slot_count L) /\ n <= le_slot_count L * g.
Proof.
  intros Hv Hcr Hi Hex Hr n g Hn Hlim Hmax Hh Ha W.
  destruct (reachable_windows_wf c t0 d0 d Hv Hcr Hi Hex) as [Hw Hc].
  destruct (reachable_tables _ _ _ _ Hi Hex) as (HL & [Hp HO] & _ & _).
  assert (Hg : 0 < g) by apply (validated_fits c Hv Hcr).
  destruct (attach_only_existing _ _ _ _ _ _ Hh Ha) as [He Hex']. split; [done|].
  revert He. unfold evict_create. cbv zeta. destruct (negb _); [by intros [= <- _]|].
  pose proof (g_object_counter d d (reflexivity d)) as HGc.
  destruct (reserve _ _ _ _ _ _ _) as [[[[[lid b] cnt] w]|] d2] eqn:Er; [|by intros [= <- _]].
  apply reserve_spec in Er as (d1 & HG & Hrun & Hle & -> & En & El & _ & _ & _ & Eno); try done; simpl; rewrite ?Hc; try done.
  intros [= <- <-]. cbn [ces_object_id ces_lease_id ces_slot_id slot_resp].
  assert (HGd : guarantee d d1) by (by etransitivity).
  pose proof (ir_lease _ W) as Wl. pose proof (ir_object _ W) as Wo. simpl in Wl, Wo.
  pose proof (g_object_next _ _ HG) as Hno. simpl in Hno.
  assert (Hfree : leases d1 !! u64 (next_lease_id d1) = None) by (eapply fresh_lease_id; [exact HGd|done|lia]).
  assert (Hid : u64 (next_object_id d) = next_object_id d) by (apply u64_small; unfold in_u64; lia).
  split_and!.
  - rewrite Hid. destruct (objects d !! next_object_id d) as [o|] eqn:Eo; [|done].
    destruct (HO _ _ Eo) as (_ & ? & _). lia.
  - eexists. simpl. rewrite lookup_insert_eq. by split_and!.
  - simpl. by rewrite lookup_insert_eq.
  - exists d1. eexists. simpl. rewrite El, lookup_insert_eq. cbn [le_base_slot le_slot_count].
    simpl in Hle. rewrite Hc in Hle. by split_and!.
Qed.

(** ** Commit *)
(** The bytes of the object are somewhere. *)
Definition bytes_valid (d : Daemon) (o : CanonicalObject) : Prop :=
  exists loc, locations d !! ob_synthetic_tid o = Some loc /\
    lo_kind loc ≠ LOC_NONE /\ lo_kind loc ≠ LOC_DELETED.
Definition is_creator (req : CommitCanonicalObjectRequest) (o : CanonicalObject) : Prop :=
  ob_state o = OBJ_CREATING /\ ob_lease_id o = cc_lease_id req.

(** C27. A commit is accepted exactly when the session is current, the object
    exists and either the creator's bytes are valid, or the object is readable and
    the content hashes do not contradict each other; [won] marks the creator's
    commit.  A refused commit, in particular a replica with another content hash,
    leaves every object, the key index and the manifests as they were. *)
Theorem commit_decision (now : Z) (req : CommitCanonicalObjectRequest) (d : Daemon) :
  let '(resp, d') := handle_commit_canonical_object now req d in
  (ccs_ok resp = true <->
     c_v2_enable_canonical_store (cfg d) = true /\
     epoch_valid d (cc_rank_id req) (cc_rank_epoch req) = true /\
     exists o, objects d !! cc_object_id req = Some o /\
       ((is_creator req o /\ bytes_valid d o) \/
        (~ is_creator req o /\ attachable (ob_state o) = true /\ hash_matches req o = true))) /\
  (ccs_won resp = true -> ccs_ok resp = true /\
     exists o, objects d !! cc_object_id req = Some o /\ is_creator req o) /\
  (ccs_ok resp = false ->
     objects d' = objects d /\ object_by_key d' = object_by_key d /\ manifests d' = manifests d).
Proof.
  unfold handle_commit_canonical_object. destruct (c_v2_enable_canonical_store (cfg d)); cbn [negb];
    [|split_and!; [by split; [|intros [? _]]|done..]].
  destruct (epoch_valid d _ _); cbn [negb]; [|split_and!; [by split; [|intros (_ & ? & _)]|done..]].
  unfold find_object. destruct (objects d !! _) as [o|] eqn:Eo;
    [|split_and!; [by split; [|intros (_ & _ & ? & ? & _)]|done..]].
  case_decide as Hc; [unfold commit_creator; cbv zeta|unfold commit_candidate; cbv zeta].
  - destruct (locations d !! _) as [loc|] eqn:El; [case_decide as Hk|]; cbn [ccs_ok ccs_won commit_resp].
    + split_and!; [|done|done]. split; [done|].
      intros (_ & _ & o' & [= <-] & [[_ (l & Hl & ? & ?)]|[? _]]); [|done].
      assert (l = loc) as -> by congruence. by destruct Hk.
    + split_and!; [|by eauto|done]. split; [|done]. intros _. split_and!; [done|done|].
      exists o. split; [done|]. left. split; [done|]. exists loc. split_and!; [done|auto|auto].
    + split_and!; [|done|done]. split; [done|].
      intros (_ & _ & o' & [= <-] & [[_ (l & Hl & ? & ?)]|[? _]]); [congruence|done].
  - assert (Hi : object_by_key (discard_candidate now req o d) = object_by_key d)
      by (unfold discard_candidate; by repeat case_match).
    assert (Hm : manifests (discard_candidate now req o d) = manifests d)
      by (unfold discard_candidate; by repeat case_match).
    pose proof (discard_candidate_objects now req o d) as Ho.
    destruct (attachable (ob_state o)) eqn:Ea; cbn [negb]; [|cbn [ccs_ok ccs_won commit_resp]; split_and!].
    2:{ split; [done|]. intros (_ & _ & o' & [= <-] & [[? _]|(_ & ? & _)]); [done|congruence]. }
    2-3: done.
    destruct (hash_matches req o) eqn:Eh; cbn [negb ccs_ok ccs_won commit_resp]; (split_and!; [|done|done]).
    + split; [|done]. intros _. split_and!; [done|done|]. exists o. split; [done|]. by right.
    + split; [done|]. intros (_ & _ & o' & [= <-] & [[? _]|(_ & _ & ?)]); [done|congruence].
Qed.

(** ** Objects in use are not reclaimed *)
Definition kept (d d' : Daemon) : Prop :=
  forall id o, objects d !! id = Some o -> object_busy o = true ->
    exists o', objects d' !! id = Some o' /\ object_busy o' = true /\ identity o' = identity o.
(** With the guarantee, which keeps the ids in order. *)
Definition pins (d d' : Daemon) : Prop :=
  guarantee d d' /\ (object_ids_ok d -> object_ids_ok d' /\ kept d d').
#[export] Instance pins_preorder : PreOrder pins.
Proof.
  split.
  - intros d. split; [reflexivity|]. intros Hok. split; [done|]. intros id o Ho Hb. by exists o.
  - intros a b c [Gab Hab] [Gbc Hbc]. split; [by etransitivity|]. intros Hok.
    destruct (Hab Hok) as [Hok1 Kab]. destruct (Hbc Hok1) as [Hok2 Kbc]. split; [done|]. intros id o Ho Hb.
    destruct (Kab _ _ Ho Hb) as (o1 & H1 & Hb1 & E1). destruct (Kbc _ _ H1 Hb1) as (o2 & H2 & Hb2 & E2).
    exists o2. split_and!; [done|done|congruence].
Qed.

Section Pins.
  Context (d0 d : Daemon) (Hd : pins d0 d).

Lemma p_step d' : pins d d' -> pins d0 d'.
Proof. intros H. by transitivity d. Qed.
Lemma p_frame d' : guarantee d d' -> objects d' = objects d -> pins d0 d'.
Proof.
  intros Hg E. apply p_step. split; [done|]. intros Hok. split.
  - by eapply object_ids_frame.
  - intros id o Ho Hb. exists o. by rewrite E.
Qed.
Lemma p_objects f :
  (forall id o, objects d !! id = Some o ->
     exists o', f (objects d) !! id = Some o' /\ same_object o o' /\ object_busy o' = object_busy o) ->
  (forall id, objects d !! id = None -> f (objects d) !! id = None) ->
  pins d0 (d <| objects ::= f |>).
Proof.
  intros Hf Hn. apply p_step. split; [|intros [Hp Hok]; split; [split; [done|]|]].
  - apply g_objects; [reflexivity|]. intros _ id o' Ho'. destruct (objects d !! id) as [o|] eqn:Eo;
      [|rewrite Hn in Ho' by done; done].
    destruct (Hf _ _ Eo) as (o1 & H1 & Hs & _). exists o. split; [done|]. congruence.
  - intros id o' Ho'. simpl in Ho'. destruct (objects d !! id) as [o|] eqn:Eo;
      [|rewrite Hn in Ho' by done; done].
    destruct (Hf _ _ Eo) as (o1 & H1 & [Hi Hc] & _). assert (o1 = o') as -> by congruence.
    destruct (Hok _ _ Eo) as (? & ? & ? & ?). pose proof (identity_genuine _ _ Hi).
    unfold identity in Hi. split_and!; [congruence|simpl; lia..|auto|auto].
  - intros id o Ho Hb. destruct (Hf _ _ Ho) as (o' & Ho' & [Hi _] & Hb'). exists o'.
    split_and!; [done|congruence|done].
Qed.
Lemma p_insert id o o' :
  objects d !! id = Some o -> same_object o o' -> object_busy o' = object_busy o ->
  pins d0 (d <| objects ::= <[id := o']> |>).
Proof.
  intros Ho Hs Hb. apply p_objects.
  - intros i x Hx. destruct (decide (id = i)) as [->|].
    + rewrite lookup_insert_eq. eexists. split; [done|]. by assert (x = o) as -> by congruence.
    + rewrite lookup_insert_ne by done. exists x. by repeat split.
  - intros i Hi. rewrite lookup_insert_ne; [done|]. congruence.
Qed.
Lemma p_release_object now oid o :
  objects d !! oid = Some o -> pins d0 (release_object now o d).2.
Proof.
  intros Ho. apply p_step. split; [apply g_release_object; reflexivity|].
  intros Hids. split; [by apply object_ids_release|]. destruct Hids as [_ Hok]. intros id x Hx Hb.
  unfold release_object. cbv zeta. destruct (object_busy o) eqn:Eb; cbn [snd]; [by exists x|].
  destruct (Hok _ _ Ho) as [Eid _]. assert (Hne : oid ≠ id) by congruence. exists x. split_and!; [|done..].
  rewrite Eid. simpl. rewrite lookup_delete_ne by done. unfold release_backing.
  by repeat case_match.
Qed.
Lemma p_maybe_free now oid o : objects d !! oid = Some o -> pins d0 (maybe_free_object now o d).2.
Proof. intros Ho. unfold maybe_free_object. repeat (case_match; [done|]). by eapply p_release_object. Qed.
End Pins.

Lemma p_foldl {A} d0 d (f : Daemon -> A -> Daemon) (l : list A) :
  (forall x a, pins d0 x -> pins d0 (f x a)) -> pins d0 d -> pins d0 (foldl f d l).
Proof. intros Hf. revert d. induction l as [|a l IH]; intros d H; [done|]. apply IH, Hf, H. Qed.
Lemma p_foldl_acc {A B} d0 (acc : B * Daemon) (f : B * Daemon -> A -> B * Daemon) (l : list A) :
  (forall x a, pins d0 x.2 -> pins d0 (f x a).2) -> pins d0 acc.2 -> pins d0 (foldl f acc l).2.
Proof. intros Hf. revert acc. induction l as [|a l IH]; intros acc H; [done|]. apply IH, Hf, H. Qed.

Lemma p_purge d0 d now r : pins d0 d -> pins d0 (purge_rank_from_canonical now r d).
Proof.
  intros H. unfold purge_rank_from_canonical, free_unheld. cbv zeta. apply p_foldl.
  - intros x oid Hx. destruct (find_object x oid) as [o|] eqn:Eo; [|done]. by eapply p_maybe_free.
  - apply p_objects; [done|..].
    + intros id o Ho. rewrite lookup_fmap, Ho. simpl. eexists. split; [done|].
      case_match; by repeat split.
    + intros id Ho. by rewrite lookup_fmap, Ho.
Qed.
Lemma p_expire d0 d now key s :
  pins d0 d -> pins d0 (recover_leases now s (metric_inc kRankSessionsInvalidated
    (d <| sessions ::= <[key := s <| se_alive := false |>]> |>))).
Proof.
  intros H. apply (p_frame _ d); [done| |by rewrite (proj1 (recover_leases_tables _ _ _))].
  apply g_recover_leases, g_metric_inc, g_session_kill. reflexivity.
Qed.
Lemma p_invalidate d0 d now key : pins d0 d -> pins d0 (invalidate now key d).
Proof.
  intros H. unfold invalidate. destruct (sessions d !! key) as [s|]; [|done].
  destruct (negb _); [done|]. cbv zeta. apply p_purge.
  eapply p_frame; [by apply p_expire|apply g_release_ring; reflexivity|].
  unfold release_ring. case_decide; [|done]. simpl. by rewrite objects_drain_ring.
Qed.
Lemma p_register d0 d now req : pins d0 d -> pins d0 (handle_register now req d).2.
Proof.
  intros H. unfold handle_register. cbv zeta.
  set (d1 := invalidate_others _ _ _ _). assert (H1 : pins d0 d1).
  { unfold d1, invalidate_others. apply p_foldl; [intros; by apply p_invalidate|by apply p_invalidate]. }
  clearbody d1. pose proof (assign_ring_observed (rr_rank_id req) (u64 (next_rank_epoch d1))
    (d1 <| next_rank_epoch := next_rank_epoch d1 + 1 |>)) as Ho.
  destruct (assign_ring _ _ _) as [ring d2]. cbn [snd] in *.
  apply (p_frame _ d1); [done| |].
  - eapply g_step; [apply (g_session_new d1 d1 (reflexivity d1) (mkSession (rr_rank_id req)
      (u64 (next_rank_epoch d1)) (rr_pid req) (rr_gpu_id req) (rr_numa_node req) now true ring)
      (rr_rank_id req)); reflexivity|]. apply guarantee_frame. by apply observed_sessions.
  - unfold observed in Ho. simpl in *. by injection Ho.
Qed.
Lemma p_monitor d0 d now : pins d0 d -> pins d0 (heartbeat_monitor_sweep now d).
Proof.
  intros H. unfold heartbeat_monitor_sweep. cbv zeta. apply p_foldl;
    [|apply (p_frame _ d); [done|by apply guarantee_frame|done]].
  intros x key Hx. unfold expire_session. destruct (sessions x !! key) as [s|]; [|done].
  destruct (timed_out _ _ _); [|done]. cbv zeta. by apply p_purge, p_expire.
Qed.
Lemma p_release_canonical d0 d now req :
  pins d0 d -> pins d0 (handle_release_canonical now req d).2.
Proof.
  intros H. unfold handle_release_canonical. cbv zeta. case_match; cbn [snd]; [done|].
  case_match; cbn [snd]; [apply (p_frame _ d); [done|apply g_metric_inc; reflexivity|done]|].
  destruct (find_job_by_wire d _); [|done].
  match goal with |- context [foldl (release_one now ?r) ?a ?l] =>
    pose proof (p_foldl_acc d0 a (release_one now r) l) as Hf;
    destruct (foldl (release_one now r) a l) as [[[? ?] ?] d1] end. cbn [snd] in *.
  apply Hf; [|done]. intros [[[a b] c] x] oid Hx. unfold release_one. cbn [snd] in *.
  destruct (find_object x oid) as [o|] eqn:Eo; [|done]. case_decide; [done|].
  match goal with |- context [maybe_free_object ?n ?o' ?y] =>
    assert (Hy : pins d0 y) by (apply (p_insert _ _ Hx _ o); [done|by repeat split|done]);
    pose proof (p_maybe_free d0 y Hy n oid o') as Hm; destruct (maybe_free_object n o' y) as [[] y'] end;
    cbn [snd] in *; apply Hm; simpl; by rewrite lookup_insert_eq.
Qed.
Lemma p_release_version d0 d now uid role ver :
  pins d0 d -> pins d0 (release_version now uid role ver d).2.
Proof.
  intros H. unfold release_version. apply (p_foldl_acc d0 (true, d)); [|done].
  intros [b x] oid Hx. cbn [snd] in *. destruct (find_object x oid) as [o|] eqn:Eo; [|done].
  pose proof (p_release_object d0 x Hx now oid o Eo). by destruct (release_object now o x) as [[] ?].
Qed.
Lemma p_retention d0 d now uid role :
  pins d0 d -> pins d0 (enforce_sealed_retention now uid role d).
Proof.
  intros H. unfold enforce_sealed_retention. cbv zeta. repeat (case_decide; [done|]).
  apply p_foldl; [|done]. intros x ver Hx. unfold retention_evict. case_decide; [done|].
  pose proof (p_release_version d0 x now uid role ver Hx) as Hv.
  destruct (release_version now uid role ver x) as [[] x']; cbn [snd] in Hv; [|done].
  apply (p_frame _ x'); [done|by apply guarantee_frame|done].
Qed.
Lemma p_seal d0 d now req : pins d0 d -> pins d0 (handle_seal_model_version now req d).2.
Proof.
  intros H. unfold handle_seal_model_version. cbv zeta. case_match; cbn [snd]; [done|].
  destruct (find_job_by_wire d _) as [job|]; [|done].
  match goal with |- context [seal_commit ?n ?u ?r ?m ?x] =>
    assert (Hc : pins d0 (seal_commit n u r m x).2) end.
  { unfold seal_commit. cbv zeta.
    match goal with |- context [seal_freeze ?n ?i ?x] =>
      assert (Hf : pins d0 (seal_freeze n i x).2); [|destruct (seal_freeze n i x) as [[lo hi] d1]] end.
    { unfold seal_freeze. apply (p_foldl_acc d0 (FNV_BASIS, 1099511628211, d)); [|done].
      intros [[lo hi] x] oid Hx. unfold seal_one. cbn [snd] in *.
      destruct (find_object x oid) as [o|] eqn:Eo; [|done]. destruct (mix_object (lo, hi) oid o). cbn [snd]. apply (p_insert _ _ Hx _ o); [done|by repeat split|done]. }
    cbn [snd] in *. case_match; [apply p_retention|];
      (apply (p_frame _ d1); [done|by apply guarantee_frame|done]). }
  repeat (case_match; cbn [snd]); try done; (apply (p_frame _ d); [done|by apply guarantee_frame|done]).
Qed.
Lemma p_drop d0 d now req : pins d0 d -> pins d0 (handle_drop_canonical_version now req d).2.
Proof.
  intros H. unfold handle_drop_canonical_version. cbv zeta. case_match; cbn [snd]; [done|].
  destruct (find_job_by_wire d _); [|done].
  match goal with |- context [foldl (drop_one now) ?a ?l] =>
    pose proof (p_foldl_acc d0 a (drop_one now) l) as Hf;
    destruct (foldl (drop_one now) a l) as [[[? ?] ?] d1] end. cbn [snd] in *.
  assert (H1 : pins d0 d1).
  { apply Hf; [|done]. intros [[[a b] c] x] oid Hx. unfold drop_one. cbn [snd] in *.
    destruct (find_object x oid) as [o|] eqn:Eo; [|done].
    pose proof (p_release_object d0 x Hx now oid o Eo). by destruct (release_object now o x) as [[] ?]. }
  unfold forget_version. cbv zeta. case_decide; (apply (p_frame _ d1); [done|by apply guarantee_frame|done]).
Qed.

(** The operations that may reclaim objects on behalf of someone else. *)
Definition reclaims (o : op) : bool :=
  match o with
  | OpRequest _ (ReqReleaseCanonical _) | OpRequest _ (ReqDropCanonicalVersion _)
  | OpRequest _ (ReqSealModelVersion _) | OpRequest _ (ReqRegisterRank _) | OpHeartbeatMonitor _ => true
  | _ => false
  end.

(** C14. An object that is being exported or restored is never reclaimed under
    its readers: releasing a rank's holds, dropping its version, sealing a newer
    version (with retention), re-registering its ranks or expiring their sessions
    all keep it, still marked in use, with the same identity. *)
Theorem busy_objects_survive (o : op) (c : DaemonConfig) (t0 : Z) (d0 d d' : Daemon) (id : Z)
  (obj : CanonicalObject) :
  daemon_init c t0 = Some d0 -> rtc dstep d0 d -> reclaims o = true -> run_op o d = Ok d' ->
  objects d !! id = Some obj -> 0 < ob_export_refcount obj \/ 0 < ob_restore_refcount obj ->
  exists obj', objects d' !! id = Some obj' /\ object_busy obj' = true /\ identity obj' = identity obj.
Proof.
  intros Hi Hex Hc Hrun Ho Hb. destruct (reachable_tables _ _ _ _ Hi Hex) as (_ & HO & _).
  assert (Hp : pins d d').
  { destruct o as [x r| | |now| | |]; try discriminate; [destruct r; try discriminate|];
      cbn [run_op handle_request] in Hrun; injection Hrun as <-;
      [by apply p_register|by apply p_seal|by apply p_drop|by apply p_release_canonical|by apply p_monitor]. }
  apply (proj2 (proj2 Hp HO) _ _ Ho). unfold object_busy. rewrite orb_true_iff, !bool_decide_eq_true. done.
Qed.

(** ** Releasing one object *)
(** What reclaiming an object does to the tables. *)
Lemma release_object_effect now o d :
  object_busy o = false ->
  let d' := (release_object now o d).2 in
  (release_object now o d).1 = true /\
  objects d' = delete (ob_object_id o) (objects d) /\
  object_by_key d' = delete (ob_key_str o) (object_by_key d) /\
  leases d' = delete (ob_lease_id o) (leases d) /\ locations d' !! ob_synthetic_tid o = None /\
  (forall loc, locations d !! ob_synthetic_tid o = Some loc -> lo_kind loc = LOC_PINNED ->
     slot_state d (ob_base_slot o) = SLOT_PINNED_VALID -> ob_base_slot o ≠ NO_U32 ->
     slots d' = update_run (fun _ => cleared_slot now) (ob_base_slot o) (ob_slot_count o) (slots d)).
Proof.
  intros Hb. unfold release_object, release_backing. rewrite Hb. cbn [fst snd].
  destruct (locations d !! ob_synthetic_tid o) as [loc|] eqn:El; simpl.
  - split_and!; try done; try (by repeat case_decide); try apply lookup_delete_eq.
    intros l [= <-] Hk Hst Hne. by rewrite !decide_True.
  - by split_and!.
Qed.
(** What a release of [r]'s hold on the object [o] filed under [id] leaves. *)
Record reclaimed (now id : Z) (o : CanonicalObject) (d d' : Daemon) : Prop := {
  rcl_objects : objects d' = delete id (objects d);
  rcl_index : object_by_key d' = delete (ob_key_str o) (object_by_key d);
  rcl_lease : leases d' = delete (ob_lease_id o) (leases d);
  rcl_location : locations d' !! ob_synthetic_tid o = None;
  rcl_run : forall loc, locations d !! ob_synthetic_tid o = Some loc -> lo_kind loc = LOC_PINNED ->
    slot_state d (ob_base_slot o) = SLOT_PINNED_VALID -> ob_base_slot o ≠ NO_U32 ->
    slots d' = update_run (fun _ => cleared_slot now) (ob_base_slot o) (ob_slot_count o) (slots d) }.
Record unheld (r id : Z) (o : CanonicalObject) (d d' : Daemon) : Prop := {
  unh_objects : objects d' = <[id := drop_holder r o]> (objects d);
  unh_bytes : slots d' = slots d /\ locations d' = locations d /\ leases d' = leases d;
  unh_index : object_by_key d' = object_by_key d }.

(** Releasing a rank's hold on one object.  A rank that does not hold it
    changes nothing; the last holder of an object nobody reads reclaims it (the
    object, its key, its lease and its location go, and a readable pinned run
    becomes FREE); otherwise only the holder set and its count change, and the
    bytes stay where they are. *)
Theorem release_one_object (c : DaemonConfig) (t0 now : Z) (req : ReleaseCanonicalRequest)
  (d0 d d' : Daemon) (resp : ReleaseCanonicalResponse) (o : CanonicalObject) :
  daemon_init c t0 = Some d0 -> rtc dstep d0 d ->
  handle_release_canonical now req d = (resp, d') -> rcs_ok resp = true ->
  rc_object_id req ≠ 0 -> objects d !! rc_object_id req = Some o ->
  let id := rc_object_id req in let r := rc_rank_id req in
  if decide (r ∉ ob_holders o) then d' = d /\ rcs_released_count resp = 0
  else if decide (ob_holders o ∖ {[ r ]} = ∅ /\ object_busy o = false) then
    reclaimed now id o d d' /\ rcs_freed_count resp = 1 /\ rcs_bytes_freed resp = u64 (ob_nbytes o)
  else unheld r id o d d' /\ rcs_released_count resp = 1 /\ rcs_freed_count resp = 0.
Proof.
  intros Hi Hex Hh Hok Hid Ho. destruct (reachable_tables _ _ _ _ Hi Hex) as (_ & [_ HO] & _).
  destruct (HO _ _ Ho) as [Eid _]. revert Hh. unfold handle_release_canonical. cbv zeta.
  destruct (negb _); [by intros [= <- _]|]. destruct (negb _); [by intros [= <- _]|].
  destruct (find_job_by_wire d _); [|by intros [= <- _]]. rewrite decide_True by done. cbn [foldl].
  unfold release_one, find_object. rewrite Ho. case_decide; [by intros [= <- <-]|].
  unfold maybe_free_object. cbn [ob_holders drop_holder]. change (object_busy (drop_holder _ o)) with (object_busy o).
  case_decide as Hne; [by intros [= <- <-]; rewrite decide_False by (by intros [? _])|].
  destruct (object_busy o) eqn:Eb.
  { intros [= <- <-]. rewrite decide_False by (by intros [_ ?]). done. }
  rewrite decide_True by done.
  set (x := d <| objects ::= _ |>). set (o' := drop_holder _ o).
  destruct (release_object_effect now o' x Eb) as (H1 & H2 & H3 & H4 & H5 & H6).
  destruct (release_object now o' x) as [b y]. cbn [fst snd] in *. subst b. intros [= <- <-].
  split; [|done]. split; [|done..]. rewrite H2. simpl. rewrite Eid. apply delete_insert_eq.
Qed.

(** ** Concrete executions *)
Lemma attach_is_same_shard_witness :
  exists resp d' o, handle_request_canonical_evict 10 (fun _ => quiet_gap) (evict_request 4 2 11 0) committed
      = Ok (resp, d') /\
    objects committed !! ces_object_id resp = Some o /\
    canonical_key_string (ob_key o) = canonical_key_string (shard_key 11).
Proof.
  destruct (handle_request_canonical_evict 10 (fun _ => quiet_gap) (evict_request 4 2 11 0) committed)
    as [[resp d']|m] eqn:E; [|vm_compute in E; discriminate].
  assert (Ha : ces_action resp = ATTACH_ACTION_ATTACHED_EXISTING).
  { change (match @Ok (RequestCanonicalEvictResponse * Daemon) (resp, d') with
            | Ok (r, _) => ces_action r | Throw _ => 255 end = 0). rewrite <- E. vm_compute. reflexivity. }
  destruct (attach_is_same_shard smoke_config 0 10 (fun _ => quiet_gap) (evict_request 4 2 11 0)
    (smoke_daemon []) committed d' resp smoke_init ltac:(reach) E Ha) as (o & Ho & Hk & _).
  exists resp, d', o. exact (conj eq_refl (conj Ho Hk)).
Defined.
Lemma creator_appointed_witness :
  exists resp d', handle_request_canonical_evict 10 (fun _ => quiet_gap) (evict_request 3 1 11 0) job_daemon
      = Ok (resp, d') /\
    objects job_daemon !! ces_object_id resp = None /\
    object_by_key d' !! canonical_key_string (shard_key 11) = Some (ces_object_id resp).
Proof.
  destruct (handle_request_canonical_evict 10 (fun _ => quiet_gap) (evict_request 3 1 11 0) job_daemon)
    as [[resp d']|m] eqn:E; [|vm_compute in E; discriminate].
  assert (Ha : ces_action resp = ATTACH_ACTION_NEED_D2H_CREATE).
  { change (match @Ok (RequestCanonicalEvictResponse * Daemon) (resp, d') with
            | Ok (r, _) => ces_action r | Throw _ => 255 end = 1). rewrite <- E. vm_compute. reflexivity. }
  assert (W : ids_in_range d').
  { apply ids_fit_spec. change (match @Ok (RequestCanonicalEvictResponse * Daemon) (resp, d') with
            | Ok (_, x) => ids_fit x | Throw _ => false end = true). rewrite <- E. vm_compute. reflexivity. }
  destruct (creator_appointed smoke_config 0 10 (fun _ => quiet_gap) (evict_request 3 1 11 0)
    (smoke_daemon []) job_daemon d' resp smoke_valid smoke_config_in_range smoke_init ltac:(reach)
    (fun _ => quiet_rely) ltac:(vm_compute; reflexivity) ltac:(vm_compute; discriminate)
    ltac:(vm_compute; discriminate) E Ha W) as (_ & Hn & _ & Hk & _).
  exists resp, d'. exact (conj eq_refl (conj Hn Hk)).
Defined.
Lemma busy_objects_survive_witness :
  exists d' obj obj',
    run_op (OpRequest (quiet_ctx 10) (ReqDropCanonicalVersion (mkDropCanonicalVersionRequest job_key 0 7)))
      restoring = Ok d' /\
    objects restoring !! 1 = Some obj /\ objects d' !! 1 = Some obj' /\ identity obj' = identity obj.
Proof.
  destruct (run_op (OpRequest (quiet_ctx 10) (ReqDropCanonicalVersion
    (mkDropCanonicalVersionRequest job_key 0 7))) restoring) as [d'|m] eqn:E; [|vm_compute in E; discriminate].
  destruct (objects restoring !! 1) as [obj|] eqn:Eo; [|vm_compute in Eo; discriminate].
  assert (Hb : ob_restore_refcount obj = 1).
  { change (default 0 (ob_restore_refcount <$> Some obj) = 1). rewrite <- Eo. vm_compute. reflexivity. }
  destruct (busy_objects_survive (OpRequest (quiet_ctx 10) (ReqDropCanonicalVersion
    (mkDropCanonicalVersionRequest job_key 0 7))) smoke_config 0 (smoke_daemon []) restoring d' 1 obj smoke_init
    ltac:(reach) eq_refl E Eo ltac:(right; rewrite Hb; reflexivity)) as (obj' & Ho' & _ & Hi').
  exists d', obj, obj'. exact (conj eq_refl (conj eq_refl (conj Ho' Hi'))).
Defined.
Lemma release_one_object_witness :
  exists resp d', handle_release_canonical 10 (release_request 3 1 1) committed = (resp, d') /\
    objects d' = delete 1 (objects committed) /\ rcs_freed_count resp = 1.
Proof.
  destruct (handle_release_canonical 10 (release_request 3 1 1) committed) as [resp d'] eqn:E.
  assert (Hok : rcs_ok resp = true).
  { change (rcs_ok (resp, d').1 = true). rewrite <- E. vm_compute. reflexivity. }
  destruct (objects committed !! 1) as [o|] eqn:Eo; [|vm_compute in Eo; discriminate].
  assert (Ho : Some (ob_holders o, object_busy o) = Some ({[ 3 ]}, false)).
  { change ((fun x => (ob_holders x, object_busy x)) <$> Some o = Some ({[ 3 ]}, false)).
    rewrite <- Eo. vm_compute. reflexivity. }
  injection Ho as Hh Hb.
  pose proof (release_one_object smoke_config 0 10 (release_request 3 1 1) (smoke_daemon []) committed
    d' resp o smoke_init ltac:(reach) E Hok ltac:(discriminate) Eo) as H.
  cbn [rc_object_id rc_rank_id release_request] in H. rewrite Hh, Hb in H.
  rewrite decide_False, decide_True in H by (clear; set_solver).
  destruct H as (Hr & Hf & _). exists resp, d'. exact (conj eq_refl (conj (rcl_objects _ _ _ _ _ Hr) Hf)).
Defined.
Lemma reachable_store_consistent_witness :
  exists o, objects sealed !! 1 = Some o /\ ob_refcount o = u32 (Z.of_nat (size (ob_holders o))).
Proof.
  destruct (objects sealed !! 1) as [o|] eqn:Ho; [|vm_compute in Ho; discriminate]. exists o. split; [done|].
  apply (proj1 (reachable_store_consistent smoke_config 0 (smoke_daemon []) sealed smoke_init ltac:(reach)) 1 o Ho).
Defined.
