(* ===== verification/RolloutProps.v ===== *)
(** * Behaviour of manifests, rollout export and retention

    Functional theorems about [Rollout]: what sealing a version freezes and that
    it is final and repeatable, that the manifest does not depend on the order in
    which the object table is visited, what a pull may read and that it puts the
    tables back, what retention keeps and drops, and what dropping a version removes. *)
From stdpp Require Import base gmap strings list fin_maps fin_sets sorting list_numbers relations.
From Stdlib Require Import ZArith Lia.
From S2P Require Import Prelude.
From S2P Require Import Protocol.
From S2P Require Import ProtocolV2.
From S2P Require Import Rpc.
From S2P Require Import State.
From S2P Require Import Alloc.
From S2P Require Import Drain.
From S2P Require Import Offload.
From S2P Require Import Store.
From S2P Require Import Session.
From S2P Require Import Canonical.
From S2P Require Import Export.
From S2P Require Import Rollout.
From S2P Require Import Guarantee.
From S2P Require Import Fencing.
From S2P Require Import System.
From S2P Require Import Scenarios.
From S2P Require Import OffloadProps.
From S2P Require Import CanonicalProps.
Open Scope Z_scope.
Open Scope offload_scope.

(** ** Reclaiming the objects of a version *)
(** The tables reclamation does not touch. *)
Definition rollout_tables (d : Daemon) := (manifests d, latest_sealed d, cfg d).
Lemma release_object_tables now o d : rollout_tables (release_object now o d).2 = rollout_tables d.
Proof. unfold release_object, release_backing. by repeat (case_match; simplify_eq/=). Qed.

(** Objects are filed under their own id. *)
Definition filed (d : Daemon) : Prop := forall id o, objects d !! id = Some o -> ob_object_id o = id.
Lemma release_object_objects now o d :
  objects (release_object now o d).2
  = if object_busy o then objects d else delete (ob_object_id o) (objects d).
Proof.
  destruct (object_busy o) eqn:Eb; [unfold release_object; by rewrite Eb|].
  by destruct (release_object_effect now o d Eb) as (_ & -> & _).
Qed.
(** Reclaiming a list of objects, with the answer whether all were reclaimed. *)
Definition release_ids (now : Z) (ids : list Z) (b : bool) (d : Daemon) : bool * Daemon :=
  foldl (fun '(all_freed, d) oid =>
    match find_object d oid with
    | None => (all_freed, d)
    | Some o => match release_object now o d with
                | (true, d) => (all_freed, d)
                | (false, d) => (false, d)
                end
    end) (b, d) ids.
Lemma release_object_result now o d : (release_object now o d).1 = negb (object_busy o).
Proof. unfold release_object. by destruct (object_busy o). Qed.
(** The fate of an object: reclaimed when it is listed and not in use. *)
Definition listed_idle (ids : list Z) (id : Z) (o : CanonicalObject) : bool :=
  bool_decide (id ∈ ids) && negb (object_busy o).
Lemma listed_idle_cons i ids id o : id ≠ i -> listed_idle (i :: ids) id o = listed_idle ids id o.
Proof. intros Hne. unfold listed_idle. f_equal. apply bool_decide_ext. rewrite elem_of_cons.
  split; [by intros [?|?]|by right].
Qed.
Lemma release_ids_cons now i ids b d :
  release_ids now (i :: ids) b d =
  match objects d !! i with
  | None => release_ids now ids b d
  | Some o => release_ids now ids (b && negb (object_busy o)) (release_object now o d).2
  end.
Proof.
  unfold release_ids, find_object. cbn [foldl]. destruct (objects d !! i) as [o|]; [|done].
  pose proof (release_object_result now o d) as Hr. destruct (release_object now o d) as [r d1].
  cbn [fst snd] in *. subst r. by destruct (object_busy o), b.
Qed.
Lemma release_ids_spec now ids b d :
  filed d ->
  (forall id, objects (release_ids now ids b d).2 !! id =
     o ← objects d !! id; if listed_idle ids id o then None else Some o) /\
  ((release_ids now ids b d).1 = true <-> b = true /\
     forall id o, id ∈ ids -> objects d !! id = Some o -> object_busy o = false) /\
  rollout_tables (release_ids now ids b d).2 = rollout_tables d.
Proof.
  revert b d. induction ids as [|i ids IH]; intros b d Hf.
  { cbn [release_ids foldl fst snd]. split_and!; [|split; [|by intros [? _]]|done].
    - intros id. by destruct (objects d !! id).
    - intros ->. split; [done|]. intros id o Hid. by apply not_elem_of_nil in Hid. }
  rewrite release_ids_cons. destruct (objects d !! i) as [o|] eqn:Eo.
  - pose proof (release_object_objects now o d) as Hob. pose proof (release_object_tables now o d) as Ht.
    destruct (release_object now o d) as [r d1]. cbn [snd] in *. rewrite (Hf _ _ Eo) in Hob.
    assert (Hl : forall id, objects d1 !! id =
      if decide (id = i) then (if object_busy o then Some o else None) else objects d !! id).
    { intros id. rewrite Hob. destruct (object_busy o), (decide (id = i)) as [->|]; try done;
        [apply lookup_delete_eq|by apply lookup_delete_ne]. }
    assert (Hf1 : filed d1).
    { intros id x. rewrite Hl. repeat case_decide; repeat case_match; intros; simplify_eq; eauto. }
    destruct (IH (b && negb (object_busy o)) d1 Hf1) as (I1 & I2 & I3). split_and!; [..|congruence].
    + intros id. rewrite I1, Hl. case_decide as Hid; [subst id; rewrite Eo|].
      * destruct (object_busy o) eqn:Eb; unfold listed_idle; simpl; rewrite Eb.
        -- by rewrite !andb_false_r.
        -- rewrite bool_decide_eq_true_2 by apply list_elem_of_here. done.
      * destruct (objects d !! id) as [x|]; [|done]. simpl. by rewrite listed_idle_cons.
    + rewrite I2, andb_true_iff, negb_true_iff. split.
      * intros [[-> Hb] H]. split; [done|]. intros id x [->|Hx]%elem_of_cons Hid; [congruence|].
        destruct (decide (id = i)) as [->|]; [congruence|]. apply (H id); [done|]. by rewrite Hl, decide_False.
      * intros [-> H]. assert (Hb : object_busy o = false) by (apply (H i); [apply list_elem_of_here|done]).
        split_and!; [done..|]. intros id x Hx. rewrite Hl, Hb. case_decide; [done|]. intros Hid.
        apply (H id); [by apply list_elem_of_further|done].
  - destruct (IH b d Hf) as (I1 & I2 & I3). split_and!; [..|done].
    + intros id. rewrite I1. destruct (objects d !! id) as [x|] eqn:Ex; [|done]. simpl.
      rewrite listed_idle_cons; [done|]. congruence.
    + rewrite I2. split; (intros [-> H]; split; [done|]); intros id x Hid Hx.
      * apply elem_of_cons in Hid as [->|Hid]; [congruence|]. by apply (H id).
      * apply (H id); [by apply list_elem_of_further|done].
Qed.
Lemma elem_of_version_objects d uid role ver id :
  filed d ->
  id ∈ version_objects d uid role ver <->
  exists o, objects d !! id = Some o /\ of_version uid role ver o = true.
Proof.
  intros Hf. unfold version_objects. rewrite list_elem_of_fmap. split.
  - intros ([k o] & -> & H). apply list_elem_of_filter in H as [Hv Ho]. apply elem_of_map_to_list in Ho.
    cbn [snd] in *. exists o. by rewrite (Hf _ _ Ho).
  - intros (o & Ho & Hv). exists (id, o). split; [symmetry; by apply Hf|]. apply list_elem_of_filter.
    split; [done|]. by apply elem_of_map_to_list.
Qed.
Lemma release_version_spec now uid role ver d :
  filed d ->
  (forall id, objects (release_version now uid role ver d).2 !! id =
     o ← objects d !! id;
     if of_version uid role ver o && negb (object_busy o) then None else Some o) /\
  ((release_version now uid role ver d).1 = true <->
     forall id o, objects d !! id = Some o -> of_version uid role ver o = true -> object_busy o = false) /\
  rollout_tables (release_version now uid role ver d).2 = rollout_tables d.
Proof.
  intros Hf. change (release_version now uid role ver d)
    with (release_ids now (version_objects d uid role ver) true d).
  destruct (release_ids_spec now (version_objects d uid role ver) true d Hf) as (I1 & I2 & I3).
  split_and!; [..|done].
  - intros id. rewrite I1. destruct (objects d !! id) as [o|] eqn:Eo; [|done]. simpl.
    unfold listed_idle. replace (bool_decide (id ∈ version_objects d uid role ver))
      with (of_version uid role ver o); [done|]. symmetry.
    destruct (of_version uid role ver o) eqn:Ev.
    + apply bool_decide_eq_true_2, elem_of_version_objects; eauto.
    + apply bool_decide_eq_false_2. rewrite elem_of_version_objects by done. intros (o' & ? & ?). congruence.
  - rewrite I2. split.
    + intros [_ H] id o Ho Hv. apply (H id); [|done]. apply elem_of_version_objects; eauto.
    + intros H. split; [done|]. intros id o Hid Ho.
      apply elem_of_version_objects in Hid as (o' & Ho' & Hv); [|done].
      apply (H id); [done|]. congruence.
Qed.

(** ** Retention *)
Lemma filed_subseteq d d' : filed d -> objects d' ⊆ objects d -> filed d'.
Proof. intros Hf Hs id o Ho. apply Hf. by eapply lookup_weaken. Qed.
Lemma retention_evict_spec now uid role latest d ver :
  filed d ->
  let d' := retention_evict now uid role latest d ver in
  objects d' ⊆ objects d /\ manifests d' ⊆ manifests d /\ latest_sealed d' = latest_sealed d /\
  (forall vk, vk ≠ mkVersionKey uid role ver \/ ver = latest -> manifests d' !! vk = manifests d !! vk) /\
  (forall id o, objects d !! id = Some o -> of_version uid role ver o = false \/ ver = latest ->
     objects d' !! id = Some o) /\
  (ver ≠ latest ->
   (forall id o, objects d !! id = Some o -> of_version uid role ver o = true -> object_busy o = false) ->
   manifests d' !! mkVersionKey uid role ver = None /\
   forall id o, objects d !! id = Some o -> of_version uid role ver o = true -> objects d' !! id = None).
Proof.
  intros Hf. unfold retention_evict. case_decide as Hl; [by split_and!; auto|].
  destruct (release_version_spec now uid role ver d Hf) as (I1 & I2 & I3).
  assert (Hsub : objects (release_version now uid role ver d).2 ⊆ objects d).
  { apply map_subseteq_spec. intros id o. rewrite I1. destruct (objects d !! id); [|done]. simpl.
    by destruct (_ && _). }
  destruct (release_version now uid role ver d) as [b d1]. cbn [fst snd] in *.
  unfold rollout_tables in I3. injection I3 as Em El _.
  assert (Hkeep : forall id o, objects d !! id = Some o -> of_version uid role ver o = false \/ ver = latest ->
    objects d1 !! id = Some o).
  { intros id o Ho [Hv|]; [|done]. by rewrite I1, Ho; simpl; rewrite Hv. }
  destruct b.
  - simpl. rewrite Em. split_and!; try done; [by apply delete_subseteq| |].
    + intros vk [Hvk|]; [|done]. by rewrite lookup_delete_ne.
    + intros _ Hb. split; [apply lookup_delete_eq|]. intros id o Ho Hv. rewrite I1, Ho. simpl.
      by rewrite Hv, (Hb _ _ Ho Hv).
  - split_and!; try done; [by rewrite Em|by rewrite Em|]. intros _ Hb. by pose proof (proj2 I2 Hb).
Qed.
(** Versions [uid]/[role]/[v] with [v] in [vs] other than the latest. *)
Definition victim (latest : Z) (vs : list Z) (v : Z) : Prop := v ∈ vs /\ v ≠ latest.
Lemma retention_fold_spec now uid role latest vs d :
  filed d ->
  let d' := foldl (retention_evict now uid role latest) d vs in
  objects d' ⊆ objects d /\ manifests d' ⊆ manifests d /\ latest_sealed d' = latest_sealed d /\
  (forall vk, (forall v, victim latest vs v -> vk ≠ mkVersionKey uid role v) ->
     manifests d' !! vk = manifests d !! vk) /\
  (forall id o, objects d !! id = Some o -> (forall v, victim latest vs v -> of_version uid role v o = false) ->
     objects d' !! id = Some o) /\
  (forall v, victim latest vs v ->
   (forall id o, objects d !! id = Some o -> of_version uid role v o = true -> object_busy o = false) ->
   manifests d' !! mkVersionKey uid role v = None /\
   forall id o, objects d !! id = Some o -> of_version uid role v o = true -> objects d' !! id = None).
Proof.
  revert d. induction vs as [|v0 vs IH]; intros d Hf; cbn [foldl].
  { split_and!; try done. intros v [Hv _]. by apply not_elem_of_nil in Hv. }
  destruct (retention_evict_spec now uid role latest d v0 Hf) as (A1 & A2 & A3 & A4 & A5 & A6).
  set (d1 := retention_evict now uid role latest d v0) in *.
  destruct (IH d1 (filed_subseteq _ _ Hf A1)) as (B1 & B2 & B3 & B4 & B5 & B6).
  assert (Hhead : v0 = latest \/ victim latest (v0 :: vs) v0).
  { destruct (decide (v0 = latest)); [by left|right]. split; [apply list_elem_of_here|done]. }
  assert (Htail : forall v, victim latest vs v -> victim latest (v0 :: vs) v).
  { intros v [Hv ?]. split; [by apply list_elem_of_further|done]. }
  split_and!; [by etrans|by etrans|congruence|..].
  - intros vk Hvk. rewrite B4 by auto. apply A4. destruct Hhead; auto.
  - intros id o Ho Hv. apply B5; [|auto]. apply A5; [done|]. destruct Hhead; auto.
  - intros v [Hv Hne] Hb. apply elem_of_cons in Hv as [->|Hv].
    + destruct (A6 Hne Hb) as [Am Ao]. split; [by eapply lookup_weaken_None|].
      intros id o Ho Hov. eapply lookup_weaken_None; [by eapply Ao|done].
    + destruct (B6 v) as [Bm Bo]; [done|intros id o Ho; eapply Hb, lookup_weaken; [exact Ho|done]|].
      split; [done|]. intros id o Ho Hov. destruct (objects d1 !! id) as [x|] eqn:Ex.
      * assert (objects d !! id = Some x) by (by eapply lookup_weaken). apply (Bo id x); congruence.
      * by eapply lookup_weaken_None.
Qed.
(** Reclaiming objects that satisfy [P] touches only their own location, lease,
    recorded run and cold entry. *)
Record confined (P : CanonicalObject -> Prop) (d d' : Daemon) : Prop := {
  cf_objects : objects d' ⊆ objects d;
  cf_locations : locations d' ⊆ locations d;
  cf_location : forall t, (forall id o, objects d !! id = Some o -> P o -> t ≠ ob_synthetic_tid o) ->
    locations d' !! t = locations d !! t;
  cf_lease : forall l, (forall id o, objects d !! id = Some o -> P o -> l ≠ ob_lease_id o) ->
    leases d' !! l = leases d !! l;
  cf_slot : forall i, (forall id o, objects d !! id = Some o -> P o ->
      i ∉ run_ids (ob_base_slot o) (ob_slot_count o)) -> slots d' !! i = slots d !! i;
  cf_cold : forall r, (forall id o loc, objects d !! id = Some o -> P o ->
      locations d !! ob_synthetic_tid o = Some loc -> r ≠ lo_cold_ref loc) ->
    cold_store d' !! r = cold_store d !! r;
  cf_rest : (sessions d', rings d', drain_queue d', readback_queue d', arena_writes d')
          = (sessions d, rings d, drain_queue d, readback_queue d, arena_writes d) }.
#[export] Instance confined_preorder P : PreOrder (confined P).
Proof.
  split.
  - intros d. by split.
  - intros a b c [A1 A2 A3 A4 A5 A6 A7] [B1 B2 B3 B4 B5 B6 B7].
    assert (Ho : forall id o, objects b !! id = Some o -> objects a !! id = Some o)
      by (intros; by eapply lookup_weaken).
    assert (Hl : forall t l, locations b !! t = Some l -> locations a !! t = Some l)
      by (intros; by eapply lookup_weaken).
    split; [by etrans|by etrans|..|congruence].
    + intros t Ht. rewrite B3 by eauto. by apply A3.
    + intros l Ht. rewrite B4 by eauto. by apply A4.
    + intros i Ht. rewrite B5 by eauto. by apply A5.
    + intros r Ht. rewrite B6 by eauto. by apply A6.
Qed.
Lemma confined_release (P : CanonicalObject -> Prop) now id o d :
  objects d !! id = Some o -> P o -> confined P d (release_object now o d).2.
Proof.
  intros Ho HP. unfold release_object. destruct (object_busy o); [reflexivity|]. cbv zeta. cbn [snd].
  assert (Hb : confined P d (release_backing now o d)).
  { unfold release_backing. destruct (locations d !! ob_synthetic_tid o) as [loc|] eqn:El; [|reflexivity].
    cbv zeta. repeat case_decide; split; simpl; try done; try apply delete_subseteq.
    all: intros i Hi; try (rewrite lookup_delete_ne; [done|]; apply not_eq_sym; by eauto).
    by rewrite lookup_update_run_ne by eauto. }
  assert (Eo : objects (release_backing now o d) = objects d) by (unfold release_backing; by repeat case_match).
  etrans; [exact Hb|]. rewrite <- Eo in Ho. clear Hb Eo. set (x := release_backing now o d) in *. clearbody x.
  split; simpl; try done; [apply delete_subseteq|].
  intros l Hl. rewrite lookup_delete_ne; [done|]. apply not_eq_sym. by eauto.
Qed.
Lemma confined_release_ids (P : CanonicalObject -> Prop) now ids b d :
  (forall id o, id ∈ ids -> objects d !! id = Some o -> P o) -> confined P d (release_ids now ids b d).2.
Proof.
  revert b d. induction ids as [|i ids IH]; intros b d HP; [reflexivity|]. rewrite release_ids_cons.
  destruct (objects d !! i) as [o|] eqn:Eo.
  - assert (H1 : confined P d (release_object now o d).2)
      by (eapply confined_release; [done|]; eapply HP; [apply list_elem_of_here|done]).
    etrans; [exact H1|]. apply IH. intros id x Hin Hx. apply (HP id); [by apply list_elem_of_further|].
    eapply lookup_weaken; [exact Hx|]. apply (cf_objects _ _ _ H1).
  - apply IH. intros id x Hin. apply (HP id). by apply list_elem_of_further.
Qed.
Lemma retention_confined now uid role latest vs d :
  filed d ->
  confined (fun o => exists v, victim latest vs v /\ of_version uid role v o = true) d
    (foldl (retention_evict now uid role latest) d vs).
Proof.
  intros Hf. assert (H : forall ws x, filed x -> (forall v, v ∈ ws -> v ∈ vs) ->
    confined (fun o => exists v, victim latest vs v /\ of_version uid role v o = true) x
      (foldl (retention_evict now uid role latest) x ws)); [|by apply H].
  clear d Hf. induction ws as [|v ws IH]; intros x Hf Hin; [reflexivity|]. cbn [foldl].
  assert (H1 : confined (fun o => exists v, victim latest vs v /\ of_version uid role v o = true) x
    (retention_evict now uid role latest x v)).
  { unfold retention_evict. case_decide as Hl; [reflexivity|].
    pose proof (confined_release_ids (fun o => exists v, victim latest vs v /\ of_version uid role v o = true)
      now (version_objects x uid role v) true x) as Hc.
    change (release_ids now (version_objects x uid role v) true x) with (release_version now uid role v x) in Hc.
    assert (Hv : confined (fun o => exists v, victim latest vs v /\ of_version uid role v o = true) x
      (release_version now uid role v x).2).
    { apply Hc. intros id o Hid Ho. apply elem_of_version_objects in Hid as (o' & Ho' & Ev); [|done].
      exists v. split; [split; [apply Hin, list_elem_of_here|done]|]. congruence. }
    destruct (release_version now uid role v x) as [[] y]; cbn [snd] in Hv; [|done].
    etrans; [exact Hv|]. by split. }
  etrans; [exact H1|]. apply IH.
  - eapply filed_subseteq; [done|]. apply (cf_objects _ _ _ H1).
  - intros w Hw. apply Hin. by apply list_elem_of_further.
Qed.
#[export] Instance geZ_transitive : Transitive geZ.
Proof. unfold geZ. intros x y z. lia. Qed.
#[export] Instance geZ_total : Total geZ.
Proof. unfold geZ. intros x y. lia. Qed.
(** The versions retention tries to drop: the sealed ones after the newest [keep]. *)
Definition retention_victims (d : Daemon) (uid : JobUID) (role : Z) : list Z :=
  if decide (c_v2_retain_sealed_versions (cfg d) = 0) then []
  else drop (Z.to_nat (c_v2_retain_sealed_versions (cfg d))) (merge_sort geZ (sealed_versions d uid role)).
Lemma retention_as_fold now uid role d :
  enforce_sealed_retention now uid role d =
  foldl (retention_evict now uid role (default 0 (latest_sealed d !! mkRoleKey uid role))) d
    (retention_victims d uid role).
Proof.
  unfold enforce_sealed_retention, retention_victims. cbv zeta. case_decide; [done|].
  case_decide as Hl; [|done]. rewrite drop_ge; [done|].
  rewrite (Permutation_length (merge_sort_Permutation geZ _)). lia.
Qed.

Lemma reachable_filed c t0 d0 d : daemon_init c t0 = Some d0 -> rtc dstep d0 d -> filed d.
Proof.
  intros Hi Hex. destruct (reachable_tables _ _ _ _ Hi Hex) as (_ & [_ HO] & _).
  intros id o Ho. by destruct (HO _ _ Ho).
Qed.

(** C20. Retention.  The versions it may drop are the sealed ones beyond the newest
    [keep] and never the promoted one; every other manifest, every object of
    another version and the promoted pointer stay as they are; a version it may
    drop, none of whose objects is in use, is gone with all its objects; and of the
    other tables only what the objects of droppable versions record as theirs may
    change: their locations, their leases, the slots of their runs and the cold
    entries their locations name ([confined]).  (That an object's run is still its
    own is not checked by the code and not claimed.) *)
Theorem retention_exact (c : DaemonConfig) (t0 now : Z) (uid : JobUID) (role : Z) (d0 d : Daemon) :
  daemon_init c t0 = Some d0 -> rtc dstep d0 d ->
  let d' := enforce_sealed_retention now uid role d in
  let latest := default 0 (latest_sealed d !! mkRoleKey uid role) in
  let vs := retention_victims d uid role in
  (forall v, v ∈ vs -> forall w, w ∈ sealed_versions d uid role -> w ∉ vs -> v <= w) /\
  latest_sealed d' = latest_sealed d /\
  (forall vk, (forall v, victim latest vs v -> vk ≠ mkVersionKey uid role v) ->
     manifests d' !! vk = manifests d !! vk) /\
  (forall id o, objects d !! id = Some o -> (forall v, victim latest vs v -> of_version uid role v o = false) ->
     objects d' !! id = Some o) /\
  (forall v, victim latest vs v ->
     (forall id o, objects d !! id = Some o -> of_version uid role v o = true -> object_busy o = false) ->
     manifests d' !! mkVersionKey uid role v = None /\
     forall id o, objects d !! id = Some o -> of_version uid role v o = true -> objects d' !! id = None) /\
  confined (fun o => exists v, victim latest vs v /\ of_version uid role v o = true) d d'.
Proof.
  intros Hi Hex. rewrite retention_as_fold.
  destruct (retention_fold_spec now uid role (default 0 (latest_sealed d !! mkRoleKey uid role))
    (retention_victims d uid role) d (reachable_filed _ _ _ _ Hi Hex)) as (_ & _ & H3 & H4 & H5 & H6).
  split_and!; try done; [|by apply retention_confined, (reachable_filed _ _ _ _ Hi Hex)].
  unfold retention_victims. case_decide.
  { intros v Hv. by apply not_elem_of_nil in Hv. }
  set (n := Z.to_nat _). intros v Hv w Hw Hnot.
  assert (Hws : w ∈ merge_sort geZ (sealed_versions d uid role)) by (by rewrite merge_sort_Permutation).
  pose proof (StronglySorted_merge_sort geZ (sealed_versions d uid role)) as Hss.
  rewrite <- (take_drop n) in Hws, Hss. apply elem_of_app in Hws as [Hws|]; [|done].
  apply StronglySorted_app in Hss as (Hss & _ & _). by apply (Hss w v).
Qed.

(** ** Sealing *)
Lemma seal_freeze_spec now ids acc :
  let r := foldl (seal_one now) acc ids in
  (forall oid, objects r.2 !! oid = (if decide (oid ∈ ids) then freeze now else id) <$> objects acc.2 !! oid) /\
  rollout_tables r.2 = rollout_tables acc.2 /\ jobs r.2 = jobs acc.2.
Proof.
  revert acc. induction ids as [|i ids IH]; intros [[lo hi] d].
  { split_and!; try done. intros oid. simpl. by destruct (objects d !! oid). }
  cbn [foldl]. unfold seal_one, find_object. cbn [snd]. destruct (objects d !! i) as [o|] eqn:Eo.
  - destruct (mix_object (lo, hi) i o) as [lo' hi']. fold (seal_one now).
    destruct (IH (lo', hi', d <| objects ::= <[i := freeze now o]> |>)) as (I1 & I2 & I3).
    split_and!; [|done..]. intros oid. rewrite I1. simpl. destruct (decide (i = oid)) as [<-|Hne].
    + rewrite lookup_insert_eq, Eo. rewrite (decide_True (P := i ∈ i :: ids)) by apply list_elem_of_here.
      by case_decide.
    + rewrite lookup_insert_ne by done. f_equal. apply decide_ext. rewrite elem_of_cons.
      split; [by right|by intros [?|?]].
  - fold (seal_one now). destruct (IH (lo, hi, d)) as (I1 & I2 & I3). split_and!; [|done..].
    intros oid. rewrite I1. cbn [snd]. destruct (objects d !! oid) as [x|] eqn:Ex; [|done].
    f_equal. assert (i ≠ oid) by congruence. apply decide_ext. rewrite elem_of_cons.
    split; [by right|by intros [?|?]].
Qed.
Lemma of_version_other uid role v v' o :
  of_version uid role v o = true -> v' ≠ v -> of_version uid role v' o = false.
Proof.
  unfold of_version. intros [[_ _]%andb_true_iff Hv]%andb_true_iff Hne.
  apply bool_decide_eq_true in Hv. rewrite (bool_decide_eq_false_2 (_ = v')) by congruence.
  by rewrite andb_false_r.
Qed.
(** The objects a seal freezes. *)
Lemma elem_of_seal_members d uid role ver oid :
  filed d ->
  oid ∈ ob_object_id <$> seal_members d uid role ver <->
  exists o, objects d !! oid = Some o /\ of_version uid role ver o = true /\ readable_state (ob_state o) = true.
Proof.
  intros Hf. unfold seal_members, version_members. rewrite list_elem_of_fmap. split.
  - intros (o & -> & H). apply list_elem_of_filter in H as [Hr H].
    apply list_elem_of_fmap in H as ([k x] & -> & H). apply list_elem_of_filter in H as [Hv Hx].
    apply elem_of_map_to_list in Hx. cbn [snd] in *. exists x. by rewrite (Hf _ _ Hx).
  - intros (o & Ho & Hv & Hr). exists o. split; [symmetry; by apply Hf|].
    apply list_elem_of_filter. split; [done|]. apply list_elem_of_fmap. exists (oid, o). split; [done|].
    apply list_elem_of_filter. split; [done|]. by apply elem_of_map_to_list.
Qed.
(** The state after a seal that did its work. *)
Lemma seal_commit_spec now uid req man d resp d' :
  filed d -> seal_commit now uid req man d = (resp, d') ->
  (forall oid, oid ∈ ma_object_ids man ->
     exists o, objects d !! oid = Some o /\ of_version uid (sm_model_role req) (sm_model_version req) o = true) ->
  let vk := mkVersionKey uid (sm_model_role req) (sm_model_version req) in
  exists m, manifests d' !! vk = Some m /\ ma_state m = MANIFEST_SEALED /\ resp = sealed_resp "sealed" m /\
    Sorted Z.le (ma_object_ids m) /\ ma_object_ids m ≡ₚ ma_object_ids man /\
    (forall oid, oid ∈ ma_object_ids m -> exists o, objects d !! oid = Some o /\ objects d' !! oid = Some (freeze now o)) /\
    (sm_promote req = true -> latest_sealed d' !! mkRoleKey uid (sm_model_role req) = Some (sm_model_version req)).
Proof.
  intros Hf. unfold seal_commit. cbv zeta. set (ids := merge_sort Z.le _).
  assert (Hp : ids ≡ₚ ma_object_ids man) by apply merge_sort_Permutation.
  assert (Hs : Sorted Z.le ids) by apply (Sorted_merge_sort Z.le). clearbody ids.
  unfold seal_freeze.
  destruct (seal_freeze_spec now ids (FNV_BASIS, 1099511628211, d)) as (I1 & I2 & I3).
  destruct (foldl (seal_one now) _ ids) as [[lo hi] d1]. cbn [snd] in *.
  unfold rollout_tables in I2. injection I2 as Em El Ec.
  assert (Hf1 : filed d1).
  { intros oid o. rewrite I1. destruct (objects d !! oid) as [x|] eqn:Ex; [|done].
    simpl. intros [= <-]. rewrite <- (Hf _ _ Ex). by case_decide. }
  intros [= <- <-] Hv. exists (man <| ma_object_ids := ids |> <| ma_manifest_hash_lo := lo |>
    <| ma_manifest_hash_hi := hi |> <| ma_state := MANIFEST_SEALED |> <| ma_sealed_ns := now |>).
  assert (Hmem : forall oid, oid ∈ ids -> exists o, objects d !! oid = Some o /\
    objects d1 !! oid = Some (freeze now o) /\
    of_version uid (sm_model_role req) (sm_model_version req) (freeze now o) = true).
  { intros oid Hin. rewrite I1, decide_True by done. rewrite Hp in Hin. destruct (Hv _ Hin) as (o & Ho & Hov).
    exists o. by rewrite Ho. }
  destruct (sm_promote req) eqn:Epr.
  - rewrite retention_as_fold. set (vs := retention_victims _ _ _). clearbody vs.
    match goal with |- context [foldl (retention_evict now uid ?r ?l) ?x vs] =>
      destruct (retention_fold_spec now uid r l vs x Hf1) as (_ & _ & R3 & R4 & R5 & _) end.
    simpl in R3, R4, R5 |- *. rewrite lookup_insert_eq in R3, R4, R5. simpl in R3, R4, R5.
    rewrite lookup_insert_eq. cbn [default from_option id].
    split_and!; try done.
    + rewrite R4; [by rewrite lookup_insert_eq|]. intros v [_ Hne] [=]. congruence.
    + intros oid Hin. destruct (Hmem _ Hin) as (o & Ho & Ho1 & Hov). exists o. split; [done|].
      apply R5; [done|]. intros v [_ Hne]. by eapply of_version_other.
    + intros _. rewrite R3. apply lookup_insert_eq.
  - split_and!; try done; [simpl; by rewrite lookup_insert_eq|].
    intros oid Hin. destruct (Hmem _ Hin) as (o & Ho & Ho1 & _). by exists o.
Qed.
(** Inverts a successful seal of a version that was not sealed. *)
Lemma seal_inv now req d resp d' :
  handle_seal_model_version now req d = (resp, d') -> sms_ok resp = true ->
  exists job, find_job_by_wire d (sm_job req) = Some job /\
    let uid := jr_uid job in
    let vk := mkVersionKey uid (sm_model_role req) (sm_model_version req) in
    let members := seal_members d uid (sm_model_role req) (sm_model_version req) in
    (exists m, manifests d !! vk = Some m /\ ma_state m = MANIFEST_SEALED /\
       resp = sealed_resp "already sealed" m /\ d' = d) \/
    ((forall m, manifests d !! vk = Some m -> ma_state m ≠ MANIFEST_SEALED) /\
     c_v2_seal_requires_all_objects_valid (cfg d) && sm_fail_if_missing req && seal_incomplete d uid req = false /\
     seal_commit now uid req
       (mkManifest uid (sm_model_role req) (sm_model_version req) MANIFEST_SEALING (ob_object_id <$> members)
          (foldl (fun t o => u64 (t + ob_nbytes o)) 0 members) now 0 0 0) d = (resp, d')).
Proof.
  unfold handle_seal_model_version. destruct (negb _ || negb _); [by intros [= <- _]|].
  destruct (find_job_by_wire d _) as [job|]; [|by intros [= <- _]]. cbv zeta. intros H Hok. exists job.
  split; [done|].
  destruct (manifests d !! _) as [m|].
  1: case_decide; [left; injection H as <- <-; by exists m|].
  all: right; split; [by intros ? [=]; simplify_eq|].
  all: destruct (_ && _) eqn:Ei in H; [by injection H as <- _|done].
Qed.

(** C17. What a seal freezes.  In every reachable state, a successful seal of a
    version that was not sealed yet leaves a SEALED manifest that lists, in
    increasing order, exactly the readable objects of the version, each of them
    frozen in state SEALED; the answer reports that manifest; a version sealed with
    [promote] becomes the latest; and with [fail_if_missing], when the daemon is
    configured with [v2_seal_requires_all_objects_valid], no object of the version
    was unreadable and every expected parameter has an object in the manifest.
    (Sealing a sealed version again is a no-op, [seal_repeatable]; it does not
    promote.) *)
Theorem seal_freezes_version (c : DaemonConfig) (t0 now : Z) (req : SealModelVersionRequest)
  (d0 d d' : Daemon) (resp : SealModelVersionResponse) (uid : JobUID) :
  daemon_init c t0 = Some d0 -> rtc dstep d0 d ->
  handle_seal_model_version now req d = (resp, d') -> sms_ok resp = true ->
  jr_uid <$> find_job_by_wire d (sm_job req) = Some uid ->
  let vk := mkVersionKey uid (sm_model_role req) (sm_model_version req) in
  (forall m, manifests d !! vk = Some m -> ma_state m ≠ MANIFEST_SEALED) ->
  exists m, manifests d' !! vk = Some m /\ ma_state m = MANIFEST_SEALED /\ resp = sealed_resp "sealed" m /\
    Sorted Z.le (ma_object_ids m) /\
    (forall oid, oid ∈ ma_object_ids m <-> exists o, objects d !! oid = Some o /\
       of_version uid (sm_model_role req) (sm_model_version req) o = true /\ readable_state (ob_state o) = true) /\
    (forall oid, oid ∈ ma_object_ids m -> exists o, objects d !! oid = Some o /\
       objects d' !! oid = Some (freeze now o)) /\
    (sm_promote req = true ->
       latest_sealed d' !! mkRoleKey uid (sm_model_role req) = Some (sm_model_version req)) /\
    (c_v2_seal_requires_all_objects_valid (cfg d) = true -> sm_fail_if_missing req = true ->
       (forall oid o, objects d !! oid = Some o ->
          of_version uid (sm_model_role req) (sm_model_version req) o = true -> readable_state (ob_state o) = true) /\
       forall pid, pid ∈ sm_expected_param_ids req -> exists oid o, oid ∈ ma_object_ids m /\
         objects d !! oid = Some o /\ k_param_id (ob_key o) = pid).
Proof.
  intros Hi Hex Hh Hok Hj vk Hns. pose proof (reachable_filed _ _ _ _ Hi Hex) as Hf.
  destruct (seal_inv _ _ _ _ _ Hh Hok) as (job & Hjob & [(m & Hm & Hs & _)|(_ & Hinc & Hc)]);
    rewrite Hjob in Hj; injection Hj as Hj; rewrite Hj in *; [by destruct (Hns m)|].
  destruct (seal_commit_spec _ _ _ _ _ _ _ Hf Hc) as (m & Hm & Hs & Hr & Hsort & Hp & Hfr & Hl).
  { intros oid Hin. apply elem_of_seal_members in Hin as (o & ? & ? & _); eauto. }
  assert (Hmem : forall oid, oid ∈ ma_object_ids m <-> exists o, objects d !! oid = Some o /\
    of_version uid (sm_model_role req) (sm_model_version req) o = true /\ readable_state (ob_state o) = true).
  { intros oid. rewrite Hp. by apply elem_of_seal_members. }
  exists m. split_and!; try done. intros Hc1 Hc2. rewrite Hc1, Hc2 in Hinc. simpl in Hinc.
  apply orb_false_iff in Hinc as [H1 H2]. apply negb_false_iff in H2. split.
  - intros oid o Ho Hv. apply dec_stable. intros Hr'. assert (Hx : existsb (fun o => negb (readable_state (ob_state o)))
      (version_members d uid (sm_model_role req) (sm_model_version req)) = true); [|congruence].
    apply existsb_exists. exists o. split; [|by apply negb_true_iff, not_true_is_false].
    apply list_elem_of_In, list_elem_of_fmap. exists (oid, o). split; [done|].
    apply list_elem_of_filter. split; [done|]. by apply elem_of_map_to_list.
  - intros pid Hpid. rewrite forallb_forall in H2. apply list_elem_of_In, H2, existsb_exists in Hpid as (x & Hx & Hpid).
    unfold find_object in Hpid. destruct (objects d !! ob_object_id x) as [o|] eqn:Eo; [|done].
    apply bool_decide_eq_true in Hpid. exists (ob_object_id x), o. split_and!; [|done|done].
    rewrite Hp. by apply list_elem_of_fmap_2, list_elem_of_In.
Qed.

(** Sealing is repeatable: after a successful seal, sealing the same version
    again (at any time, with any expectations) answers with the same manifest and
    changes nothing. *)
Theorem seal_repeatable (c : DaemonConfig) (t0 now now' : Z) (req req' : SealModelVersionRequest)
  (d0 d d' : Daemon) (resp : SealModelVersionResponse) :
  daemon_init c t0 = Some d0 -> rtc dstep d0 d ->
  handle_seal_model_version now req d = (resp, d') -> sms_ok resp = true ->
  sm_job req' = sm_job req -> sm_model_role req' = sm_model_role req ->
  sm_model_version req' = sm_model_version req ->
  handle_seal_model_version now' req' d' = (resp <| sms_message := "already sealed" |>, d').
Proof.
  intros Hi Hex Hh Hok E1 E2 E3. pose proof (reachable_filed _ _ _ _ Hi Hex) as Hf.
  destruct (reachable_tables _ _ _ _ Hi Hex) as (_ & _ & _ & HJ).
  assert (HG : guarantee d d').
  { pose proof (g_seal d d now req (reflexivity d)) as Hg. by rewrite Hh in Hg. }
  destruct (seal_inv _ _ _ _ _ Hh Hok) as (job & Hjob & Hcase).
  assert (Hm : exists m msg, manifests d' !! mkVersionKey (jr_uid job) (sm_model_role req) (sm_model_version req) = Some m /\
    ma_state m = MANIFEST_SEALED /\ resp = sealed_resp msg m).
  { destruct Hcase as [(m & Hm & Hs & -> & ->)|(_ & _ & Hc)]; [by exists m, "already sealed"|].
    destruct (seal_commit_spec _ _ _ _ _ _ _ Hf Hc) as (m & Hm & Hs & Hr & _); [|by exists m, "sealed"].
    intros oid Hin. apply elem_of_seal_members in Hin as (o & ? & ? & _); eauto. }
  destruct Hm as (m & msg & Hm & Hs & ->).
  destruct (g_jobs _ _ HG HJ) as [HJ' Hsome]. unfold find_job_by_wire, find_job in Hjob.
  destruct (Hsome (uid_of_wire (sm_job req))) as [job' Hjob']; [by rewrite Hjob|].
  assert (Eu : jr_uid job' = jr_uid job) by (rewrite (HJ' _ _ Hjob'); symmetry; by apply HJ).
  assert (Hen : negb (c_v2_enable_canonical_store (cfg d')) || negb (c_v2_enable_manifests (cfg d')) = false).
  { pose proof (g_static _ _ HG) as Hst. unfold static in Hst. injection Hst as Ec _ _ _ _ _ _. rewrite Ec.
    revert Hh Hok. unfold handle_seal_model_version. destruct (negb _ || negb _); [by intros [= <- _]|done]. }
  unfold handle_seal_model_version. rewrite Hen, E1, E2, E3.
  unfold find_job_by_wire, find_job. rewrite Hjob'. cbv zeta. rewrite Eu, Hm, decide_True by done. done.
Qed.

(** A sealed version is closed: an evict into it is refused as stale whatever
    else it asks for, and touches nothing but a counter. *)
Theorem sealed_version_closed (now : Z) (gaps : nat -> IoGap) (req : RequestCanonicalEvictRequest)
  (d : Daemon) (job : JobRecord) :
  c_v2_enable_canonical_store (cfg d) = true ->
  epoch_valid d (ce_rank_id req) (ce_rank_epoch req) = true ->
  find_job_by_wire d (k_job (ce_key req)) = Some job ->
  version_sealed d (mkVersionKey (jr_uid job) (k_model_role (ce_key req)) (k_model_version (ce_key req))) = true ->
  exists resp, handle_request_canonical_evict now gaps req d
      = Ok (resp, metric_inc kCanonicalStaleVersionReject d) /\
    ces_ok resp = false /\ ces_action resp = ATTACH_ACTION_REJECTED_STALE_VERSION.
Proof.
  intros H1 H2 H3 H4. unfold handle_request_canonical_evict. rewrite H1, H2, H3. cbn [negb]. rewrite H4.
  by eexists.
Qed.

Lemma total_bytes_permutation (l l' : list CanonicalObject) :
  l ≡ₚ l' ->
  foldl (fun t o => u64 (t + ob_nbytes o)) 0 l = foldl (fun t o => u64 (t + ob_nbytes o)) 0 l'.
Proof.
  generalize 0. intros n H. revert n. induction H as [|o l l' _ IH|x y l|l l2 l3 _ IH1 _ IH2]; intros n;
    cbn [foldl]; auto; [|by rewrite IH1, IH2].
  f_equal. unfold u64. rewrite !Zplus_mod_idemp_l. f_equal. lia.
Qed.
(** C36. The manifest does not depend on the order in which the hash table of
    objects is visited for it: any enumeration of the members gives the same ids, total
    size and hash, the same answer and the same daemon. *)
Theorem manifest_order_independent (now : Z) (uid : JobUID) (req : SealModelVersionRequest) (d : Daemon)
  (members members' : list CanonicalObject) :
  members' ≡ₚ members ->
  let man ms := mkManifest uid (sm_model_role req) (sm_model_version req) MANIFEST_SEALING
                  (ob_object_id <$> ms) (foldl (fun t o => u64 (t + ob_nbytes o)) 0 ms) now 0 0 0 in
  seal_commit now uid req (man members') d = seal_commit now uid req (man members) d.
Proof.
  intros Hp man. assert (Hids : merge_sort Z.le (ob_object_id <$> members') = merge_sort Z.le (ob_object_id <$> members)).
  { apply (StronglySorted_unique Z.le); [apply (StronglySorted_merge_sort Z.le)..|].
    rewrite !merge_sort_Permutation. by rewrite Hp. }
  unfold seal_commit, man. cbn [ma_object_ids]. rewrite Hids, (total_bytes_permutation _ _ Hp). done.
Qed.

(** ** Pulling *)
Definition transport_failed : ExportResult := mkExportResult false "down" 0 0 0 "".
(** C18. Only sealed bytes leave the daemon: a pull succeeds only for an object in
    state SEALED that the SEALED manifest of the requested version lists, when the
    transport succeeded, and it reports that object's size and content hash. *)
Theorem pull_only_sealed (gaps : nat -> IoGap) (xres : ExportResult) (req : PullTensorRequest)
  (d d' : Daemon) (resp : PullTensorResponse) :
  handle_pull_tensor gaps xres req d = (resp, d') -> pts_ok resp = true ->
  exists job man o, find_job_by_wire d (pt_job req) = Some job /\
    manifests d !! mkVersionKey (jr_uid job) (pt_model_role req) (pt_model_version req) = Some man /\
    ma_state man = MANIFEST_SEALED /\ pt_object_id req ∈ ma_object_ids man /\
    objects d !! pt_object_id req = Some o /\ ob_state o = OBJ_SEALED /\ xr_ok xres = true /\
    pts_nbytes resp = ob_nbytes o /\ pts_content_hash_lo resp = ob_content_hash_lo o /\
    pts_content_hash_hi resp = ob_content_hash_hi o.
Proof.
  unfold handle_pull_tensor. destruct (_ || _); [by intros [= <- _]|].
  destruct (find_job_by_wire d _) as [job|]; [|by intros [= <- _]].
  destruct (pull_guard req job d) as [ref|o] eqn:Eg.
  { revert Eg. unfold pull_guard. repeat case_match; intros [= <-]; by intros [= <- _]. }
  destruct (pull_guard_spec _ _ _ _ Eg) as (Ho & Hs & man & Hm & Hms & Hin). cbv zeta.
  destruct (stage_object_for_export _ _ _) as [staged d1].
  destruct (find_object d1 _); [|by intros [= <- _]].
  destruct staged; cbn [negb]; [|by intros [= <- _]].
  destruct (xr_ok xres) eqn:Ex; cbn [negb]; intros [= <- _]; [|done]. intros _.
  exists job, man, o. by split_and!.
Qed.

Definition data_tables (d : Daemon) :=
  (slots d, locations d, leases d, cold_store d, manifests d, latest_sealed d, object_by_key d).
(** The bytes staging writes into the arenas: nothing for an object in pinned
    memory; for one in cold storage, the object's size at slot 0. *)
Definition staged_writes (o : CanonicalObject) (d : Daemon) : list (Z * Z) :=
  match locations d !! ob_synthetic_tid o with
  | Some loc =>
      match lo_kind loc, cold_store d !! lo_cold_ref loc with
      | (LOC_PAGEABLE | LOC_NVME), Some cold =>
          match co_kind cold, co_pageable cold with
          | LOC_PAGEABLE, Some _ | LOC_NVME, _ => [(0, ob_nbytes o)]
          | _, _ => []
          end
      | _, _ => []
      end
  | None => []
  end.
Lemma stage_frame gaps o d :
  (forall i x, io_env (gaps i) x = x) ->
  let d' := (stage_object_for_export gaps o d).2 in
  data_tables d' = data_tables d /\ objects d' = objects d /\ jobs d' = jobs d /\
  arena_writes d' = staged_writes o d ++ arena_writes d.
Proof.
  intros He. unfold stage_object_for_export, do_readback_from_cold, staged_writes.
  repeat (case_match; simplify_eq/=); by rewrite ?He.
Qed.
Lemma export_refcount_back prev o :
  ob_export_refcount o = 0 -> ob_state o = prev ->
  end_export prev (o <| ob_export_refcount := u32 (ob_export_refcount o + 1) |>
                     <| ob_state := OBJ_EXPORT_IN_FLIGHT |>) = o.
Proof. intros H <-. unfold end_export. cbn. destruct o. simpl in *. by subst. Qed.
Lemma export_charge_back n j :
  0 <= n -> 0 <= jr_inflight_export_bytes j -> jr_inflight_export_bytes j + n < 2 ^ 64 ->
  uncharge_export n (charge_export n j) = j.
Proof.
  intros Hn Hi Hlt. unfold uncharge_export, charge_export. cbn. rewrite !u64_small by (unfold in_u64; lia).
  rewrite decide_True by lia. rewrite Z.add_simpl_r. by destruct j.
Qed.

Definition taken (o : CanonicalObject) : CanonicalObject :=
  o <| ob_export_refcount := u32 (ob_export_refcount o + 1) |> <| ob_state := OBJ_EXPORT_IN_FLIGHT |>.
(** The two updates that undo [take_export]. *)
Lemma undo_objects (f : CanonicalObject -> CanonicalObject) (m : gmap Z CanonicalObject) oid o :
  m !! oid = Some o -> f (taken o) = o -> alter f oid (<[oid := taken o]> m) = m.
Proof. intros Ho Hf. rewrite alter_insert_eq, Hf. by apply insert_id. Qed.
Lemma undo_jobs (f g : JobRecord -> JobRecord) (m : gmap JobUID JobRecord) uid j :
  m !! uid = Some j -> f (g j) = j -> alter f uid (alter g uid m) = m.
Proof. intros Hj Hf. rewrite alter_alter_eq. apply alter_id. intros x Hx. simpl. congruence. Qed.

(** The state of the tables while the export lease is held, with the arena writes
    made so far. *)
Definition exporting (req : PullTensorRequest) (o : CanonicalObject) (ws : list (Z * Z)) (d x : Daemon) : Prop :=
  objects x = <[pt_object_id req := taken o]> (objects d) /\
  jobs x = alter (charge_export (ob_nbytes o)) (uid_of_wire (pt_job req)) (jobs d) /\
  data_tables x = data_tables d /\ arena_writes x = ws ++ arena_writes d.
(** The tables as they were, and [ws] written into the arenas. *)
Definition unchanged (ws : list (Z * Z)) (d x : Daemon) : Prop :=
  objects x = objects d /\ jobs x = jobs d /\ data_tables x = data_tables d /\
  arena_writes x = ws ++ arena_writes d.
Lemma unchanged_metric ws d x m v : unchanged ws d x -> unchanged ws d (metric_add m v x).
Proof. by intros (? & ? & ? & ?). Qed.
Lemma take_export_exporting req o d : exporting req o [] d (take_export req o d).
Proof. done. Qed.
Lemma exporting_frame req o ws d x y :
  exporting req o [] d x -> data_tables y = data_tables x -> objects y = objects x -> jobs y = jobs x ->
  arena_writes y = ws ++ arena_writes x -> exporting req o ws d y.
Proof. intros (H1 & H2 & H3 & H4) E1 E2 E3 E4. split_and!; try congruence. by rewrite E4, H4. Qed.

Section RestoreExport.
  Context (req : PullTensorRequest) (o : CanonicalObject) (job : JobRecord) (ws : list (Z * Z)) (d x : Daemon).
  Hypothesis Ho : objects d !! pt_object_id req = Some o.
  Hypothesis Hj : jobs d !! uid_of_wire (pt_job req) = Some job.
  Hypothesis Hr : ob_export_refcount o = 0.
  Hypothesis Hn : 0 <= ob_nbytes o.
  Hypothesis Hi : 0 <= jr_inflight_export_bytes job.
  Hypothesis Hlt : jr_inflight_export_bytes job + ob_nbytes o < 2 ^ 64.
  Hypothesis Hx : exporting req o ws d x.

Lemma release_export_unchanged now :
  ob_holders o ≠ ∅ -> unchanged ws d (release_export now req (ob_nbytes o) (ob_state o) x).
Proof using All.
  intros Hh. destruct Hx as (E1 & E2 & E3 & E4).
  assert (Eobj : alter (end_export (ob_state o)) (pt_object_id req) (objects x) = objects d).
  { rewrite E1. apply (undo_objects _ _ _ o Ho). by apply export_refcount_back. }
  assert (Ejob : alter (uncharge_export (ob_nbytes o)) (uid_of_wire (pt_job req)) (jobs x) = jobs d).
  { rewrite E2. apply (undo_jobs _ _ _ _ job Hj). by apply export_charge_back. }
  unfold release_export. cbv zeta.
  match goal with |- context [find_object ?y _] => set (z := y) end.
  assert (Hz : unchanged ws d z) by (split_and!; [exact Eobj|exact Ejob|exact E3|exact E4]).
  clearbody z. unfold find_object. rewrite (proj1 Hz), Ho. unfold maybe_free_object.
  by rewrite decide_True.
Qed.
Lemma staging_failed_unchanged :
  unchanged ws d (pull_staging_failed req (ob_nbytes o) (ob_state o) x).2.
Proof using All.
  destruct Hx as (E1 & E2 & E3 & E4). unfold pull_staging_failed. cbn [snd]. apply unchanged_metric.
  split_and!; [| |exact E3|exact E4].
  - simpl. rewrite E1. apply (undo_objects _ _ _ o Ho). unfold taken. cbn. rewrite Hr. clear -Hr.
    destruct o. simpl in *. by subst.
  - simpl. rewrite E2. apply (undo_jobs _ _ _ _ job Hj). unfold charge_export. cbn.
    rewrite (u64_small (_ + _)) by (unfold in_u64; lia).
    rewrite Z.add_simpl_r, u64_small by (unfold in_u64; lia). clear. by destruct job.
Qed.
End RestoreExport.


(** ** Dropping a version *)
Lemma drop_fold_release now ids acc b :
  (foldl (drop_one now) acc ids).2 = (release_ids now ids b acc.2).2.
Proof.
  revert acc b. induction ids as [|i ids IH]; intros [[[x y] z] d] b; [done|].
  rewrite release_ids_cons. cbn [foldl snd]. unfold drop_one at 2, find_object.
  destruct (objects d !! i) as [o|]; [|apply (IH (x, y, z, d))].
  destruct (release_object now o d) as [[] d1]; cbn [snd]; (etrans; [apply IH|]); reflexivity.
Qed.
(** Dropping a version removes its manifest, clears the latest pointer if it
    named that version, and reclaims exactly the objects of the version that are
    not being exported or restored; every other object stays as it is. *)
Theorem drop_version_exact (c : DaemonConfig) (t0 now : Z) (req : DropCanonicalVersionRequest)
  (d0 d d' : Daemon) (resp : DropCanonicalVersionResponse) (uid : JobUID) :
  daemon_init c t0 = Some d0 -> rtc dstep d0 d ->
  handle_drop_canonical_version now req d = (resp, d') -> dvs_ok resp = true ->
  jr_uid <$> find_job_by_wire d (dv_job req) = Some uid ->
  let role := dv_model_role req in let ver := dv_model_version req in
  manifests d' = delete (mkVersionKey uid role ver) (manifests d) /\
  latest_sealed d' !! mkRoleKey uid role ≠ Some ver /\
  (latest_sealed d !! mkRoleKey uid role ≠ Some ver -> latest_sealed d' = latest_sealed d) /\
  forall id, objects d' !! id =
    o ← objects d !! id; if of_version uid role ver o && negb (object_busy o) then None else Some o.
Proof.
  intros Hi Hex Hh Hok Hj role ver. pose proof (reachable_filed _ _ _ _ Hi Hex) as Hf.
  revert Hh. unfold handle_drop_canonical_version. destruct (negb _); [by intros [= <- _]|].
  destruct (find_job_by_wire d _) as [job|]; [|by intros [= <- _]]. injection Hj as ->. cbv zeta.
  pose proof (drop_fold_release now (version_objects d uid role ver) (0, 0, 0, d) true) as Hd.
  destruct (foldl (drop_one now) _ _) as [[[x y] z] d1]. cbn [snd] in Hd. intros [= <- <-].
  destruct (release_version_spec now uid role ver d Hf) as (I1 & _ & I3).
  change (release_version now uid role ver d)
    with (release_ids now (version_objects d uid role ver) true d) in I1, I3. rewrite <- Hd in I1, I3.
  unfold rollout_tables in I3. injection I3 as Em El _. unfold forget_version. cbv zeta. simpl.
  rewrite El. case_decide as Hl; simpl; rewrite ?Em, ?El; split_and!; try done.
  by rewrite lookup_delete_eq.
Qed.

(** ** Registering a job *)
Lemma find_live_job_None d t j :
  find_live_job d t j = None <-> forall uid x, jobs d !! uid = Some x -> live_job t j x = false.
Proof.
  unfold find_live_job. destruct (list_find _ _) as [[i [k y]]|] eqn:E; simpl; split; try done.
  - intros H. apply list_find_Some in E as (Hi & Hl & _). cbn [snd] in Hl.
    apply list_elem_of_lookup_2, elem_of_map_to_list in Hi. rewrite (H _ _ Hi) in Hl. done.
  - intros _ uid x Hx. apply list_find_None in E. rewrite Forall_forall in E.
    specialize (E (uid, x)). cbn [snd] in E. apply not_true_is_false. intros Hl.
    apply E; [by apply elem_of_map_to_list|]. by rewrite Hl.
Qed.
Lemma find_live_job_unique d t j uid x :
  jobs d !! uid = Some x -> live_job t j x = true ->
  (forall uid' y, jobs d !! uid' = Some y -> live_job t j y = true -> uid' = uid) ->
  find_live_job d t j = Some x.
Proof.
  intros Hx Hl Hu. destruct (find_live_job d t j) as [y|] eqn:E.
  - unfold find_live_job in E. destruct (list_find _ _) as [[i [k z]]|] eqn:Ef; [|done].
    simpl in E. injection E as <-. apply list_find_Some in Ef as (Hi & Hz & _). cbn [snd] in *.
    apply list_elem_of_lookup_2, elem_of_map_to_list in Hi. apply Is_true_true in Hz.
    assert (k = uid) as -> by eauto. congruence.
  - rewrite find_live_job_None in E. by rewrite (E _ _ Hx) in Hl.
Qed.
(** Registering a job is idempotent: after a successful registration, the same
    registration (by another rank, at another time) joins the same job and changes
    nothing. *)
Theorem register_job_idempotent (now now' : Z) (req : RegisterJobRequest) (d d' : Daemon)
  (resp : RegisterJobResponse) :
  handle_register_job now req d = (resp, d') -> rjs_ok resp = true ->
  handle_register_job now' req d' = (resp <| rjs_message := "ok (joined existing job)" |>, d').
Proof.
  unfold handle_register_job. destruct (c_v2_enable_canonical_store (cfg d)) eqn:Ec; cbn [negb];
    [|by intros [= <- _]]. cbv zeta.
  destruct (find_live_job d _ _) as [ex|] eqn:Ef.
  { intros [= <- <-] _. rewrite Ec, Ef. done. }
  destruct (if c_v2_include_launch_epoch (cfg d) then _ else _) as [epoch d1] eqn:E1.
  assert (Hd1 : jobs d1 = jobs d /\ cfg d1 = cfg d) by (case_match; by simplify_eq).
  destruct Hd1 as [Ej Ec1]. intros [= <- <-] _. simpl. rewrite Ec1, Ec. cbn [negb].
  match goal with |- context [<[?u := ?x]>] => set (uid := u); set (jr := x) end.
  erewrite (find_live_job_unique _ _ _ uid jr); [done|..].
  - simpl. apply lookup_insert_eq.
  - unfold live_job. simpl. by rewrite !bool_decide_eq_true_2.
  - intros uid' y. simpl. rewrite Ej. intros [[<- <-]|[_ Hy]]%lookup_insert_Some Hl; [done|].
    rewrite find_live_job_None in Ef. by rewrite (Ef _ _ Hy) in Hl.
Qed.

(** ** Restoring *)
(** A restore of a resident object takes a read guard and nothing else, and
    releasing it undoes it.  In every state, a restore of a pinned object that
    answers [ok] found its run readable and reports that run's place; it only
    raises the object's restore count and access time; and when the same session
    releases it, every object is as before the restore, up to that access time. *)
Theorem restore_roundtrip (now now' : Z) (gaps : nat -> IoGap) (req : RequestCanonicalRestoreRequest)
  (d d' : Daemon) (resp : RequestCanonicalRestoreResponse) (o : CanonicalObject) (loc : Location) :
  handle_request_canonical_restore now gaps req d = Ok (resp, d') -> crs_ok resp = true ->
  objects d !! cr_object_id req = Some o ->
  locations d !! canonical_tid (cr_object_id req) = Some loc -> lo_kind loc = LOC_PINNED ->
  ob_holders o ≠ ∅ -> 0 <= ob_restore_refcount o < 2 ^ 32 - 1 ->
  slot_state d (lo_slot_id loc) = SLOT_PINNED_VALID /\ readable_state (ob_state o) = true /\
  crs_arena_id resp = sl_arena_id (slot d (lo_slot_id loc)) /\
  crs_arena_offset resp = sl_arena_offset (slot d (lo_slot_id loc)) /\ crs_nbytes resp = ob_nbytes o /\
  objects d' = <[cr_object_id req := o <| ob_restore_refcount := ob_restore_refcount o + 1 |>
                                       <| ob_last_access_ns := now |>]> (objects d) /\
  jobs d' = jobs d /\ data_tables d' = data_tables d /\
  let d'' := (handle_release_canonical_restore now'
                (mkReleaseCanonicalRestoreRequest (cr_rank_id req) (cr_rank_epoch req) (cr_object_id req)) d').2 in
  objects d'' = <[cr_object_id req := o <| ob_last_access_ns := now |>]> (objects d) /\
  jobs d'' = jobs d /\ data_tables d'' = data_tables d.
Proof.
  intros Hh Hok Ho Hl Hk Hne Hr. revert Hh. unfold handle_request_canonical_restore.
  destruct (negb _); [by intros [= <- _]|].
  destruct (epoch_valid d _ _) eqn:Ev; cbn [negb]; [|by intros [= <- _]].
  unfold find_object. rewrite Ho. destruct (readable_state _) eqn:Er; cbn [negb]; [|by intros [= <- _]].
  cbv zeta. rewrite Hl, Hk. case_decide as Hst; [|by intros [= <- _]]. unfold restore_grant. cbv zeta.
  intros [= <- <-]. rewrite u32_small by (unfold in_u32; lia). split_and!; try done.
  all: unfold handle_release_canonical_restore; cbn [xr_rank_id xr_rank_epoch xr_object_id].
  all: match goal with |- context [epoch_valid ?x ?r ?e] =>
         change (epoch_valid x r e) with (epoch_valid d r e) end; rewrite Ev; cbn [negb snd].
  all: unfold find_object; simpl; rewrite lookup_insert_eq; unfold end_restore; cbn; rewrite decide_True by lia.
  all: unfold maybe_free_object; cbn; rewrite decide_True by done; cbn; try done.
  rewrite insert_insert_eq, Z.add_simpl_r. by destruct o.
Qed.

(** ** Concrete executions *)
Definition job_uid : JobUID := mkJobUID 1 2 1.
Lemma retention_exact_witness :
  latest_sealed sealed !! mkRoleKey job_uid 0 = Some 7 /\
  latest_sealed (enforce_sealed_retention 10 job_uid 0 sealed) = latest_sealed sealed.
Proof.
  split; [vm_compute; reflexivity|].
  exact (proj1 (proj2 (retention_exact smoke_config 0 10 job_uid 0 (smoke_daemon []) sealed smoke_init ltac:(reach)))).
Defined.
Lemma seal_freezes_version_witness :
  exists resp d' m, handle_seal_model_version 10 (seal_request 7) attached = (resp, d') /\
    manifests d' !! mkVersionKey job_uid 0 7 = Some m /\ ma_state m = MANIFEST_SEALED.
Proof.
  destruct (handle_seal_model_version 10 (seal_request 7) attached) as [resp d'] eqn:E.
  assert (Hok : sms_ok resp = true).
  { change (sms_ok (resp, d').1 = true). rewrite <- E. vm_compute. reflexivity. }
  destruct (seal_freezes_version smoke_config 0 10 (seal_request 7) (smoke_daemon []) attached d' resp job_uid
    smoke_init ltac:(reach) E Hok) as (m & Hm & Hs & _).
  - vm_compute. reflexivity.
  - intros m Hm. exfalso. vm_compute in Hm. discriminate.
  - exists resp, d', m. exact (conj eq_refl (conj Hm Hs)).
Defined.
Lemma seal_repeatable_witness :
  exists resp d', handle_seal_model_version 10 (seal_request 7) attached = (resp, d') /\
    handle_seal_model_version 20 (seal_request 7) d' = (resp <| sms_message := "already sealed" |>, d').
Proof.
  destruct (handle_seal_model_version 10 (seal_request 7) attached) as [resp d'] eqn:E.
  assert (Hok : sms_ok resp = true).
  { change (sms_ok (resp, d').1 = true). rewrite <- E. vm_compute. reflexivity. }
  exists resp, d'. split; [reflexivity|].
  exact (seal_repeatable smoke_config 0 10 20 (seal_request 7) (seal_request 7) (smoke_daemon []) attached d' resp
    smoke_init ltac:(reach) E Hok eq_refl eq_refl eq_refl).
Defined.
Lemma sealed_version_closed_witness :
  exists resp, handle_request_canonical_evict 10 (fun _ => quiet_gap) (evict_request 4 2 12 0) sealed
    = Ok (resp, metric_inc kCanonicalStaleVersionReject sealed) /\ ces_ok resp = false.
Proof.
  destruct (find_job_by_wire sealed job_key) as [job|] eqn:Ej; [|vm_compute in Ej; discriminate].
  assert (Hu : Some (jr_uid job) = Some job_uid).
  { change (jr_uid <$> Some job = Some job_uid). rewrite <- Ej. vm_compute. reflexivity. }
  injection Hu as Hu.
  destruct (sealed_version_closed 10 (fun _ => quiet_gap) (evict_request 4 2 12 0) sealed job) as (resp & H1 & H2 & _).
  - vm_compute. reflexivity.
  - vm_compute. reflexivity.
  - exact Ej.
  - rewrite Hu. vm_compute. reflexivity.
  - exists resp. exact (conj H1 H2).
Defined.
Definition sample_object (n : Z) : CanonicalObject :=
  new_object 5 (evict_request 3 1 n 0) "" n (canonical_tid n) n 0 3.
Lemma manifest_order_independent_witness :
  let man ms := mkManifest job_uid 0 7 MANIFEST_SEALING (ob_object_id <$> ms)
                  (foldl (fun t o => u64 (t + ob_nbytes o)) 0 ms) 10 0 0 0 in
  seal_commit 10 job_uid (seal_request 7) (man [sample_object 2; sample_object 1]) attached =
  seal_commit 10 job_uid (seal_request 7) (man [sample_object 1; sample_object 2]) attached.
Proof. apply manifest_order_independent. apply Permutation_swap. Defined.
Lemma pull_only_sealed_witness :
  exists resp d' man, handle_pull_tensor (fun _ => quiet_gap) (mkExportResult true "" 1 0 0 "") (pull_request 1) sealed
      = (resp, d') /\ pts_nbytes resp = 5000000 /\ 1 ∈ ma_object_ids man.
Proof.
  destruct (handle_pull_tensor (fun _ => quiet_gap) (mkExportResult true "" 1 0 0 "") (pull_request 1) sealed)
    as [resp d'] eqn:E.
  assert (Hok : pts_ok resp = true /\ pts_nbytes resp = 5000000).
  { change (pts_ok (resp, d').1 = true /\ pts_nbytes (resp, d').1 = 5000000). rewrite <- E.
    vm_compute. split; reflexivity. }
  destruct (pull_only_sealed _ _ _ _ _ _ E (proj1 Hok)) as (job & man & o & _ & _ & _ & Hin & _).
  exists resp, d', man. exact (conj eq_refl (conj (proj2 Hok) Hin)).
Defined.
Lemma drop_version_exact_witness :
  exists resp d', handle_drop_canonical_version 10 (mkDropCanonicalVersionRequest job_key 0 7) sealed = (resp, d') /\
    manifests d' = delete (mkVersionKey job_uid 0 7) (manifests sealed).
Proof.
  destruct (handle_drop_canonical_version 10 (mkDropCanonicalVersionRequest job_key 0 7) sealed) as [resp d'] eqn:E.
  assert (Hok : dvs_ok resp = true).
  { change (dvs_ok (resp, d').1 = true). rewrite <- E. vm_compute. reflexivity. }
  destruct (drop_version_exact smoke_config 0 10 (mkDropCanonicalVersionRequest job_key 0 7) (smoke_daemon [])
    sealed d' resp job_uid smoke_init ltac:(reach) E Hok) as (Hm & _); [vm_compute; reflexivity|].
  exists resp, d'. exact (conj eq_refl Hm).
Defined.
Lemma register_job_idempotent_witness :
  let req := mkRegisterJobRequest 1 "job" 0 [] [] in
  exists resp d', handle_register_job 10 req (smoke_daemon []) = (resp, d') /\
    handle_register_job 20 req d' = (resp <| rjs_message := "ok (joined existing job)" |>, d').
Proof.
  intros req. destruct (handle_register_job 10 req (smoke_daemon [])) as [resp d'] eqn:E.
  assert (Hok : rjs_ok resp = true).
  { change (rjs_ok (resp, d').1 = true). rewrite <- E. vm_compute. reflexivity. }
  exists resp, d'. split; [reflexivity|]. exact (register_job_idempotent 10 20 req _ d' resp E Hok).
Defined.
Lemma restore_roundtrip_witness :
  let req := mkRequestCanonicalRestoreRequest 4 2 1 0 0 in
  exists resp d' o, handle_request_canonical_restore 30 (fun _ => quiet_gap) req attached = Ok (resp, d') /\
    objects attached !! 1 = Some o /\
    objects (handle_release_canonical_restore 40 (mkReleaseCanonicalRestoreRequest 4 2 1) d').2
      = <[1 := o <| ob_last_access_ns := 30 |>]> (objects attached).
Proof.
  intros req. destruct (handle_request_canonical_restore 30 (fun _ => quiet_gap) req attached) as [[resp d']|m] eqn:E;
    [|vm_compute in E; discriminate].
  assert (Hok : crs_ok resp = true).
  { change (match @Ok (RequestCanonicalRestoreResponse * Daemon) (resp, d') with
            | Ok (r, _) => crs_ok r | Throw _ => false end = true). rewrite <- E. vm_compute. reflexivity. }
  destruct (objects attached !! 1) as [o|] eqn:Eo; [|vm_compute in Eo; discriminate].
  destruct (locations attached !! canonical_tid 1) as [loc|] eqn:El; [|vm_compute in El; discriminate].
  assert (Ho : Some (ob_restore_refcount o, bool_decide (ob_holders o = ∅)) = Some (0, false)).
  { change ((fun x => (ob_restore_refcount x, bool_decide (ob_holders x = ∅))) <$> Some o = Some (0, false)).
    rewrite <- Eo. vm_compute. reflexivity. }
  injection Ho as Hr Hh. apply bool_decide_eq_false in Hh.
  assert (Hk : Some (lo_kind loc) = Some LOC_PINNED).
  { change (lo_kind <$> Some loc = Some LOC_PINNED). rewrite <- El. vm_compute. reflexivity. }
  injection Hk as Hk.
  destruct (restore_roundtrip 30 40 (fun _ => quiet_gap) req attached d' resp o loc E Hok Eo El Hk Hh ltac:(lia))
    as (_ & _ & _ & _ & _ & _ & _ & _ & Hd & _).
  exists resp, d', o. exact (conj eq_refl (conj eq_refl Hd)).
Defined.
