(* ===== verification/SessionProps.v ===== *)
(** * Behaviour of drains, leases and sessions

    Functional theorems about [Drain], [Offload] and [Session]: which lease a
    forced drain takes and what the drain leaves behind, what a prefetch may
    serve, that a released lease stays released, and what a registration makes of
    the rank's previous session. *)
From stdpp Require Import base gmap strings list fin_maps fin_sets list_numbers relations.
From Stdlib Require Import ZArith Lia.
From S2P Require Import Prelude.
From S2P Require Import Ring.
From S2P Require Import Protocol.
From S2P Require Import Rpc.
From S2P Require Import State.
From S2P Require Import Alloc.
From S2P Require Import Drain.
From S2P Require Import Offload.
From S2P Require Import Store.
From S2P Require Import Session.
From S2P Require Import Guarantee.
From S2P Require Import Fencing.
From S2P Require Import System.
From S2P Require Import Scenarios.
From S2P Require Import OffloadProps.
Open Scope Z_scope.
Open Scope offload_scope.

(** ** Forced drains *)
Definition touched (d : Daemon) (L : Lease) : Z := sl_last_touch_ns (slot d (le_base_slot L)).
(** The scan keeps the oldest candidate seen so far. *)
Definition drain_scan (d : Daemon) : Z * Z -> Z * Lease -> Z * Z := fun '(best_ts, best_lease) kv =>
  if drain_candidate d kv.2 then
    if decide (touched d kv.2 < best_ts) then (touched d kv.2, le_lease_id kv.2) else (best_ts, best_lease)
  else (best_ts, best_lease).
Lemma drain_scan_spec d l acc :
  let r := foldl (drain_scan d) acc l in
  r.1 <= acc.1 /\ (forall kv, kv ∈ l -> drain_candidate d kv.2 = true -> r.1 <= touched d kv.2) /\
  (r = acc \/ exists kv, kv ∈ l /\ drain_candidate d kv.2 = true /\ r = (touched d kv.2, le_lease_id kv.2)).
Proof.
  revert acc. induction l as [|kv l IH]; intros acc.
  { cbn [foldl]. split_and!; [lia| |by left]. intros kv Hkv. by apply not_elem_of_nil in Hkv. }
  cbn [foldl]. destruct (IH (drain_scan d acc kv)) as (I1 & I2 & I3).
  assert (Hs : (drain_scan d acc kv).1 <= acc.1 /\
    (drain_candidate d kv.2 = true -> (drain_scan d acc kv).1 <= touched d kv.2) /\
    (drain_scan d acc kv = acc \/ drain_candidate d kv.2 = true /\
       drain_scan d acc kv = (touched d kv.2, le_lease_id kv.2))).
  { destruct acc as [ts b]. unfold drain_scan. destruct (drain_candidate d kv.2); [case_decide|];
      cbn [fst]; split_and!; try lia; auto; done. }
  destruct Hs as (S1 & S2 & S3). split_and!; [lia|..].
  - intros kv' [->|Hin]%elem_of_cons Hc; [specialize (S2 Hc); lia|auto].
  - destruct I3 as [->|(x & Hx & Hc & ->)].
    + destruct S3 as [->|[Hc ->]]; [by left|right]. exists kv. split_and!; [apply list_elem_of_here|done|done].
    + right. exists x. split_and!; [by apply list_elem_of_further|done|done].
Qed.

(** A forced drain takes the oldest eligible lease and no other: in every
    reachable state the lease it picks is held, is not a prefetch, its run is
    readable, no reader, exporter or creator uses it, and no other such lease was
    touched earlier; it gives up only when there is none (clocks are below the
    largest 64-bit value). *)
Theorem force_drain_oldest (c : DaemonConfig) (t0 : Z) (d0 d : Daemon) :
  daemon_init c t0 = Some d0 -> rtc dstep d0 d ->
  let id := (pick_drain d).2 in
  (id ≠ 0 -> exists L, leases d !! id = Some L /\ le_is_prefetch L = false /\
     slot_state d (le_base_slot L) = SLOT_PINNED_VALID /\ drain_forbidden d (le_tensor_id L) = false /\
     forall id' L', leases d !! id' = Some L' -> drain_candidate d L' = true -> touched d L <= touched d L') /\
  (id = 0 -> forall id' L', leases d !! id' = Some L' -> drain_candidate d L' = true ->
     2 ^ 64 - 1 <= touched d L').
Proof.
  intros Hi Hex. destruct (reachable_tables _ _ _ _ Hi Hex) as ([_ HL] & _).
  change (pick_drain d) with (foldl (drain_scan d) (2 ^ 64 - 1, 0) (map_to_list (leases d))).
  destruct (drain_scan_spec d (map_to_list (leases d)) (2 ^ 64 - 1, 0)) as (_ & I2 & I3).
  set (r := foldl _ _ _) in *. clearbody r. cbv zeta.
  assert (Hall : forall id' L', leases d !! id' = Some L' -> drain_candidate d L' = true -> r.1 <= touched d L').
  { intros id' L' HL'. apply (I2 (id', L')). by apply elem_of_map_to_list. }
  destruct I3 as [->|([k L] & Hin & Hc & ->)]; [by split|].
  apply elem_of_map_to_list in Hin. cbn [fst snd] in *. destruct (HL _ _ Hin) as [-> Hpos].
  split; [|lia]. intros _. exists L. unfold drain_candidate in Hc.
  apply andb_true_iff in Hc as [[H1 H2]%andb_true_iff H3]. rewrite negb_true_iff in H1, H3.
  apply bool_decide_eq_true in H2. by split_and!.
Qed.

(** ** Releasing a lease *)
Lemma lease_gone_forever d d' id :
  lease_ids_ok d -> guarantee d d' -> ids_in_range d' -> leases d !! id = None -> id < next_lease_id d ->
  leases d' !! id = None.
Proof.
  intros HL HG W Hn Hlt. destruct (leases d' !! id) as [L|] eqn:E; [|done].
  destruct (guarantee_lease _ _ HG W HL) as [_ Hold]. destruct (Hold _ _ E); [congruence|lia].
Qed.
Lemma release_lease_gone now req d :
  let '(resp, d') := handle_release_lease now req d in
  rls_ok resp = true -> leases d' !! rl_lease_id req = None.
Proof.
  unfold handle_release_lease, find_lease. destruct (negb _); [done|].
  destruct (leases d !! _) as [L|] eqn:E; [|done]. case_decide; [done|].
  destruct (releasable _); intros _; simpl; apply lookup_delete_eq.
Qed.
(** Releasing is final and idempotent: once [ReleaseLease] was answered [ok]
    for a lease that had been given out, the lease is never held again, and in
    every later state the same rank's release of it (under a current epoch) is
    again answered [ok] and changes nothing. *)
Theorem release_lease_final (c : DaemonConfig) (t0 now now' e' : Z) (req : ReleaseLeaseRequest)
  (d0 d d1 d2 : Daemon) (resp : ReleaseLeaseResponse) :
  daemon_init c t0 = Some d0 -> rtc dstep d0 d -> handle_release_lease now req d = (resp, d1) ->
  rls_ok resp = true -> rl_lease_id req < next_lease_id d -> rtc dstep d1 d2 ->
  epoch_valid d2 (rl_rank_id req) e' = true ->
  leases d2 !! rl_lease_id req = None /\
  handle_release_lease now' (req <| rl_rank_epoch := e' |>) d2
    = (mkReleaseLeaseResponse true "already released", d2).
Proof.
  intros Hi Hex Hh Hok Hlt Hex2 Hv. destruct (reachable_tables _ _ _ _ Hi Hex) as (HL & _).
  pose proof (release_lease_gone now req d) as Hg. rewrite Hh in Hg. specialize (Hg Hok).
  pose proof (g_release_lease d d now req (reflexivity d)) as HG. rewrite Hh in HG. cbn [snd] in HG.
  assert (Hn : leases d2 !! rl_lease_id req = None).
  { destruct (execution_in_range _ _ Hex2) as [->|W2]; [done|]. apply execution_guarantee in Hex2.
    pose proof (ids_in_range_before _ _ Hex2 W2) as W1.
    eapply lease_gone_forever; [apply (guarantee_lease _ _ HG W1 HL)|done..|].
    pose proof (g_lease_next _ _ HG). lia. }
  split; [done|]. unfold handle_release_lease, find_lease. cbn. by rewrite Hv, Hn.
Qed.

(** ** The effect of a drain *)
(** No later version of the tensor is recorded. *)
Definition is_latest (d : Daemon) (t v : Z) : bool :=
  match locations d !! t with Some l => bool_decide (lo_version l <= v) | None => true end.
Lemma update_location_is_latest t v k s c n d :
  update_location_if_latest t v k s c n d =
  if is_latest d t v then (true, d <| locations ::= <[t := mkLocation t v k s c n]> |>)
  else (false, metric_inc kStaleVersionRejected d).
Proof.
  unfold update_location_if_latest, is_latest. destruct (locations d !! t) as [l|]; [|done].
  repeat case_bool_decide; done || lia.
Qed.
Definition drain_kind (d : Daemon) : location_kind_t :=
  if drain_wants_pageable (cfg d) then LOC_PAGEABLE else LOC_NVME.
Lemma do_drain_spec n g d ok cold d1 :
  do_drain_to_cold n g d = (ok, cold, d1) ->
  slots d1 = slots d /\ cold_store d1 = cold_store d /\ next_cold_ref d1 = next_cold_ref d /\
  leases d1 = leases d /\ locations d1 = locations d /\
  (ok = true -> co_nbytes cold = n /\ co_kind cold = drain_kind d).
Proof.
  unfold do_drain_to_cold, drain_kind. destruct (drain_wants_pageable _), (io_malloc g), (io_nvme_write g);
    by intros [= <- <- <-].
Qed.
(** The commit of a drain. *)
Lemma drain_commit_spec now base count t v n lid cold x :
  0 <= base -> 0 < count -> base + count <= 2 ^ 32 ->
  let x' := drain_commit now base count t v n lid cold x in
  cold_store x' = <[u64 (next_cold_ref x) := cold]> (cold_store x) /\
  leases x' = delete lid (leases x) /\
  (forall k e, 0 <= k < count -> slots x !! (base + k) = Some e ->
     exists e', slots x' !! (base + k) = Some e' /\ sl_state e' = SLOT_FREE) /\
  (forall i, i ∉ run_ids base count -> slots x' !! i = slots x !! i) /\
  locations x' = if is_latest x t v
    then <[t := mkLocation t v (co_kind cold) base (u64 (next_cold_ref x)) n]> (locations x) else locations x.
Proof.
  intros Hb Hc Hle. unfold drain_commit. cbv zeta. rewrite update_location_is_latest.
  match goal with |- context [is_latest ?y t v] => change (is_latest y t v) with (is_latest x t v) end.
  assert (Hbase : base ∈ run_ids base count).
  { apply elem_of_run_ids. exists 0. split; [lia|]. by rewrite Z.add_0_r, u32_small by (unfold in_u32; lia). }
  assert (Hrun : forall (f h : Z -> slot_entry -> slot_entry) (al : slot_entry -> slot_entry) k e,
    0 <= k < count -> slots x !! (base + k) = Some e -> (forall k e, sl_state (h k e) = SLOT_FREE) ->
    exists e', update_run h base count (alter al base (update_run f base count (slots x))) !! (base + k) = Some e'
      /\ sl_state e' = SLOT_FREE).
  { intros f h al k e Hk He Hh. rewrite lookup_update_run by lia.
    assert (Hs : is_Some (alter al base (update_run f base count (slots x)) !! (base + k))).
    { assert (Hf : update_run f base count (slots x) !! (base + k) = Some (f k e))
        by (rewrite lookup_update_run by lia; by rewrite He).
      destruct (decide (base = base + k)) as [E|E].
      - rewrite <- E in Hf |- *. by rewrite lookup_alter_eq, Hf.
      - by rewrite lookup_alter_ne, Hf. }
    destruct Hs as [e' ->]. simpl. eauto. }
  assert (Hrest : forall (f h : Z -> slot_entry -> slot_entry) (al : slot_entry -> slot_entry) i,
    i ∉ run_ids base count ->
    update_run h base count (alter al base (update_run f base count (slots x))) !! i = slots x !! i).
  { intros f h al i Hi. rewrite lookup_update_run_ne by done.
    rewrite lookup_alter_ne by (intros ->; done). by rewrite lookup_update_run_ne. }
  destruct (is_latest x t v); simpl; split_and!; try done; intros; try (by eapply Hrun); by apply Hrest.
Qed.
(** What a drain without interference leaves of the run, the lease and the tables. *)
Record drained (id : Z) (L : Lease) (d d' : Daemon) : Prop := {
  dr_cold : exists cold, cold_store d' = <[u64 (next_cold_ref d) := cold]> (cold_store d) /\
    co_nbytes cold = le_nbytes L /\ co_kind cold = drain_kind d;
  dr_lease : leases d' = delete id (leases d);
  dr_run : forall k e, 0 <= k < le_slot_count L -> slots d !! (le_base_slot L + k) = Some e ->
    exists e', slots d' !! (le_base_slot L + k) = Some e' /\ sl_state e' = SLOT_FREE;
  dr_rest : forall i, i ∉ run_ids (le_base_slot L) (le_slot_count L) -> slots d' !! i = slots d !! i;
  dr_location : locations d' =
    if is_latest d (le_tensor_id L) (le_version L)
    then <[le_tensor_id L := mkLocation (le_tensor_id L) (le_version L) (drain_kind d)
             (le_base_slot L) (u64 (next_cold_ref d)) (le_nbytes L)]> (locations d)
    else locations d }.
Record drain_undone (L : Lease) (d d' : Daemon) : Prop := {
  du_tables : cold_store d' = cold_store d /\ leases d' = leases d /\ locations d' = locations d;
  du_run : forall k e, 0 <= k < le_slot_count L -> slots d !! (le_base_slot L + k) = Some e ->
    exists e', slots d' !! (le_base_slot L + k) = Some e' /\ sl_state e' = SLOT_PINNED_VALID;
  du_rest : forall i, i ∉ run_ids (le_base_slot L) (le_slot_count L) -> slots d' !! i = slots d !! i }.

(** A forced drain moves the tensor to cold storage and frees its run: when no
    other thread interferes, a successful drain records one new cold entry of the
    configured kind with the lease's size, frees exactly the lease's run, ends the
    lease, and points the location at the cold entry unless a later version is
    recorded; a failed copy leaves the tensor where it was, readable. *)
Theorem force_drain_effect (now : Z) (g : IoGap) (d d' : Daemon) (ok : bool) (L : Lease) :
  (forall x, io_env g x = x) -> force_drain_one now g d = (ok, d') ->
  let id := (pick_drain d).2 in
  id ≠ 0 -> leases d !! id = Some L ->
  0 <= le_base_slot L -> 0 < le_slot_count L -> le_base_slot L + le_slot_count L <= 2 ^ 32 ->
  if ok then drained id L d d' else drain_undone L d d'.
Proof.
  intros He Hf id Hid HL Hb Hc Hle. revert Hf. unfold force_drain_one. fold id. rewrite decide_False by done.
  unfold leases_at. rewrite HL.
  destruct (do_drain_to_cold _ _ _) as [[rok cold] d1] eqn:Ed.
  apply do_drain_spec in Ed as (Esl & Ecs & Ecn & Ele & El & Hcold).
  simpl in Esl, Ecs, Ecn, Ele, El. rewrite He.
  destruct rok; cbn [negb]; intros [= <- <-].
  - destruct (Hcold eq_refl) as [Hn Hk].
    destruct (drain_commit_spec (io_now g) (le_base_slot L) (le_slot_count L) (le_tensor_id L) (le_version L)
      (le_nbytes L) id cold (metric_sub kDrainingBytes (le_nbytes L) d1) Hb Hc Hle) as (D1 & D2 & D3 & D4 & D5).
    simpl in D1, D2, D3, D4, D5. unfold is_latest in D5. simpl in D5.
    rewrite Ecs, Ecn in D1. rewrite Ele in D2. rewrite Ecn, El in D5. split.
    + exists cold. by split_and!.
    + done.
    + intros k e Hk' Hs. destruct (slots d1 !! (le_base_slot L + k)) as [e1|] eqn:E1; [by eapply D3|].
      rewrite Esl, lookup_update_run, Hs in E1 by lia. done.
    + intros i Hi. by rewrite D4, Esl, lookup_update_run_ne by done.
    + rewrite D5, Hk. done.
  - split.
    + by split_and!.
    + intros k e Hk Hs. simpl. rewrite lookup_update_run, Esl, lookup_update_run, Hs by lia. by eexists.
    + intros i Hi. simpl. by rewrite lookup_update_run_ne, Esl, lookup_update_run_ne.
Qed.

(** ** Prefetch *)
Lemma find_prefetch_spec d t v EL :
  find_prefetch d t v = Some EL ->
  le_is_prefetch EL = true /\ le_tensor_id EL = t /\ le_version EL = v /\
  (slot_state d (le_base_slot EL) = SLOT_READBACK_IN_FLIGHT \/
   slot_state d (le_base_slot EL) = SLOT_PINNED_VALID).
Proof.
  unfold find_prefetch. destruct (list_find _ _) as [[i [k L]]|] eqn:E; [|done]. simpl. intros [= ->].
  apply list_find_Some in E as (_ & H & _). cbn [snd] in H. apply Is_true_true in H. unfold prefetch_match in H.
  apply andb_true_iff in H as [[[H1 H2]%andb_true_iff H3]%andb_true_iff H4].
  apply bool_decide_eq_true in H2, H3. apply orb_true_iff in H4. rewrite !bool_decide_eq_true in H4.
  by split_and!.
Qed.

(** ** Registration *)
Lemma leases_apply_ring now r e c d : leases (apply_ring_completion now r e c d) ⊆ leases d.
Proof.
  unfold apply_ring_completion. case_decide; [|case_decide; [|done]].
  - unfold apply_d2h_complete, enqueue_drain, update_location_if_latest.
    repeat (case_match; simplify_eq/=); done.
  - unfold apply_h2d_complete, keep_resident, demote_location, update_location_if_latest.
    repeat (case_match; simplify_eq/=); try done; apply delete_subseteq.
Qed.
Lemma leases_drain_ring fuel now i r e d : leases (drain_ring fuel now i r e d) ⊆ leases d.
Proof.
  revert d. induction fuel as [|n IH]; intros d; [done|]. cbn [drain_ring].
  destruct (rings d !! i) as [rh|]; [|done]. destruct (ring_pop rh) as [[x|] rh']; [|done].
  etrans; [apply IH|]. etrans; [apply leases_apply_ring|]. done.
Qed.
Lemma leases_free_unheld now ids d : leases (free_unheld now ids d) ⊆ leases d.
Proof.
  revert d. induction ids as [|i ids IH]; intros d; [done|]. unfold free_unheld. cbn [foldl].
  etrans; [apply IH|]. destruct (find_object d i) as [o|]; [|done].
  unfold maybe_free_object, release_object, release_backing.
  repeat (case_match; simplify_eq/=); try done; apply delete_subseteq.
Qed.
Lemma recover_leases_lookup now s d id L :
  lease_ids_ok d -> leases (recover_leases now s d) !! id = Some L ->
  leases d !! id = Some L /\ lease_of_session s L = false.
Proof.
  intros [_ HL]. unfold recover_leases. cbv zeta. simpl.
  set (owned := filter _ _).
  assert (El : forall l x, leases (foldl (fun d (kv : Z * Lease) =>
    if data_safe (slot_state d (le_base_slot kv.2)) then d
    else free_slots now (le_base_slot kv.2) (le_slot_count kv.2)
           (set_slot_state now (le_base_slot kv.2) SLOT_ERROR d)) x l) = leases x).
  { induction l as [|kv l IH]; intros x; [done|]. cbn [foldl]. rewrite IH. by case_match. }
  rewrite El. clear El. intros Hl.
  assert (Hd : forall (l : list (Z * Lease)) (m : gmap Z Lease), foldl (fun m kv => delete (le_lease_id kv.2) m) m l !! id = Some L ->
    m !! id = Some L /\ forall kv, kv ∈ l -> le_lease_id kv.2 ≠ id).
  { induction l as [|kv l IH]; intros m Hm; [split; [done|intros kv Hkv; by apply not_elem_of_nil in Hkv]|].
    cbn [foldl] in Hm. destruct (IH _ Hm) as [[Hne Hm']%lookup_delete_Some Hl']. split; [done|].
    intros kv' [->|Hin]%elem_of_cons; auto. }
  destruct (Hd _ _ Hl) as [HLd Hout]. split; [done|]. apply not_true_is_false. intros Hs.
  destruct (HL _ _ HLd) as [Eid _]. apply (Hout (id, L)); [|done]. unfold owned.
  apply list_elem_of_filter. split; [done|]. by apply elem_of_map_to_list.
Qed.
Lemma invalidate_leases now key d :
  lease_ids_ok d ->
  leases (invalidate now key d) ⊆ leases d /\
  forall s, sessions d !! key = Some s -> se_alive s = true ->
    forall id L, leases (invalidate now key d) !! id = Some L -> lease_of_session s L = false.
Proof.
  intros HL. unfold invalidate. destruct (sessions d !! key) as [s|]; [|done].
  destruct (se_alive s) eqn:Ea; cbn [negb]; [|split; [done|]; by intros s' [= <-]; rewrite Ea].
  cbv zeta. set (d1 := metric_inc _ _). assert (HL1 : lease_ids_ok d1) by exact HL.
  assert (Hsub : leases (purge_rank_from_canonical now (se_rank_id s) (release_ring now s (recover_leases now s d1)))
    ⊆ leases (recover_leases now s d1)).
  { unfold purge_rank_from_canonical. etrans; [apply leases_free_unheld|]. simpl. unfold release_ring.
    case_decide; [|done]. simpl. apply leases_drain_ring. }
  split.
  - etrans; [exact Hsub|]. apply map_subseteq_spec. intros id L Hl.
    by destruct (recover_leases_lookup now s d1 id L HL1 Hl).
  - intros s' [= <-] _ id L Hl. apply (recover_leases_lookup now s d1 id L HL1).
    by eapply lookup_weaken.
Qed.
Lemma sessions_apply_ring now r e c d : sessions (apply_ring_completion now r e c d) = sessions d.
Proof.
  unfold apply_ring_completion. case_decide; [|case_decide; [|done]].
  - unfold apply_d2h_complete, enqueue_drain, update_location_if_latest.
    repeat (case_match; simplify_eq/=); done.
  - unfold apply_h2d_complete, keep_resident, demote_location, update_location_if_latest.
    repeat (case_match; simplify_eq/=); done.
Qed.
Lemma sessions_drain_ring fuel now i r e d : sessions (drain_ring fuel now i r e d) = sessions d.
Proof.
  revert d. induction fuel as [|n IH]; intros d; [done|]. cbn [drain_ring].
  destruct (rings d !! i) as [rh|]; [|done]. destruct (ring_pop rh) as [[x|] rh']; [|done].
  by rewrite IH, sessions_apply_ring.
Qed.
Lemma sessions_free_unheld now ids d : sessions (free_unheld now ids d) = sessions d.
Proof.
  revert d. induction ids as [|i ids IH]; intros d; [done|]. unfold free_unheld. cbn [foldl].
  etrans; [apply IH|]. destruct (find_object d i) as [o|]; [|done].
  unfold maybe_free_object, release_object, release_backing. by repeat (case_match; simplify_eq/=).
Qed.
Lemma sessions_recover now s d : sessions (recover_leases now s d) = sessions d.
Proof.
  unfold recover_leases. cbv zeta. simpl. set (owned := filter _ _). clearbody owned.
  revert d. induction owned as [|kv l IH]; intros d; [done|]. cbn [foldl]. rewrite IH. by case_match.
Qed.
Lemma sessions_release_ring now s d : sessions (release_ring now s d) = sessions d.
Proof. unfold release_ring. case_decide; [|done]. simpl. apply sessions_drain_ring. Qed.
Lemma invalidate_sessions now key d r s :
  sessions (invalidate now key d) !! r = Some s -> se_alive s = true -> sessions d !! r = Some s /\ r ≠ key.
Proof.
  unfold invalidate. destruct (sessions d !! key) as [s0|] eqn:E; [|intros ? ?; split; congruence].
  destruct (se_alive s0) eqn:Ea; cbn [negb]; [|intros ? ?; split; congruence]. cbv zeta.
  unfold purge_rank_from_canonical. rewrite sessions_free_unheld.
  set (x := release_ring _ _ _).
  assert (Ex : sessions x = <[key := s0 <| se_alive := false |>]> (sessions d))
    by (unfold x; by rewrite sessions_release_ring, sessions_recover).
  clearbody x. simpl. rewrite Ex. intros [[<- <-]|[? Hs]]%lookup_insert_Some; [done|]. auto.
Qed.
Lemma invalidate_fold_sessions now (l : list (Z * Session)) d r s :
  sessions (foldl (fun d kv => invalidate now kv.1 d) d l) !! r = Some s -> se_alive s = true ->
  sessions d !! r = Some s /\ forall kv, kv ∈ l -> kv.1 ≠ r.
Proof.
  revert d. induction l as [|kv l IH]; intros d Hs Ha.
  { split; [done|]. intros kv Hkv. by apply not_elem_of_nil in Hkv. }
  cbn [foldl] in Hs. destruct (IH _ Hs Ha) as [H1 H2]. destruct (invalidate_sessions _ _ _ _ _ H1 Ha) as [H3 H4].
  split; [done|]. intros kv' [->|?]%elem_of_cons; auto.
Qed.
Lemma lease_ids_subset d d' :
  guarantee d d' -> leases d' ⊆ leases d -> lease_ids_ok d -> lease_ids_ok d'.
Proof.
  intros HG Hsub [Hp Hok]. pose proof (g_lease_next _ _ HG). split; [lia|].
  intros id L HL. destruct (Hok id L) as [? ?]; [by eapply lookup_weaken|]. split; [done|lia].
Qed.
Lemma invalidate_fold_leases now (l : list (Z * Session)) d :
  lease_ids_ok d -> leases (foldl (fun d kv => invalidate now kv.1 d) d l) ⊆ leases d.
Proof.
  revert d. induction l as [|kv l IH]; intros d HL; [done|]. cbn [foldl]. etrans; [apply IH|].
  - eapply lease_ids_subset; [apply g_invalidate; reflexivity|by apply invalidate_leases|done].
  - by apply invalidate_leases.
Qed.

Lemma reachable_epoch_pos c t0 d0 d : daemon_init c t0 = Some d0 -> rtc dstep d0 d -> 0 < next_rank_epoch d.
Proof.
  intros Hi H%execution_guarantee. pose proof (g_epoch_next _ _ H).
  destruct (daemon_init_counters _ _ _ Hi) as (_ & _ & ?). lia.
Qed.
Lemma assign_ring_frame r e d :
  sessions (assign_ring r e d).2 = sessions d /\ leases (assign_ring r e d).2 = leases d /\
  next_rank_epoch (assign_ring r e d).2 = next_rank_epoch d.
Proof. unfold assign_ring, resize_ring_owner. cbv zeta. by repeat (case_match; cbn [snd]). Qed.

(** Registering replaces the rank's session.  In every reachable state the
    answer's epoch is new (before the counter wraps) and from then on the only valid one of the rank; the
    leases the rank held under its previous live session are gone and no lease
    appeared; and no other rank's session of the same process is left alive. *)
Theorem register_replaces_session (c : DaemonConfig) (t0 now : Z) (req : RegisterRankRequest)
  (d0 d d' : Daemon) (resp : RegisterRankResponse) :
  daemon_init c t0 = Some d0 -> rtc dstep d0 d -> handle_register now req d = (resp, d') ->
  (ids_in_range d' -> next_rank_epoch d <= rrs_rank_epoch resp) /\
  (forall e, epoch_valid d' (rr_rank_id req) e = true <-> e = rrs_rank_epoch resp) /\
  leases d' ⊆ leases d /\
  (forall s, sessions d !! rr_rank_id req = Some s -> se_alive s = true ->
     forall id L, leases d' !! id = Some L -> lease_of_session s L = false) /\
  (forall r s, sessions d' !! r = Some s -> se_alive s = true -> r ≠ rr_rank_id req ->
     sessions d !! r = Some s /\ se_pid s ≠ rr_pid req).
Proof.
  intros Hi Hex. destruct (reachable_tables _ _ _ _ Hi Hex) as (HL & _). unfold handle_register. cbv zeta.
  set (d1 := invalidate now (rr_rank_id req) d).
  assert (G1 : guarantee d d1) by (apply g_invalidate; reflexivity).
  destruct (invalidate_leases now (rr_rank_id req) d HL) as [Hsub1 Hold]. fold d1 in Hsub1, Hold.
  assert (HL1 : lease_ids_ok d1) by (by eapply lease_ids_subset).
  set (d2 := invalidate_others now (rr_rank_id req) (rr_pid req) d1).
  assert (G2 : guarantee d d2) by (apply g_foldl; [intros; by apply g_invalidate|done]).
  assert (Hsub2 : leases d2 ⊆ leases d1) by (by apply invalidate_fold_leases).
  assert (Hses : forall r s, sessions d2 !! r = Some s -> se_alive s = true -> r ≠ rr_rank_id req ->
    sessions d !! r = Some s /\ se_pid s ≠ rr_pid req).
  { intros r s Hs Ha Hr. destruct (invalidate_fold_sessions _ _ _ _ _ Hs Ha) as [H1 Hout].
    destruct (invalidate_sessions _ _ _ _ _ H1 Ha) as [H2 _]. split; [done|]. intros Hp.
    apply (Hout (r, s)); [|done]. apply list_elem_of_filter. split; [by split_and!|by apply elem_of_map_to_list]. }
  clearbody d2. destruct (assign_ring_frame (rr_rank_id req) (u64 (next_rank_epoch d2))
    (d2 <| next_rank_epoch := next_rank_epoch d2 + 1 |>)) as (Es & El & En).
  destruct (assign_ring _ _ _) as [ring d3]. cbn [snd] in Es, El, En. simpl in Es, El.
  intros [= <- <-]. cbn [rrs_rank_epoch]. simpl. rewrite El, Es. split_and!.
  - intros W. pose proof (ir_epoch _ W) as We. pose proof (g_epoch_next _ _ G2) as Hn. simpl in We.
    rewrite En in We. simpl in We. rewrite u64_small; [done|]. unfold in_u64.
    pose proof (reachable_epoch_pos _ _ _ _ Hi Hex). lia.
  - intros e. unfold epoch_valid. simpl. rewrite Es, lookup_insert_eq. cbn.
    case_decide as Hne; split; try done; congruence.
  - by etrans.
  - intros s Hs Ha id L Hl. apply (Hold s Hs Ha id). by eapply lookup_weaken.
  - intros r s Hs Ha Hr. rewrite lookup_insert_ne in Hs by done. by apply Hses.
Qed.

(** ** Concrete executions *)
Lemma force_drain_oldest_witness :
  exists L, leases committed !! (pick_drain committed).2 = Some L /\
    slot_state committed (le_base_slot L) = SLOT_PINNED_VALID.
Proof.
  destruct (force_drain_oldest smoke_config 0 (smoke_daemon []) committed smoke_init ltac:(reach)) as [H _].
  destruct H as (L & HL & _ & Hs & _); [vm_compute; discriminate|]. exists L. exact (conj HL Hs).
Defined.
Lemma force_drain_effect_witness :
  exists d' L, force_drain_one 20 quiet_gap committed = (true, d') /\
    leases committed !! 1 = Some L /\ leases d' = delete 1 (leases committed).
Proof.
  destruct (force_drain_one 20 quiet_gap committed) as [ok d'] eqn:E.
  assert (Hok : ok = true).
  { change ((ok, d').1 = true). rewrite <- E. vm_compute. reflexivity. }
  assert (Hp : (pick_drain committed).2 = 1) by (vm_compute; reflexivity).
  destruct (leases committed !! 1) as [L|] eqn:EL; [|vm_compute in EL; discriminate].
  assert (HL : Some (le_base_slot L, le_slot_count L) = Some (0, 3)).
  { change ((fun x => (le_base_slot x, le_slot_count x)) <$> Some L = Some (0, 3)). rewrite <- EL.
    vm_compute. reflexivity. }
  injection HL as Hb Hc.
  pose proof (force_drain_effect 20 quiet_gap committed d' ok L ltac:(intros; reflexivity) E) as H.
  cbv zeta in H. rewrite Hp in H. specialize (H ltac:(discriminate) EL ltac:(lia) ltac:(lia) ltac:(lia)).
  rewrite Hok in *. exists d', L. exact (conj eq_refl (conj eq_refl (dr_lease _ _ _ _ H))).
Defined.
Lemma release_lease_final_witness :
  let req := mkReleaseLeaseRequest 3 1 1 0 "" in
  let d1 := (handle_release_lease 20 req in_flight).2 in
  let d2 := run_ok [offload 3 1 10 1 5000] d1 in
  leases in_flight !! 1 ≠ None /\ leases d2 !! 1 = None.
Proof.
  intros req d1 d2. split; [vm_compute; discriminate|].
  destruct (handle_release_lease 20 req in_flight) as [resp x] eqn:E.
  assert (Hok : rls_ok resp = true).
  { change (rls_ok (resp, x).1 = true). rewrite <- E. vm_compute. reflexivity. }
  apply (release_lease_final smoke_config 0 20 30 1 req (smoke_daemon []) in_flight x d2 resp smoke_init
    ltac:(reach) E Hok).
  - vm_compute. reflexivity.
  - unfold d2, d1. cbn [snd]. apply run_ok_steps.
    replace x with (handle_release_lease 20 req in_flight).2 by (by rewrite E). vm_compute. reflexivity.
  - unfold d2, d1. replace x with (handle_release_lease 20 req in_flight).2 by (by rewrite E).
    vm_compute. reflexivity.
Defined.
Lemma register_replaces_session_witness :
  exists resp d', handle_register 20 (mkRegisterRankRequest 3 0 0 0 0 77 0) in_flight = (resp, d') /\
    leases in_flight !! 1 ≠ None /\ epoch_valid d' 3 (rrs_rank_epoch resp) = true /\
    leases d' ⊆ leases in_flight.
Proof.
  destruct (handle_register 20 (mkRegisterRankRequest 3 0 0 0 0 77 0) in_flight) as [resp d'] eqn:E.
  destruct (register_replaces_session smoke_config 0 20 (mkRegisterRankRequest 3 0 0 0 0 77 0) (smoke_daemon [])
    in_flight d' resp smoke_init ltac:(reach) E) as (_ & He & Hl & _).
  exists resp, d'. split; [reflexivity|]. split; [vm_compute; discriminate|]. split; [|exact Hl].
  apply (He (rrs_rank_epoch resp)). reflexivity.
Defined.
