(* ===== verification/Agent.v ===== *)
(** * The rank-side agent

    Models [src/agent/agent.h] and [src/agent/agent.cpp]: the state of
    [OffloadAgent::Impl], its construction and teardown, the progress and the
    heartbeat threads, and every operation of the public API.

    What the agent does to the outside (RPCs to the daemon, CUDA calls, mappings,
    the shared completion ring, the invalidation callback) is appended to
    [a_trace] with its outcome, the last call first.  The outside answers with the
    operations of the class [World], which are functions of the calls made so far,
    so a world is any deterministic environment and a theorem about all worlds
    covers every behaviour of the daemon, the driver, the clocks and the other
    processes.

    An operation runs in the monad [M]: it ends with a value or an exception, both
    with the state it leaves, or spins when the fuel of a polling loop is used up.
    The log macros only print and are left out. *)
From stdpp Require Import base gmap strings list pretty fin_sets.
From Stdlib Require Import ZArith Lia SpecFloat.
From S2P Require Import Prelude.
From S2P Require Import Wire.
From S2P Require Import Ring.
From S2P Require Import Protocol.
From S2P Require Import ProtocolV2.
From S2P Require Import Rpc.
From S2P Require Import Layout.
From S2P Require Import State.
Open Scope Z_scope.
Open Scope offload_scope.

(** ** Data *)
Definition kInternalStream : Z := 2 ^ 64 - 1.
Record AgentConfig := mkAgentConfig {
  ac_socket_path : string; ac_cuda_device : Z; ac_rank_id : Z; ac_local_rank : Z; ac_world_rank : Z;
  ac_numa_node : Z; ac_registration_chunk_bytes : Z; ac_eager_register : bool;
  ac_heartbeat_interval_ms : Z; ac_progress_poll_us : Z }.
Record TensorMeta := mkTensorMeta { tm_tensor_id : Z; tm_version : Z; tm_nbytes : Z; tm_name : string }.
Record OffloadTicket := mkTicket {
  t_tensor_id : Z; t_version : Z; t_nbytes : Z; t_lease_id : Z; t_slot_id : Z; t_ok : bool; t_message : string }.
Record RestoreResult := mkRestoreResult { rst_ok : bool; rst_message : string }.
Record CanonicalEvictResult := mkCanonicalEvictResult {
  cer_ok : bool; cer_message : string; cer_action : Z; cer_object_id : Z; cer_did_d2h : bool }.
Record AgentSummary := mkSummary {
  su_rank_id : Z; su_gpu_id : Z; su_numa_node : Z; su_registered_pinned_bytes : Z; su_inflight_d2h_bytes : Z;
  su_inflight_h2d_bytes : Z; su_evict_count : Z; su_restore_count : Z; su_d2h_completed : Z;
  su_h2d_completed : Z; su_rank_epoch : Z; su_num_slots : Z }.

Record ArenaMap := mkArenaMap { am_arena_id : Z; am_base : Z; am_size : Z; am_kind : Z }.
(** A [std::function]: the identity of the closure, when one is set. *)
Definition InvalidateCallback := option Z.
Definition callable (cb : InvalidateCallback) : bool := match cb with Some _ => true | None => false end.
Record InflightD2H := mkInflightD2H {
  d_lease_id : Z; d_tensor_id : Z; d_version : Z; d_slot_id : Z; d_nbytes : Z; d_ev : Z;
  d_destructive : bool; d_cb : InvalidateCallback; d_cookie : Z; d_submit_ns : Z; d_complete_seq : Z }.
Record InflightH2D := mkInflightH2D {
  h_lease_id : Z; h_tensor_id : Z; h_version : Z; h_slot_id : Z; h_nbytes : Z; h_ev : Z;
  h_keep_pinned : bool; h_submit_ns : Z; h_complete_seq : Z }.

(** The CUDA runtime calls, and their error codes. *)
Inductive copy_kind := cudaMemcpyDeviceToHost | cudaMemcpyHostToDevice.
Inductive cuda_call :=
  | cudaSetDevice (device : Z)
  | cudaStreamCreate
  | cudaStreamDestroy (s : Z)
  | cudaStreamSynchronize (s : Z)
  | cudaMemcpyAsync (dst src nbytes : Z) (kind : copy_kind) (s : Z)
  | cudaEventCreate
  | cudaEventRecord (ev s : Z)
  | cudaEventQuery (ev : Z)
  | cudaEventSynchronize (ev : Z)
  | cudaEventDestroy (ev : Z)
  | cudaHostRegister (base size : Z)
  | cudaHostUnregister (base : Z).
Definition cudaSuccess : Z := 0.
Definition cudaErrorNotReady : Z := 600.
Definition cudaErrorHostMemoryAlreadyRegistered : Z := 712.

(** What passed between the agent and the outside; [CEvict] is the owner's call of
    [evict] or [canonical_evict] for the storage at [dev_ptr]. *)
Inductive call :=
  | CEvict (dev_ptr nbytes : Z) (cb : InvalidateCallback) (cookie tensor_id version : Z)
  | CRpc (r : request) (a : res response)
  | CCuda (c : cuda_call) (err : Z)
  | CMmap (fd size : Z) (base : option Z)
  | CMunmap (base size : Z)
  | CRingPush (e : completion_entry)
  | CInvalidate (cb : InvalidateCallback) (cookie : Z)
  | CSleep (ns : Z)
  | CBandwidth (mbps : spec_float).
Definition trace := list call.

(** ** The outside *)
Class World := {
  w_rpc : trace -> request -> res response;
  (* descriptors received with the answer of RegisterRank *)
  w_fds : trace -> Z;
  w_connect : trace -> string -> res unit;
  w_getpid : Z;
  w_gpu_numa_node : Z -> Z;
  w_cuda : trace -> cuda_call -> Z;
  (* the handle of a stream or event just created *)
  w_handle : trace -> Z;
  w_error_string : Z -> string;
  w_mmap : trace -> Z -> Z -> option Z;
  (* magic, ABI version and number of slots of the mapped control region *)
  w_header : trace -> Z * Z * Z;
  w_ring : trace -> Z -> option CompletionRing;
  w_ring_head : trace -> Z;
  w_slot_state : trace -> Z -> Z;
  (* the bytes at a host pointer *)
  w_host_bytes : trace -> Z -> Z -> list Z;
  w_now_real : trace -> Z;
  w_now_mono : trace -> Z }.

(** ** [OffloadAgent::Impl] *)
Record Agent := mkAgent {
  a_cfg : AgentConfig; a_device : Z; a_numa : Z; a_rank_id : Z; a_rank_epoch : Z;
  a_arenas : list ArenaMap; a_arena_index : gmap Z nat;
  a_control_base : option Z; a_control_size : Z; a_num_slots : Z;
  a_comp_ring : option CompletionRing; a_ring_index : Z;
  a_internal_stream : option Z;
  a_registered_chunks : gset Z; a_registered_pinned_bytes : Z;
  a_inflight_d2h : list InflightD2H; a_inflight_h2d : list InflightH2D;
  (* the vectors [done_d2h] and [done_h2d] of the progress thread *)
  a_done_d2h : list InflightD2H; a_done_h2d : list InflightH2D;
  a_offloaded : gmap string bool; a_lease_of : gmap string Z; a_ring_push_seq : gmap string Z;
  a_inflight_d2h_bytes : Z; a_inflight_h2d_bytes : Z; a_evict_count : Z; a_restore_count : Z;
  a_d2h_completed : Z; a_h2d_completed : Z; a_submit_seq_ctr : Z; a_complete_seq_ctr : Z;
  a_metrics : Metric -> Z;
  a_stop : bool; a_running : bool;
  a_trace : trace }.
#[export] Instance eta_Agent : Eta Agent := fun a => mkAgent
  (a_cfg a) (a_device a) (a_numa a) (a_rank_id a) (a_rank_epoch a) (a_arenas a) (a_arena_index a)
  (a_control_base a) (a_control_size a) (a_num_slots a) (a_comp_ring a) (a_ring_index a)
  (a_internal_stream a) (a_registered_chunks a) (a_registered_pinned_bytes a) (a_inflight_d2h a)
  (a_inflight_h2d a) (a_done_d2h a) (a_done_h2d a) (a_offloaded a) (a_lease_of a) (a_ring_push_seq a)
  (a_inflight_d2h_bytes a) (a_inflight_h2d_bytes a) (a_evict_count a) (a_restore_count a)
  (a_d2h_completed a) (a_h2d_completed a) (a_submit_seq_ctr a) (a_complete_seq_ctr a) (a_metrics a)
  (a_stop a) (a_running a) (a_trace a).
(** The member initialisers. *)
Definition agent_zero (c : AgentConfig) : Agent :=
  mkAgent c 0 0 0 0 [] ∅ None 0 0 None NO_U32 None ∅ 0 [] [] [] [] ∅ ∅ ∅ 0 0 0 0 0 0 0 0 (fun _ => 0) false false [].

(** ** Operations *)
Inductive out (A : Type) := Val (a : A) | Exc (msg : string) | Spin.
Arguments Val {A} a.
Arguments Exc {A} msg.
Arguments Spin {A}.
Definition M (A : Type) := Agent -> out A * Agent.
Definition ret {A} (x : A) : M A := fun st => (Val x, st).
Definition throw {A} (m : string) : M A := fun st => (Exc m, st).
Definition spin {A} : M A := fun st => (Spin, st).
Definition bind {A B} (m : M A) (k : A -> M B) : M B := fun st =>
  match m st with
  | (Val x, st') => k x st'
  | (Exc e, st') => (Exc e, st')
  | (Spin, st') => (Spin, st')
  end.
(** [try { m } catch (const std::exception& e) { h }] *)
Definition catch {A} (m : M A) (h : string -> M A) : M A := fun st =>
  match m st with (Exc e, st') => h e st' | r => r end.
Definition get : M Agent := fun st => (Val st, st).
Definition modify (f : Agent -> Agent) : M unit := fun st => (Val tt, f st).
Declare Scope agent_scope.
Delimit Scope agent_scope with agent.
Notation "'let*' x ':=' m 'in' k" := (bind m (fun x => k))
  (at level 200, x name, m at level 100, k at level 200) : agent_scope.
Open Scope agent_scope.

Fixpoint for_each {A} (l : list A) (f : A -> M unit) : M unit :=
  match l with [] => ret tt | x :: l => let* _ := f x in for_each l f end.
Definition log (c : call) : M unit := modify (fun st => st <| a_trace ::= cons c |>).
(** [tv_key]: the two numbers as 16 bytes *)
Definition tv_key (tensor_id version : Z) : string :=
  String.string_of_list_byte (le_bytes 8 tensor_id ++ le_bytes 8 version).
Definition metric_add_local (m : Metric) (v : Z) : M unit :=
  modify (fun st => st <| a_metrics ::= (fun f => <[m := u64 (f m + v)]> f) |>).
Definition metric_sub_local (m : Metric) (v : Z) : M unit :=
  modify (fun st => st <| a_metrics ::= (fun f => <[m := u64 (f m - v)]> f) |>).

Section Operations.
Context `{W : World}.

(** One CUDA call and its error code. *)
Definition cuda (c : cuda_call) : M Z := fun st =>
  let err := w_cuda (a_trace st) c in (Val err, st <| a_trace ::= cons (CCuda c err) |>).
(** [CUDA_CHECK]; [expr] is the source text of the call. *)
Definition cuda_check (expr : string) (c : cuda_call) : M unit :=
  let* err := cuda c in
  if decide (err = cudaSuccess) then ret tt
  else throw ("CUDA error at " +:+ expr +:+ ": " +:+ w_error_string err).
(** The handle a successful creation stored. *)
Definition new_handle : M Z := fun st => (Val (w_handle (a_trace st)), st).
Definition now_real : M Z := fun st => (Val (w_now_real (a_trace st)), st).
Definition now_mono : M Z := fun st => (Val (w_now_mono (a_trace st)), st).

(** [RpcClient]: one request, its reply of the same opcode or an exception. *)
Definition rpc (r : request) : M response := fun st =>
  let a := w_rpc (a_trace st) r in
  let st := st <| a_trace ::= cons (CRpc r a) |> in
  match a with Ok x => (Val x, st) | Throw m => (Exc m, st) end.
(** The text without the names of the two opcodes. *)
Definition mismatch {A} : M A := throw "rpc: reply opcode mismatch".
Definition rpc_request_offload (m : RequestOffloadRequest) : M RequestOffloadResponse :=
  let* r := rpc (ReqRequestOffload m) in match r with RespRequestOffload x => ret x | _ => mismatch end.
Definition rpc_mark_d2h_submitted (m : MarkD2HSubmittedRequest) : M MarkD2HSubmittedResponse :=
  let* r := rpc (ReqMarkD2HSubmitted m) in match r with RespMarkD2HSubmitted x => ret x | _ => mismatch end.
Definition rpc_mark_d2h_complete (m : MarkD2HCompleteRequest) : M MarkD2HCompleteResponse :=
  let* r := rpc (ReqMarkD2HComplete m) in match r with RespMarkD2HComplete x => ret x | _ => mismatch end.
Definition rpc_request_prefetch (m : RequestPrefetchRequest) : M RequestPrefetchResponse :=
  let* r := rpc (ReqRequestPrefetch m) in match r with RespRequestPrefetch x => ret x | _ => mismatch end.
Definition rpc_mark_h2d_submitted (m : MarkH2DSubmittedRequest) : M MarkH2DSubmittedResponse :=
  let* r := rpc (ReqMarkH2DSubmitted m) in match r with RespMarkH2DSubmitted x => ret x | _ => mismatch end.
Definition rpc_mark_h2d_complete (m : MarkH2DCompleteRequest) : M MarkH2DCompleteResponse :=
  let* r := rpc (ReqMarkH2DComplete m) in match r with RespMarkH2DComplete x => ret x | _ => mismatch end.
Definition rpc_batch_complete (m : BatchCompleteRequest) : M BatchCompleteResponse :=
  let* r := rpc (ReqBatchComplete m) in match r with RespBatchComplete x => ret x | _ => mismatch end.
Definition rpc_heartbeat (m : HeartbeatRequest) : M HeartbeatResponse :=
  let* r := rpc (ReqHeartbeat m) in match r with RespHeartbeat x => ret x | _ => mismatch end.
Definition rpc_release_lease (m : ReleaseLeaseRequest) : M ReleaseLeaseResponse :=
  let* r := rpc (ReqReleaseLease m) in match r with RespReleaseLease x => ret x | _ => mismatch end.
Definition rpc_query_location (m : LocationQueryRequest) : M LocationQueryResponse :=
  let* r := rpc (ReqQueryLocation m) in match r with RespQueryLocation x => ret x | _ => mismatch end.
Definition rpc_register_rank (m : RegisterRankRequest) : M (RegisterRankResponse * Z) :=
  let* r := rpc (ReqRegisterRank m) in
  let* st := get in
  match r with RespRegisterRank x => ret (x, w_fds (a_trace st)) | _ => mismatch end.
Definition rpc_request_canonical_evict (m : RequestCanonicalEvictRequest) : M RequestCanonicalEvictResponse :=
  let* r := rpc (ReqRequestCanonicalEvict m) in match r with RespRequestCanonicalEvict x => ret x | _ => mismatch end.
Definition rpc_commit_canonical_object (m : CommitCanonicalObjectRequest) : M CommitCanonicalObjectResponse :=
  let* r := rpc (ReqCommitCanonicalObject m) in match r with RespCommitCanonicalObject x => ret x | _ => mismatch end.
Definition rpc_request_canonical_restore (m : RequestCanonicalRestoreRequest) : M RequestCanonicalRestoreResponse :=
  let* r := rpc (ReqRequestCanonicalRestore m) in match r with RespRequestCanonicalRestore x => ret x | _ => mismatch end.
Definition rpc_release_canonical_restore (m : ReleaseCanonicalRestoreRequest) : M ReleaseCanonicalRestoreResponse :=
  let* r := rpc (ReqReleaseCanonicalRestore m) in match r with RespReleaseCanonicalRestore x => ret x | _ => mismatch end.
Definition rpc_register_job (m : RegisterJobRequest) : M RegisterJobResponse :=
  let* r := rpc (ReqRegisterJob m) in match r with RespRegisterJob x => ret x | _ => mismatch end.
Definition rpc_seal_model_version (m : SealModelVersionRequest) : M SealModelVersionResponse :=
  let* r := rpc (ReqSealModelVersion m) in match r with RespSealModelVersion x => ret x | _ => mismatch end.
Definition rpc_get_latest_sealed_version (m : GetLatestSealedVersionRequest) : M GetLatestSealedVersionResponse :=
  let* r := rpc (ReqGetLatestSealedVersion m) in match r with RespGetLatestSealedVersion x => ret x | _ => mismatch end.
Definition rpc_get_manifest (m : GetManifestRequest) : M GetManifestResponse :=
  let* r := rpc (ReqGetManifest m) in match r with RespGetManifest x => ret x | _ => mismatch end.
Definition rpc_pull_tensor (m : PullTensorRequest) : M PullTensorResponse :=
  let* r := rpc (ReqPullTensor m) in match r with RespPullTensor x => ret x | _ => mismatch end.
Definition rpc_drop_canonical_version (m : DropCanonicalVersionRequest) : M DropCanonicalVersionResponse :=
  let* r := rpc (ReqDropCanonicalVersion m) in match r with RespDropCanonicalVersion x => ret x | _ => mismatch end.
Definition rpc_release_canonical (m : ReleaseCanonicalRequest) : M ReleaseCanonicalResponse :=
  let* r := rpc (ReqReleaseCanonical m) in match r with RespReleaseCanonical x => ret x | _ => mismatch end.
(** An RPC whose refusal and failure are only logged. *)
Definition best_effort {A} (m : M A) : M unit := catch (let* _ := m in ret tt) (fun _ => ret tt).

(** ** Mappings and registration *)
Definition cleanup_mappings : M unit :=
  let* st := get in
  let* _ := for_each (a_arenas st) (fun m =>
    if decide (am_base m <> 0 /\ am_base m ∈ a_registered_chunks st)
    then let* _ := cuda (cudaHostUnregister (am_base m)) in ret tt else ret tt) in
  let* _ := modify (fun st => st <| a_registered_chunks := ∅ |>) in
  let* _ := for_each (a_arenas st) (fun m =>
    if decide (am_base m <> 0) then log (CMunmap (am_base m) (am_size m)) else ret tt) in
  let* _ := modify (fun st => st <| a_arenas := [] |> <| a_arena_index := ∅ |>) in
  match a_control_base st with
  | Some b => let* _ := log (CMunmap b (a_control_size st)) in modify (fun st => st <| a_control_base := None |>)
  | None => ret tt
  end.
(** The arena a host pointer lies in. *)
Fixpoint arena_of (arenas : list ArenaMap) (ptr : Z) : option ArenaMap :=
  match arenas with
  | [] => None
  | m :: arenas => if decide (am_base m <= ptr /\ ptr < am_base m + am_size m) then Some m else arena_of arenas ptr
  end.
Definition arena_for (st : Agent) (ptr : Z) : option ArenaMap := arena_of (a_arenas st) ptr.
Definition ensure_registered (ptr nbytes : Z) : M unit :=
  if decide (nbytes = 0) then ret tt
  else
    let* st := get in
    match arena_for st ptr with
    | None => throw "ensure_registered: pointer not in any mapped arena"
    | Some m =>
        if decide (am_base m ∈ a_registered_chunks st) then ret tt
        else
          let* e := cuda (cudaHostRegister (am_base m) (am_size m)) in
          if decide (e <> cudaSuccess /\ e <> cudaErrorHostMemoryAlreadyRegistered) then
            throw ("cudaHostRegister(arena) failed: " +:+ w_error_string e)
          else modify (fun st => st <| a_registered_chunks ::= union {[am_base m]} |>
                                    <| a_registered_pinned_bytes ::= (fun b => u64 (b + am_size m)) |>)
    end.
Definition slot_host_ptr (arena_id arena_offset : Z) : M Z :=
  let* st := get in
  match a_arena_index st !! arena_id with
  | None => throw "slot references unknown arena_id"
  | Some i => ret (match a_arenas st !! i with Some m => am_base m | None => 0 end + arena_offset)
  end.

(** ** Completions *)
Definition make_d2h_completion (r : InflightD2H) : M BatchCompletion :=
  let* now := now_real in
  ret (mkBatchCompletion EVENT_D2H_COMPLETE (d_lease_id r) (d_tensor_id r) (d_version r) (d_slot_id r)
         (d_complete_seq r) now false).
Definition make_h2d_completion (r : InflightH2D) : M BatchCompletion :=
  let* now := now_real in
  ret (mkBatchCompletion EVENT_H2D_COMPLETE (h_lease_id r) (h_tensor_id r) (h_version r) (h_slot_id r)
         (h_complete_seq r) now (h_keep_pinned r)).
Definition double_1e9 : spec_float := double_of_Z 1000000000.
Definition double_mib : spec_float := double_of_Z 1048576.
Definition record_bw (nbytes submit_ns : Z) : M unit :=
  let* now := now_mono in
  if decide (now <= submit_ns) then ret tt
  else
    let secs := SFdiv 53 1024 (double_of_Z (now - submit_ns)) double_1e9 in
    if SFleb secs (S754_zero false) then ret tt
    else
      let mb := SFdiv 53 1024 (double_of_Z nbytes) double_mib in
      log (CBandwidth (SFdiv 53 1024 mb secs)).
(** The callback runs with the cookie. *)
Definition invalidate (cb : InvalidateCallback) (cookie : Z) : M unit := log (CInvalidate cb cookie).
Definition finalize_d2h (r : InflightD2H) : M unit :=
  let* _ := (if d_destructive r && callable (d_cb r) then invalidate (d_cb r) (d_cookie r) else ret tt) in
  let* _ := cuda (cudaEventDestroy (d_ev r)) in
  let* _ := modify (fun st => st
    <| a_offloaded ::= <[tv_key (d_tensor_id r) (d_version r) := true]> |>
    <| a_inflight_d2h_bytes ::= (fun b => u64 (b - d_nbytes r)) |>
    <| a_d2h_completed ::= (fun n => u64 (n + 1)) |>) in
  let* _ := metric_add_local kD2HBytes (d_nbytes r) in
  record_bw (d_nbytes r) (d_submit_ns r).
Definition finalize_h2d (r : InflightH2D) : M unit :=
  let* _ := cuda (cudaEventDestroy (h_ev r)) in
  let* _ := modify (fun st => st
    <| a_inflight_h2d_bytes ::= (fun b => u64 (b - h_nbytes r)) |>
    <| a_h2d_completed ::= (fun n => u64 (n + 1)) |>) in
  let* _ := metric_add_local kH2DBytes (h_nbytes r) in
  record_bw (h_nbytes r) (h_submit_ns r).

(** [ring_push] on the shared ring, whose head the daemon moves. *)
Definition push_entry (e : completion_entry) : M bool :=
  let* st := get in
  match a_comp_ring st with
  | None => ret false
  | Some r =>
      let '(ok, r') := ring_push (r <| r_head := w_ring_head (a_trace st) |>) e in
      let* _ := modify (fun st => st <| a_comp_ring := Some r' |>) in
      let* _ := (if ok : bool then log (CRingPush e) else ret tt) in
      ret ok
  end.
Definition ring_push_d2h (r : InflightD2H) : M bool :=
  let* st := get in
  match a_comp_ring st with
  | None => ret false
  | Some ring =>
      let tail_before := r_tail ring in
      let* now := now_real in
      let* ok := push_entry (mkEntry (d_lease_id r) (d_tensor_id r) (d_version r) (d_slot_id r) EVENT_D2H_COMPLETE now) in
      let* _ := (if ok : bool
                 then modify (fun st => st <| a_ring_push_seq ::= <[tv_key (d_tensor_id r) (d_version r) := tail_before]> |>)
                 else ret tt) in
      ret ok
  end.
Definition ring_push_h2d (r : InflightH2D) : M bool :=
  let* st := get in
  match a_comp_ring st with
  | None => ret false
  | Some ring =>
      let* now := now_real in
      push_entry (mkEntry (h_lease_id r) (h_tensor_id r) (h_version r) (h_slot_id r) EVENT_H2D_COMPLETE now)
  end.
Fixpoint wait_ring_consumed (fuel : nat) (seq : Z) : M unit :=
  let* st := get in
  match a_comp_ring st with
  | None => ret tt
  | Some _ =>
      if decide (w_ring_head (a_trace st) <= seq) then
        match fuel with
        | O => spin
        | S fuel => let* _ := log (CSleep 20000) in wait_ring_consumed fuel seq
        end
      else ret tt
  end.

Definition complete_d2h (r : InflightD2H) : M unit :=
  let* st := get in
  let* now := now_real in
  let* _ := best_effort (rpc_mark_d2h_complete (mkMarkD2HCompleteRequest (a_rank_id st) (a_rank_epoch st)
    (d_lease_id r) (d_tensor_id r) (d_version r) (d_slot_id r) (d_complete_seq r) now)) in
  finalize_d2h r.
Definition complete_h2d (r : InflightH2D) : M unit :=
  let* st := get in
  let* now := now_real in
  let* _ := best_effort (rpc_mark_h2d_complete (mkMarkH2DCompleteRequest (a_rank_id st) (a_rank_epoch st)
    (h_lease_id r) (h_tensor_id r) (h_version r) (h_slot_id r) (h_keep_pinned r) (h_complete_seq r) now)) in
  finalize_h2d r.

(** Push each record to the ring and finalize it; what does not fit is collected
    with its completion. *)
Fixpoint push_all {A} (push : A -> M bool) (finalize : A -> M unit) (make : A -> M BatchCompletion)
  (l : list A) : M (list BatchCompletion * list A) :=
  match l with
  | [] => ret ([], [])
  | r :: l =>
      let* ok := push r in
      if ok : bool then let* _ := finalize r in push_all push finalize make l
      else
        let* c := make r in
        let* rest := push_all push finalize make l in
        ret (c :: rest.1, r :: rest.2)
  end.
Fixpoint collect {A B} (f : A -> M B) (l : list A) : M (list B) :=
  match l with [] => ret [] | x :: l => let* y := f x in let* ys := collect f l in ret (y :: ys) end.
Definition flush_completions_batch (d2h : list InflightD2H) (h2d : list InflightH2D) : M unit :=
  let* st := get in
  match d2h, h2d with
  | [], [] => ret tt
  | _, _ =>
      match a_comp_ring st with
      | Some _ =>
          let* of_d2h := push_all ring_push_d2h finalize_d2h make_d2h_completion d2h in
          let* of_h2d := push_all ring_push_h2d finalize_h2d make_h2d_completion h2d in
          match of_d2h.1 ++ of_h2d.1 with
          | [] => ret tt
          | completions =>
              let* _ := best_effort (rpc_batch_complete (mkBatchCompleteRequest (a_rank_id st) (a_rank_epoch st) completions)) in
              let* _ := for_each of_d2h.2 finalize_d2h in
              for_each of_h2d.2 finalize_h2d
          end
      | None =>
          match d2h, h2d with
          | [r], [] => complete_d2h r
          | [], [r] => complete_h2d r
          | _, _ =>
              let* c1 := collect make_d2h_completion d2h in
              let* c2 := collect make_h2d_completion h2d in
              let* _ := best_effort (rpc_batch_complete (mkBatchCompleteRequest (a_rank_id st) (a_rank_epoch st) (c1 ++ c2))) in
              let* _ := for_each d2h finalize_d2h in
              for_each h2d finalize_h2d
          end
      end
  end.

(** ** The threads *)
(** One pass over an inflight list: the records whose event is done, and those
    still waiting; a record whose event failed is dropped. *)
Fixpoint poll_events {A} (ev nbytes : A -> Z) (drop : Z -> M unit) (l : list A) : M (list A * list A) :=
  match l with
  | [] => ret ([], [])
  | r :: l =>
      let* e := cuda (cudaEventQuery (ev r)) in
      if decide (e = cudaSuccess) then
        let* rest := poll_events ev nbytes drop l in ret (r :: rest.1, rest.2)
      else if decide (e = cudaErrorNotReady) then
        let* rest := poll_events ev nbytes drop l in ret (rest.1, r :: rest.2)
      else
        let* _ := cuda (cudaEventDestroy (ev r)) in
        let* _ := drop (nbytes r) in
        poll_events ev nbytes drop l
  end.
Definition drop_d2h (n : Z) : M unit := modify (fun st => st <| a_inflight_d2h_bytes ::= (fun b => u64 (b - n)) |>).
Definition drop_h2d (n : Z) : M unit := modify (fun st => st <| a_inflight_h2d_bytes ::= (fun b => u64 (b - n)) |>).
(** The part of an iteration of [progress_loop] under [ev_mu]. *)
Definition progress_poll : M unit :=
  let* st := get in
  let* d := poll_events d_ev d_nbytes drop_d2h (a_inflight_d2h st) in
  let* _ := modify (fun st => st <| a_inflight_d2h := d.2 |> <| a_done_d2h := d.1 |>) in
  let* h := poll_events h_ev h_nbytes drop_h2d (a_inflight_h2d st) in
  modify (fun st => st <| a_inflight_h2d := h.2 |> <| a_done_h2d := h.1 |>).
(** The rest of the iteration, outside the lock. *)
Definition progress_flush : M unit :=
  let* st := get in
  let* _ := flush_completions_batch (a_done_d2h st) (a_done_h2d st) in
  let* _ := modify (fun st => st <| a_done_d2h := [] |> <| a_done_h2d := [] |>) in
  let poll_us := if decide (ac_progress_poll_us (a_cfg st) = 0) then 200 else ac_progress_poll_us (a_cfg st) in
  log (CSleep (poll_us * 1000)).
(** The 10 ms slices of one heartbeat interval. *)
Definition heartbeat_slices (interval_ms : Z) : nat := Z.to_nat ((interval_ms + 9) / 10).
(** One iteration of [heartbeat_loop], not stopped meanwhile. *)
Definition heartbeat_beat : M unit :=
  let* st := get in
  let interval_ms := if decide (ac_heartbeat_interval_ms (a_cfg st) = 0) then 1000
                     else ac_heartbeat_interval_ms (a_cfg st) in
  let* _ := for_each (replicate (heartbeat_slices interval_ms) tt) (fun _ => log (CSleep 10000000)) in
  let* now := now_real in
  best_effort (rpc_heartbeat (mkHeartbeatRequest (a_rank_id st) (a_rank_epoch st) now)).
Definition drain_inflight_on_shutdown : M unit :=
  let* st := get in
  let* _ := modify (fun st => st <| a_inflight_d2h := [] |> <| a_inflight_h2d := [] |>) in
  let* _ := for_each (a_inflight_d2h st) (fun r =>
    let* _ := cuda (cudaEventSynchronize (d_ev r)) in complete_d2h r) in
  for_each (a_inflight_h2d st) (fun r =>
    let* _ := cuda (cudaEventSynchronize (h_ev r)) in complete_h2d r).
(** [~Impl]; the threads are joined, so the progress thread has finished its
    iteration. *)
Definition shutdown : M unit :=
  let* _ := modify (fun st => st <| a_stop := true |> <| a_running := false |>) in
  let* _ := drain_inflight_on_shutdown in
  let* st := get in
  let* _ := (match a_internal_stream st with
             | Some s => let* _ := cuda (cudaStreamDestroy s) in modify (fun st => st <| a_internal_stream := None |>)
             | None => ret tt
             end) in
  cleanup_mappings.

(** ** Construction *)
Definition OFLD_ARENA_CONTROL : Z := 2.
Definition mmap (fd size : Z) : M (option Z) := fun st =>
  let b := w_mmap (a_trace st) fd size in (Val b, st <| a_trace ::= cons (CMmap fd size b) |>).
(** The messages of a failed [mmap] end with [strerror(errno)], left out here. *)
Definition map_arena (nfds : Z) (a : ArenaFd) : M unit :=
  if decide (af_fd_index a >= nfds) then throw "arena fd_index out of range"
  else
    let* base := mmap (af_fd_index a) (af_size a) in
    match base with
    | None => throw "mmap arena failed: "
    | Some b => modify (fun st => st
        <| a_arena_index ::= <[af_arena_id a := length (a_arenas st)]> |>
        <| a_arenas ::= (fun l => l ++ [mkArenaMap (af_arena_id a) b (af_size a) (af_kind a)]) |>)
    end.
Definition map_control (nfds : Z) (resp : RegisterRankResponse) : M unit :=
  if decide (rrs_control_fd_index resp >= nfds) then throw "control fd_index out of range"
  else
    let* _ := modify (fun st => st <| a_control_size := rrs_control_size resp |>) in
    let* base := mmap (rrs_control_fd_index resp) (rrs_control_size resp) in
    match base with
    | None => throw "mmap control failed: "
    | Some b => modify (fun st => st <| a_control_base := Some b |>)
    end.
(** [catch (...) { cleanup_mappings(); throw; }] *)
Definition or_cleanup (m : M unit) : M unit := catch m (fun e => let* _ := cleanup_mappings in throw e).
(** Uses the ring only when its header names this rank and epoch. *)
Definition take_ring (index : Z) : M unit :=
  let* st := get in
  if decide (index = NO_U32) then ret tt
  else match w_ring (a_trace st) index with
       | Some rh =>
           if decide (r_owner_rank rh = ac_rank_id (a_cfg st) /\ r_rank_epoch rh = a_rank_epoch st)
           then modify (fun st => st <| a_comp_ring := Some rh |>) else ret tt
       | None => ret tt
       end.
Definition construct : M unit :=
  let* _ := modify (fun st => st <| a_device := ac_cuda_device (a_cfg st) |> <| a_rank_id := ac_rank_id (a_cfg st) |>) in
  let* st := get in
  let c := a_cfg st in
  let* _ := cuda_check "cudaSetDevice(device)" (cudaSetDevice (a_device st)) in
  let n := w_gpu_numa_node (a_device st) in
  let numa := if decide (ac_numa_node c < 0) then (if decide (n >= 0) then n else 0) else ac_numa_node c in
  let* _ := modify (fun st => st <| a_numa := numa |>) in
  let* st := get in
  let* _ := (match w_connect (a_trace st) (ac_socket_path c) with Ok _ => ret tt | Throw m => throw m end) in
  let* r := rpc_register_rank (mkRegisterRankRequest (ac_rank_id c) (ac_local_rank c) (ac_world_rank c)
                                 (u32 (a_device st)) (u32 numa) w_getpid 0) in
  let resp := r.1 in
  if negb (rrs_ok resp) then throw ("RegisterRank rejected: " +:+ rrs_message resp)
  else
    let* _ := modify (fun st => st <| a_rank_epoch := rrs_rank_epoch resp |>) in
    let* _ := or_cleanup (let* _ := for_each (rrs_arenas resp) (map_arena r.2) in map_control r.2 resp) in
    let* st := get in
    let '(magic, abi, nslots) := w_header (a_trace st) in
    if decide (magic <> OFLD_MAGIC) then let* _ := cleanup_mappings in throw "control header magic mismatch"
    else if decide (abi <> OFLD_ABI_VERSION) then let* _ := cleanup_mappings in throw "control header ABI version mismatch"
    else
      let* _ := modify (fun st => st <| a_num_slots := nslots |> <| a_ring_index := rrs_ring_index resp |>) in
      let* _ := take_ring (rrs_ring_index resp) in
      let* _ := cuda_check "cudaStreamCreateWithFlags(&internal_stream, cudaStreamNonBlocking)" cudaStreamCreate in
      let* h := new_handle in
      let* _ := modify (fun st => st <| a_internal_stream := Some h |>) in
      let* st := get in
      let* _ := (if ac_eager_register c
                 then for_each (a_arenas st) (fun m =>
                        if decide (am_kind m = OFLD_ARENA_CONTROL) then ret tt else ensure_registered (am_base m) (am_size m))
                 else ret tt) in
      modify (fun st => st <| a_running := true |>).

(** ** The public operations *)
Definition stream_of (st : Agent) (stream : Z) : Z :=
  if decide (stream = kInternalStream) then match a_internal_stream st with Some s => s | None => 0 end else stream.
Definition next_submit_seq : M Z :=
  let* st := get in
  let* _ := modify (fun st => st <| a_submit_seq_ctr ::= (fun n => u64 (n + 1)) |>) in ret (a_submit_seq_ctr st).
Definition next_complete_seq : M Z :=
  let* st := get in
  let* _ := modify (fun st => st <| a_complete_seq_ctr ::= (fun n => u64 (n + 1)) |>) in ret (a_complete_seq_ctr st).
(** [cudaMemcpyAsync], then an event recorded behind it on the same stream. *)
Definition launch_copy (expr : string) (dst src nbytes : Z) (kind : copy_kind) (s : Z) : M Z :=
  let* _ := cuda_check expr (cudaMemcpyAsync dst src nbytes kind s) in
  let* _ := cuda_check "cudaEventCreateWithFlags(&ev, cudaEventDisableTiming)" cudaEventCreate in
  let* ev := new_handle in
  let* _ := cuda_check "cudaEventRecord(ev, s)" (cudaEventRecord ev s) in
  ret ev.
Definition d2h_text : string :=
  "cudaMemcpyAsync(dst, reinterpret_cast<const void*>(dev_ptr), nbytes, cudaMemcpyDeviceToHost, s)".
Definition h2d_text : string :=
  "cudaMemcpyAsync(reinterpret_cast<void*>(dev_ptr), src, copy_bytes, cudaMemcpyHostToDevice, s)".
Definition sync_text : string := "cudaEventSynchronize(ev)".

Definition evict (dev_ptr nbytes stream : Z) (destructive : bool) (meta : TensorMeta) (cb : InvalidateCallback) (cookie : Z)
  (wait : bool) : M OffloadTicket :=
  let* _ := log (CEvict dev_ptr nbytes cb cookie (tm_tensor_id meta) (tm_version meta)) in
  let* st := get in
  let s := stream_of st stream in
  let* resp := rpc_request_offload (mkRequestOffloadRequest (a_rank_id st) (a_rank_epoch st) (tm_tensor_id meta)
    (tm_version meta) nbytes (u32 (a_device st)) (u32 (a_numa st)) 256 0
    (Z.lor OFLD_FLAG_ALLOW_OVERFLOW (if destructive then OFLD_FLAG_DESTRUCTIVE else 0)) (tm_name meta)) in
  if negb (ros_ok resp) || ros_blocked resp then
    ret (mkTicket (tm_tensor_id meta) (tm_version meta) nbytes 0 0 false
           (if ros_ok resp then "offload blocked (pinned pressure)" else ros_message resp))
  else
    let* _ := modify (fun st => st <| a_evict_count ::= (fun n => u64 (n + 1)) |>) in
    let* dst := slot_host_ptr (ros_arena_id resp) (ros_arena_offset resp) in
    let* _ := ensure_registered dst nbytes in
    let* submit_seq := next_submit_seq in
    let* now := now_real in
    let* _ := best_effort (rpc_mark_d2h_submitted (mkMarkD2HSubmittedRequest (a_rank_id st) (a_rank_epoch st)
      (ros_lease_id resp) (tm_tensor_id meta) (tm_version meta) (ros_slot_id resp) submit_seq now)) in
    let* submit_ns := now_mono in
    let* ev := launch_copy d2h_text dst dev_ptr nbytes cudaMemcpyDeviceToHost s in
    let* _ := modify (fun st => st <| a_inflight_d2h_bytes ::= (fun b => u64 (b + nbytes)) |>) in
    let* _ := metric_add_local kInflightD2HBytes nbytes in
    let* complete_seq := next_complete_seq in
    let rec := mkInflightD2H (ros_lease_id resp) (tm_tensor_id meta) (tm_version meta) (ros_slot_id resp) nbytes ev
                 destructive cb cookie submit_ns complete_seq in
    let t := mkTicket (tm_tensor_id meta) (tm_version meta) nbytes (ros_lease_id resp) (ros_slot_id resp) true "" in
    let* _ := modify (fun st => st <| a_lease_of ::= <[tv_key (tm_tensor_id meta) (tm_version meta) := ros_lease_id resp]> |>) in
    if wait then
      let* _ := cuda_check sync_text (cudaEventSynchronize ev) in
      let* _ := metric_sub_local kInflightD2HBytes nbytes in
      let* _ := complete_d2h rec in
      ret t
    else
      let* _ := modify (fun st => st <| a_inflight_d2h ::= (fun l => l ++ [rec]) |>) in
      ret t.

Definition is_offloaded (st : Agent) (tensor_id version : Z) : bool :=
  default false (a_offloaded st !! tv_key tensor_id version).
(** [wait_offloaded] returns when the readiness flag is set. *)
Definition wait_offloaded_returns (st : Agent) (tensor_id version : Z) : bool := is_offloaded st tensor_id version.

Definition kTimeout_ns : Z := 600 * 1000000000.
(** The polling loop of [restore]: the ready response, or the result to return. *)
Fixpoint await_ready (fuel : nat) (pr : RequestPrefetchRequest) (start : Z) (presp : RequestPrefetchResponse)
  : M (RequestPrefetchResponse + RestoreResult) :=
  if rps_ready presp then ret (inl presp)
  else
    let* now := now_mono in
    if decide (u64 (now - start) > kTimeout_ns) then
      ret (inr (mkRestoreResult false "restore: prefetch readiness timed out"))
    else match fuel with
    | O => spin
    | S fuel =>
        let* _ := log (CSleep 2000000) in
        let* presp := rpc_request_prefetch pr in
        if rps_ok presp then await_ready fuel pr start presp
        else ret (inr (mkRestoreResult false (rps_message presp)))
    end.
Definition restore (fuel : nat) (tensor_id version dev_ptr nbytes stream : Z) (wait : bool) : M RestoreResult :=
  let* st := get in
  let s := stream_of st stream in
  let* _ := (match a_comp_ring st, a_ring_push_seq st !! tv_key tensor_id version with
             | Some _, Some seq => wait_ring_consumed fuel seq
             | _, _ => ret tt
             end) in
  let pr := mkRequestPrefetchRequest (a_rank_id st) (a_rank_epoch st) tensor_id version nbytes
              (u32 (a_device st)) (u32 (a_numa st)) 0 0 in
  let* presp := rpc_request_prefetch pr in
  if negb (rps_ok presp) then ret (mkRestoreResult false (rps_message presp))
  else
    let* start := now_mono in
    let* r := await_ready fuel pr start presp in
    match r with
    | inr result => ret result
    | inl presp =>
        let* st := get in
        if decide (rps_slot_id presp < a_num_slots st /\
                   w_slot_state (a_trace st) (rps_slot_id presp) <> slot_state_value SLOT_PINNED_VALID)
        then ret (mkRestoreResult false "restore: slot not PINNED_VALID at H2D time")
        else
          let* _ := modify (fun st => st <| a_restore_count ::= (fun n => u64 (n + 1)) |>) in
          let copy_bytes := if decide (rps_nbytes presp = 0) then nbytes else rps_nbytes presp in
          let* src := slot_host_ptr (rps_arena_id presp) (rps_arena_offset presp) in
          let* _ := ensure_registered src copy_bytes in
          let resolved_version := if decide (rps_version presp = 0) then version else rps_version presp in
          let* submit_seq := next_submit_seq in
          let* now := now_real in
          let* _ := best_effort (rpc_mark_h2d_submitted (mkMarkH2DSubmittedRequest (a_rank_id st) (a_rank_epoch st)
            (rps_lease_id presp) tensor_id resolved_version (rps_slot_id presp) submit_seq now)) in
          let* submit_ns := now_mono in
          let* ev := launch_copy h2d_text dev_ptr src copy_bytes cudaMemcpyHostToDevice s in
          let* _ := modify (fun st => st <| a_inflight_h2d_bytes ::= (fun b => u64 (b + copy_bytes)) |>) in
          let* _ := metric_add_local kInflightH2DBytes copy_bytes in
          let* complete_seq := next_complete_seq in
          let rec := mkInflightH2D (rps_lease_id presp) tensor_id resolved_version (rps_slot_id presp) copy_bytes ev
                       false submit_ns complete_seq in
          let* _ := (if wait then
                       let* _ := cuda_check sync_text (cudaEventSynchronize ev) in
                       let* _ := metric_sub_local kInflightH2DBytes copy_bytes in
                       complete_h2d rec
                     else modify (fun st => st <| a_inflight_h2d ::= (fun l => l ++ [rec]) |>)) in
          ret (mkRestoreResult true "")
    end.

Definition summary (st : Agent) : AgentSummary :=
  mkSummary (a_rank_id st) (a_device st) (a_numa st) (a_registered_pinned_bytes st) (a_inflight_d2h_bytes st)
    (a_inflight_h2d_bytes st) (a_evict_count st) (a_restore_count st) (a_d2h_completed st) (a_h2d_completed st)
    (a_rank_epoch st) (a_num_slots st).
Definition line_feed : string := String (Ascii.ascii_of_nat 10) EmptyString.
(** At most 20 digits a number: the text is shorter than the buffer. *)
Definition summary_string (st : Agent) : string :=
  let s := summary st in
  "OffloadAgent rank=" +:+ pretty (su_rank_id s) +:+ " gpu=" +:+ pretty (su_gpu_id s)
  +:+ " numa=" +:+ pretty (su_numa_node s) +:+ " epoch=" +:+ pretty (su_rank_epoch s) +:+ line_feed
  +:+ "  registered_pinned_bytes=" +:+ pretty (su_registered_pinned_bytes s) +:+ line_feed
  +:+ "  inflight: d2h=" +:+ pretty (su_inflight_d2h_bytes s) +:+ " bytes  h2d="
  +:+ pretty (su_inflight_h2d_bytes s) +:+ " bytes" +:+ line_feed
  +:+ "  counts: evict=" +:+ pretty (su_evict_count s) +:+ " restore=" +:+ pretty (su_restore_count s)
  +:+ " d2h_done=" +:+ pretty (su_d2h_completed s) +:+ " h2d_done=" +:+ pretty (su_h2d_completed s) +:+ line_feed
  +:+ "  slots=" +:+ pretty (su_num_slots s).
Definition assert_no_inflight : M unit :=
  let* st := get in
  match a_inflight_d2h st, a_inflight_h2d st with
  | [], [] => ret tt
  | d, h => throw ("assert_no_inflight: transfers still in flight (d2h=" +:+ pretty (Z.of_nat (length d))
                   +:+ " h2d=" +:+ pretty (Z.of_nat (length h)) +:+ ")")
  end.
Definition location_text (kind : Z) : string :=
  if decide (kind = location_kind_value LOC_GPU) then "gpu"
  else if decide (kind = location_kind_value LOC_PINNED) then "pinned"
  else if decide (kind = location_kind_value LOC_PAGEABLE) then "pageable"
  else if decide (kind = location_kind_value LOC_NVME) then "nvme"
  else "none".
Definition location (tensor_id version : Z) : M string :=
  let* resp := rpc_query_location (mkLocationQueryRequest tensor_id version) in
  ret (if lqs_ok resp then location_text (lqs_location_kind resp) else "none").
Definition discard (tensor_id version : Z) : M unit :=
  let* st := get in
  let key := tv_key tensor_id version in
  let lease_id := default 0 (a_lease_of st !! key) in
  let* _ := (if decide (lease_id = 0) then ret tt
             else best_effort (rpc_release_lease (mkReleaseLeaseRequest (a_rank_id st) (a_rank_epoch st) lease_id 0
                    ("discard tensor " +:+ pretty tensor_id +:+ ":" +:+ pretty version)))) in
  modify (fun st => st <| a_offloaded ::= delete key |> <| a_lease_of ::= delete key |>).

(** ** The canonical operations *)
Definition hash_host_bytes (b : list Z) : Z * Z :=
  foldl (fun '(h1, h2) b =>
    let h1 := u64 (Z.lxor h1 b * 1099511628211) in
    let h2 := u64 (Z.lxor h2 b * 1099511628211) in
    let h2 := Z.lor (u64 (Z.shiftl h2 1)) (Z.shiftr h2 63) in
    (h1, h2)) (1469598103934665603, 1099511628211) b.
(** The request with the session's identity and placement filled in. *)
Definition stamp_evict (st : Agent) (nbytes : Z) (destructive : bool) (req : RequestCanonicalEvictRequest)
  : RequestCanonicalEvictRequest :=
  req <| ce_rank_id := a_rank_id st |> <| ce_rank_epoch := a_rank_epoch st |>
      <| ce_gpu_id := u32 (a_device st) |> <| ce_numa_node := u32 (a_numa st) |>
      <| ce_destructive := destructive |>
      <| ce_key ::= (fun k => k <| k_nbytes := nbytes |>
                              <| k_shard_nbytes ::= (fun n => if decide (n = 0) then nbytes else n) |>) |>.
Definition canonical_evict (dev_ptr nbytes stream : Z) (destructive : bool) (in_req : RequestCanonicalEvictRequest)
  (cb : InvalidateCallback) (cookie : Z) (hash_on_commit : bool) : M CanonicalEvictResult :=
  let* _ := log (CEvict dev_ptr nbytes cb cookie (ce_local_tensor_id in_req) (ce_local_version in_req)) in
  let* st := get in
  let s := stream_of st stream in
  let* resp := rpc_request_canonical_evict (stamp_evict st nbytes destructive in_req) in
  let action := ces_action resp in
  let object_id := ces_object_id resp in
  if negb (ces_ok resp) then ret (mkCanonicalEvictResult false (ces_message resp) action 0 false)
  else if decide (action = ATTACH_ACTION_ATTACHED_EXISTING \/ action = ATTACH_ACTION_WAIT_FOR_CREATOR) then
    let* _ := (if bool_decide (action = ATTACH_ACTION_ATTACHED_EXISTING) && destructive && callable cb
               then invalidate cb cookie else ret tt) in
    ret (mkCanonicalEvictResult true (ces_message resp) action object_id false)
  else if decide (action <> ATTACH_ACTION_NEED_D2H_CREATE /\ action <> ATTACH_ACTION_DUPLICATE_CANDIDATE) then
    ret (mkCanonicalEvictResult false (ces_message resp) action object_id false)
  else
    let syn_tid := ces_synthetic_tid resp in
    let* dst := slot_host_ptr (ces_arena_id resp) (ces_arena_offset resp) in
    let* _ := ensure_registered dst nbytes in
    let* _ := modify (fun st => st <| a_evict_count ::= (fun n => u64 (n + 1)) |>) in
    let* submit_seq := next_submit_seq in
    let* now := now_real in
    let* _ := best_effort (rpc_mark_d2h_submitted (mkMarkD2HSubmittedRequest (a_rank_id st) (a_rank_epoch st)
      (ces_lease_id resp) syn_tid 1 (ces_slot_id resp) submit_seq now)) in
    let* ev := launch_copy d2h_text dst dev_ptr nbytes cudaMemcpyDeviceToHost s in
    let* _ := cuda_check sync_text (cudaEventSynchronize ev) in
    let* _ := cuda_check "cudaEventDestroy(ev)" (cudaEventDestroy ev) in
    let* complete_seq := next_complete_seq in
    let* now := now_real in
    let failed what e := mkCanonicalEvictResult false (what +:+ e) action object_id false in
    let* r := catch (let* _ := rpc_mark_d2h_complete (mkMarkD2HCompleteRequest (a_rank_id st) (a_rank_epoch st)
                       (ces_lease_id resp) syn_tid 1 (ces_slot_id resp) complete_seq now) in ret None)
                (fun e => ret (Some (failed "d2h complete rpc: " e))) in
    match r with
    | Some out => ret out
    | None =>
        let* st' := get in
        let '(hlo, hhi) := if hash_on_commit then hash_host_bytes (w_host_bytes (a_trace st') dst nbytes) else (0, 0) in
        let* c := catch (let* x := rpc_commit_canonical_object (mkCommitCanonicalObjectRequest (a_rank_id st)
                           (a_rank_epoch st) object_id (ces_lease_id resp) (ces_slot_id resp) hlo hhi) in ret (inl x))
                    (fun e => ret (inr (failed "commit rpc: " e))) in
        match c with
        | inr out => ret out
        | inl cres =>
            let* _ := (if destructive && callable cb then invalidate cb cookie else ret tt) in
            ret (mkCanonicalEvictResult (ccs_ok cres) (ccs_message cres) action object_id true)
        end
    end.

Definition stamp_release (st : Agent) (r : ReleaseCanonicalRequest) : ReleaseCanonicalRequest :=
  r <| rc_rank_id := a_rank_id st |> <| rc_rank_epoch := a_rank_epoch st |>.
Definition release_canonical (r : ReleaseCanonicalRequest) : M ReleaseCanonicalResponse :=
  let* st := get in
  rpc_release_canonical (stamp_release st r).

(** The polling loop of [canonical_restore]. *)
Fixpoint await_restore (fuel : nat) (rq : RequestCanonicalRestoreRequest) (start : Z)
  : M (RequestCanonicalRestoreResponse + RestoreResult) :=
  let* r := catch (let* x := rpc_request_canonical_restore rq in ret (inl x))
              (fun e => ret (inr (mkRestoreResult false ("canonical_restore rpc: " +:+ e)))) in
  match r with
  | inr result => ret (inr result)
  | inl rr =>
      if crs_ok rr || negb (crs_retriable rr) then ret (inl rr)
      else
        let* now := now_mono in
        if decide (u64 (now - start) > kTimeout_ns) then
          ret (inr (mkRestoreResult false "canonical_restore: object stuck transitioning"))
        else match fuel with
        | O => spin
        | S fuel => let* _ := log (CSleep 2000000) in await_restore fuel rq start
        end
  end.
Definition canonical_restore (fuel : nat) (object_id dev_ptr nbytes stream : Z) (wait : bool) : M RestoreResult :=
  let* st := get in
  let s := stream_of st stream in
  let* start := now_mono in
  let* r := await_restore fuel (mkRequestCanonicalRestoreRequest (a_rank_id st) (a_rank_epoch st) object_id
                                  (u32 (a_device st)) (u32 (a_numa st))) start in
  let release := best_effort (rpc_release_canonical_restore
    (mkReleaseCanonicalRestoreRequest (a_rank_id st) (a_rank_epoch st) object_id)) in
  match r with
  | inr result => ret result
  | inl rr =>
      if negb (crs_ok rr) then ret (mkRestoreResult false (crs_message rr))
      else if decide (nbytes > crs_nbytes rr) then
        let* _ := release in
        ret (mkRestoreResult false "canonical_restore: dst larger than object")
      else
        let* e := catch
          (let* src := slot_host_ptr (crs_arena_id rr) (crs_arena_offset rr) in
           let* _ := ensure_registered src nbytes in
           let* _ := modify (fun st => st <| a_restore_count ::= (fun n => u64 (n + 1)) |>) in
           let* _ := cuda_check "cudaMemcpyAsync(reinterpret_cast<void*>(dev_ptr), src, nbytes, cudaMemcpyHostToDevice, s)"
                       (cudaMemcpyAsync dev_ptr src nbytes cudaMemcpyHostToDevice s) in
           let* _ := (if wait then cuda_check "cudaStreamSynchronize(s)" (cudaStreamSynchronize s) else ret tt) in
           ret None) (fun e => ret (Some ("canonical_restore H2D: " +:+ e))) in
        let* _ := release in
        ret (match e with None => mkRestoreResult true "ok" | Some m => mkRestoreResult false m end)
  end.

(** The operations the agent passes on. *)
Definition register_job (r : RegisterJobRequest) : M RegisterJobResponse := rpc_register_job r.
Definition seal_model_version (r : SealModelVersionRequest) : M SealModelVersionResponse := rpc_seal_model_version r.
Definition get_latest_sealed_version (r : GetLatestSealedVersionRequest) : M GetLatestSealedVersionResponse := rpc_get_latest_sealed_version r.
Definition get_manifest (r : GetManifestRequest) : M GetManifestResponse := rpc_get_manifest r.
Definition pull_tensor (r : PullTensorRequest) : M PullTensorResponse := rpc_pull_tensor r.
Definition drop_canonical_version (r : DropCanonicalVersionRequest) : M DropCanonicalVersionResponse := rpc_drop_canonical_version r.
End Operations.
