(* ===== verification/AgentLogic.v ===== *)
(** * Reasoning about the agent's operations

    Weakest preconditions for the monad [M], the preorders operations stay in
    ([ensures]), the calls that neither invalidate nor report ([calm]) and the
    operations that only make such calls ([quiet]), with a hint database that
    proves it of the operations of [Agent]. *)
From stdpp Require Import base gmap strings list pretty fin_sets.
From Stdlib Require Import ZArith Lia SpecFloat.
From S2P Require Import Prelude.
From S2P Require Import Ring.
From S2P Require Import Protocol.
From S2P Require Import ProtocolV2.
From S2P Require Import Rpc.
From S2P Require Import State.
From S2P Require Import Agent.
Open Scope Z_scope.
Open Scope offload_scope.
Open Scope agent_scope.

(** ** Weakest preconditions *)
Definition wp {A} (m : M A) (Q : out A -> Agent -> Prop) (st : Agent) : Prop := Q (m st).1 (m st).2.
Lemma wp_ret {A} (x : A) Q st : Q (Val x) st -> wp (ret x) Q st.
Proof. done. Qed.
Lemma wp_throw {A} e (Q : out A -> Agent -> Prop) st : Q (Exc e) st -> wp (throw e) Q st.
Proof. done. Qed.
Lemma wp_get Q st : Q (Val st) st -> wp get Q st.
Proof. done. Qed.
Lemma wp_modify f Q st : Q (Val tt) (f st) -> wp (modify f) Q st.
Proof. done. Qed.
Lemma wp_bind {A B} (m : M A) (k : A -> M B) Q st :
  wp m (fun o st' => match o with Val x => wp (k x) Q st' | Exc e => Q (Exc e) st' | Spin => Q Spin st' end) st ->
  wp (bind m k) Q st.
Proof. unfold wp, bind. destruct (m st) as [[x|e|] st']; done. Qed.
Lemma wp_catch {A} (m : M A) h Q st :
  wp m (fun o st' => match o with Exc e => wp (h e) Q st' | o => Q o st' end) st -> wp (catch m h) Q st.
Proof. unfold wp, catch. destruct (m st) as [[x|e|] st']; done. Qed.
Lemma wp_mono {A} (m : M A) (P Q : out A -> Agent -> Prop) st :
  wp m P st -> (forall o st', P o st' -> Q o st') -> wp m Q st.
Proof. unfold wp. auto. Qed.

(** ** Operations that stay in a preorder *)
Definition ensures (R : Agent -> Agent -> Prop) {A} (m : M A) : Prop := forall st, R st (m st).2.
Lemma wp_ensures R {A} (m : M A) (Q : out A -> Agent -> Prop) st :
  ensures R m -> (forall o st', R st st' -> Q o st') -> wp m Q st.
Proof. intros Hm HQ. apply HQ, Hm. Qed.
Lemma ensures_use R {A} (m : M A) st o st' : ensures R m -> m st = (o, st') -> R st st'.
Proof. intros Hm E. specialize (Hm st). by rewrite E in Hm. Qed.

Section Ensures.
Context (R : Agent -> Agent -> Prop) `{!PreOrder R}.
Lemma ensures_ret {A} (x : A) : ensures R (ret x).
Proof using Type*. intros st. reflexivity. Qed.
Lemma ensures_throw {A} e : ensures R (throw e : M A).
Proof using Type*. intros st. reflexivity. Qed.
Lemma ensures_spin {A} : ensures R (spin : M A).
Proof using Type*. intros st. reflexivity. Qed.
Lemma ensures_get : ensures R get.
Proof using Type*. intros st. reflexivity. Qed.
Lemma ensures_bind {A B} (m : M A) (k : A -> M B) : ensures R m -> (forall x, ensures R (k x)) -> ensures R (bind m k).
Proof using Type*.
  intros Hm Hk st. unfold bind. specialize (Hm st). destruct (m st) as [[x|e|] st']; [|done..].
  etrans; [exact Hm|apply Hk].
Qed.
Lemma ensures_catch {A} (m : M A) h : ensures R m -> (forall e, ensures R (h e)) -> ensures R (catch m h).
Proof using Type*.
  intros Hm Hh st. unfold catch. specialize (Hm st). destruct (m st) as [[x|e|] st']; [done| |done].
  etrans; [exact Hm|apply Hh].
Qed.
Lemma ensures_for_each {A} (l : list A) f : (forall x, ensures R (f x)) -> ensures R (for_each l f).
Proof using Type*. intros Hf. induction l as [|x l IH]; [apply ensures_ret|]. apply ensures_bind; auto. Qed.
Lemma ensures_best_effort {A} (m : M A) : ensures R m -> ensures R (best_effort m).
Proof using Type*.
  intros Hm. apply ensures_catch; [apply ensures_bind; [done|]|]; intros; apply ensures_ret.
Qed.
Lemma ensures_collect {A B} (f : A -> M B) l : (forall x, ensures R (f x)) -> ensures R (collect f l).
Proof using Type*.
  intros Hf. induction l as [|x l IH]; [apply ensures_ret|]. apply ensures_bind; [done|]. intros y.
  apply ensures_bind; [done|]. intros ys. apply ensures_ret.
Qed.
End Ensures.

(** What is known of the value an operation returns. *)
Definition returns {A} (P : A -> Prop) (m : M A) : Prop := forall st x st', m st = (Val x, st') -> P x.
Lemma ensures_bind_val R `{!PreOrder R} {A B} (P : A -> Prop) (m : M A) (k : A -> M B) :
  ensures R m -> returns P m -> (forall x, P x -> ensures R (k x)) -> ensures R (bind m k).
Proof.
  intros Hm HP Hk st. unfold bind. specialize (Hm st). destruct (m st) as [[x|e|] st'] eqn:E; [|done..].
  etrans; [exact Hm|]. apply Hk. by eapply HP.
Qed.
Lemma returns_ret {A} (P : A -> Prop) x : P x -> returns P (ret x).
Proof. intros HP st y st' [= <- _]. done. Qed.
Lemma returns_bind {A B} (P : A -> Prop) (Q : B -> Prop) (m : M A) (k : A -> M B) :
  returns P m -> (forall x, P x -> returns Q (k x)) -> returns Q (bind m k).
Proof.
  intros Hm Hk st y st'. unfold bind. destruct (m st) as [[x|e|] st1] eqn:E; [|done..].
  intros Hy. eapply Hk; [by eapply Hm|exact Hy].
Qed.
Lemma returns_any {A} (m : M A) : returns (fun _ => True) m.
Proof. done. Qed.

(** The preorder when the operation returns. *)
Definition ensures_val (R : Agent -> Agent -> Prop) {A} (m : M A) : Prop :=
  forall st x st', m st = (Val x, st') -> R st st'.
Lemma ensures_val_of R {A} (m : M A) : ensures R m -> ensures_val R m.
Proof. intros Hm st x st' E. by eapply ensures_use. Qed.
Lemma ensures_val_bind R `{!PreOrder R} {A B} (m : M A) (k : A -> M B) :
  ensures_val R m -> (forall x, ensures_val R (k x)) -> ensures_val R (bind m k).
Proof.
  intros Hm Hk st y st'. unfold bind. destruct (m st) as [[x|e|] st1] eqn:E; [|done..]. intros E'.
  etrans; [by eapply Hm|by eapply Hk].
Qed.
(** A handler that rethrows. *)
Lemma ensures_val_rethrow R {A B} (m : M A) (h : M B) :
  ensures_val R m -> ensures_val R (catch m (fun e => bind h (fun _ => throw e))).
Proof.
  intros Hm st x st'. unfold catch. destruct (m st) as [[y|e|] st1] eqn:E; [|unfold bind; by destruct (h st1) as [[]]|done].
  intros [= <- <-]. by eapply Hm.
Qed.
Lemma ensures_val_failing R {A B} (h : M B) e : ensures_val R (bind h (fun _ => throw e) : M A).
Proof. intros st x st'. unfold bind. by destruct (h st) as [[]]. Qed.

(** One structural step, or a case of the code. *)
Create HintDb agent.
#[export] Hint Constants Opaque : agent.
Ltac ensures_step :=
  lazymatch goal with
  | |- ensures _ (ret _) => apply ensures_ret; exact _
  | |- ensures _ (throw _) => apply ensures_throw; exact _
  | |- ensures _ spin => apply ensures_spin; exact _
  | |- ensures _ get => apply ensures_get; exact _
  | |- ensures _ (bind _ _) => apply ensures_bind; [exact _| |intros ?]
  | |- ensures _ (let _ := _ in _) => cbv zeta
  | |- ensures _ (match ?x with _ => _ end) => destruct x
  | |- ensures _ (catch _ _) => apply ensures_catch; [exact _| |intros ?]
  | |- ensures _ (for_each _ _) => first [solve [auto 3 with agent nocore] | apply ensures_for_each; [exact _|intros ?]]
  | |- ensures _ (best_effort _) => first [solve [auto 3 with agent nocore] | apply ensures_best_effort; [exact _|]]
  | |- ensures _ (collect _ _) => apply ensures_collect; [exact _|intros ?]
  | |- _ => solve [eauto with agent]
  end.
Ltac ensures := repeat ensures_step.

(** ** Quiet operations *)
Definition reports (c : call) : bool :=
  match c with
  | CRingPush _ => true
  | CRpc (ReqMarkD2HComplete _ | ReqMarkH2DComplete _ | ReqBatchComplete _) _ => true
  | _ => false
  end.
(** Neither an eviction, nor an invalidation, nor a report. *)
Definition calm (c : call) : bool := match c with CEvict _ _ _ _ _ _ | CInvalidate _ _ => false | _ => negb (reports c) end.
(** The calls made are calm, and the bookkeeping of the transfers is untouched. *)
Record quiet (st st' : Agent) : Prop := {
  q_trace : exists t, a_trace st' = t ++ a_trace st /\ Forall (fun c => calm c = true) t;
  q_inflight_d2h : a_inflight_d2h st' = a_inflight_d2h st;
  q_inflight_h2d : a_inflight_h2d st' = a_inflight_h2d st;
  q_done_d2h : a_done_d2h st' = a_done_d2h st;
  q_done_h2d : a_done_h2d st' = a_done_h2d st;
  q_offloaded : a_offloaded st' = a_offloaded st;
  q_d2h_bytes : a_inflight_d2h_bytes st' = a_inflight_d2h_bytes st;
  q_h2d_bytes : a_inflight_h2d_bytes st' = a_inflight_h2d_bytes st;
  q_d2h_completed : a_d2h_completed st' = a_d2h_completed st;
  q_h2d_completed : a_h2d_completed st' = a_h2d_completed st;
  q_ring : a_comp_ring st' = a_comp_ring st;
  q_rank : a_rank_id st' = a_rank_id st /\ a_rank_epoch st' = a_rank_epoch st }.
#[export] Instance quiet_preorder : PreOrder quiet.
Proof.
  split.
  - intros st. split; try done. by exists [].
  - intros x y z [(t1 & E1 & F1) ? ? ? ? ? ? ? ? ? ? [? ?]] [(t2 & E2 & F2) ? ? ? ? ? ? ? ? ? ? [? ?]].
    split; try congruence; [|split; congruence]. exists (t2 ++ t1). rewrite E2, E1, app_assoc. split; [done|].
    by apply Forall_app.
Qed.

Section Quiet.
Context `{W : World}.
Lemma quiet_log c : calm c = true -> ensures quiet (log c).
Proof. intros Hc st. split; try done. exists [c]. split; [done|]. by apply Forall_singleton. Qed.
Lemma quiet_cuda c : ensures quiet (cuda c).
Proof. intros st. split; try done. eexists [_]. split; [done|]. by apply Forall_singleton. Qed.
Lemma quiet_rpc r : (forall a, calm (CRpc r a) = true) -> ensures quiet (rpc r).
Proof.
  intros Hr st. unfold rpc. destruct (w_rpc (a_trace st) r); (split; try done); eexists [_];
    (split; [done|]); by apply Forall_singleton.
Qed.
Lemma quiet_new_handle : ensures quiet new_handle.
Proof. intros st. cbn. reflexivity. Qed.
Lemma quiet_now_real : ensures quiet now_real.
Proof. intros st. cbn. reflexivity. Qed.
Lemma quiet_now_mono : ensures quiet now_mono.
Proof. intros st. cbn. reflexivity. Qed.
Lemma quiet_modify f :
  (forall st, a_trace (f st) = a_trace st /\ a_inflight_d2h (f st) = a_inflight_d2h st /\
     a_inflight_h2d (f st) = a_inflight_h2d st /\ a_done_d2h (f st) = a_done_d2h st /\
     a_done_h2d (f st) = a_done_h2d st /\ a_offloaded (f st) = a_offloaded st /\
     a_inflight_d2h_bytes (f st) = a_inflight_d2h_bytes st /\ a_inflight_h2d_bytes (f st) = a_inflight_h2d_bytes st /\
     a_d2h_completed (f st) = a_d2h_completed st /\ a_h2d_completed (f st) = a_h2d_completed st /\
     a_comp_ring (f st) = a_comp_ring st /\ a_rank_id (f st) = a_rank_id st /\ a_rank_epoch (f st) = a_rank_epoch st) ->
  ensures quiet (modify f).
Proof. intros H st. destruct (H st) as (E & ?). split; try tauto. exists []. by split. Qed.
End Quiet.
#[export] Hint Resolve quiet_cuda quiet_new_handle quiet_now_real quiet_now_mono : agent.
#[export] Hint Extern 1 (ensures quiet (log _)) => apply quiet_log; reflexivity : agent.
#[export] Hint Extern 1 (ensures quiet (rpc _)) => apply quiet_rpc; intros; reflexivity : agent.
#[export] Hint Extern 1 (ensures quiet (modify _)) => apply quiet_modify; intros; cbn; tauto : agent.

Section QuietOps.
Context `{W : World}.
Lemma quiet_cuda_check e c : ensures quiet (cuda_check e c).
Proof. unfold cuda_check. ensures. Qed.
Lemma quiet_ensure_registered p n : ensures quiet (ensure_registered p n).
Proof. unfold ensure_registered. ensures. Qed.
Lemma quiet_slot_host_ptr a o : ensures quiet (slot_host_ptr a o).
Proof. unfold slot_host_ptr. ensures. Qed.
Lemma quiet_next_submit_seq : ensures quiet next_submit_seq.
Proof. unfold next_submit_seq. ensures. Qed.
Lemma quiet_next_complete_seq : ensures quiet next_complete_seq.
Proof. unfold next_complete_seq. ensures. Qed.
Lemma quiet_metric_add m v : ensures quiet (metric_add_local m v).
Proof. unfold metric_add_local. ensures. Qed.
Lemma quiet_metric_sub m v : ensures quiet (metric_sub_local m v).
Proof. unfold metric_sub_local. ensures. Qed.
Lemma quiet_record_bw n s : ensures quiet (record_bw n s).
Proof. unfold record_bw. ensures. Qed.
Lemma quiet_wait_ring fuel seq : ensures quiet (wait_ring_consumed fuel seq).
Proof. induction fuel as [|fuel IH]; cbn [wait_ring_consumed]; ensures. Qed.
Lemma quiet_await_ready fuel pr start : forall presp, ensures quiet (await_ready fuel pr start presp).
Proof.
  induction fuel as [|fuel IH]; intros presp; cbn [await_ready]; unfold rpc_request_prefetch, mismatch; ensures.
Qed.
Lemma quiet_await_restore fuel rq start : ensures quiet (await_restore fuel rq start).
Proof.
  induction fuel as [|fuel IH]; cbn [await_restore]; unfold rpc_request_canonical_restore, mismatch; ensures.
Qed.
Lemma quiet_launch_copy e d s n k x : ensures quiet (launch_copy e d s n k x).
Proof. unfold launch_copy, cuda_check. ensures. Qed.
Lemma quiet_make_d2h r : ensures quiet (make_d2h_completion r).
Proof. unfold make_d2h_completion. ensures. Qed.
Lemma quiet_make_h2d r : ensures quiet (make_h2d_completion r).
Proof. unfold make_h2d_completion. ensures. Qed.
End QuietOps.
#[export] Hint Resolve quiet_cuda_check quiet_ensure_registered quiet_slot_host_ptr quiet_next_submit_seq
  quiet_next_complete_seq quiet_metric_add quiet_metric_sub quiet_record_bw quiet_wait_ring quiet_await_ready
  quiet_await_restore quiet_launch_copy quiet_make_d2h quiet_make_h2d : agent.
