(* ===== verification/AgentWorld.v ===== *)
(** * The agent against the daemon

    A [World] in which the daemon of [System] answers: its state is replayed from
    the requests and ring entries of the trace, the driver completes every copy,
    and the clock advances with the sleeps.  The theorems about the agent hold in
    every world; this one shows that their hypotheses are met by the program's own
    daemon, with the completions carried by the ring or by RPC. *)
From stdpp Require Import base gmap strings list.
From Stdlib Require Import ZArith Lia.
From S2P Require Import Prelude.
From S2P Require Import Ring.
From S2P Require Import Protocol.
From S2P Require Import Rpc.
From S2P Require Import Layout.
From S2P Require Import State.
From S2P Require Import Alloc.
From S2P Require Import Drain.
From S2P Require Import Session.
From S2P Require Import Export.
From S2P Require Import Rollout.
From S2P Require Import System.
From S2P Require Import Agent.
Open Scope Z_scope.
Open Scope offload_scope.

(** No interference while a handler waits. *)
Definition world_ctx (now : Z) : Ctx :=
  mkCtx now (fun _ => mkGap id None None false 0) (mkExportResult false "" 0 0 0 "") [] (fun _ => 0).
(** The daemon's poller takes an entry as soon as it is published, and its workers
    each do a job while the agent sleeps. *)
Definition replay_call (ring : Z) (c : call) (d : Daemon) : Daemon :=
  match c with
  | CRpc r _ => match handle_request (world_ctx 100) r d with Ok p => p.2 | Throw _ => d end
  | CRingPush e => ring_poller_sweep 100 (d <| rings ::= alter (fun rh => (ring_push rh e).2) ring |>)
  | CSleep _ => readback_worker_step (fun _ => quiet_gap) (drain_worker_step (fun _ => quiet_gap) d)
  | _ => d
  end.
Definition replay (d0 : Daemon) (tr : trace) : Daemon := foldr (replay_call 0) d0 tr.
Definition slept (tr : trace) : Z := foldr (fun c n => match c with CSleep ns => n + ns | _ => n end) 0 tr.

Section DaemonWorld.
(** The daemon before the rank connects, and whether the rank may use its ring. *)
Context (d0 : Daemon) (use_ring : bool).
Definition daemon_world : World := {|
  w_rpc tr r := match handle_request (world_ctx 100) r (replay d0 tr) with Ok p => Ok p.1 | Throw m => Throw m end;
  w_fds _ := 2;
  w_connect _ _ := Ok tt;
  w_getpid := 77;
  w_gpu_numa_node _ := 0;
  w_cuda _ _ := cudaSuccess;
  w_handle tr := 1000 + Z.of_nat (length tr);
  w_error_string _ := "error";
  w_mmap _ fd _ := Some (2 ^ 40 * (fd + 1));
  w_header _ := (OFLD_MAGIC, OFLD_ABI_VERSION, count_slots (cfg d0));
  w_ring tr i := if use_ring then rings (replay d0 tr) !! i else None;
  w_ring_head tr := match rings (replay d0 tr) !! 0 with Some r => r_head r | None => 0 end;
  w_slot_state tr id := slot_state_value (slot_state (replay d0 tr) id);
  w_host_bytes _ _ _ := [];
  w_now_real _ := 100;
  w_now_mono tr := 1000 + slept tr |}.
End DaemonWorld.

Definition sample_agent : AgentConfig :=
  mkAgentConfig "/tmp/state_spectre.sock" 0 3 0 0 (-1) 536870912 false 1000 200.
Definition ring_world : World := daemon_world (smoke_daemon []) true.
Definition rpc_world : World := daemon_world (smoke_daemon []) false.
(** The agent of rank 3 in each world. *)
Definition start (w : World) : Agent := (@construct w (agent_zero sample_agent)).2.
Definition sample_meta (tensor_id : Z) : TensorMeta := mkTensorMeta tensor_id 1 5000000 "layer.0".
