(* ===== verification/AgentProps.v ===== *)
(** * The agent's guarantees

    Executions of the agent ([astep]: any public operation, the two halves of an
    iteration of the progress thread, a heartbeat) in an arbitrary [World], and
    what holds in all of them: GPU storage is only invalidated behind a finished
    copy ([invalidate_after_copy]); arenas are registered once and the bytes in
    flight add up ([AgentRestore], [AgentFlow]). *)
From stdpp Require Import base gmap strings list pretty fin_sets relations.
From Stdlib Require Import ZArith Lia SpecFloat.
From S2P Require Import Prelude.
From S2P Require Import Ring.
From S2P Require Import Protocol.
From S2P Require Import ProtocolV2.
From S2P Require Import Rpc.
From S2P Require Import State.
From S2P Require Import Agent.
From S2P Require Import AgentLogic.
From S2P Require Import AgentWorld.
Open Scope Z_scope.
Open Scope offload_scope.
Open Scope agent_scope.

(** ** Executions *)
Inductive api :=
  | AEvict (dev_ptr nbytes stream : Z) (destructive : bool) (meta : TensorMeta) (cb : InvalidateCallback) (cookie : Z) (wait : bool)
  | ARestore (fuel : nat) (tensor_id version dev_ptr nbytes stream : Z) (wait : bool)
  | ALocation (tensor_id version : Z)
  | ADiscard (tensor_id version : Z)
  | AAssertNoInflight
  | ACanonicalEvict (dev_ptr nbytes stream : Z) (destructive : bool) (req : RequestCanonicalEvictRequest)
      (cb : InvalidateCallback) (cookie : Z) (hash_on_commit : bool)
  | ACanonicalRestore (fuel : nat) (object_id dev_ptr nbytes stream : Z) (wait : bool)
  | AReleaseCanonical (r : ReleaseCanonicalRequest)
  | ARegisterJob (r : RegisterJobRequest)
  | ASealModelVersion (r : SealModelVersionRequest)
  | AGetLatestSealedVersion (r : GetLatestSealedVersionRequest)
  | AGetManifest (r : GetManifestRequest)
  | APullTensor (r : PullTensorRequest)
  | ADropCanonicalVersion (r : DropCanonicalVersionRequest).

Section Executions.
Context `{W : World}.
Definition forget {A} (m : M A) : M unit := let* _ := m in ret tt.
Definition run_api (o : api) : M unit :=
  match o with
  | AEvict dev n s destr meta cb cookie wait => forget (evict dev n s destr meta cb cookie wait)
  | ARestore fuel tid ver dev n s wait => forget (restore fuel tid ver dev n s wait)
  | ALocation tid ver => forget (location tid ver)
  | ADiscard tid ver => discard tid ver
  | AAssertNoInflight => assert_no_inflight
  | ACanonicalEvict dev n s destr req cb cookie hash => forget (canonical_evict dev n s destr req cb cookie hash)
  | ACanonicalRestore fuel oid dev n s wait => forget (canonical_restore fuel oid dev n s wait)
  | AReleaseCanonical r => forget (release_canonical r)
  | ARegisterJob r => forget (register_job r)
  | ASealModelVersion r => forget (seal_model_version r)
  | AGetLatestSealedVersion r => forget (get_latest_sealed_version r)
  | AGetManifest r => forget (get_manifest r)
  | APullTensor r => forget (pull_tensor r)
  | ADropCanonicalVersion r => forget (drop_canonical_version r)
  end.
(** A step leaves the state an operation reached, whether it returned, threw or is
    still polling.  A call of the interface and an iteration of a thread are steps
    of their own; the destructor is [Agent.shutdown] and not a step. *)
Inductive astep : Agent -> Agent -> Prop :=
  | as_api o st : astep st (run_api o st).2
  | as_poll st : a_done_d2h st = [] -> a_done_h2d st = [] -> astep st (progress_poll st).2
  | as_flush st : astep st (progress_flush st).2
  | as_heartbeat st : astep st (heartbeat_beat st).2.
(** The agent once its constructor returned. *)
Definition constructed (c : AgentConfig) (st : Agent) : Prop := construct (agent_zero c) = (Val tt, st).
Definition agent_reachable (c : AgentConfig) (st : Agent) : Prop := exists st0, constructed c st0 /\ rtc astep st0 st.
End Executions.

(** ** Copies and their events *)
Definition calls_calm (t : trace) : Prop := Forall (fun c => calm c = true) t.
(** In the call that evicted the record's tensor, its storage was copied to the
    host on a stream and the record's event recorded behind the copy. *)
Definition copied (tr : trace) (r : InflightD2H) : Prop := exists dev dst s t1 t2 t3 t4,
  tr = t4 ++ CCuda (cudaEventRecord (d_ev r) s) cudaSuccess ::
       t3 ++ CCuda (cudaMemcpyAsync dst dev (d_nbytes r) cudaMemcpyDeviceToHost s) cudaSuccess ::
       t2 ++ CEvict dev (d_nbytes r) (d_cb r) (d_cookie r) (d_tensor_id r) (d_version r) :: t1 /\
  calls_calm t2 /\ calls_calm t3.
(** ... and later the event was seen complete. *)
Definition finished (tr : trace) (r : InflightD2H) : Prop := exists c t1 t2,
  tr = t2 ++ CCuda c cudaSuccess :: t1 /\
  (c = cudaEventQuery (d_ev r) \/ c = cudaEventSynchronize (d_ev r)) /\ copied t1 r.
(** Why the callback [cb] may release the storage of [cookie]: its copy is finished, or the
    daemon has just answered its eviction that the canonical object already holds
    the bytes. *)
Definition attached (tr : trace) (cb : InvalidateCallback) (cookie : Z) : Prop := exists req resp dev n tid ver t,
  tr = CRpc (ReqRequestCanonicalEvict req) (Ok (RespRequestCanonicalEvict resp)) :: CEvict dev n cb cookie tid ver :: t /\
  ces_ok resp = true /\ ces_action resp = ATTACH_ACTION_ATTACHED_EXISTING.
Definition justified (tr : trace) (cb : InvalidateCallback) (cookie : Z) : Prop :=
  (exists r, d_cb r = cb /\ d_cookie r = cookie /\ finished tr r) \/ attached tr cb cookie.
Fixpoint safe (tr : trace) : Prop :=
  match tr with
  | [] => True
  | CInvalidate cb cookie :: t => justified t cb cookie /\ safe t
  | _ :: t => safe t
  end.

Lemma copied_app t tr r : copied tr r -> copied (t ++ tr) r.
Proof.
  intros (dev & dst & s & t1 & t2 & t3 & t4 & -> & H2 & H3). exists dev, dst, s, t1, t2, t3, (t ++ t4).
  by rewrite <- app_assoc.
Qed.
Lemma finished_app t tr r : finished tr r -> finished (t ++ tr) r.
Proof. intros (c & t1 & t2 & -> & Hc & Hcp). exists c, t1, (t ++ t2). by rewrite <- app_assoc. Qed.
Lemma finish_copied c r tr : copied tr r -> c = cudaEventQuery (d_ev r) \/ c = cudaEventSynchronize (d_ev r) ->
  finished (CCuda c cudaSuccess :: tr) r.
Proof. intros Hc Hcc. by exists c, tr, []. Qed.
Lemma safe_cons c tr : (forall cb ck, c <> CInvalidate cb ck) -> safe tr -> safe (c :: tr).
Proof. intros Hc. destruct c; try done. by destruct (Hc cb cookie). Qed.
Lemma safe_calm t tr : calls_calm t -> safe tr -> safe (t ++ tr).
Proof. induction 1 as [|c t Hc _ IH]; [done|]. intros Hs. apply safe_cons; [by intros cb ck ->|auto]. Qed.
Lemma safe_split t2 cb ck t1 : safe (t2 ++ CInvalidate cb ck :: t1) -> justified t1 cb ck.
Proof.
  intros Hs. induction t2 as [|c t2 IH]; [by destruct Hs|]. apply IH. destruct c; try done. by destruct Hs.
Qed.

Definition d_key (r : InflightD2H) : string := tv_key (d_tensor_id r) (d_version r).
Record ainv (st : Agent) : Prop := {
  ai_safe : safe (a_trace st);
  ai_inflight : Forall (copied (a_trace st)) (a_inflight_d2h st);
  ai_done : Forall (finished (a_trace st)) (a_done_d2h st);
  ai_offloaded : forall k, a_offloaded st !! k = Some true -> exists r, d_key r = k /\ finished (a_trace st) r }.

(** Calls that are not invalidations, and no new bookkeeping, keep the invariant. *)
Lemma ainv_grow t st st' : a_trace st' = t ++ a_trace st -> Forall (fun c => forall cb ck, c <> CInvalidate cb ck) t ->
  a_inflight_d2h st' ⊆ a_inflight_d2h st -> a_done_d2h st' ⊆ a_done_d2h st ->
  (forall k, a_offloaded st' !! k = Some true -> a_offloaded st !! k = Some true) -> ainv st -> ainv st'.
Proof.
  intros E Ht Hi Hd Ho [Hs Hin Hdn Hof]. split; rewrite E.
  - clear -Ht Hs. induction Ht as [|c t Hc _ IH]; [done|]. by apply safe_cons.
  - rewrite Forall_forall in *. intros r Hr%Hi. by apply copied_app, Hin.
  - rewrite Forall_forall in *. intros r Hr%Hd. by apply finished_app, Hdn.
  - intros k (r & Hk & Hf)%Ho%Hof. exists r. split; [done|]. by apply finished_app.
Qed.
Lemma ainv_quiet st st' : quiet st st' -> ainv st -> ainv st'.
Proof.
  intros [(t & E & Ht) Hi _ Hd _ Ho _ _ _ _ _ _]. apply (ainv_grow t); [done| |by rewrite Hi|by rewrite Hd|by rewrite Ho].
  eapply Forall_impl; [exact Ht|]. by intros c Hc cb ck ->.
Qed.

Section Safety.
Context `{W : World}.

(** The trace only grows. *)
Definition grows (st st' : Agent) : Prop := a_trace st `suffix_of` a_trace st'.
#[local] Instance grows_preorder : PreOrder grows.
Proof. split; [intros st; unfold grows; reflexivity|intros x y z; unfold grows; apply transitivity]. Qed.
Lemma quiet_grows {A} (m : M A) : ensures quiet m -> ensures grows m.
Proof. intros Hm st. destruct (Hm st) as [(t & E & _) _ _ _ _ _ _ _ _ _ _ _]. by exists t. Qed.
Lemma grows_log c : ensures grows (log c).
Proof. intros st. by exists [c]. Qed.
Lemma grows_rpc r : ensures grows (rpc r).
Proof. intros st. unfold rpc. destruct (w_rpc (a_trace st) r); by eexists [_]. Qed.
Lemma grows_modify f : (forall st, a_trace (f st) = a_trace st) -> ensures grows (modify f).
Proof. intros H st. unfold grows. cbn. by rewrite H. Qed.
#[local] Hint Resolve grows_log grows_rpc : agent.
#[local] Hint Extern 1 (ensures grows (modify _)) => apply grows_modify; intros; reflexivity : agent.
#[local] Hint Extern 2 (ensures grows _) => apply quiet_grows; solve [eauto with agent] : agent.
Lemma grows_finalize_d2h r : ensures grows (finalize_d2h r).
Proof. unfold finalize_d2h, invalidate. ensures. Qed.
Lemma grows_finalize_h2d r : ensures grows (finalize_h2d r).
Proof. unfold finalize_h2d. ensures. Qed.
Lemma grows_push_entry e : ensures grows (push_entry e).
Proof. unfold push_entry. ensures. Qed.
#[local] Hint Resolve grows_finalize_d2h grows_finalize_h2d grows_push_entry : agent.
Lemma grows_ring_push_d2h r : ensures grows (ring_push_d2h r).
Proof. unfold ring_push_d2h. ensures. Qed.
Lemma grows_ring_push_h2d r : ensures grows (ring_push_h2d r).
Proof. unfold ring_push_h2d. ensures. Qed.
#[local] Hint Resolve grows_ring_push_d2h grows_ring_push_h2d : agent.
Lemma finished_grows st st' r : grows st st' -> finished (a_trace st) r -> finished (a_trace st') r.
Proof. intros [t E]. rewrite E. apply finished_app. Qed.

(** Operations that keep the invariant given the finished records [l]. *)
Definition keeps_inv (l : list InflightD2H) (st st' : Agent) : Prop :=
  Forall (finished (a_trace st)) l -> ainv st -> Forall (finished (a_trace st')) l /\ ainv st'.
#[local] Instance keeps_inv_preorder l : PreOrder (keeps_inv l).
Proof.
  split; [intros st ? ?; by split|]. intros x y z Hxy Hyz Hl Hi. destruct (Hxy Hl Hi). by apply Hyz.
Qed.
Lemma keeps_quiet l {A} (m : M A) : ensures quiet m -> ensures (keeps_inv l) m.
Proof.
  intros Hm st Hl Hi. split; [|exact (ainv_quiet _ _ (Hm st) Hi)].
  eapply Forall_impl; [exact Hl|]. intros r. apply finished_grows, (quiet_grows m Hm).
Qed.
Lemma keeps_grow l {A} (m : M A) :
  (forall st, exists t, a_trace (m st).2 = t ++ a_trace st /\ Forall (fun c => forall cb ck, c <> CInvalidate cb ck) t /\
     a_inflight_d2h (m st).2 ⊆ a_inflight_d2h st /\ a_done_d2h (m st).2 ⊆ a_done_d2h st /\
     (forall k, a_offloaded (m st).2 !! k = Some true -> a_offloaded st !! k = Some true)) ->
  ensures (keeps_inv l) m.
Proof.
  intros Hm st Hl Hi. destruct (Hm st) as (t & E & Ht & H1 & H2 & H3). split; [|by eapply ainv_grow].
  rewrite E. eapply Forall_impl; [exact Hl|]. intros r. apply finished_app.
Qed.
Lemma keeps_log l c : (forall cb ck, c <> CInvalidate cb ck) -> ensures (keeps_inv l) (log c).
Proof. intros Hc. apply keeps_grow. intros st. exists [c]. split_and!; [done|by apply Forall_singleton|done..]. Qed.
Lemma keeps_rpc l r : ensures (keeps_inv l) (rpc r).
Proof.
  apply keeps_grow. intros st. unfold rpc.
  destruct (w_rpc (a_trace st) r); eexists [_]; (split_and!; [done|by apply Forall_singleton|done..]).
Qed.
Lemma keeps_modify l f : (forall st, a_trace (f st) = a_trace st /\ a_inflight_d2h (f st) ⊆ a_inflight_d2h st /\
     a_done_d2h (f st) ⊆ a_done_d2h st /\
     (forall k, a_offloaded (f st) !! k = Some true -> a_offloaded st !! k = Some true)) ->
  ensures (keeps_inv l) (modify f).
Proof. intros H. apply keeps_grow. intros st. destruct (H st) as (E & ?). exists []. split_and!; [done|constructor|tauto..]. Qed.
#[local] Hint Resolve keeps_rpc : agent.
#[local] Hint Extern 1 (ensures (keeps_inv _) (log _)) => apply keeps_log; intros ??; discriminate : agent.
#[local] Hint Extern 1 (ensures (keeps_inv _) (modify _)) =>
  apply keeps_modify; intros; cbn; split_and!; first [reflexivity | apply list_subseteq_nil | tauto] : agent.
#[local] Hint Extern 2 (ensures (keeps_inv _) _) => apply keeps_quiet; solve [eauto with agent] : agent.

(** The completion routines need their record finished. *)
Lemma keeps_invalidate l r : r ∈ l -> ensures (keeps_inv l) (invalidate (d_cb r) (d_cookie r)).
Proof.
  intros Hr st Hl [Hs Hi Hd Ho]. pose proof Hl as Hl'. rewrite Forall_forall in Hl'. split.
  - eapply Forall_impl; [exact Hl|]. intros x. apply (finished_app [_]).
  - split; cbn.
    + split; [|done]. left. exists r. auto.
    + eapply Forall_impl; [exact Hi|]. intros x. apply (copied_app [_]).
    + eapply Forall_impl; [exact Hd|]. intros x. apply (finished_app [_]).
    + intros k (x & Hk & Hx)%Ho. exists x. split; [done|]. by apply (finished_app [_]).
Qed.
Lemma keeps_offloaded l r f : r ∈ l ->
  (forall st, a_trace (f st) = a_trace st /\ a_inflight_d2h (f st) = a_inflight_d2h st /\
     a_done_d2h (f st) = a_done_d2h st /\ a_offloaded (f st) = <[d_key r := true]> (a_offloaded st)) ->
  ensures (keeps_inv l) (modify f).
Proof.
  intros Hr Hf st Hl [Hs Hi Hd Ho]. destruct (Hf st) as (E1 & E2 & E3 & E4). cbn. rewrite E1.
  split; [done|]. split; rewrite ?E1, ?E2, ?E3, ?E4; try done.
  intros k. rewrite lookup_insert_Some. intros [[<- _]|[_ Hk]]; [|by apply Ho].
  exists r. split; [done|]. rewrite Forall_forall in Hl. auto.
Qed.
Lemma finalize_d2h_keeps l r : r ∈ l -> ensures (keeps_inv l) (finalize_d2h r).
Proof.
  intros Hr. unfold finalize_d2h. apply ensures_bind; [exact _| |intros _].
  { destruct (_ && _); [by apply keeps_invalidate|apply ensures_ret; exact _]. }
  apply ensures_bind; [exact _|ensures|intros _].
  apply ensures_bind; [exact _| |intros _; ensures].
  apply (keeps_offloaded l r); [done|]. intros st. by split_and!.
Qed.
Lemma finalize_h2d_keeps l r : ensures (keeps_inv l) (finalize_h2d r).
Proof. unfold finalize_h2d. ensures. Qed.
Lemma push_entry_keeps l e : ensures (keeps_inv l) (push_entry e).
Proof. unfold push_entry. ensures. Qed.
#[local] Hint Resolve finalize_h2d_keeps push_entry_keeps : agent.
Lemma ring_push_d2h_keeps l r : ensures (keeps_inv l) (ring_push_d2h r).
Proof. unfold ring_push_d2h. ensures. Qed.
Lemma ring_push_h2d_keeps l r : ensures (keeps_inv l) (ring_push_h2d r).
Proof. unfold ring_push_h2d. ensures. Qed.
#[local] Hint Resolve ring_push_d2h_keeps ring_push_h2d_keeps : agent.
Lemma for_each_keeps l {A} (f : A -> M unit) xs :
  (forall x, x ∈ xs -> ensures (keeps_inv l) (f x)) -> ensures (keeps_inv l) (for_each xs f).
Proof.
  induction xs as [|x xs IH]; intros Hf; [apply ensures_ret; exact _|]. cbn [for_each]. apply ensures_bind; [exact _|apply Hf; by left|].
  intros _. apply IH. intros y Hy. apply Hf. by right.
Qed.
Lemma push_all_keeps l {A} push finalize make (xs : list A) :
  (forall x, ensures (keeps_inv l) (push x)) -> (forall x, x ∈ xs -> ensures (keeps_inv l) (finalize x)) ->
  (forall x, ensures (keeps_inv l) (make x)) -> ensures (keeps_inv l) (push_all push finalize make xs).
Proof.
  intros Hp Hf Hm. induction xs as [|x xs IH]; cbn [push_all]; [ensures|].
  assert (IH' : ensures (keeps_inv l) (push_all push finalize make xs)) by (apply IH; intros y Hy; apply Hf; by right).
  apply ensures_bind; [exact _|apply Hp|intros []].
  - apply ensures_bind; [exact _|apply Hf; by left|intros _; exact IH'].
  - apply ensures_bind; [exact _|apply Hm|intros c]. apply ensures_bind; [exact _|exact IH'|intros; ensures].
Qed.
Lemma push_all_returns {A} push finalize make (xs : list A) :
  returns (fun p => p.2 ⊆ xs /\ length p.1 = length p.2) (push_all push finalize make xs).
Proof.
  induction xs as [|x xs IH]; cbn [push_all]; [by apply returns_ret|].
  eapply returns_bind; [apply returns_any|]. intros [] _.
  - eapply returns_bind; [apply returns_any|]. intros _ _. intros st p st' [Hp Hl]%IH. split; [|done].
    intros y Hy. right. auto.
  - eapply returns_bind; [apply returns_any|]. intros c _. eapply returns_bind; [exact IH|]. intros p [Hp Hl].
    apply returns_ret. split; [|cbn; lia]. intros y [->|Hy]%elem_of_cons; [by left|right; auto].
Qed.
Lemma complete_d2h_keeps l r : r ∈ l -> ensures (keeps_inv l) (complete_d2h r).
Proof.
  intros Hr. pose proof (finalize_d2h_keeps l r Hr). unfold complete_d2h, rpc_mark_d2h_complete, mismatch. ensures.
Qed.
Lemma complete_h2d_keeps l r : ensures (keeps_inv l) (complete_h2d r).
Proof. unfold complete_h2d, rpc_mark_h2d_complete, mismatch. ensures. Qed.
Lemma batch_complete_keeps l m : ensures (keeps_inv l) (best_effort (rpc_batch_complete m)).
Proof. unfold rpc_batch_complete, mismatch. ensures. Qed.
Lemma finalize_all_keeps l l1 l2 : l1 ⊆ l ->
  ensures (keeps_inv l) (let* _ := for_each l1 finalize_d2h in for_each l2 finalize_h2d).
Proof.
  intros Hl. apply ensures_bind; [exact _| |intros _].
  - apply for_each_keeps. intros r Hr. by apply finalize_d2h_keeps, Hl.
  - apply for_each_keeps. intros r _. apply finalize_h2d_keeps.
Qed.
#[local] Hint Resolve complete_h2d_keeps batch_complete_keeps : agent.
Lemma flush_keeps d2h h2d : ensures (keeps_inv d2h) (flush_completions_batch d2h h2d).
Proof.
  unfold flush_completions_batch. apply ensures_bind; [exact _|ensures|intros st].
  assert (Hring : ensures (keeps_inv d2h) (
    let* of_d2h := push_all ring_push_d2h finalize_d2h make_d2h_completion d2h in
    let* of_h2d := push_all ring_push_h2d finalize_h2d make_h2d_completion h2d in
    match of_d2h.1 ++ of_h2d.1 with
    | [] => ret tt
    | completions =>
        let* _ := best_effort (rpc_batch_complete (mkBatchCompleteRequest (a_rank_id st) (a_rank_epoch st) completions)) in
        let* _ := for_each of_d2h.2 finalize_d2h in
        for_each of_h2d.2 finalize_h2d
    end)).
  { eapply ensures_bind_val; [exact _| |apply push_all_returns|].
    - apply push_all_keeps; [intros; ensures| |intros; ensures]. intros r Hr. by apply finalize_d2h_keeps.
    - intros p [Hp _]. apply ensures_bind; [exact _| |intros q].
      + apply push_all_keeps; intros; ensures.
      + destruct (p.1 ++ q.1); [ensures|]. apply ensures_bind; [exact _|ensures|intros _; by apply finalize_all_keeps]. }
  assert (Hrpc : ensures (keeps_inv d2h) (
    let* c1 := collect make_d2h_completion d2h in
    let* c2 := collect make_h2d_completion h2d in
    let* _ := best_effort (rpc_batch_complete (mkBatchCompleteRequest (a_rank_id st) (a_rank_epoch st) (c1 ++ c2))) in
    let* _ := for_each d2h finalize_d2h in
    for_each h2d finalize_h2d)).
  { apply ensures_bind; [exact _|ensures|intros c1]. apply ensures_bind; [exact _|ensures|intros c2].
    apply ensures_bind; [exact _|ensures|intros _; by apply finalize_all_keeps]. }
  destruct d2h as [|r1 [|r2 d2h]], h2d as [|r3 [|r4 h2d]]; try (apply ensures_ret; exact _);
    destruct (a_comp_ring st); try exact Hring; try exact Hrpc.
  - ensures.
  - apply complete_d2h_keeps. by left.
Qed.

(** A pass over an inflight list: it returns the records whose event was just seen
    complete and those still waiting. *)
Definition seen (t : trace) (ev : Z) : Prop := exists t1 t2, t = t2 ++ CCuda (cudaEventQuery ev) cudaSuccess :: t1.
Lemma seen_app t' t ev : seen t ev -> seen (t' ++ t) ev.
Proof. intros (t1 & t2 & ->). exists t1, (t' ++ t2). by rewrite <- app_assoc. Qed.
Lemma seen_app_l t t' ev : seen t ev -> seen (t ++ t') ev.
Proof. intros (t1 & t2 & ->). exists (t1 ++ t'), t2. by rewrite <- app_assoc. Qed.
Record polled (st st' : Agent) : Prop := {
  po_inflight_d2h : a_inflight_d2h st' = a_inflight_d2h st;
  po_inflight_h2d : a_inflight_h2d st' = a_inflight_h2d st;
  po_done_d2h : a_done_d2h st' = a_done_d2h st;
  po_done_h2d : a_done_h2d st' = a_done_h2d st;
  po_offloaded : a_offloaded st' = a_offloaded st }.
Lemma polled_trans x y z : polled x y -> polled y z -> polled x z.
Proof. intros [] []. split; congruence. Qed.
Lemma poll_events_spec {A} (ev nb : A -> Z) (f : Z -> Agent -> Agent) :
  (forall n st, polled st (f n st) /\ a_trace (f n st) = a_trace st) -> forall l st,
  exists dn wt st' t, poll_events ev nb (fun n => modify (f n)) l st = (Val (dn, wt), st') /\
    polled st st' /\ a_trace st' = t ++ a_trace st /\ calls_calm t /\
    dn ++ wt ⊆+ l /\ Forall (fun r => seen t (ev r)) dn.
Proof.
  intros Hf l. induction l as [|r l IH]; intros st.
  { exists [], [], st, []. split_and!; try done; constructor. }
  cbn [poll_events]. unfold bind at 1, cuda at 1. cbv zeta.
  set (err := w_cuda (a_trace st) (cudaEventQuery (ev r))).
  set (st1 := st <| a_trace ::= cons (CCuda (cudaEventQuery (ev r)) err) |>).
  assert (P1 : polled st st1) by by split. assert (calm (CCuda (cudaEventQuery (ev r)) err) = true) as Hcalm by done.
  case_decide as He1; [|case_decide as He2].
  - destruct (IH st1) as (dn & wt & st' & t & E & P & Et & Ht & Hd & Hs).
    exists (r :: dn), wt, st', (t ++ [CCuda (cudaEventQuery (ev r)) err]).
    unfold bind. rewrite E. split_and!; [done|by eapply polled_trans|by rewrite Et, <- app_assoc| | |].
    + apply Forall_app. split; [done|]. by apply Forall_singleton.
    + cbn. by apply submseteq_skip.
    + constructor; [exists [], t; by rewrite He1|]. eapply Forall_impl; [exact Hs|]. intros y. apply seen_app_l.
  - destruct (IH st1) as (dn & wt & st' & t & E & P & Et & Ht & Hd & Hs).
    exists dn, (r :: wt), st', (t ++ [CCuda (cudaEventQuery (ev r)) err]).
    unfold bind. rewrite E. split_and!; [done|by eapply polled_trans|by rewrite Et, <- app_assoc| | |].
    + apply Forall_app. split; [done|]. by apply Forall_singleton.
    + rewrite <- Permutation_middle. by apply submseteq_skip.
    + eapply Forall_impl; [exact Hs|]. intros y. apply seen_app_l.
  - unfold bind at 1, cuda at 1. cbv zeta. unfold bind at 1, modify at 1. cbv beta iota.
    set (st2 := st1 <| a_trace ::= cons _ |>). destruct (Hf (nb r) st2) as [P3 E3].
    destruct (IH (f (nb r) st2)) as (dn & wt & st' & t & E & P & Et & Ht & Hd & Hs).
    exists dn, wt, st', (t ++ [CCuda (cudaEventDestroy (ev r)) (w_cuda (a_trace st1) (cudaEventDestroy (ev r)));
                               CCuda (cudaEventQuery (ev r)) err]).
    split_and!; [done| |by rewrite Et, E3, <- app_assoc| | |].
    + eapply polled_trans; [|exact P]. eapply polled_trans; [|exact P3]. by split.
    + apply Forall_app. split; [done|]. by repeat constructor.
    + by apply submseteq_cons.
    + eapply Forall_impl; [exact Hs|]. intros y. apply seen_app_l.
Qed.
Lemma progress_poll_ainv st : a_done_d2h st = [] -> ainv st -> ainv (progress_poll st).2.
Proof.
  intros Hdone [Hs Hi Hd Ho]. unfold progress_poll, drop_d2h, drop_h2d. unfold bind at 1, get at 1. cbv beta iota.
  destruct (poll_events_spec d_ev d_nbytes (fun n st => st <| a_inflight_d2h_bytes ::= (fun b => u64 (b - n)) |>)
    ltac:(intros n s; by split) (a_inflight_d2h st) st)
    as (dn & wt & st1 & t1 & E1 & P1 & Et1 & Ht1 & Hsub & Hs1).
  assert (Hd1 : forall r, r ∈ dn -> r ∈ a_inflight_d2h st) by (intros r Hr; eapply elem_of_submseteq, Hsub; set_solver).
  assert (Hw1 : forall r, r ∈ wt -> r ∈ a_inflight_d2h st) by (intros r Hr; eapply elem_of_submseteq, Hsub; set_solver).
  unfold bind at 1. rewrite E1. unfold bind at 1, modify at 1. cbv beta iota.
  set (st2 := st1 <| a_inflight_d2h := _ |> <| a_done_d2h := _ |>).
  destruct (poll_events_spec h_ev h_nbytes (fun n st => st <| a_inflight_h2d_bytes ::= (fun b => u64 (b - n)) |>)
    ltac:(intros n s; by split) (a_inflight_h2d st) st2)
    as (dn2 & wt2 & st3 & t2 & E2 & P2 & Et2 & Ht2 & _ & _).
  unfold bind at 1. rewrite E2. cbn. destruct P1 as [_ _ _ _ Po1], P2 as [Pi2 _ Pd2 _ Po2].
  assert (Et : a_trace st3 = t2 ++ t1 ++ a_trace st) by (by rewrite Et2, <- Et1).
  rewrite Forall_forall in Hi, Hs1. split; cbn.
  - rewrite Et. apply safe_calm; [done|by apply safe_calm].
  - rewrite Pi2, Et. cbn. apply Forall_forall. intros r Hr. by do 2 apply copied_app; apply Hi, Hw1.
  - rewrite Pd2, Et. cbn. apply Forall_forall. intros r Hr. apply finished_app.
    destruct (Hs1 r Hr) as (u1 & u2 & ->). exists (cudaEventQuery (d_ev r)), (u1 ++ a_trace st), u2.
    split_and!; [by rewrite <- app_assoc|by left|]. by apply copied_app, Hi, Hd1.
  - rewrite Po2, Et. cbn. rewrite Po1. intros k (r & Hk & Hf)%Ho. exists r. split; [done|]. by do 2 apply finished_app.
Qed.
Lemma progress_flush_ainv st : ainv st -> ainv (progress_flush st).2.
Proof.
  intros Hi. unfold progress_flush. unfold bind at 1, get at 1. cbv beta iota.
  destruct (flush_keeps (a_done_d2h st) (a_done_h2d st) st (ai_done st Hi) Hi) as [_ Hi1].
  unfold bind at 1. destruct (flush_completions_batch _ _ st) as [[x|e|] st1]; [|exact Hi1..]. cbn in Hi1 |- *.
  eapply (ainv_grow [_] st1); [done|by apply Forall_singleton|done|apply list_subseteq_nil|done|exact Hi1].
Qed.

(** Calm calls, no new transfer recorded. *)
Definition still (st st' : Agent) : Prop :=
  (exists t, a_trace st' = t ++ a_trace st /\ calls_calm t) /\
  a_inflight_d2h st' = a_inflight_d2h st /\ a_done_d2h st' = a_done_d2h st /\
  (forall k, a_offloaded st' !! k = Some true -> a_offloaded st !! k = Some true).
#[local] Instance still_preorder : PreOrder still.
Proof.
  split; [intros st; split_and!; try done; exists []; split; [done|constructor]|].
  intros x y z ((t1 & E1 & F1) & ? & ? & Ho1) ((t2 & E2 & F2) & ? & ? & Ho2). split_and!; try congruence; [|auto].
  exists (t2 ++ t1). rewrite E2, E1, app_assoc. split; [done|]. by apply Forall_app.
Qed.
Lemma still_quiet {A} (m : M A) : ensures quiet m -> ensures still m.
Proof. intros Hm st. destruct (Hm st) as [? ? ? ? ? Ho ? ? ? ? ? ?]. split_and!; try done. by rewrite Ho. Qed.
Lemma still_modify f : (forall st, a_trace (f st) = a_trace st /\ a_inflight_d2h (f st) = a_inflight_d2h st /\
    a_done_d2h (f st) = a_done_d2h st /\
    (forall k, a_offloaded (f st) !! k = Some true -> a_offloaded st !! k = Some true)) -> ensures still (modify f).
Proof. intros H st. destruct (H st) as (E & ? & ? & ?). split_and!; try done. exists []. split; [done|constructor]. Qed.
#[local] Hint Extern 1 (ensures still (modify _)) => apply still_modify; intros; cbn; tauto : agent.
#[local] Hint Extern 2 (ensures still _) => apply still_quiet; solve [eauto with agent] : agent.
Lemma ainv_still st st' : ainv st -> still st st' -> ainv st'.
Proof.
  intros Hi ((t & E & Ht) & E1 & E2 & Ho). eapply (ainv_grow t st); try done; [|by rewrite E1|by rewrite E2].
  eapply Forall_impl; [exact Ht|]. by intros c Hc cb ck ->.
Qed.
(** Steps over an operation that stays in [still]; [H] collects the way from the
    first state. *)
Ltac still_step x H :=
  let st := fresh "st" in let H' := fresh "H" in let H0 := fresh "H" in
  apply wp_bind; eapply (wp_ensures still); [solve [ensures]|]; intros [x|?|] st H';
  [rename H into H0; pose proof (transitivity H0 H') as H; clear H0 H'
  |by eapply ainv_still; [|exact (transitivity H H')]; assumption..].

Lemma launch_copy_spec text dst src n kind s st :
  wp (launch_copy text dst src n kind s) (fun o st' => still st st' /\ forall ev, o = Val ev ->
    exists t, a_trace st' = CCuda (cudaEventRecord ev s) cudaSuccess ::
                t ++ CCuda (cudaMemcpyAsync dst src n kind s) cudaSuccess :: a_trace st /\ calls_calm t) st.
Proof.
  split; [apply (still_quiet _ (quiet_launch_copy text dst src n kind s))|].
  intros ev. unfold launch_copy, cuda_check, bind, cuda, new_handle, ret, throw.
  do 3 (let He := fresh "He" in case_decide as He; [rewrite ?He|done]). cbn. intros [= <-]. eexists [_]. split; [done|]. by repeat constructor.
Qed.
Lemma still_copied st0 st1 st2 t dev dst s r : a_trace st0 = CEvict dev (d_nbytes r) (d_cb r) (d_cookie r) (d_tensor_id r) (d_version r) :: t ->
  still st0 st1 ->
  (exists t', a_trace st2 = CCuda (cudaEventRecord (d_ev r) s) cudaSuccess ::
     t' ++ CCuda (cudaMemcpyAsync dst dev (d_nbytes r) cudaMemcpyDeviceToHost s) cudaSuccess :: a_trace st1 /\ calls_calm t') ->
  copied (a_trace st2) r.
Proof.
  intros E0 ((t2 & E1 & H2) & _) (t3 & E2 & H3). exists dev, dst, s, t, t2, t3, []. split_and!; [|done..].
  by rewrite E2, E1, E0.
Qed.
Lemma copied_still st st' r : still st st' -> copied (a_trace st) r -> copied (a_trace st') r.
Proof. intros ((t & E & _) & _). rewrite E. apply copied_app. Qed.
Lemma complete_d2h_ainv r st : finished (a_trace st) r -> ainv st -> ainv (complete_d2h r st).2.
Proof.
  intros Hf Hi. apply (complete_d2h_keeps [r] r); [by left| |done]. by constructor.
Qed.
Lemma cuda_check_success text c st st' x : cuda_check text c st = (Val x, st') ->
  a_trace st' = CCuda c cudaSuccess :: a_trace st.
Proof. unfold cuda_check, bind, cuda, ret, throw. case_decide as He; [|done]. intros [= _ <-]. cbn. by rewrite He. Qed.
(** A launch behind an eviction's call: the record made of its event is copied. *)
Lemma launch_d2h_spec text dst s dev n cb cookie tid ver t st0 st1 :
  a_trace st0 = CEvict dev n cb cookie tid ver :: t -> still st0 st1 -> ainv st0 ->
  wp (launch_copy text dst dev n cudaMemcpyDeviceToHost s) (fun o st' => ainv st' /\ forall ev, o = Val ev ->
    forall r, d_nbytes r = n -> d_cb r = cb -> d_cookie r = cookie -> d_tensor_id r = tid -> d_version r = ver -> d_ev r = ev ->
    copied (a_trace st') r) st1.
Proof.
  intros E0 H01 Hi. eapply wp_mono; [apply launch_copy_spec|]. intros o st' [Hst Hev]. split.
  - eapply ainv_still; [exact Hi|]. etrans; [exact H01|exact Hst].
  - intros ev ->. specialize (Hev ev eq_refl). intros r <- <- <- <- <- <-. by eapply still_copied.
Qed.
(** Waiting for its event finishes it. *)
Lemma sync_spec r st : copied (a_trace st) r -> ainv st ->
  wp (cuda_check sync_text (cudaEventSynchronize (d_ev r))) (fun o st' => ainv st' /\
    forall x, o = Val x -> finished (a_trace st') r) st.
Proof.
  intros Hc Hi. split.
  - eapply ainv_still; [exact Hi|]. apply still_quiet. ensures.
  - intros x Hx. destruct (cuda_check _ _ st) as [o st'] eqn:E. cbn in *. subst o.
    apply cuda_check_success in E. rewrite E. apply finish_copied; auto.
Qed.
Lemma log_evict_ainv dev n cb cookie tid ver st : ainv st ->
  ainv (st <| a_trace ::= cons (CEvict dev n cb cookie tid ver) |>).
Proof. intros Hi. eapply (ainv_grow [_] st); try done. by apply Forall_singleton. Qed.

Lemma evict_ainv dev n s destr meta cb cookie wait st : ainv st -> ainv (evict dev n s destr meta cb cookie wait st).2.
Proof.
  intros Hi. enough (wp (evict dev n s destr meta cb cookie wait) (fun _ st' => ainv st') st) by done.
  unfold evict. apply wp_bind. set (st0 := st <| a_trace ::= cons (CEvict dev n cb cookie (tm_tensor_id meta) (tm_version meta)) |>).
  change (wp (log _) ?Q st) with (Q (Val tt) st0). cbv beta iota.
  assert (Hi0 : ainv st0) by (by apply log_evict_ainv).
  assert (H : still st0 st0) by reflexivity. unfold rpc_request_offload, mismatch.
  still_step st1 H. cbv zeta. still_step resp H.
  destruct (_ || _); [by eapply ainv_still|].
  still_step x1 H. still_step dst H. still_step x2 H. still_step sq H. still_step now H.
  unfold rpc_mark_d2h_submitted, mismatch.
  still_step x3 H. still_step sns H.
  apply wp_bind. eapply wp_mono; [eapply (launch_d2h_spec _ _ _ _ _ _ _ _ _ _ st0); [reflexivity|exact H|exact Hi0]|]. intros [ev|e|] sl [Hil Hcp]; [|exact Hil..].
  specialize (Hcp ev eq_refl). clear H. assert (H : still sl sl) by reflexivity.
  still_step x4 H. still_step x5 H. still_step cs H. cbv zeta. still_step x6 H.
  set (r := mkInflightD2H _ _ _ _ _ _ _ _ _ _ _). specialize (Hcp r eq_refl eq_refl eq_refl eq_refl eq_refl eq_refl).
  apply (copied_still _ _ _ H) in Hcp. apply (ainv_still _ _ Hil) in H. destruct wait.
  - apply wp_bind. eapply wp_mono; [by apply (sync_spec r)|]. intros [x|e|] s4 [Hi4 Hf]; [|exact Hi4..].
    specialize (Hf x eq_refl). apply wp_bind. apply wp_modify. apply wp_bind.
    eapply (wp_mono _ (fun _ st' => ainv st')); [apply complete_d2h_ainv|by intros [|e|] s5 Hi5];
      [exact Hf|]. eapply (ainv_grow [] s4); done.
  - apply wp_bind, wp_modify, wp_ret. destruct H as [Hs Hin Hd Ho]. split; cbn; try done.
    apply Forall_app. split; [done|]. by constructor.
Qed.
Lemma keeps_nil_ainv {A} (m : M A) : ensures (keeps_inv []) m -> forall st, ainv st -> ainv (m st).2.
Proof. intros Hm st Hi. apply Hm; [constructor|done]. Qed.
Lemma invalidate_ainv st cb cookie : justified (a_trace st) cb cookie -> ainv st ->
  ainv (st <| a_trace ::= cons (CInvalidate cb cookie) |>).
Proof.
  intros Hj [Hs Hi Hd Ho]. split; cbn; [done| | |].
  - eapply Forall_impl; [exact Hi|]. intros x. apply (copied_app [_]).
  - eapply Forall_impl; [exact Hd|]. intros x. apply (finished_app [_]).
  - intros k (x & Hk & Hx)%Ho. exists x. split; [done|]. by apply (finished_app [_]).
Qed.
Lemma rpc_evict_attached m st : 
  wp (rpc_request_canonical_evict m) (fun o st' => still st st' /\ forall resp, o = Val resp ->
    a_trace st' = CRpc (ReqRequestCanonicalEvict m) (Ok (RespRequestCanonicalEvict resp)) :: a_trace st) st.
Proof.
  unfold rpc_request_canonical_evict, mismatch, wp. split.
  - apply (still_quiet (let* r := rpc (ReqRequestCanonicalEvict m) in
      match r with RespRequestCanonicalEvict x => ret x | _ => throw "rpc: reply opcode mismatch" end)). ensures.
  - intros resp. unfold bind, rpc. destruct (w_rpc (a_trace st) (ReqRequestCanonicalEvict m)) as [[]|]; try done.
    by intros [= <-].
Qed.
Lemma canonical_evict_ainv dev n s destr req cb cookie hash st :
  ainv st -> ainv (canonical_evict dev n s destr req cb cookie hash st).2.
Proof.
  intros Hi. enough (wp (canonical_evict dev n s destr req cb cookie hash) (fun _ st' => ainv st') st) by done.
  unfold canonical_evict. apply wp_bind.
  set (st0 := st <| a_trace ::= cons (CEvict dev n cb cookie (ce_local_tensor_id req) (ce_local_version req)) |>).
  change (wp (log _) ?Q st) with (Q (Val tt) st0). cbv beta iota.
  assert (Hi0 : ainv st0) by (by apply log_evict_ainv).
  apply wp_bind, wp_get. cbv zeta. apply wp_bind. eapply wp_mono; [apply rpc_evict_attached|].
  intros [resp|e|] s1 [H Hresp]; [|by eapply ainv_still..]. specialize (Hresp resp eq_refl).
  assert (Hi1 : ainv s1) by (by eapply ainv_still).
  destruct (ces_ok resp) eqn:Hok; cbn [negb]; [|exact Hi1].
  case_decide as Hact.
  { apply wp_bind. case_bool_decide as Ha; [|exact Hi1]. destruct (destr && callable cb) eqn:Hd; cbn [andb];
      rewrite Hd; [|exact Hi1].
    apply (invalidate_ainv s1 cb cookie); [|done]. right. eexists _, resp, dev, n, _, _, _. by rewrite Hresp. }
  clear Hact. case_decide; [exact Hi1|]. cbv zeta. unfold rpc_mark_d2h_submitted, mismatch.
  still_step dst H. still_step x2 H. still_step x3 H. still_step sq H. still_step now H. still_step x4 H.
  apply wp_bind. eapply wp_mono; [eapply (launch_d2h_spec _ _ _ _ _ _ _ _ _ _ st0); [reflexivity|exact H|exact Hi0]|]. intros [ev|e|] sl [Hil Hcp]; [|exact Hil..].
  set (r := mkInflightD2H 0 (ce_local_tensor_id req) (ce_local_version req) 0 n ev destr cb cookie 0 0).
  specialize (Hcp ev eq_refl r eq_refl eq_refl eq_refl eq_refl eq_refl eq_refl).
  apply wp_bind. eapply wp_mono; [by apply (sync_spec r)|]. intros [x|e|] s4 [Hi4 Hf]; [|exact Hi4..].
  specialize (Hf x eq_refl).
  (* from here on the copy stays finished *)
  match goal with |- wp ?m _ s4 => enough (ensures (keeps_inv [r]) m) as Hk by (by apply Hk; [constructor|]) end.
  assert (Hinv : ensures (keeps_inv [r]) (invalidate cb cookie)) by (apply (keeps_invalidate [r] r); by left).
  unfold rpc_mark_d2h_complete, rpc_commit_canonical_object, mismatch. ensures.
Qed.
Lemma restore_keeps l fuel tid ver dev n s wait : ensures (keeps_inv l) (restore fuel tid ver dev n s wait).
Proof. unfold restore, rpc_request_prefetch, rpc_mark_h2d_submitted, mismatch. ensures. Qed.
Lemma canonical_restore_keeps l fuel oid dev n s wait : ensures (keeps_inv l) (canonical_restore fuel oid dev n s wait).
Proof. unfold canonical_restore, rpc_release_canonical_restore, mismatch. ensures. Qed.
Lemma discard_keeps l tid ver : ensures (keeps_inv l) (discard tid ver).
Proof.
  unfold discard, rpc_release_lease, mismatch. ensures. apply keeps_modify. intros st'. cbn. split_and!; try done.
  intros k. rewrite lookup_delete_Some. tauto.
Qed.
Lemma heartbeat_keeps l : ensures (keeps_inv l) heartbeat_beat.
Proof. unfold heartbeat_beat, rpc_heartbeat, mismatch. ensures. Qed.
Lemma run_api_ainv o st : ainv st -> ainv (run_api o st).2.
Proof.
  intros Hi. destruct o; cbn [run_api]; unfold forget;
    try (apply keeps_nil_ainv; [|exact Hi]; unfold location, rpc_query_location, assert_no_inflight, release_canonical,
      register_job, seal_model_version, get_latest_sealed_version, get_manifest, pull_tensor, drop_canonical_version,
    rpc_register_job, rpc_seal_model_version, rpc_get_latest_sealed_version, rpc_get_manifest, rpc_pull_tensor, rpc_drop_canonical_version, rpc_release_canonical,
      mismatch; pose proof restore_keeps; pose proof canonical_restore_keeps; pose proof discard_keeps; solve [ensures]).
  - unfold bind. pose proof (evict_ainv dev_ptr nbytes stream destructive meta cb cookie wait st Hi) as He.
    by destruct (evict _ _ _ _ _ _ _ _ st) as [[]].
  - unfold bind. pose proof (canonical_evict_ainv dev_ptr nbytes stream destructive req cb cookie hash_on_commit st Hi) as He.
    by destruct (canonical_evict _ _ _ _ _ _ _ _ st) as [[]].
Qed.
Lemma astep_ainv st st' : astep st st' -> ainv st -> ainv st'.
Proof.
  intros [o s|s H1 H2|s|s] Hi; [by apply run_api_ainv|by apply progress_poll_ainv|by apply progress_flush_ainv|].
  apply keeps_nil_ainv; [apply heartbeat_keeps|done].
Qed.
Lemma quiet_mmap fd size : ensures quiet (mmap fd size).
Proof. intros st. split; try done. eexists [_]. split; [done|]. by apply Forall_singleton. Qed.
#[local] Hint Resolve quiet_mmap : agent.
Lemma still_cleanup : ensures still cleanup_mappings.
Proof. unfold cleanup_mappings. ensures. Qed.
#[local] Hint Resolve still_cleanup : agent.
Lemma construct_still : ensures still construct.
Proof.
  unfold construct, rpc_register_rank, or_cleanup, map_arena, map_control, take_ring, mismatch. ensures.
Qed.
Lemma reachable_ainv c st : agent_reachable c st -> ainv st.
Proof.
  intros (st0 & Hc & Hr). assert (Hi : ainv st0).
  { eapply (ainv_still (agent_zero c)); [split; try constructor; by intros k|]. exact (ensures_use _ _ _ _ _ construct_still Hc). }
  clear Hc. induction Hr as [|x y z Hxy _ IH]; [done|]. by eapply IH, astep_ainv.
Qed.
End Safety.

(** C5. Until the agent is destroyed, GPU storage is released only behind its copy.  In
    every execution of the agent before its destructor runs, as a sequence of whole
    calls and iterations of its threads, in every world (whatever the daemon answers and however CUDA calls
    fail), an invalidation of an owner's storage is preceded by that owner's
    eviction call, by the copy of the evicted bytes to the host, by an event
    recorded behind the copy on the same stream, and by the observation that this
    event completed; the one exception is an eviction the daemon answered with
    ATTACHED_EXISTING.  A tensor reported as offloaded has such a finished copy.  (The
    destructor invalidates without looking at the result of its last
    synchronisation: [AgentProps.shutdown_ignores_sync_error].) *)
Theorem invalidate_after_copy {W : World} (c : AgentConfig) (st : Agent) :
  agent_reachable c st ->
  (forall t2 cb cookie t1, a_trace st = t2 ++ CInvalidate cb cookie :: t1 -> justified t1 cb cookie) /\
  (forall tensor_id version, is_offloaded st tensor_id version = true ->
     exists r, tv_key (d_tensor_id r) (d_version r) = tv_key tensor_id version /\ finished (a_trace st) r).
Proof.
  intros [Hs _ _ Ho]%reachable_ainv. split.
  - intros t2 cb cookie t1 E. rewrite E in Hs. by eapply safe_split.
  - intros tid ver. unfold is_offloaded. destruct (a_offloaded st !! _) as [[]|] eqn:E; try done. intros _. by apply Ho.
Qed.
(** Tensor 9 evicted by rank 3 and completed by the progress thread, over the ring. *)
Definition evict9 : api := AEvict 4096 5000000 kInternalStream true (sample_meta 9) (Some 7) 55 false.
Definition evicted (w : World) : Agent := (@run_api w evict9 (start w)).2.
Definition completed (w : World) : Agent := (@progress_poll w (evicted w)).2.
Definition flushed (w : World) : Agent := (@progress_flush w (completed w)).2.
Lemma flushed_reachable w : @constructed w sample_agent (start w) ->
  a_done_d2h (evicted w) = [] -> a_done_h2d (evicted w) = [] -> @agent_reachable w sample_agent (flushed w).
Proof.
  intros Hc H1 H2. exists (start w). split; [exact Hc|].
  eapply rtc_l; [exact (@as_api w evict9 (start w))|]. eapply rtc_l; [exact (@as_poll w (evicted w) H1 H2)|].
  apply rtc_once. exact (@as_flush w (completed w)).
Qed.
Lemma invalidate_after_copy_witness :
  let st := flushed ring_world in
  (exists t2 t1, a_trace st = t2 ++ CInvalidate (Some 7) 55 :: t1 /\ justified t1 (Some 7) 55) /\ is_offloaded st 9 1 = true.
Proof.
  cbv zeta. split; [|vm_compute; reflexivity].
  exists (take 2 (a_trace (flushed ring_world))), (drop 3 (a_trace (flushed ring_world))).
  assert (E : a_trace (flushed ring_world) = take 2 (a_trace (flushed ring_world)) ++
                CInvalidate (Some 7) 55 :: drop 3 (a_trace (flushed ring_world))) by (vm_compute; reflexivity).
  assert (Hc : @constructed ring_world sample_agent (start ring_world)) by (vm_compute; reflexivity).
  assert (H1 : a_done_d2h (evicted ring_world) = []) by (vm_compute; reflexivity).
  assert (H2 : a_done_h2d (evicted ring_world) = []) by (vm_compute; reflexivity).
  split; [exact E|].
  exact (proj1 (@invalidate_after_copy ring_world sample_agent _ (flushed_reachable ring_world Hc H1 H2)) _ _ _ _ E).
Defined.

(** The destructor ignores a failed synchronisation of the event behind a copy and
    invalidates: here the device fails before the progress thread saw the copy
    complete, and the storage is released although nothing showed it copied. *)
Definition failed_world : World := {|
  w_rpc := @w_rpc ring_world; w_fds := @w_fds ring_world; w_connect := @w_connect ring_world;
  w_getpid := @w_getpid ring_world; w_gpu_numa_node := @w_gpu_numa_node ring_world;
  w_cuda tr c := match c with cudaEventSynchronize _ => 719 | _ => cudaSuccess end;
  w_handle := @w_handle ring_world; w_error_string := @w_error_string ring_world; w_mmap := @w_mmap ring_world;
  w_header := @w_header ring_world; w_ring := @w_ring ring_world; w_ring_head := @w_ring_head ring_world;
  w_slot_state := @w_slot_state ring_world; w_host_bytes := @w_host_bytes ring_world;
  w_now_real := @w_now_real ring_world; w_now_mono := @w_now_mono ring_world |}.
Definition seen_complete (c : call) : bool :=
  match c with
  | CCuda (cudaEventQuery _) e | CCuda (cudaEventSynchronize _) e => bool_decide (e = cudaSuccess)
  | _ => false
  end.
Definition invalidates (c : call) : bool := match c with CInvalidate _ _ => true | _ => false end.
Example shutdown_ignores_sync_error :
  let st := (@shutdown failed_world (evicted failed_world)).2 in
  List.filter invalidates (a_trace st) = [CInvalidate (Some 7) 55] /\ existsb seen_complete (a_trace st) = false.
Proof. vm_compute. split; reflexivity. Qed.
