(* ===== verification/AgentFlow.v ===== *)
(** * The agent's transfers: reports, accounting, restores

    [flush_exactly_once]: the progress thread reports and finalizes every finished
    transfer exactly once, by the ring or by RPC.  [inflight_accounted]: the bytes
    in flight are those of the recorded transfers.  [registered_once],
    [restore_reads_valid], [restore_terminates]. *)
From stdpp Require Import base gmap strings list pretty fin_sets relations.
From Stdlib Require Import ZArith Lia SpecFloat.
From S2P Require Import Prelude.
From S2P Require Import Ring.
From S2P Require Import Protocol.
From S2P Require Import ProtocolV2.
From S2P Require Import Rpc.
From S2P Require Import State.
From S2P Require Import Alloc.
From S2P Require Import Agent.
From S2P Require Import AgentLogic.
From S2P Require Import AgentWorld.
From S2P Require Import AgentProps.
Open Scope Z_scope.
Open Scope offload_scope.
Open Scope agent_scope.

(** ** What a trace reports *)
(** A completion: its event type, lease, tensor, version and slot. *)
Definition item : Type := Z * Z * Z * Z * Z.
Definition item_d (r : InflightD2H) : item :=
  (EVENT_D2H_COMPLETE, d_lease_id r, d_tensor_id r, d_version r, d_slot_id r).
Definition item_h (r : InflightH2D) : item :=
  (EVENT_H2D_COMPLETE, h_lease_id r, h_tensor_id r, h_version r, h_slot_id r).
Definition item_c (c : BatchCompletion) : item :=
  (bc_event_type c, bc_lease_id c, bc_tensor_id c, bc_version c, bc_slot_id c).
Definition handed_call (c : call) : list item :=
  match c with
  | CRingPush e => [(e_event_type e, e_lease_id e, e_tensor_id e, e_version e, e_slot_id e)]
  | CRpc (ReqMarkD2HComplete m) _ => [(EVENT_D2H_COMPLETE, dc_lease_id m, dc_tensor_id m, dc_version m, dc_slot_id m)]
  | CRpc (ReqMarkH2DComplete m) _ => [(EVENT_H2D_COMPLETE, hc_lease_id m, hc_tensor_id m, hc_version m, hc_slot_id m)]
  | CRpc (ReqBatchComplete m) _ => item_c <$> bq_completions m
  | _ => []
  end.
Definition handed (t : trace) : list item := t ≫= handed_call.
Definition invalidated (t : trace) : list (InvalidateCallback * Z) :=
  t ≫= (fun c => match c with CInvalidate cb k => [(cb, k)] | _ => [] end).
(** The owners to be told when the records are finalized. *)
Definition cookies (ds : list InflightD2H) : list (InvalidateCallback * Z) :=
  ds ≫= (fun r => if d_destructive r && callable (d_cb r) then [(d_cb r, d_cookie r)] else []).
Definition d_sum (ds : list InflightD2H) : Z := sumZ (d_nbytes <$> ds).
Definition h_sum (hs : list InflightH2D) : Z := sumZ (h_nbytes <$> hs).

(** The effect of reporting [it] and finalizing [ds] and [hs]; the counters are
    64-bit atomics. *)
Record effect (st st' : Agent) (it : list item) (ds : list InflightD2H) (hs : list InflightH2D) : Prop := {
  ef_trace : exists t, a_trace st' = t ++ a_trace st /\ handed t ≡ₚ it /\ invalidated t ≡ₚ cookies ds;
  ef_inflight : a_inflight_d2h st' = a_inflight_d2h st /\ a_inflight_h2d st' = a_inflight_h2d st;
  ef_done : a_done_d2h st' = a_done_d2h st /\ a_done_h2d st' = a_done_h2d st;
  ef_d2h_bytes : u64 (a_inflight_d2h_bytes st') = u64 (a_inflight_d2h_bytes st - d_sum ds);
  ef_h2d_bytes : u64 (a_inflight_h2d_bytes st') = u64 (a_inflight_h2d_bytes st - h_sum hs);
  ef_d2h_completed : u64 (a_d2h_completed st') = u64 (a_d2h_completed st + Z.of_nat (length ds));
  ef_h2d_completed : u64 (a_h2d_completed st') = u64 (a_h2d_completed st + Z.of_nat (length hs)) }.
Lemma handed_app t t' : handed (t ++ t') = handed t ++ handed t'.
Proof. apply bind_app. Qed.
Lemma invalidated_app t t' : invalidated (t ++ t') = invalidated t ++ invalidated t'.
Proof. apply bind_app. Qed.
Lemma cookies_app a b : cookies (a ++ b) = cookies a ++ cookies b.
Proof. apply bind_app. Qed.
Lemma d_sum_app a b : d_sum (a ++ b) = d_sum a + d_sum b.
Proof. unfold d_sum, sumZ. induction a as [|x a IH]; cbn in *; [lia|]. rewrite IH. lia. Qed.
Lemma h_sum_app a b : h_sum (a ++ b) = h_sum a + h_sum b.
Proof. unfold h_sum, sumZ. induction a as [|x a IH]; cbn in *; [lia|]. rewrite IH. lia. Qed.
(** Adding equal amounts to counters that agree modulo 2^64. *)
Lemma u64_add_congr x y d : u64 x = u64 y -> u64 (x + d) = u64 (y + d).
Proof. unfold u64. intros H. rewrite (Z.add_mod x), (Z.add_mod y), H by done. done. Qed.
Lemma u64_idem x : u64 (u64 x) = u64 x.
Proof. unfold u64. by rewrite Zmod_mod. Qed.
Lemma effect_trans st1 st2 st3 i1 i2 d1 d2 h1 h2 :
  effect st1 st2 i1 d1 h1 -> effect st2 st3 i2 d2 h2 -> effect st1 st3 (i1 ++ i2) (d1 ++ d2) (h1 ++ h2).
Proof.
  intros [(t1 & E1 & H1 & C1) [Ia Ib] [Da Db] B1 B1' N1 N1'] [(t2 & E2 & H2 & C2) [Ic Id] [Dc Dd] B2 B2' N2 N2']. split.
  - exists (t2 ++ t1). rewrite handed_app, invalidated_app, cookies_app. split_and!.
    + by rewrite E2, E1, app_assoc.
    + rewrite H2, H1. apply Permutation_app_comm.
    + rewrite C2, C1. apply Permutation_app_comm.
  - split; congruence.
  - split; congruence.
  - rewrite B2, d_sum_app. replace (a_inflight_d2h_bytes st1 - (d_sum d1 + d_sum d2))
      with (a_inflight_d2h_bytes st1 - d_sum d1 + - d_sum d2) by lia.
    rewrite <- (u64_add_congr _ _ _ B1). f_equal.
  - rewrite B2', h_sum_app. replace (a_inflight_h2d_bytes st1 - (h_sum h1 + h_sum h2))
      with (a_inflight_h2d_bytes st1 - h_sum h1 + - h_sum h2) by lia.
    rewrite <- (u64_add_congr _ _ _ B1'). f_equal.
  - rewrite N2, length_app, Nat2Z.inj_add, Z.add_assoc. by apply u64_add_congr.
  - rewrite N2', length_app, Nat2Z.inj_add, Z.add_assoc. by apply u64_add_congr.
Qed.
Lemma calm_silent t : calls_calm t -> handed t = [] /\ invalidated t = [].
Proof.
  induction 1 as [|c t Hc _ [IH1 IH2]]; [done|]. destruct c as [| r a| | | | | | |]; try done. by destruct r.
Qed.
Lemma effect_quiet st st' : quiet st st' -> effect st st' [] [] [].
Proof.
  intros [(t & E & Ht) ? ? ? ? ? ? ? ? ? ? ?]. split; try done.
  - exists t. destruct (calm_silent t Ht) as [-> ->]. by split_and!.
  - unfold d_sum, sumZ. cbn. f_equal. lia.
  - unfold h_sum, sumZ. cbn. f_equal. lia.
  - cbn. f_equal. lia.
  - cbn. f_equal. lia.
Qed.

#[export] Instance cookies_proper : Proper ((≡ₚ) ==> (≡ₚ)) cookies.
Proof. intros a b H. unfold cookies. by rewrite H. Qed.
Lemma sumZ_perm a b : a ≡ₚ b -> sumZ a = sumZ b.
Proof. unfold sumZ. induction 1; cbn; lia. Qed.
#[export] Instance d_sum_proper : Proper ((≡ₚ) ==> (=)) d_sum.
Proof. intros a b H. unfold d_sum. by apply sumZ_perm, fmap_Permutation. Qed.
#[export] Instance h_sum_proper : Proper ((≡ₚ) ==> (=)) h_sum.
Proof. intros a b H. unfold h_sum. by apply sumZ_perm, fmap_Permutation. Qed.

Section Flow.
Context `{W : World}.

(** An operation that returns [x] after reporting and finalizing what [F x] says. *)
Definition does {A} (m : M A) (F : A -> list item -> list InflightD2H -> list InflightH2D -> Prop) : Prop :=
  forall st, exists x st' it ds hs, m st = (Val x, st') /\ effect st st' it ds hs /\ F x it ds hs.
Definition nothing {A} (x : A) (it : list item) (ds : list InflightD2H) (hs : list InflightH2D) : Prop :=
  it = [] /\ ds = [] /\ hs = [].
Lemma does_bind {A B} (m : M A) (k : A -> M B) F G :
  does m F -> (forall x it ds hs, F x it ds hs -> does (k x) (fun y it' ds' hs' => G y (it ++ it') (ds ++ ds') (hs ++ hs'))) ->
  does (bind m k) G.
Proof.
  intros Hm Hk st. destruct (Hm st) as (x & st1 & it & ds & hs & E & Hef & HF).
  destruct (Hk x it ds hs HF st1) as (y & st2 & it' & ds' & hs' & E' & Hef' & HG).
  exists y, st2, (it ++ it'), (ds ++ ds'), (hs ++ hs'). unfold bind. rewrite E.
  split_and!; [done|by eapply effect_trans|done].
Qed.
Lemma does_mono {A} (m : M A) F G : does m F -> (forall x it ds hs, F x it ds hs -> G x it ds hs) -> does m G.
Proof. intros Hm HFG st. destruct (Hm st) as (x & st1 & it & ds & hs & E & Hef & HF). exists x, st1, it, ds, hs. auto. Qed.
(** Operations that cannot throw. *)
Definition total {A} (m : M A) : Prop := forall st, exists x, (m st).1 = Val x.
Lemma does_quiet {A} (m : M A) : ensures quiet m -> total m -> does m nothing.
Proof.
  intros Hq Ht st. destruct (Ht st) as [x Hx]. exists x, (m st).2, [], [], [].
  split_and!; [destruct (m st); by cbn in *; subst|apply effect_quiet, Hq|done].
Qed.
Lemma does_skip {A B} (m : M A) (k : A -> M B) G : does m nothing -> (forall x, does (k x) G) -> does (bind m k) G.
Proof. intros Hm Hk. eapply does_bind; [exact Hm|]. intros x it ds hs (-> & -> & ->). apply Hk. Qed.
Lemma does_ret {A} (x : A) (G : A -> list item -> list InflightD2H -> list InflightH2D -> Prop) : G x [] [] [] -> does (ret x) G.
Proof. intros HG st. exists x, st, [], [], []. split_and!; [done|by apply effect_quiet|done]. Qed.
Lemma total_catch {A} (m : M A) h : (forall st, (m st).1 <> Spin) -> (forall e, total (h e)) -> total (catch m h).
Proof.
  intros Hm Hh st. unfold catch. specialize (Hm st). destruct (m st) as [[x|e|] st']; [by exists x|apply Hh|done].
Qed.

(** A report by RPC: handed over once whatever becomes of the call. *)
Lemma does_report {A} (r : request) (get_resp : response -> M A) it :
  (forall a, handed_call (CRpc r a) = it) -> (forall x, ensures quiet (get_resp x)) ->
  (forall x st, (get_resp x st).1 <> Spin) ->
  does (best_effort (let* x := rpc r in get_resp x)) (fun _ it' ds hs => it' = it /\ ds = [] /\ hs = []).
Proof.
  intros Hr Hq Hs st. set (a := w_rpc (a_trace st) r). set (st1 := st <| a_trace ::= cons (CRpc r a) |>).
  assert (He : effect st st1 it [] []).
  { split; cbn; try (by split); try (f_equal; unfold d_sum, h_sum, sumZ; cbn; lia).
    exists [CRpc r a]. unfold handed, invalidated. cbn [mbind list_bind]. rewrite Hr, app_nil_r. by split_and!. }
  unfold best_effort, catch, bind, rpc. fold a. fold st1. destruct a as [x|m].
  - specialize (Hq x st1). specialize (Hs x st1). destruct (get_resp x st1) as [[y|e|] st2]; [| |done]; cbn in Hq;
      exists tt, st2, it, [], []; (split_and!; [done| |done..]); rewrite <- (app_nil_r it);
      (eapply (effect_trans _ _ _ _ _ [] [] [] []); [exact He|by apply effect_quiet]).
  - exists tt, st1, it, [], []. by split_and!.
Qed.

Lemma does_record_bw n s : does (record_bw n s) nothing.
Proof.
  apply does_quiet; [apply quiet_record_bw|]. intros st. unfold record_bw, bind, now_mono.
  case_decide; [by exists tt|]. destruct (SFleb _ _); by exists tt.
Qed.
Lemma does_finalize_d2h r : does (finalize_d2h r) (fun _ it ds hs => it = [] /\ ds = [r] /\ hs = []).
Proof.
  intros st. unfold finalize_d2h.
  set (st1 := (if d_destructive r && callable (d_cb r) then st <| a_trace ::= cons (CInvalidate (d_cb r) (d_cookie r)) |> else st)).
  set (st2 := st1 <| a_trace ::= cons (CCuda (cudaEventDestroy (d_ev r)) (w_cuda (a_trace st1) (cudaEventDestroy (d_ev r)))) |>).
  set (st3 := st2 <| a_offloaded ::= <[tv_key (d_tensor_id r) (d_version r) := true]> |>
    <| a_inflight_d2h_bytes ::= (fun b => u64 (b - d_nbytes r)) |> <| a_d2h_completed ::= (fun n => u64 (n + 1)) |>
    <| a_metrics ::= (fun f => <[kD2HBytes := u64 (f kD2HBytes + d_nbytes r)]> f) |>).
  destruct (does_record_bw (d_nbytes r) (d_submit_ns r) st3) as (x & st' & it & ds & hs & E & Hef & -> & -> & ->).
  exists x, st', [], [r], []. split_and!; try done.
  { unfold bind at 1. destruct (d_destructive r && callable (d_cb r)); exact E. }
  apply (effect_trans st st3 st' [] [] [r] [] [] []); [|exact Hef].
  assert (Ht : a_trace st3 = [CCuda (cudaEventDestroy (d_ev r)) (w_cuda (a_trace st1) (cudaEventDestroy (d_ev r)))] ++
    (if d_destructive r && callable (d_cb r) then [CInvalidate (d_cb r) (d_cookie r)] else []) ++ a_trace st).
  { unfold st3, st2, st1. cbn. by destruct (d_destructive r && callable (d_cb r)). }
  split.
  - eexists. rewrite app_assoc in Ht. split; [exact Ht|]. unfold cookies. cbn [mbind list_bind]. rewrite app_nil_r.
    destruct (d_destructive r && callable (d_cb r)); by split.
  - unfold st3, st2, st1. by destruct (d_destructive r && callable (d_cb r)).
  - unfold st3, st2, st1. by destruct (d_destructive r && callable (d_cb r)).
  - unfold st3, st2, st1, d_sum, sumZ. cbn. rewrite u64_idem.
    destruct (d_destructive r && callable (d_cb r)); f_equal; cbn; lia.
  - unfold st3, st2, st1, h_sum, sumZ. cbn. destruct (d_destructive r && callable (d_cb r)); f_equal; cbn; lia.
  - unfold st3, st2, st1. cbn. rewrite u64_idem. destruct (d_destructive r && callable (d_cb r)); f_equal; cbn; lia.
  - unfold st3, st2, st1. cbn. destruct (d_destructive r && callable (d_cb r)); f_equal; cbn; lia.
Qed.
Lemma does_finalize_h2d r : does (finalize_h2d r) (fun _ it ds hs => it = [] /\ ds = [] /\ hs = [r]).
Proof.
  intros st. unfold finalize_h2d.
  set (c := CCuda (cudaEventDestroy (h_ev r)) (w_cuda (a_trace st) (cudaEventDestroy (h_ev r)))).
  set (st3 := st <| a_trace ::= cons c |>
    <| a_inflight_h2d_bytes ::= (fun b => u64 (b - h_nbytes r)) |> <| a_h2d_completed ::= (fun n => u64 (n + 1)) |>
    <| a_metrics ::= (fun f => <[kH2DBytes := u64 (f kH2DBytes + h_nbytes r)]> f) |>).
  destruct (does_record_bw (h_nbytes r) (h_submit_ns r) st3) as (x & st' & it & ds & hs & E & Hef & -> & -> & ->).
  exists x, st', [], [], [r]. split_and!; try done.
  apply (effect_trans st st3 st' [] [] [] [] [r] []); [|exact Hef]. split; try (by split).
  - exists [c]. by split_and!.
  - cbn. unfold d_sum, sumZ. cbn. f_equal. lia.
  - cbn. rewrite u64_idem. unfold h_sum, sumZ. cbn. f_equal. lia.
  - cbn. f_equal. lia.
  - cbn. rewrite u64_idem. f_equal.
Qed.
(** A state that differs only in what [effect] does not mention. *)
Lemma effect_same st st' : a_trace st' = a_trace st -> a_inflight_d2h st' = a_inflight_d2h st ->
  a_inflight_h2d st' = a_inflight_h2d st -> a_done_d2h st' = a_done_d2h st -> a_done_h2d st' = a_done_h2d st ->
  a_inflight_d2h_bytes st' = a_inflight_d2h_bytes st -> a_inflight_h2d_bytes st' = a_inflight_h2d_bytes st ->
  a_d2h_completed st' = a_d2h_completed st -> a_h2d_completed st' = a_h2d_completed st -> effect st st' [] [] [].
Proof.
  intros Et ? ? ? ? B1 B2 N1 N2. split; try done; rewrite ?B1, ?B2, ?N1, ?N2;
    try (unfold d_sum, h_sum, sumZ; cbn; f_equal; lia).
  exists []. by rewrite Et.
Qed.
Lemma does_push_entry e : does (push_entry e) (fun ok it ds hs =>
  it = (if ok : bool then [(e_event_type e, e_lease_id e, e_tensor_id e, e_version e, e_slot_id e)] else []) /\ ds = [] /\ hs = []).
Proof.
  intros st. unfold push_entry, bind, get. destruct (a_comp_ring st) as [r|].
  2:{ exists false, st, [], [], []. split_and!; [done|by apply effect_quiet|done..]. }
  destruct (ring_push _ e) as [[] r'].
  - eexists true, _, _, [], []. split_and!; [reflexivity| |reflexivity..].
    apply (effect_trans _ (st <| a_comp_ring := Some r' |>) _ [] _ [] [] [] []); [by apply effect_same|].
    split; cbn; try (by split); try (f_equal; unfold d_sum, h_sum, sumZ; cbn; lia).
    exists [CRingPush e]. by split_and!.
  - eexists false, _, _, [], []. split_and!; [reflexivity| |reflexivity..]. by apply effect_same.
Qed.
Lemma does_modify_same f : (forall st, effect st (f st) [] [] []) -> does (modify f) nothing.
Proof. intros Hf st. exists tt, (f st), [], [], []. by split_and!. Qed.
Lemma does_now_real : does now_real nothing.
Proof. apply does_quiet; [apply quiet_now_real|]. intros st. by eexists. Qed.
Lemma does_get : does get nothing.
Proof. intros st. exists st, st, [], [], []. split_and!; [done|by apply effect_quiet|done]. Qed.
Lemma does_ring_push_d2h r : does (ring_push_d2h r) (fun ok it ds hs =>
  it = (if ok : bool then [item_d r] else []) /\ ds = [] /\ hs = []).
Proof.
  apply does_skip; [apply does_get|]. intros st. destruct (a_comp_ring st) as [ring|]; [|apply does_ret; by split_and!].
  apply does_skip; [apply does_now_real|]. intros now. eapply does_bind; [apply does_push_entry|].
  intros ok it ds hs (-> & -> & ->). apply does_skip.
  - destruct ok; [|apply does_ret; by split_and!]. apply does_modify_same. intros s. by apply effect_same.
  - intros _. apply does_ret. by rewrite app_nil_r.
Qed.
Lemma does_ring_push_h2d r : does (ring_push_h2d r) (fun ok it ds hs =>
  it = (if ok : bool then [item_h r] else []) /\ ds = [] /\ hs = []).
Proof.
  apply does_skip; [apply does_get|]. intros st. destruct (a_comp_ring st) as [ring|]; [|apply does_ret; by split_and!].
  apply does_skip; [apply does_now_real|]. intros now. apply does_push_entry.
Qed.
Lemma does_make_d2h r : does (make_d2h_completion r) (fun c it ds hs => item_c c = item_d r /\ nothing c it ds hs).
Proof. intros st. eexists _, st, [], [], []. split_and!; [reflexivity|by apply effect_quiet|done..]. Qed.
Lemma does_make_h2d r : does (make_h2d_completion r) (fun c it ds hs => item_c c = item_h r /\ nothing c it ds hs).
Proof. intros st. eexists _, st, [], [], []. split_and!; [reflexivity|by apply effect_quiet|done..]. Qed.

Lemma does_for_each_d2h l : does (for_each l finalize_d2h) (fun _ it ds hs => it = [] /\ ds = l /\ hs = []).
Proof.
  induction l as [|r l IH]; cbn [for_each]; [by apply does_ret|].
  eapply does_bind; [apply does_finalize_d2h|]. intros x it ds hs (-> & -> & ->).
  eapply does_mono; [exact IH|]. by intros y it ds hs (-> & -> & ->).
Qed.
Lemma does_for_each_h2d l : does (for_each l finalize_h2d) (fun _ it ds hs => it = [] /\ ds = [] /\ hs = l).
Proof.
  induction l as [|r l IH]; cbn [for_each]; [by apply does_ret|].
  eapply does_bind; [apply does_finalize_h2d|]. intros x it ds hs (-> & -> & ->).
  eapply does_mono; [exact IH|]. by intros y it ds hs (-> & -> & ->).
Qed.
Lemma does_finalize_all ds0 hs0 : does (let* _ := for_each ds0 finalize_d2h in for_each hs0 finalize_h2d)
  (fun _ it ds hs => it = [] /\ ds = ds0 /\ hs = hs0).
Proof.
  eapply does_bind; [apply does_for_each_d2h|]. intros x it ds hs (-> & -> & ->).
  eapply does_mono; [apply does_for_each_h2d|]. intros y it ds hs (-> & -> & ->). split_and!; cbn; by rewrite ?app_nil_r.
Qed.
Lemma does_collect {A} (make : A -> M BatchCompletion) (itm : A -> item) l :
  (forall r, does (make r) (fun c it ds hs => item_c c = itm r /\ nothing c it ds hs)) ->
  does (collect make l) (fun cs it ds hs => item_c <$> cs = itm <$> l /\ nothing cs it ds hs).
Proof.
  intros Hm. induction l as [|r l IH]; cbn [collect]; [by apply does_ret|].
  eapply does_bind; [apply Hm|]. intros c it ds hs (Hc & -> & -> & ->).
  eapply does_bind; [exact IH|]. intros cs it ds hs (Hcs & -> & -> & ->). apply does_ret. split; [|done].
  cbn. by rewrite Hc, Hcs.
Qed.
(** The records that did not fit are returned with their completions, the others
    are reported and finalized. *)
Lemma does_push_all {A} (push : A -> M bool) finalize make (itm : A -> item)
  (inj_d : list A -> list InflightD2H) (inj_h : list A -> list InflightH2D) l :
  (forall a b, inj_d (a ++ b) = inj_d a ++ inj_d b) -> (forall a b, inj_h (a ++ b) = inj_h a ++ inj_h b) ->
  (forall r, does (push r) (fun ok it ds hs => it = (if ok : bool then [itm r] else []) /\ ds = [] /\ hs = [])) ->
  (forall r, does (finalize r) (fun _ it ds hs => it = [] /\ ds = inj_d [r] /\ hs = inj_h [r])) ->
  (forall r, does (make r) (fun c it ds hs => item_c c = itm r /\ nothing c it ds hs)) ->
  inj_d [] = [] -> inj_h [] = [] ->
  does (push_all push finalize make l) (fun p it ds hs => exists pushed,
    it = itm <$> pushed /\ ds = inj_d pushed /\ hs = inj_h pushed /\ item_c <$> p.1 = itm <$> p.2 /\ pushed ++ p.2 ≡ₚ l).
Proof.
  intros Hd Hh Hp Hf Hm Hd0 Hh0. induction l as [|r l IH]; cbn [push_all].
  { apply does_ret. exists []. by rewrite Hd0, Hh0. }
  eapply does_bind; [apply Hp|]. intros ok it ds hs (-> & -> & ->). destruct ok.
  - eapply does_bind; [apply Hf|]. intros x it ds hs (-> & -> & ->). eapply does_mono; [exact IH|].
    intros p it ds hs (pushed & -> & -> & -> & Hc & Hperm). exists (r :: pushed).
    split_and!; [done|by rewrite <- Hd|by rewrite <- Hh|done|]. cbn. by rewrite Hperm.
  - eapply does_bind; [apply Hm|]. intros c it ds hs (Hc & -> & -> & ->). eapply does_bind; [exact IH|].
    intros p it ds hs (pushed & -> & -> & -> & Hcs & Hperm). apply does_ret. exists pushed.
    rewrite !app_nil_r. split_and!; [done..| |].
    + cbn. by rewrite Hc, Hcs.
    + cbn [snd]. by rewrite <- Permutation_middle, Hperm.
Qed.
(** ** The progress thread's flush *)
Definition flushes (ds0 : list InflightD2H) (hs0 : list InflightH2D) {A} (x : A) (it : list item)
  (ds : list InflightD2H) (hs : list InflightH2D) : Prop :=
  it ≡ₚ (item_d <$> ds0) ++ (item_h <$> hs0) /\ ds ≡ₚ ds0 /\ hs ≡ₚ hs0.
Lemma does_complete_d2h r : does (complete_d2h r) (flushes [r] []).
Proof.
  apply does_skip; [apply does_get|]. intros st. apply does_skip; [apply does_now_real|]. intros now.
  eapply does_bind; [apply (does_report _ _ [item_d r]); [done|..]|].
  - intros x. unfold mismatch. ensures.
  - intros x s. by destruct x.
  - intros x it ds hs (-> & -> & ->). eapply does_mono; [apply does_finalize_d2h|]. by intros y it ds hs (-> & -> & ->).
Qed.
Lemma does_complete_h2d r : does (complete_h2d r) (flushes [] [r]).
Proof.
  apply does_skip; [apply does_get|]. intros st. apply does_skip; [apply does_now_real|]. intros now.
  eapply does_bind; [apply (does_report _ _ [item_h r]); [done|..]|].
  - intros x. unfold mismatch. ensures.
  - intros x s. by destruct x.
  - intros x it ds hs (-> & -> & ->). eapply does_mono; [apply does_finalize_h2d|]. by intros y it ds hs (-> & -> & ->).
Qed.
Lemma does_batch m : does (best_effort (rpc_batch_complete m))
  (fun _ it ds hs => it = item_c <$> bq_completions m /\ ds = [] /\ hs = []).
Proof.
  apply does_report; [done|intros x; unfold mismatch; ensures|intros x s; by destruct x].
Qed.
(** One BatchComplete for the completions, then the local finalization. *)
Lemma does_batch_finalize rank epoch cs ds0 hs0 :
  does (let* _ := best_effort (rpc_batch_complete (mkBatchCompleteRequest rank epoch cs)) in
        let* _ := for_each ds0 finalize_d2h in for_each hs0 finalize_h2d)
    (fun _ it ds hs => it = item_c <$> cs /\ ds = ds0 /\ hs = hs0).
Proof.
  eapply does_bind; [apply does_batch|]. intros x it ds hs (-> & -> & ->).
  eapply does_mono; [apply does_finalize_all|]. intros y it ds hs (-> & -> & ->). by rewrite app_nil_r.
Qed.
Lemma does_flush ds0 hs0 : does (flush_completions_batch ds0 hs0) (flushes ds0 hs0).
Proof.
  unfold flush_completions_batch. apply does_skip; [apply does_get|]. intros st.
  assert (Hring : does (
    let* of_d2h := push_all ring_push_d2h finalize_d2h make_d2h_completion ds0 in
    let* of_h2d := push_all ring_push_h2d finalize_h2d make_h2d_completion hs0 in
    match of_d2h.1 ++ of_h2d.1 with
    | [] => ret tt
    | completions =>
        let* _ := best_effort (rpc_batch_complete (mkBatchCompleteRequest (a_rank_id st) (a_rank_epoch st) completions)) in
        let* _ := for_each of_d2h.2 finalize_d2h in
        for_each of_h2d.2 finalize_h2d
    end) (flushes ds0 hs0)).
  { eapply does_bind; [apply (does_push_all _ _ _ item_d id (fun _ => [])); intros; try done;
      [apply does_ring_push_d2h|apply does_finalize_d2h|apply does_make_d2h]|].
    intros p it ds hs (pd & -> & -> & -> & Hc1 & Hp1).
    eapply does_bind; [apply (does_push_all _ _ _ item_h (fun _ => []) id); intros; try done;
      [apply does_ring_push_h2d|apply does_finalize_h2d|apply does_make_h2d]|].
    intros q it ds hs (ph & -> & -> & -> & Hc2 & Hp2).
    eapply does_mono with (F := fun _ it ds hs => it = item_c <$> (p.1 ++ q.1) /\ ds = p.2 /\ hs = q.2).
    - destruct (p.1 ++ q.1) eqn:Epq; [|apply does_batch_finalize].
      apply app_eq_nil in Epq as [Ep Eq]. rewrite Ep in Hc1. rewrite Eq in Hc2. symmetry in Hc1, Hc2.
      apply fmap_nil_inv in Hc1 as ->, Hc2 as ->. by apply does_ret.
    - intros x it ds hs (-> & -> & ->). unfold flushes. cbn [id app]. rewrite fmap_app, Hc1, Hc2. split_and!.
      + rewrite <- Hp1, <- Hp2, !fmap_app. solve_Permutation.
      + done.
      + done. }
  assert (Hrpc : does (
    let* c1 := collect make_d2h_completion ds0 in
    let* c2 := collect make_h2d_completion hs0 in
    let* _ := best_effort (rpc_batch_complete (mkBatchCompleteRequest (a_rank_id st) (a_rank_epoch st) (c1 ++ c2))) in
    let* _ := for_each ds0 finalize_d2h in
    for_each hs0 finalize_h2d) (flushes ds0 hs0)).
  { eapply does_bind; [apply (does_collect _ item_d), does_make_d2h|]. intros c1 it ds hs (Hc1 & -> & -> & ->).
    eapply does_bind; [apply (does_collect _ item_h), does_make_h2d|]. intros c2 it ds hs (Hc2 & -> & -> & ->).
    eapply does_mono; [apply does_batch_finalize|]. intros x it ds hs (-> & -> & ->).
    unfold flushes. cbn [app]. by rewrite fmap_app, Hc1, Hc2. }
  destruct ds0 as [|r1 [|r2 ds0]], hs0 as [|r3 [|r4 hs0]]; try (by apply does_ret);
    destruct (a_comp_ring st); try exact Hring; try exact Hrpc; [apply does_complete_h2d|apply does_complete_d2h].
Qed.
Lemma flush_effect ds hs st : exists st' it, flush_completions_batch ds hs st = (Val tt, st') /\
  effect st st' it ds hs /\ it ≡ₚ (item_d <$> ds) ++ (item_h <$> hs).
Proof.
  destruct (does_flush ds hs st) as ([] & st' & it & ds' & hs' & E & [(t & Et & H1 & H2) Hi Hd B1 B2 N1 N2] & Hit & Hds & Hhs).
  exists st', it. split_and!; [done| |done]. rewrite Hds in B1, N1, H2. rewrite Hhs in B2, N2.
  split; try done. by exists t.
Qed.
End Flow.

(** C21. The progress thread hands every finished transfer over exactly once.  In
    any world and any state, flushing a batch returns (no failure of the daemon
    escapes; callbacks return), the completions it reports, by a push into the ring
    or by an RPC call whatever that call answers, are those of the batch, once each, the owners of its destructive evictions
    are told once each, and the counters of completed transfers and of bytes in
    flight move by the batch. *)
Theorem flush_exactly_once {W : World} (ds : list InflightD2H) (hs : list InflightH2D) (st : Agent) :
  exists st' t, flush_completions_batch ds hs st = (Val tt, st') /\ a_trace st' = t ++ a_trace st /\
    handed t ≡ₚ (item_d <$> ds) ++ (item_h <$> hs) /\ invalidated t ≡ₚ cookies ds /\
    u64 (a_d2h_completed st') = u64 (a_d2h_completed st + Z.of_nat (length ds)) /\
    u64 (a_h2d_completed st') = u64 (a_h2d_completed st + Z.of_nat (length hs)) /\
    u64 (a_inflight_d2h_bytes st') = u64 (a_inflight_d2h_bytes st - d_sum ds) /\
    u64 (a_inflight_h2d_bytes st') = u64 (a_inflight_h2d_bytes st - h_sum hs).
Proof.
  destruct (flush_effect ds hs st) as (st' & it & E & [(t & Et & H1 & H2) Hi Hd B1 B2 N1 N2] & Hit).
  exists st', t. split_and!; try done. by rewrite H1.
Qed.

(** ** Bytes in flight *)
Section Accounting.
Context `{W : World}.
(** The counters cover the recorded transfers and [xd], [xh] more bytes. *)
Definition acct (xd xh : Z) (st : Agent) : Prop :=
  u64 (a_inflight_d2h_bytes st) = u64 (d_sum (a_inflight_d2h st) + xd) /\
  u64 (a_inflight_h2d_bytes st) = u64 (h_sum (a_inflight_h2d st) + xh).
Definition no_done (st : Agent) : Prop := a_done_d2h st = [] /\ a_done_h2d st = [].
(** The transfers the progress thread holds are still in flight. *)
Definition accounted (st : Agent) : Prop := acct (d_sum (a_done_d2h st)) (h_sum (a_done_h2d st)) st.
Lemma acct_quiet xd xh st st' : quiet st st' -> acct xd xh st -> acct xd xh st'.
Proof. intros [_ E1 E2 _ _ _ E3 E4 _ _ _ _]. unfold acct. by rewrite E1, E2, E3, E4. Qed.
Lemma acct_effect xd xh it ds hs st st' : effect st st' it ds hs ->
  acct (xd + d_sum ds) (xh + h_sum hs) st -> acct xd xh st'.
Proof.
  intros [_ [E1 E2] _ B1 B2 _ _] [H1 H2]. unfold acct. rewrite E1, E2, B1, B2.
  apply (u64_add_congr _ _ (- d_sum ds)) in H1. apply (u64_add_congr _ _ (- h_sum hs)) in H2. split.
  - rewrite <- Z.add_opp_r, H1. f_equal. lia.
  - rewrite <- Z.add_opp_r, H2. f_equal. lia.
Qed.
(** The balance is kept, and what the progress thread holds is untouched. *)
Definition bal (st st' : Agent) : Prop :=
  a_done_d2h st' = a_done_d2h st /\ a_done_h2d st' = a_done_h2d st /\
  forall xd xh, acct xd xh st -> acct xd xh st'.
#[local] Instance bal_preorder : PreOrder bal.
Proof.
  split; [by intros st|]. intros x y z (E1 & E2 & H1) (E3 & E4 & H2). split_and!; [congruence..|]. auto.
Qed.
Lemma bal_quiet {A} (m : M A) : ensures quiet m -> ensures bal m.
Proof.
  intros Hm st. pose proof (Hm st) as Hq. split_and!; [by destruct Hq..|]. intros xd xh. by apply acct_quiet.
Qed.
Lemma bal_modify f : (forall st, a_done_d2h (f st) = a_done_d2h st /\ a_done_h2d (f st) = a_done_h2d st /\
    a_inflight_d2h (f st) = a_inflight_d2h st /\ a_inflight_h2d (f st) = a_inflight_h2d st /\
    a_inflight_d2h_bytes (f st) = a_inflight_d2h_bytes st /\ a_inflight_h2d_bytes (f st) = a_inflight_h2d_bytes st) ->
  ensures bal (modify f).
Proof.
  intros H st. destruct (H st) as (? & ? & E1 & E2 & E3 & E4). split_and!; [done..|].
  intros xd xh. unfold acct. cbn. by rewrite E1, E2, E3, E4.
Qed.
Lemma bal_rpc r : ensures bal (rpc r).
Proof. intros st. unfold rpc. by destruct (w_rpc (a_trace st) r). Qed.
Lemma bal_log c : ensures bal (log c).
Proof. by intros st. Qed.
#[local] Hint Resolve bal_rpc bal_log : agent.
#[local] Hint Extern 1 (ensures bal (modify _)) => apply bal_modify; intros; cbn; tauto : agent.
#[local] Hint Extern 2 (ensures bal _) => apply bal_quiet; solve [eauto with agent] : agent.
Ltac bal_step x H :=
  let st := fresh "st" in let H' := fresh "H" in let H0 := fresh "H" in
  apply wp_bind; eapply (wp_ensures bal); [solve [ensures]|]; intros [x|?|] st H';
  [rename H into H0; pose proof (transitivity H0 H') as H; clear H0 H'
  |by exact (transitivity H H')..].

(** [n] more bytes are in flight than recorded. *)
Definition owes_d (n : Z) (st st' : Agent) : Prop :=
  a_done_d2h st' = a_done_d2h st /\ a_done_h2d st' = a_done_h2d st /\
  forall xd xh, acct xd xh st -> acct (xd + n) xh st'.
Definition owes_h (n : Z) (st st' : Agent) : Prop :=
  a_done_d2h st' = a_done_d2h st /\ a_done_h2d st' = a_done_h2d st /\
  forall xd xh, acct xd xh st -> acct xd (xh + n) st'.
Lemma owes_d_complete n r st st' : d_nbytes r = n -> owes_d n st st' -> bal st (complete_d2h r st').2.
Proof.
  intros Hn (E1 & E2 & H). destruct (does_complete_d2h r st') as (x & s & it & ds & hs & E & Hef & _ & Hds & Hhs).
  rewrite E. cbn. destruct Hef as [Ht Hi [D1 D2] B1 B2 N1 N2]. split_and!; [congruence..|]. intros xd xh Ha.
  apply (acct_effect xd xh it ds hs st'); [by split|]. rewrite Hds, Hhs.
  replace (d_sum [r]) with n by (unfold d_sum, sumZ; cbn; lia). replace (xh + h_sum []) with xh by (unfold h_sum, sumZ; cbn; lia).
  auto.
Qed.
Lemma owes_h_complete n r st st' : h_nbytes r = n -> owes_h n st st' -> bal st (complete_h2d r st').2.
Proof.
  intros Hn (E1 & E2 & H). destruct (does_complete_h2d r st') as (x & s & it & ds & hs & E & Hef & _ & Hds & Hhs).
  rewrite E. cbn. destruct Hef as [Ht Hi [D1 D2] B1 B2 N1 N2]. split_and!; [congruence..|]. intros xd xh Ha.
  apply (acct_effect xd xh it ds hs st'); [by split|]. rewrite Hds, Hhs.
  replace (h_sum [r]) with n by (unfold h_sum, sumZ; cbn; lia). replace (xd + d_sum []) with xd by (unfold d_sum, sumZ; cbn; lia).
  auto.
Qed.
Lemma owes_d_push n r st st' : d_nbytes r = n -> owes_d n st st' ->
  bal st (st' <| a_inflight_d2h ::= (fun l => l ++ [r]) |>).
Proof.
  intros <- (E1 & E2 & H). split_and!; [done..|]. intros xd xh Ha. destruct (H xd xh Ha) as [H1 H2]. split; [|exact H2].
  change (u64 (a_inflight_d2h_bytes st') = u64 (d_sum (a_inflight_d2h st' ++ [r]) + xd)).
  rewrite d_sum_app, H1. change (d_sum [r]) with (d_nbytes r + 0). f_equal. lia.
Qed.
Lemma owes_h_push n r st st' : h_nbytes r = n -> owes_h n st st' ->
  bal st (st' <| a_inflight_h2d ::= (fun l => l ++ [r]) |>).
Proof.
  intros <- (E1 & E2 & H). split_and!; [done..|]. intros xd xh Ha. destruct (H xd xh Ha) as [H1 H2]. split; [exact H1|].
  change (u64 (a_inflight_h2d_bytes st') = u64 (h_sum (a_inflight_h2d st' ++ [r]) + xh)).
  rewrite h_sum_app, H2. change (h_sum [r]) with (h_nbytes r + 0). f_equal. lia.
Qed.

(** A wait for an event does not fail. *)
Context (sync_ok : forall tr ev, w_cuda tr (cudaEventSynchronize ev) = cudaSuccess).
Lemma sync_total text ev st : exists st', cuda_check text (cudaEventSynchronize ev) st = (Val tt, st') /\ quiet st st'.
Proof using sync_ok.
  pose proof (quiet_cuda_check text (cudaEventSynchronize ev) st) as Hq.
  unfold cuda_check, bind, cuda in *. rewrite sync_ok in *. eexists. split; [reflexivity|]. exact Hq.
Qed.
Lemma evict_bal dev n s destr meta cb cookie wait : ensures bal (evict dev n s destr meta cb cookie wait).
Proof using sync_ok.
  intros st. enough (wp (evict dev n s destr meta cb cookie wait) (fun _ st' => bal st st') st) by done.
  unfold evict. assert (H : bal st st) by reflexivity. unfold rpc_request_offload, rpc_mark_d2h_submitted, mismatch.
  bal_step x0 H. bal_step st1 H. cbv zeta. bal_step resp H. destruct (_ || _); [exact H|].
  bal_step x1 H. bal_step dst H. bal_step x2 H. bal_step sq H. bal_step now H. bal_step x3 H. bal_step sns H. bal_step ev H.
  (* from the counter's increase on nothing fails *)
  apply wp_bind. apply wp_modify. apply wp_bind. apply wp_modify. unfold next_complete_seq.
  apply wp_bind. apply wp_bind. apply wp_get. apply wp_bind. apply wp_modify. apply wp_ret. cbv zeta.
  apply wp_bind. apply wp_modify. set (r := mkInflightD2H _ _ _ _ _ _ _ _ _ _ _).
  match type of H with bal _ ?sx => set (s0 := sx) in * end.
  match goal with |- wp _ _ ?sx => set (s5 := sx) end.
  assert (Ho : owes_d n st s5).
  { destruct H as (E1 & E2 & H). split_and!; [exact E1|exact E2|]. intros xd xh Ha. destruct (H xd xh Ha) as [H1 H2].
    split; [|exact H2]. change (u64 (u64 (a_inflight_d2h_bytes s0 + n)) = u64 (d_sum (a_inflight_d2h s0) + (xd + n))).
    rewrite u64_idem, (u64_add_congr _ _ n H1). f_equal. lia. }
  clearbody s5. destruct wait.
  - apply wp_bind. destruct (sync_total sync_text ev s5) as (s6 & E6 & Hq). unfold wp at 1. rewrite E6. cbn [fst snd].
    apply wp_bind. apply wp_modify. apply wp_bind.
    match goal with |- wp (complete_d2h r) _ ?sx => assert (Ho' : owes_d n st sx) end.
    { destruct Ho as (E1 & E2 & Ho). destruct Hq. split_and!; cbn; [congruence..|]. intros xd xh Ha.
      destruct (Ho xd xh Ha). unfold acct. cbn. by rewrite q_inflight_d2h, q_inflight_h2d, q_d2h_bytes, q_h2d_bytes. }
    apply (wp_mono _ (fun _ st' => bal st st')); [by apply (owes_d_complete n r)|by intros [] ? ?].
  - apply wp_bind. apply wp_modify. apply wp_ret. by apply (owes_d_push n r).
Qed.
Lemma restore_bal fuel tid ver dev n s wait : ensures bal (restore fuel tid ver dev n s wait).
Proof using sync_ok.
  intros st. enough (wp (restore fuel tid ver dev n s wait) (fun _ st' => bal st st') st) by done.
  unfold restore. assert (H : bal st st) by reflexivity. unfold rpc_request_prefetch, rpc_mark_h2d_submitted, mismatch.
  bal_step st1 H. cbv zeta. bal_step x0 H. bal_step presp0 H. destruct (negb _); [exact H|].
  bal_step t0 H. bal_step rs H. destruct rs as [presp|result]; [|exact H].
  bal_step sg H. case_decide; [exact H|]. bal_step x1 H. set (cb := if decide _ then _ else _).
  bal_step src H. bal_step x2 H. bal_step sq H. bal_step now H. bal_step x3 H. bal_step sns H. bal_step ev H.
  apply wp_bind. apply wp_modify. apply wp_bind. apply wp_modify. unfold next_complete_seq.
  apply wp_bind. apply wp_bind. apply wp_get. apply wp_bind. apply wp_modify. apply wp_ret.
  set (r := mkInflightH2D _ _ _ _ _ _ _ _ _).
  match type of H with bal _ ?sx => set (s0 := sx) in * end.
  match goal with |- wp _ _ ?sx => set (s5 := sx) end.
  assert (Ho : owes_h cb st s5).
  { destruct H as (E1 & E2 & H). split_and!; [exact E1|exact E2|]. intros xd xh Ha. destruct (H xd xh Ha) as [H1 H2].
    split; [exact H1|]. change (u64 (u64 (a_inflight_h2d_bytes s0 + cb)) = u64 (h_sum (a_inflight_h2d s0) + (xh + cb))).
    rewrite u64_idem, (u64_add_congr _ _ cb H2). f_equal. lia. }
  clearbody s5. apply wp_bind. apply (wp_mono _ (fun _ st' => bal st st')); [|by intros [] ? ?]. destruct wait.
  - apply wp_bind. destruct (sync_total sync_text ev s5) as (s6 & E6 & Hq). unfold wp at 1. rewrite E6. cbn [fst snd].
    apply wp_bind. apply wp_modify.
    match goal with |- wp (complete_h2d r) _ ?sx => assert (Ho' : owes_h cb st sx) end.
    { destruct Ho as (E1 & E2 & Ho). destruct Hq. split_and!; cbn; [congruence..|]. intros xd xh Ha.
      destruct (Ho xd xh Ha). unfold acct. cbn. by rewrite q_inflight_d2h, q_inflight_h2d, q_d2h_bytes, q_h2d_bytes. }
    by apply (owes_h_complete cb r).
  - apply wp_modify. by apply (owes_h_push cb r).
Qed.
Lemma run_api_bal o : ensures bal (run_api o).
Proof using sync_ok.
  destruct o; cbn [run_api]; unfold forget, location, rpc_query_location, assert_no_inflight, release_canonical,
    register_job, seal_model_version, get_latest_sealed_version, get_manifest, pull_tensor, drop_canonical_version,
    rpc_register_job, rpc_seal_model_version, rpc_get_latest_sealed_version, rpc_get_manifest, rpc_pull_tensor, rpc_drop_canonical_version, rpc_release_canonical,
    discard, rpc_release_lease, canonical_evict, canonical_restore, rpc_request_canonical_evict, rpc_mark_d2h_submitted,
    rpc_mark_d2h_complete, rpc_commit_canonical_object, rpc_release_canonical_restore, invalidate, mismatch;
    pose proof evict_bal; pose proof restore_bal; ensures.
Qed.
(** A pass over an inflight list takes the dropped bytes off the counter. *)
Lemma poll_events_sum {A} (ev nb : A -> Z) (f : Z -> Agent -> Agent) (bytes : Agent -> Z) :
  (forall n st, bytes (f n st) = u64 (bytes st - n)) ->
  (forall c st, bytes (st <| a_trace ::= cons c |>) = bytes st) -> forall l st dn wt st',
  poll_events ev nb (fun n => modify (f n)) l st = (Val (dn, wt), st') ->
  u64 (bytes st') = u64 (bytes st - sumZ (nb <$> l) + sumZ (nb <$> dn) + sumZ (nb <$> wt)).
Proof.
  intros Hf Hc l. induction l as [|r l IH]; intros st dn wt st'; cbn [poll_events].
  { intros [= <- <- <-]. cbn. f_equal. lia. }
  unfold bind at 1, cuda at 1. cbv zeta.
  set (st1 := st <| a_trace ::= cons _ |>). assert (E1 : bytes st1 = bytes st) by apply Hc.
  case_decide; [|case_decide].
  - unfold bind. destruct (poll_events ev nb _ l st1) as [[[dn' wt']|e|] s2] eqn:E; try done.
    intros [= <- <- <-]. rewrite (IH _ _ _ _ E), E1. cbn [fst snd]. rewrite !fmap_cons, !sumZ_cons. f_equal. lia.
  - unfold bind. destruct (poll_events ev nb _ l st1) as [[[dn' wt']|e|] s2] eqn:E; try done.
    intros [= <- <- <-]. rewrite (IH _ _ _ _ E), E1. cbn [fst snd]. rewrite !fmap_cons, !sumZ_cons. f_equal. lia.
  - unfold bind at 1, cuda at 1. cbv zeta. unfold bind at 1, modify at 1. cbv beta iota. intros E.
    rewrite (IH _ _ _ _ E), Hf, Hc, E1, fmap_cons, sumZ_cons. unfold Z.sub.
    rewrite <- !Z.add_assoc. rewrite (u64_add_congr (u64 (bytes st + - nb r)) (bytes st + - nb r) _ (u64_idem _)). f_equal. lia.
Qed.
Lemma poll_events_frame {A B} (ev nb : A -> Z) (f : Z -> Agent -> Agent) (g : Agent -> B) :
  (forall n st, g (f n st) = g st) -> (forall c st, g (st <| a_trace ::= cons c |>) = g st) -> forall l st,
  g (poll_events ev nb (fun n => modify (f n)) l st).2 = g st.
Proof.
  intros Hf Hc l st.
  assert (PreOrder (fun s s' => g s' = g s)) by (split; [by intros ?|intros ? ? ? ? ?; congruence]).
  enough (ensures (fun s s' => g s' = g s) (poll_events ev nb (fun n => modify (f n)) l)) as Hens by apply Hens. clear st.
  assert (Hcuda : forall c, ensures (fun s s' => g s' = g s) (cuda c)) by (intros c s; apply Hc).
  assert (Hm : forall n, ensures (fun s s' => g s' = g s) (modify (f n))) by (intros n s; apply Hf).
  induction l as [|r l IH]; cbn [poll_events]; ensures; auto.
Qed.
Lemma progress_poll_accounted st : no_done st -> accounted st -> accounted (progress_poll st).2.
Proof.
  intros [Hd0 Hh0]. unfold accounted at 1. rewrite Hd0, Hh0. intros [H1 H2].
  change (d_sum []) with 0 in H1. change (h_sum []) with 0 in H2. rewrite Z.add_0_r in H1, H2.
  unfold progress_poll. unfold bind at 1, get at 1. cbv beta iota.
  set (fd := fun n st => st <| a_inflight_d2h_bytes ::= (fun b => u64 (b - n)) |>).
  set (fh := fun n st => st <| a_inflight_h2d_bytes ::= (fun b => u64 (b - n)) |>).
  destruct (poll_events_spec d_ev d_nbytes fd ltac:(intros n s; by split) (a_inflight_d2h st) st)
    as (dn & wt & st1 & t1 & E1 & P1 & _).
  pose proof (poll_events_sum d_ev d_nbytes fd a_inflight_d2h_bytes ltac:(done) ltac:(done) _ _ _ _ _ E1) as S1.
  pose proof (poll_events_frame d_ev d_nbytes fd a_inflight_h2d_bytes ltac:(done) ltac:(done) (a_inflight_d2h st) st) as F1.
  rewrite E1 in F1. cbn [snd] in F1. change (poll_events d_ev d_nbytes drop_d2h (a_inflight_d2h st) st = (Val (dn, wt), st1)) in E1.
  unfold bind at 1. rewrite E1. unfold bind at 1, modify at 1. cbv beta iota.
  set (st2 := st1 <| a_inflight_d2h := _ |> <| a_done_d2h := _ |>).
  destruct (poll_events_spec h_ev h_nbytes fh ltac:(intros n s; by split) (a_inflight_h2d st) st2)
    as (dn2 & wt2 & st3 & t2 & E2 & P2 & _).
  pose proof (poll_events_sum h_ev h_nbytes fh a_inflight_h2d_bytes ltac:(done) ltac:(done) _ _ _ _ _ E2) as S2.
  pose proof (poll_events_frame h_ev h_nbytes fh a_inflight_d2h_bytes ltac:(done) ltac:(done) (a_inflight_h2d st) st2) as F2.
  rewrite E2 in F2. cbn [snd] in F2. change (poll_events h_ev h_nbytes drop_h2d (a_inflight_h2d st) st2 = (Val (dn2, wt2), st3)) in E2.
  destruct P2 as [Pi2 _ Pd2 _ _].
  unfold bind at 1. rewrite E2. unfold accounted, acct, modify. cbn [snd]. split.
  - change (u64 (a_inflight_d2h_bytes st3) = u64 (d_sum (a_inflight_d2h st3) + d_sum (a_done_d2h st3))).
    rewrite Pi2, Pd2, F2. change (a_inflight_d2h_bytes st2) with (a_inflight_d2h_bytes st1). rewrite S1.
    change (sumZ (d_nbytes <$> a_inflight_d2h st)) with (d_sum (a_inflight_d2h st)).
    change (u64 (a_inflight_d2h_bytes st - d_sum (a_inflight_d2h st) + d_sum dn + d_sum wt) = u64 (d_sum wt + d_sum dn)).
    apply (u64_add_congr _ _ (- d_sum (a_inflight_d2h st) + d_sum dn + d_sum wt)) in H1.
    replace (a_inflight_d2h_bytes st - d_sum (a_inflight_d2h st) + d_sum dn + d_sum wt)
      with (a_inflight_d2h_bytes st + (- d_sum (a_inflight_d2h st) + d_sum dn + d_sum wt)) by lia.
    rewrite H1. f_equal. lia.
  - change (u64 (a_inflight_h2d_bytes st3) = u64 (h_sum wt2 + h_sum dn2)). rewrite S2.
    change (a_inflight_h2d_bytes st2) with (a_inflight_h2d_bytes st1). rewrite F1.
    change (u64 (a_inflight_h2d_bytes st - h_sum (a_inflight_h2d st) + h_sum dn2 + h_sum wt2) = u64 (h_sum wt2 + h_sum dn2)).
    apply (u64_add_congr _ _ (- h_sum (a_inflight_h2d st) + h_sum dn2 + h_sum wt2)) in H2.
    replace (a_inflight_h2d_bytes st - h_sum (a_inflight_h2d st) + h_sum dn2 + h_sum wt2)
      with (a_inflight_h2d_bytes st + (- h_sum (a_inflight_h2d st) + h_sum dn2 + h_sum wt2)) by lia.
    rewrite H2. f_equal. lia.
Qed.
Lemma progress_flush_accounted st : accounted st -> accounted (progress_flush st).2.
Proof.
  intros Ha. unfold progress_flush. unfold bind at 1, get at 1. cbv beta iota.
  destruct (flush_effect (a_done_d2h st) (a_done_h2d st) st) as (st' & it & E & Hef & _).
  unfold bind at 1. rewrite E. apply (acct_effect 0 0) in Hef; [exact Hef|]. exact Ha.
Qed.
Lemma bal_accounted st st' : bal st st' -> accounted st -> accounted st'.
Proof. intros (E1 & E2 & H). unfold accounted. rewrite E1, E2. apply H. Qed.
Lemma astep_accounted st st' : astep st st' -> accounted st -> accounted st'.
Proof using sync_ok.
  intros [o s|s H1 H2|s|s] Ha.
  - by eapply bal_accounted; [apply run_api_bal|].
  - by apply progress_poll_accounted.
  - by apply progress_flush_accounted.
  - eapply bal_accounted; [|exact Ha]. revert s Ha. unfold heartbeat_beat, rpc_heartbeat, mismatch. intros s _.
    match goal with |- bal s (?m s).2 => enough (ensures bal m) as H by apply H end. ensures.
Qed.
Lemma construct_bal : ensures bal construct.
Proof.
  pose proof quiet_mmap. unfold construct, rpc_register_rank, or_cleanup, cleanup_mappings, map_arena, map_control, take_ring, mismatch.
  ensures.
Qed.
End Accounting.

(** C22. The bytes in flight are accounted for: in every execution of the agent in a
    world where waiting for an event does not fail, whatever the daemon, the
    copies and the event queries do, each counter of bytes in flight is the sum,
    as a 64-bit number, of the transfers in the inflight list and of those the
    progress thread is about to report. *)
Theorem inflight_accounted {W : World} (c : AgentConfig) (st : Agent) :
  (forall tr ev, w_cuda tr (cudaEventSynchronize ev) = cudaSuccess) -> agent_reachable c st ->
  u64 (a_inflight_d2h_bytes st) = u64 (d_sum (a_inflight_d2h st ++ a_done_d2h st)) /\
  u64 (a_inflight_h2d_bytes st) = u64 (h_sum (a_inflight_h2d st ++ a_done_h2d st)).
Proof.
  intros Hs (st0 & Hc & Hr). rewrite d_sum_app, h_sum_app. enough (accounted st) as H by exact H.
  assert (Ha : accounted st0).
  { eapply bal_accounted; [exact (ensures_use _ _ _ _ _ construct_bal Hc)|]. by split. }
  clear Hc. induction Hr as [|x y z Hxy _ IH]; [done|]. eapply IH, astep_accounted; eauto.
Qed.
Lemma inflight_accounted_witness :
  a_inflight_d2h_bytes (flushed rpc_world) = 0 /\
  u64 (a_inflight_d2h_bytes (flushed rpc_world)) = u64 (d_sum (a_inflight_d2h (flushed rpc_world) ++ a_done_d2h (flushed rpc_world))).
Proof.
  split; [vm_compute; reflexivity|].
  assert (Hc : @constructed rpc_world sample_agent (start rpc_world)) by (vm_compute; reflexivity).
  assert (H1 : a_done_d2h (evicted rpc_world) = []) by (vm_compute; reflexivity).
  assert (H2 : a_done_h2d (evicted rpc_world) = []) by (vm_compute; reflexivity).
  exact (proj1 (@inflight_accounted rpc_world sample_agent (flushed rpc_world) (fun _ _ => eq_refl)
    (flushed_reachable rpc_world Hc H1 H2))).
Defined.
