(* ===== verification/AgentRestore.v ===== *)
(** * The agent's restores and registrations

    [registered_once]: an arena is pinned at most once.  [restore_reads_valid]: a
    restore copies to the GPU only from the place of a slot the daemon reported
    ready, and which the slot table, where it has the slot, shows PINNED_VALID.  [restore_terminates]: with a clock that runs,
    a restore ends. *)
From stdpp Require Import base gmap strings list pretty fin_sets relations.
From Stdlib Require Import ZArith Lia SpecFloat.
From S2P Require Import Prelude.
From S2P Require Import Ring.
From S2P Require Import Protocol.
From S2P Require Import ProtocolV2.
From S2P Require Import Rpc.
From S2P Require Import State.
From S2P Require Import Agent.
From S2P Require Import AgentLogic.
From S2P Require Import AgentWorld.
From S2P Require Import AgentProps.
Open Scope Z_scope.
Open Scope offload_scope.
Open Scope agent_scope.

(** ** Registration *)
(** The call pinned the arena at [b] (or found it pinned). *)
Definition registers (b : Z) (c : call) : bool :=
  match c with
  | CCuda (cudaHostRegister base _) e =>
      bool_decide (base = b) && bool_decide (e = cudaSuccess \/ e = cudaErrorHostMemoryAlreadyRegistered)
  | _ => false
  end.
Definition registrations (b : Z) (tr : trace) : nat := length (List.filter (registers b) tr).

Section Registration.
Context `{W : World}.
Definition reg_ok (st : Agent) : Prop :=
  forall b, registrations b (a_trace st) = if decide (b ∈ a_registered_chunks st) then 1%nat else 0%nat.
Definition reg (st st' : Agent) : Prop := reg_ok st -> reg_ok st'.
#[local] Instance reg_preorder : PreOrder reg.
Proof. split; [intros st H; exact H|]. intros x y z H1 H2 H. auto. Qed.
Lemma reg_call st c : (forall b, registers b c = false) -> reg st (st <| a_trace ::= cons c |>).
Proof. intros Hc H b. unfold registrations. cbn. rewrite Hc. apply H. Qed.
Lemma reg_rpc r : ensures reg (rpc r).
Proof. intros st. unfold rpc. destruct (w_rpc (a_trace st) r); by apply reg_call. Qed.
Lemma reg_log c : (forall b, registers b c = false) -> ensures reg (log c).
Proof. intros Hc st. by apply reg_call. Qed.
Lemma reg_cuda c : (forall b e, registers b (CCuda c e) = false) -> ensures reg (cuda c).
Proof. intros Hc st. by apply reg_call. Qed.
Lemma reg_modify f : (forall st, a_trace (f st) = a_trace st /\ a_registered_chunks (f st) = a_registered_chunks st) ->
  ensures reg (modify f).
Proof. intros Hf st H b. destruct (Hf st) as [E1 E2]. cbn. rewrite E1, E2. apply H. Qed.
Lemma reg_new_handle : ensures reg new_handle.
Proof. intros st. cbn. reflexivity. Qed.
Lemma reg_now_real : ensures reg now_real.
Proof. intros st. cbn. reflexivity. Qed.
Lemma reg_now_mono : ensures reg now_mono.
Proof. intros st. cbn. reflexivity. Qed.
Lemma reg_mmap fd size : ensures reg (mmap fd size).
Proof. intros st. by apply reg_call. Qed.
#[local] Hint Resolve reg_rpc reg_new_handle reg_now_real reg_now_mono reg_mmap : agent.
#[local] Hint Extern 1 (ensures reg (log _)) => apply reg_log; intros; reflexivity : agent.
#[local] Hint Extern 1 (ensures reg (cuda _)) => apply reg_cuda; intros; reflexivity : agent.
#[local] Hint Extern 1 (ensures reg (modify _)) => apply reg_modify; intros; split; reflexivity : agent.
Lemma reg_ensure_registered p n : ensures reg (ensure_registered p n).
Proof.
  intros st Hok. unfold ensure_registered. case_decide; [exact Hok|]. unfold bind at 1, get. cbv beta iota.
  destruct (arena_for st p) as [m|]; [|exact Hok]. case_decide as Hin; [exact Hok|].
  unfold bind, cuda. set (e := w_cuda _ _). cbv zeta beta iota.
  assert (Hcount : forall b, registrations b (CCuda (cudaHostRegister (am_base m) (am_size m)) e :: a_trace st)
    = ((if registers b (CCuda (cudaHostRegister (am_base m) (am_size m)) e) then 1 else 0) + registrations b (a_trace st))%nat).
  { intros b. unfold registrations. cbn [List.filter]. by destruct (registers b _). }
  case_decide as He; intros b; cbn [snd throw modify]; cbn -[registrations]; rewrite Hcount, Hok; cbn [registers].
  - rewrite (bool_decide_eq_false_2 (_ \/ _)) by tauto. by rewrite andb_false_r.
  - rewrite (bool_decide_eq_true_2 (_ \/ _)) by (unfold cudaSuccess, cudaErrorHostMemoryAlreadyRegistered in *; lia). rewrite andb_true_r.
    case_bool_decide as Hb; [subst b; rewrite decide_False by done; by rewrite decide_True by set_solver|].
    destruct (decide (b ∈ a_registered_chunks st)); [by rewrite decide_True by set_solver|by rewrite decide_False by set_solver].
Qed.
#[local] Hint Resolve reg_ensure_registered : agent.
Lemma reg_cuda_check e c : (forall b x, registers b (CCuda c x) = false) -> ensures reg (cuda_check e c).
Proof. intros Hc. pose proof (reg_cuda c Hc). unfold cuda_check. ensures. Qed.
#[local] Hint Extern 1 (ensures reg (cuda_check _ _)) => apply reg_cuda_check; intros; reflexivity : agent.
Lemma reg_launch_copy e d s n k x : ensures reg (launch_copy e d s n k x).
Proof. unfold launch_copy. ensures. Qed.
Lemma reg_record_bw n s : ensures reg (record_bw n s).
Proof. unfold record_bw. ensures. Qed.
#[local] Hint Resolve reg_launch_copy reg_record_bw : agent.
Lemma reg_finalize_d2h r : ensures reg (finalize_d2h r).
Proof. unfold finalize_d2h, invalidate, metric_add_local. ensures. Qed.
Lemma reg_finalize_h2d r : ensures reg (finalize_h2d r).
Proof. unfold finalize_h2d, metric_add_local. ensures. Qed.
Lemma reg_push_entry e : ensures reg (push_entry e).
Proof. unfold push_entry. ensures. Qed.
#[local] Hint Resolve reg_finalize_d2h reg_finalize_h2d reg_push_entry : agent.
Lemma reg_complete_d2h r : ensures reg (complete_d2h r).
Proof. unfold complete_d2h, rpc_mark_d2h_complete, mismatch. ensures. Qed.
Lemma reg_complete_h2d r : ensures reg (complete_h2d r).
Proof. unfold complete_h2d, rpc_mark_h2d_complete, mismatch. ensures. Qed.
Lemma reg_wait_ring fuel seq : ensures reg (wait_ring_consumed fuel seq).
Proof. induction fuel as [|fuel IH]; cbn [wait_ring_consumed]; ensures. Qed.
Lemma reg_await_ready fuel pr start : forall presp, ensures reg (await_ready fuel pr start presp).
Proof. induction fuel as [|fuel IH]; intros presp; cbn [await_ready]; unfold rpc_request_prefetch, mismatch; ensures. Qed.
Lemma reg_await_restore fuel rq start : ensures reg (await_restore fuel rq start).
Proof. induction fuel as [|fuel IH]; cbn [await_restore]; unfold rpc_request_canonical_restore, mismatch; ensures. Qed.
#[local] Hint Resolve reg_complete_d2h reg_complete_h2d reg_wait_ring reg_await_ready reg_await_restore : agent.
Lemma reg_run_api o : ensures reg (run_api o).
Proof.
  destruct o; cbn [run_api]; unfold forget, evict, restore, location, rpc_query_location, assert_no_inflight, release_canonical,
    register_job, seal_model_version, get_latest_sealed_version, get_manifest, pull_tensor, drop_canonical_version,
    rpc_register_job, rpc_seal_model_version, rpc_get_latest_sealed_version, rpc_get_manifest, rpc_pull_tensor, rpc_drop_canonical_version, rpc_release_canonical,
    discard, rpc_release_lease, canonical_evict, canonical_restore, rpc_request_canonical_evict, rpc_mark_d2h_submitted,
    rpc_mark_d2h_complete, rpc_mark_h2d_submitted, rpc_commit_canonical_object, rpc_release_canonical_restore,
    rpc_request_offload, rpc_request_prefetch, next_submit_seq, next_complete_seq, slot_host_ptr, metric_add_local,
    metric_sub_local, invalidate, mismatch; ensures.
Qed.
Lemma reg_push_all {A} push finalize make (l : list A) : (forall x, ensures reg (push x)) ->
  (forall x, ensures reg (finalize x)) -> (forall x, ensures reg (make x)) -> ensures reg (push_all push finalize make l).
Proof. intros Hp Hf Hm. induction l as [|x l IH]; cbn [push_all]; ensures; auto. Qed.
Lemma reg_flush ds hs : ensures reg (flush_completions_batch ds hs).
Proof.
  pose proof (fun A p f m l => @reg_push_all A p f m l) as Hpa.
  unfold flush_completions_batch, rpc_batch_complete, make_d2h_completion, make_h2d_completion, mismatch.
  ensures; apply Hpa; unfold ring_push_d2h, ring_push_h2d; intros; ensures.
Qed.
Lemma reg_poll {A} (ev nb : A -> Z) f l : (forall n, ensures reg (f n)) -> ensures reg (poll_events ev nb f l).
Proof. intros Hf. induction l as [|r l IH]; cbn [poll_events]; ensures; auto. Qed.
Lemma astep_reg st st' : astep st st' -> reg st st'.
Proof.
  intros [o s|s _ _|s|s]; [apply reg_run_api|..].
  - pose proof (fun A e n f l => @reg_poll A e n f l) as Hpoll.
    enough (ensures reg progress_poll) as H by apply H. unfold progress_poll, drop_d2h, drop_h2d.
    ensures; apply Hpoll; intros; ensures.
  - pose proof reg_flush. enough (ensures reg progress_flush) as H' by apply H'. unfold progress_flush. ensures.
  - enough (ensures reg heartbeat_beat) as H by apply H. unfold heartbeat_beat, rpc_heartbeat, mismatch. ensures.
Qed.
Lemma reg_construct : ensures_val reg construct.
Proof.
  unfold construct, rpc_register_rank, or_cleanup, mismatch.
  repeat first
    [ apply ensures_val_failing
    | apply ensures_val_of; unfold map_arena, map_control, take_ring; solve [ensures]
    | apply ensures_val_bind; [exact _| |intros ?]
    | apply ensures_val_rethrow
    | match goal with |- ensures_val _ (let _ := _ in _) => cbv zeta end
    | match goal with |- ensures_val _ (match ?x with _ => _ end) => destruct x end
    | match goal with |- ensures_val _ (let '(_, _) := ?x in _) => destruct x end ].
Qed.
Lemma reachable_reg c st : agent_reachable c st -> reg_ok st.
Proof.
  intros (st0 & Hc & Hr). assert (H : reg_ok st0).
  { eapply (reg_construct (agent_zero c) tt st0); [exact Hc|]. intros b. by rewrite decide_False by set_solver. }
  clear Hc. induction Hr as [|x y z Hxy _ IH]; [done|]. by eapply IH, astep_reg.
Qed.
End Registration.

(** Host memory is registered with CUDA once per arena, never per copy: in every
    execution the calls that pinned the arena at a base address are one if the
    agent records the arena as registered and none otherwise, so at most one. *)
Theorem registered_once {W : World} (c : AgentConfig) (st : Agent) (base : Z) :
  agent_reachable c st ->
  registrations base (a_trace st) = if decide (base ∈ a_registered_chunks st) then 1%nat else 0%nat.
Proof. intros H. by apply (reachable_reg c). Qed.
Lemma registered_once_witness : registrations (2 ^ 40) (a_trace (flushed ring_world)) = 1%nat.
Proof.
  assert (Hc : @constructed ring_world sample_agent (start ring_world)) by (vm_compute; reflexivity).
  assert (H1 : a_done_d2h (evicted ring_world) = []) by (vm_compute; reflexivity).
  assert (H2 : a_done_h2d (evicted ring_world) = []) by (vm_compute; reflexivity).
  rewrite (@registered_once ring_world sample_agent (flushed ring_world) (2 ^ 40) (flushed_reachable ring_world Hc H1 H2)).
  vm_compute. reflexivity.
Defined.

(** ** Restores *)
Definition is_h2d (c : call) : bool :=
  match c with CCuda (cudaMemcpyAsync _ _ _ cudaMemcpyHostToDevice _) _ => true | _ => false end.
Section Restore.
Context `{W : World}.
(** Nothing is copied to the device. *)
Definition copyless (st st' : Agent) : Prop :=
  (exists t, a_trace st' = t ++ a_trace st /\ Forall (fun c => is_h2d c = false) t) /\
  (a_num_slots st', a_arenas st', a_arena_index st') = (a_num_slots st, a_arenas st, a_arena_index st).
#[local] Instance copyless_preorder : PreOrder copyless.
Proof.
  split; [intros st; split; [by exists []|done]|].
  intros x y z [(t1 & E1 & H1) N1] [(t2 & E2 & H2) N2]. split; [|congruence].
  exists (t2 ++ t1). rewrite E2, E1, app_assoc. split; [done|by apply Forall_app].
Qed.
Lemma copyless_call st c : is_h2d c = false -> copyless st (st <| a_trace ::= cons c |>).
Proof. intros Hc. split; [|done]. exists [c]. split; [done|by apply Forall_singleton]. Qed.
Lemma copyless_rpc r : ensures copyless (rpc r).
Proof. intros st. unfold rpc. destruct (w_rpc (a_trace st) r); by apply copyless_call. Qed.
Lemma copyless_log c : is_h2d c = false -> ensures copyless (log c).
Proof. intros Hc st. by apply copyless_call. Qed.
Lemma copyless_cuda c : (forall e, is_h2d (CCuda c e) = false) -> ensures copyless (cuda c).
Proof. intros Hc st. by apply copyless_call. Qed.
Lemma copyless_modify f : (forall st, a_trace (f st) = a_trace st /\
  (a_num_slots (f st), a_arenas (f st), a_arena_index (f st)) = (a_num_slots st, a_arenas st, a_arena_index st)) ->
  ensures copyless (modify f).
Proof. intros Hf st. destruct (Hf st) as [E1 E2]. split; [|exact E2]. exists []. by split. Qed.
Lemma copyless_now_real : ensures copyless now_real.
Proof. intros st. cbn. reflexivity. Qed.
Lemma copyless_now_mono : ensures copyless now_mono.
Proof. intros st. cbn. reflexivity. Qed.
#[local] Hint Resolve copyless_rpc copyless_now_real copyless_now_mono : agent.
#[local] Hint Extern 1 (ensures copyless (log _)) => apply copyless_log; reflexivity : agent.
#[local] Hint Extern 1 (ensures copyless (cuda _)) => apply copyless_cuda; intros; reflexivity : agent.
#[local] Hint Extern 1 (ensures copyless (modify _)) => apply copyless_modify; intros; split; reflexivity : agent.
Lemma copyless_wait_ring fuel seq : ensures copyless (wait_ring_consumed fuel seq).
Proof. induction fuel as [|fuel IH]; cbn [wait_ring_consumed]; ensures. Qed.
Lemma copyless_await_ready fuel pr start : forall presp, ensures copyless (await_ready fuel pr start presp).
Proof. induction fuel as [|fuel IH]; intros presp; cbn [await_ready]; unfold rpc_request_prefetch, mismatch; ensures. Qed.
Lemma copyless_ensure_registered p n : ensures copyless (ensure_registered p n).
Proof. unfold ensure_registered. ensures. Qed.
Lemma copyless_slot_host_ptr a o : ensures copyless (slot_host_ptr a o).
Proof. unfold slot_host_ptr. ensures. Qed.
Lemma copyless_next_submit_seq : ensures copyless next_submit_seq.
Proof. unfold next_submit_seq. ensures. Qed.
#[local] Hint Resolve copyless_wait_ring copyless_await_ready copyless_ensure_registered copyless_slot_host_ptr
  copyless_next_submit_seq : agent.

(** The last call was the prefetch that the daemon answered with [presp]. *)
Definition prefetched (pr : RequestPrefetchRequest) (presp : RequestPrefetchResponse) (tr : trace) : Prop :=
  rps_ok presp = true /\ exists t, tr = CRpc (ReqRequestPrefetch pr) (Ok (RespRequestPrefetch presp)) :: t.
Lemma rpc_prefetch_spec pr st : wp (rpc_request_prefetch pr) (fun o st' => forall presp, o = Val presp ->
  exists t, a_trace st' = CRpc (ReqRequestPrefetch pr) (Ok (RespRequestPrefetch presp)) :: t) st.
Proof.
  intros presp. unfold rpc_request_prefetch, bind, rpc.
  destruct (w_rpc (a_trace st) (ReqRequestPrefetch pr)) as [[]|]; try done. intros [= <-]. by eexists.
Qed.
Lemma await_ready_spec fuel pr start : forall presp st, prefetched pr presp (a_trace st) ->
  wp (await_ready fuel pr start presp) (fun o st' => forall p, o = Val (inl p) ->
    rps_ready p = true /\ prefetched pr p (a_trace st')) st.
Proof.
  induction fuel as [|fuel IH]; intros presp st Hp; cbn [await_ready].
  - destruct (rps_ready presp) eqn:Hr; [apply wp_ret; by intros p [= <-]|].
    apply wp_bind. unfold now_mono, wp. cbn. case_decide; by intros p [=].
  - destruct (rps_ready presp) eqn:Hr; [apply wp_ret; by intros p [= <-]|].
    apply wp_bind. change (wp now_mono ?Q st) with (Q (Val (w_now_mono (a_trace st))) st). cbv beta iota.
    case_decide; [apply wp_ret; by intros p [=]|].
    apply wp_bind. apply wp_modify. apply wp_bind. eapply wp_mono; [apply rpc_prefetch_spec|].
    intros [p|e|] st' Hp'; [|by intros ? [=]..]. destruct (rps_ok p) eqn:Hok; [|apply wp_ret; by intros ? [=]].
    apply IH. split; [done|]. by apply Hp'.
Qed.
(** The only copies to the device are of [bytes] bytes from [src] to [dev]. *)
Definition copies_to (dev src bytes : Z) (c : call) : Prop :=
  is_h2d c = true -> exists s e, c = CCuda (cudaMemcpyAsync dev src bytes cudaMemcpyHostToDevice s) e.
Definition adds (dev src bytes : Z) (st st' : Agent) : Prop :=
  exists t, a_trace st' = t ++ a_trace st /\ Forall (copies_to dev src bytes) t.
#[local] Instance adds_preorder dev src bytes : PreOrder (adds dev src bytes).
Proof.
  split; [intros st; exists []; split; [done|constructor]|]. intros x y z (t1 & E1 & H1) (t2 & E2 & H2).
  exists (t2 ++ t1). rewrite E2, E1, app_assoc. split; [done|by apply Forall_app].
Qed.
Lemma adds_copyless dev src bytes {A} (m : M A) : ensures copyless m -> ensures (adds dev src bytes) m.
Proof.
  intros Hm st. destruct (Hm st) as [(t & E & Ht) _]. exists t. split; [done|].
  eapply Forall_impl; [exact Ht|]. intros c Hc Hc'. congruence.
Qed.
#[local] Hint Extern 2 (ensures (adds _ _ _) _) => apply adds_copyless; solve [eauto with agent] : agent.
Lemma adds_launch text dev src bytes s : ensures (adds dev src bytes) (launch_copy text dev src bytes cudaMemcpyHostToDevice s).
Proof.
  assert (Hc : ensures (adds dev src bytes) (cuda (cudaMemcpyAsync dev src bytes cudaMemcpyHostToDevice s))).
  { intros st. eexists [_]. split; [reflexivity|]. apply Forall_singleton. intros _. by eexists _, _. }
  assert (Hh : ensures (adds dev src bytes) new_handle) by (intros st; reflexivity).
  unfold launch_copy, cuda_check. ensures.
Qed.
Lemma adds_complete_h2d dev src bytes r : ensures (adds dev src bytes) (complete_h2d r).
Proof.
  apply adds_copyless. unfold complete_h2d, rpc_mark_h2d_complete, finalize_h2d, record_bw, metric_add_local, mismatch. ensures.
Qed.
#[local] Hint Resolve adds_launch adds_complete_h2d : agent.

(** The address of a place in an arena the agent mapped. *)
Definition host_address (st : Agent) (arena_id arena_offset : Z) : option Z :=
  i ← a_arena_index st !! arena_id; Some (match a_arenas st !! i with Some m => am_base m | None => 0 end + arena_offset).
(** Every copy to the device in [t] follows a prefetch the daemon answered ready,
    while the slot table showed the slot PINNED_VALID, and reads the place the
    answer names. *)
Definition valid_source (st : Agent) (tensor_id version dev n : Z) (t : trace) (c : call) : Prop :=
  exists pr presp t1 t2,
    t = t2 ++ CRpc (ReqRequestPrefetch pr) (Ok (RespRequestPrefetch presp)) :: t1 /\ c ∈ t2 /\
    rp_tensor_id pr = tensor_id /\ rp_version pr = version /\ rps_ok presp = true /\ rps_ready presp = true /\
    (rps_slot_id presp < a_num_slots st ->
     w_slot_state (CRpc (ReqRequestPrefetch pr) (Ok (RespRequestPrefetch presp)) :: t1 ++ a_trace st) (rps_slot_id presp)
     = slot_state_value SLOT_PINNED_VALID) /\
    exists src, host_address st (rps_arena_id presp) (rps_arena_offset presp) = Some src /\
    copies_to dev src (if decide (rps_nbytes presp = 0) then n else rps_nbytes presp) c.
Definition reads_valid (st : Agent) (tensor_id version dev n : Z) (st' : Agent) : Prop :=
  exists t, a_trace st' = t ++ a_trace st /\
    Forall (fun c => is_h2d c = true -> valid_source st tensor_id version dev n t c) t.
Lemma copyless_reads_valid st tid ver dev n st' : copyless st st' -> reads_valid st tid ver dev n st'.
Proof.
  intros [(t & E & Ht) _]. exists t. split; [done|]. eapply Forall_impl; [exact Ht|]. intros c Hc Hc'. congruence.
Qed.
Lemma adds_reads_valid st tid ver dev src n pr presp t1 s1 s2 :
  rp_tensor_id pr = tid -> rp_version pr = ver -> rps_ok presp = true -> rps_ready presp = true ->
  a_trace s1 = CRpc (ReqRequestPrefetch pr) (Ok (RespRequestPrefetch presp)) :: t1 ++ a_trace st ->
  Forall (fun c => is_h2d c = false) t1 ->
  (rps_slot_id presp < a_num_slots st -> w_slot_state (a_trace s1) (rps_slot_id presp) = slot_state_value SLOT_PINNED_VALID) ->
  host_address st (rps_arena_id presp) (rps_arena_offset presp) = Some src ->
  adds dev src (if decide (rps_nbytes presp = 0) then n else rps_nbytes presp) s1 s2 -> reads_valid st tid ver dev n s2.
Proof.
  intros Ht Hv Hok Hr E1 Hcl Hst Hsrc (t2 & E2 & H2).
  exists (t2 ++ CRpc (ReqRequestPrefetch pr) (Ok (RespRequestPrefetch presp)) :: t1). split; [by rewrite E2, E1, <- app_assoc|].
  apply Forall_forall. intros c [Hc|[->|Hc]%elem_of_cons]%elem_of_app Hh; [|done|].
  - exists pr, presp, t1, t2. rewrite E1 in Hst. split_and!; try done. exists src. split; [done|].
    rewrite Forall_forall in H2. by apply H2.
  - rewrite Forall_forall in Hcl. rewrite Hcl in Hh by done. done.
Qed.
Lemma restore_valid fuel tid ver dev n s wait st :
  wp (restore fuel tid ver dev n s wait) (fun _ st' => reads_valid st tid ver dev n st') st.
Proof.
  unfold restore. apply wp_bind. apply wp_get. cbv zeta. apply wp_bind.
  eapply (wp_ensures copyless); [ensures|]. intros [x0|e|] s0 H0; [|by apply copyless_reads_valid..].
  set (pr := mkRequestPrefetchRequest _ _ _ _ _ _ _ _ _).
  assert (Hcr : forall st, copyless st (rpc_request_prefetch pr st).2).
  { intros s1. enough (ensures copyless (rpc_request_prefetch pr)) as H by apply H. unfold rpc_request_prefetch, mismatch. ensures. }
  apply wp_bind. unfold wp at 1. pose proof (Hcr s0) as H1. pose proof (rpc_prefetch_spec pr s0) as Hp1. unfold wp in Hp1.
  destruct (rpc_request_prefetch pr s0) as [[p0|e|] s1] eqn:Ep; cbn [fst snd] in *;
    [|apply copyless_reads_valid; by etrans..].
  assert (E1 : a_trace s1 = CRpc (ReqRequestPrefetch pr) (Ok (RespRequestPrefetch p0)) :: a_trace s0).
  { unfold rpc_request_prefetch, bind, rpc in Ep.
    destruct (w_rpc (a_trace s0) (ReqRequestPrefetch pr)) as [[]|]; try done. by injection Ep as <- <-. }
  assert (H01 : copyless st s1) by (by etrans). destruct (rps_ok p0) eqn:Hok; cbn [negb]; [|by apply copyless_reads_valid].
  apply wp_bind. change (wp now_mono ?Q s1) with (Q (Val (w_now_mono (a_trace s1))) s1). cbv beta iota.
  apply wp_bind. unfold wp at 1.
  pose proof (await_ready_spec fuel pr (w_now_mono (a_trace s1)) p0 s1 ltac:(split; [done|by eexists])) as Hp2.
  pose proof (copyless_await_ready fuel pr (w_now_mono (a_trace s1)) p0 s1) as H2. unfold wp in Hp2.
  destruct (await_ready fuel pr _ p0 s1) as [[[p|result]|e|] s2]; cbn [fst snd] in *;
    [|apply copyless_reads_valid; by etrans..].
  destruct (Hp2 p eq_refl) as (Hready & Hokp & t' & E2).
  apply wp_bind. apply wp_get. case_decide as Hslot; [apply wp_ret, copyless_reads_valid; by etrans|].
  destruct H01 as [(u0 & Eu0 & Hu0) N0], H2 as [(u2 & Eu2 & Hu2) N2].
  assert (exists t1, a_trace s2 = CRpc (ReqRequestPrefetch pr) (Ok (RespRequestPrefetch p)) :: t1 ++ a_trace st /\
            Forall (fun c => is_h2d c = false) t1) as (t1 & Et1 & Ht1).
  { destruct u2 as [|c u2]; cbn [app] in Eu2.
    - rewrite Eu2, E1 in E2. injection E2 as -> <-. destruct H0 as [(v & Ev & Hv) _]. exists v. by rewrite Eu2, E1, Ev.
    - rewrite Eu2 in E2. injection E2 as -> <-. exists (u2 ++ u0). rewrite Eu2, Eu0, app_assoc. split; [done|].
      apply Forall_cons in Hu2 as [_ Hu2]. by apply Forall_app. }
  assert (Harena : a_num_slots s2 = a_num_slots st /\ a_arenas s2 = a_arenas st /\ a_arena_index s2 = a_arena_index st)
    by (split_and!; congruence).
  destruct Harena as (Hnum & Hars & Hidx). apply wp_bind, wp_modify. set (s2' := update _ _ _). apply wp_bind.
  unfold slot_host_ptr at 1. apply wp_bind, wp_get. change (a_arena_index s2') with (a_arena_index s2).
  change (a_arenas s2') with (a_arenas s2). destruct (a_arena_index s2 !! rps_arena_id p) as [i|] eqn:Hi.
  2: { apply copyless_reads_valid. split; [|cbn; by rewrite Hnum, Hars, Hidx]. eexists (_ :: t1). cbn. rewrite Et1. split; [done|by constructor]. }
  apply wp_ret. set (src := _ + rps_arena_offset p).
  eapply (wp_ensures (adds dev src (if decide (rps_nbytes p = 0) then n else rps_nbytes p)));
    [unfold rpc_mark_h2d_submitted, cuda_check, metric_add_local, metric_sub_local, next_complete_seq, mismatch; ensures|].
  intros o s3 H3. eapply (adds_reads_valid _ _ _ _ src _ pr p t1 s2'); try done.
  2: { unfold host_address, src. rewrite <- Hidx, Hi, Hars. done. }
  intros Hlt. destruct (decide (w_slot_state (a_trace s2) (rps_slot_id p) = slot_state_value SLOT_PINNED_VALID)); [done|].
  exfalso. apply Hslot. split; [|done]. by rewrite Hnum.
Qed.

(** C12. A restore copies to the device only from a slot the daemon answered ready:
    every host-to-device copy [restore] launches goes to the caller's pointer and
    comes after a [RequestPrefetch] for that tensor and version which the daemon
    answered ok and ready; it reads the place in the mapped arena that this answer
    names, and as many bytes as it names, or the caller's count where it names none.
    Where the answered slot is one of the table ([slot_id < num_slots]; the code
    looks no further otherwise), the table showed it PINNED_VALID at that moment. *)
Theorem restore_reads_valid fuel tensor_id version dev_ptr nbytes stream wait st :
  reads_valid st tensor_id version dev_ptr nbytes
    (restore fuel tensor_id version dev_ptr nbytes stream wait st).2.
Proof. apply restore_valid. Qed.
End Restore.
(** One restore of the tensor that was offloaded makes one such copy, from the
    mapping of the first arena. *)
Lemma restore_reads_valid_witness :
  let st := @restore ring_world 10 9 1 8192 5000000 kInternalStream true (flushed ring_world) in
  st.1 = Val (mkRestoreResult true "") /\
  length (List.filter is_h2d (a_trace st.2)) = 1%nat /\
  host_address (flushed ring_world) 0 0 = Some (2 ^ 40) /\
  @reads_valid ring_world (flushed ring_world) 9 1 8192 5000000 st.2.
Proof.
  cbv zeta. split; [vm_compute; reflexivity|]. split; [vm_compute; reflexivity|]. split; [vm_compute; reflexivity|].
  exact (@restore_reads_valid ring_world 10 9 1 8192 5000000 kInternalStream true (flushed ring_world)).
Defined.

(** ** Termination *)
Definition halts {A} (m : M A) : Prop := forall st, (m st).1 <> Spin.
Lemma halts_ret {A} (x : A) : halts (ret x).
Proof. by intros st. Qed.
Lemma halts_throw {A} e : halts (throw e : M A).
Proof. by intros st. Qed.
Lemma halts_get : halts get.
Proof. by intros st. Qed.
Lemma halts_modify f : halts (modify f).
Proof. by intros st. Qed.
Lemma halts_bind {A B} (m : M A) (k : A -> M B) : halts m -> (forall x, halts (k x)) -> halts (bind m k).
Proof.
  intros Hm Hk st. unfold bind. specialize (Hm st). destruct (m st) as [[x|e|] st']; [apply Hk|done..].
Qed.
Lemma halts_catch {A} (m : M A) h : halts m -> (forall e, halts (h e)) -> halts (catch m h).
Proof.
  intros Hm Hh st. unfold catch. specialize (Hm st). destruct (m st) as [[x|e|] st']; [done|apply Hh|done].
Qed.
Ltac halts :=
  repeat lazymatch goal with
  | |- halts (ret _) => apply halts_ret
  | |- halts (throw _) => apply halts_throw
  | |- halts get => apply halts_get
  | |- halts (modify _) => apply halts_modify
  | |- halts (log _) => apply halts_modify
  | |- halts (bind _ _) => apply halts_bind; [|intros ?]
  | |- halts (catch _ _) => apply halts_catch; [|intros ?]
  | |- halts (let _ := _ in _) => cbv zeta
  | |- halts (match ?x with _ => _ end) => destruct x
  | |- _ => solve [eauto with agent]
  end.
(** The operation ends when run from [st]. *)
Lemma halts_bind_at {A B} (m : M A) (k : A -> M B) st :
  (m st).1 <> Spin -> (forall x, (m st).1 = Val x -> (k x (m st).2).1 <> Spin) -> (bind m k st).1 <> Spin.
Proof. intros Hm Hk. unfold bind. destruct (m st) as [[x|e|] st'] eqn:E; cbn in *; [by apply Hk|done..]. Qed.

Section Termination.
Context `{W : World}.
Lemma halts_cuda c : halts (cuda c).
Proof. by intros st. Qed.
Lemma halts_now_real : halts now_real.
Proof. by intros st. Qed.
Lemma halts_now_mono : halts now_mono.
Proof. by intros st. Qed.
Lemma halts_new_handle : halts new_handle.
Proof. by intros st. Qed.
Lemma halts_rpc r : halts (rpc r).
Proof. intros st. unfold rpc. by destruct (w_rpc (a_trace st) r). Qed.
#[local] Hint Resolve halts_cuda halts_now_real halts_now_mono halts_new_handle halts_rpc : agent.
Lemma halts_slot_host_ptr a o : halts (slot_host_ptr a o).
Proof. unfold slot_host_ptr. halts. Qed.
Lemma halts_ensure_registered p n : halts (ensure_registered p n).
Proof. unfold ensure_registered. halts. Qed.
Lemma halts_launch_copy e d s n k x : halts (launch_copy e d s n k x).
Proof. unfold launch_copy, cuda_check. halts. Qed.
Lemma halts_finalize_h2d r : halts (finalize_h2d r).
Proof. unfold finalize_h2d, record_bw, metric_add_local. halts. Qed.
#[local] Hint Resolve halts_slot_host_ptr halts_ensure_registered halts_launch_copy halts_finalize_h2d : agent.
Lemma halts_complete_h2d r : halts (complete_h2d r).
Proof. unfold complete_h2d, best_effort, rpc_mark_h2d_complete, mismatch. halts. Qed.
#[local] Hint Resolve halts_complete_h2d : agent.
Lemma wait_ring_halts seq fuel : forall st,
  (forall r, a_comp_ring st = Some r -> exists n, (n <= fuel)%nat /\
     seq < w_ring_head (replicate n (CSleep 20000) ++ a_trace st)) ->
  (wait_ring_consumed fuel seq st).1 <> Spin.
Proof.
  induction fuel as [|fuel IH]; intros st Hr; cbn [wait_ring_consumed];
    (apply halts_bind_at; [done|]); intros ? [= <-]; cbn [get fst snd];
    destruct (a_comp_ring st) as [r|] eqn:Er; try done; destruct (Hr r eq_refl) as (n & Hn & Hh);
    case_decide; try done.
  - replace n with 0%nat in Hh by lia. cbn in Hh. lia.
  - apply halts_bind_at; [done|]. intros ? _. apply IH. intros r' _.
    destruct n as [|n]; [cbn in Hh; lia|]. exists n. split; [lia|]. cbn [log modify snd] in *.
    change (seq < w_ring_head (replicate n (CSleep 20000) ++ CSleep 20000 :: a_trace st)).
    by rewrite cons_middle, app_assoc, <- replicate_cons_app.
Qed.

(** The time a call takes: what it sleeps, and at most [lag] more. *)
Definition pause (c : call) : Z := match c with CSleep ns => ns | _ => 0 end.
Context (lag : Z).
Hypothesis lag_bound : 0 <= lag < 2 ^ 62.
Hypothesis clock : forall c tr, pause c <= w_now_mono (c :: tr) - w_now_mono tr <= pause c + lag.

(** After [start] at most the timeout, a sleep and [k] calls have gone by, and the
    fuel left covers what remains of the timeout. *)
Definition in_time (k : Z) (fuel : nat) (start : Z) (tr : trace) : Prop :=
  0 <= w_now_mono tr - start <= kTimeout_ns + 2000000 + k * lag /\
  kTimeout_ns < w_now_mono tr - start + 2000000 * Z.of_nat fuel.
Lemma in_time_call k fuel start tr c : pause c = 0 -> in_time k fuel start tr -> in_time (k + 1) fuel start (c :: tr).
Proof using lag_bound clock.
  intros Hc [H1 H2]. pose proof (clock c tr) as C. rewrite Hc in C. unfold in_time. lia.
Qed.
Lemma in_time_sleep fuel start tr : in_time 2 (S fuel) start tr ->
  ~ u64 (w_now_mono tr - start) > kTimeout_ns -> in_time 1 fuel start (CSleep 2000000 :: tr).
Proof using lag_bound clock.
  intros [H1 H2] Hu. pose proof (clock (CSleep 2000000) tr) as C. cbn [pause] in C.
  unfold in_time, u64, kTimeout_ns in *. rewrite Z.mod_small in Hu by lia. lia.
Qed.
Lemma in_time_out start tr : in_time 2 0 start tr -> u64 (w_now_mono tr - start) > kTimeout_ns.
Proof using lag_bound. intros [H1 H2]. unfold u64, kTimeout_ns in *. rewrite Z.mod_small; lia. Qed.

Lemma await_ready_halts pr start fuel : forall presp st, in_time 2 fuel start (a_trace st) ->
  (await_ready fuel pr start presp st).1 <> Spin.
Proof using lag_bound clock.
  induction fuel as [|fuel IH]; intros presp st Hi; cbn [await_ready]; destruct (rps_ready presp); try done;
    (apply halts_bind_at; [done|]); intros ? [= <-]; cbn [now_mono fst snd]; case_decide as Hu; try done.
  - by destruct (Hu (in_time_out _ _ Hi)).
  - apply halts_bind_at; [done|]. intros _ _. cbn [log modify snd]. unfold rpc_request_prefetch, bind, rpc.
    match goal with |- context [w_rpc ?t ?r] => destruct (w_rpc t r) as [[]|] end; try done;
      cbn [ret mismatch throw fst snd].
    destruct (rps_ok _); [|done]. apply IH. apply (in_time_call 1); [done|]. by apply in_time_sleep.
Qed.
Lemma await_restore_halts rq start fuel : forall st, in_time 1 fuel start (a_trace st) ->
  (await_restore fuel rq start st).1 <> Spin.
Proof using lag_bound clock.
  assert (Hh : halts (catch (let* x := rpc_request_canonical_restore rq in ret (inl x : _ + RestoreResult))
    (fun e => ret (inr (mkRestoreResult false ("canonical_restore rpc: " +:+ e)))))).
  { unfold rpc_request_canonical_restore, mismatch. halts. }
  assert (Hc : forall st k, in_time 1 k start (a_trace st) -> in_time 2 k start (a_trace (catch
      (let* x := rpc_request_canonical_restore rq in ret (inl x : _ + RestoreResult))
      (fun e => ret (inr (mkRestoreResult false ("canonical_restore rpc: " +:+ e)))) st).2)).
  { intros st k Hi. unfold catch, rpc_request_canonical_restore, bind, rpc.
    destruct (w_rpc (a_trace st) _) as [[]|]; by apply (in_time_call 1). }
  induction fuel as [|fuel IH]; intros st Hi; cbn [await_restore]; (apply halts_bind_at; [apply Hh|]);
    intros [rr|result] _; try done; pose proof (Hc _ _ Hi) as Hi';
    (destruct (crs_ok rr || negb (crs_retriable rr)); [done|]);
    (apply halts_bind_at; [done|]); intros ? [= <-]; cbn [now_mono snd]; case_decide as Hu; try done.
  - by destruct (Hu (in_time_out _ _ Hi')).
  - apply halts_bind_at; [done|]. intros _ _. apply IH. by apply in_time_sleep.
Qed.
Lemma in_time_start k fuel tr : 0 <= k -> 300000 < Z.of_nat fuel -> in_time k fuel (w_now_mono tr) tr.
Proof using lag_bound. intros Hk Hf. unfold in_time, kTimeout_ns. lia. Qed.
Lemma restore_halts fuel tid ver dev n s wait st :
  (forall r seq, a_comp_ring st = Some r -> a_ring_push_seq st !! tv_key tid ver = Some seq ->
     exists k, (k <= fuel)%nat /\ seq < w_ring_head (replicate k (CSleep 20000) ++ a_trace st)) ->
  300000 < Z.of_nat fuel -> (restore fuel tid ver dev n s wait st).1 <> Spin.
Proof using lag_bound clock.
  intros Hring Hf. unfold restore. apply halts_bind_at; [done|]. intros ? [= <-]. cbn [get snd]. cbv zeta.
  apply halts_bind_at.
  { destruct (a_comp_ring st) as [r|] eqn:Er; [|done].
    destruct (a_ring_push_seq st !! tv_key tid ver) as [seq|] eqn:Eq; [|done].
    apply wait_ring_halts. intros r' _. by apply (Hring r seq). }
  intros x0 _. match goal with |- (?m ?s0).1 <> Spin => generalize s0; change (halts m) end.
  apply halts_bind; [unfold rpc_request_prefetch, mismatch; halts|]. intros p0.
  destruct (negb (rps_ok p0)); [halts|]. intros s1. apply halts_bind_at; [done|]. intros ? [= <-]. cbn [now_mono snd].
  apply halts_bind_at; [apply await_ready_halts, in_time_start; [done|exact Hf]|]. intros r _.
  match goal with |- (?m ?s0).1 <> Spin => generalize s0; change (halts m) end.
  unfold rpc_mark_h2d_submitted, cuda_check, metric_add_local, metric_sub_local, next_submit_seq, next_complete_seq, mismatch, best_effort.
  halts.
Qed.
Lemma canonical_restore_halts fuel oid dev n s wait st : 300000 < Z.of_nat fuel ->
  (canonical_restore fuel oid dev n s wait st).1 <> Spin.
Proof using lag_bound clock.
  intros Hf. unfold canonical_restore. apply halts_bind_at; [done|]. intros ? [= <-]. cbn [get snd]. cbv zeta.
  apply halts_bind_at; [done|]. intros ? [= <-]. cbn [now_mono snd].
  apply halts_bind_at; [apply await_restore_halts, in_time_start; [done|exact Hf]|]. intros r _.
  match goal with |- (?m ?s0).1 <> Spin => generalize s0; change (halts m) end.
  unfold rpc_release_canonical_restore, cuda_check, mismatch, best_effort. halts.
Qed.
End Termination.

(** C24. Restores end: where each call to the outside takes at least the time it
    sleeps and at most [lag] more, and the daemon consumes the tensor's ring entry
    within [fuel] sleeps, [restore] and [canonical_restore] return (a result or an
    exception) whatever the daemon answers: 300001 polls of 2 ms pass the
    600 s timeout. *)
Theorem restore_terminates `{W : World} lag fuel st tensor_id version object_id dev_ptr nbytes stream wait :
  0 <= lag < 2 ^ 62 ->
  (forall c tr, pause c <= w_now_mono (c :: tr) - w_now_mono tr <= pause c + lag) ->
  (forall r seq, a_comp_ring st = Some r -> a_ring_push_seq st !! tv_key tensor_id version = Some seq ->
     exists k, (k <= fuel)%nat /\ seq < w_ring_head (replicate k (CSleep 20000) ++ a_trace st)) ->
  300000 < Z.of_nat fuel ->
  (restore fuel tensor_id version dev_ptr nbytes stream wait st).1 <> Spin /\
  (canonical_restore fuel object_id dev_ptr nbytes stream wait st).1 <> Spin.
Proof. intros. split; [by eapply restore_halts|by eapply canonical_restore_halts]. Qed.
(** After the daemon consumed the completion of tensor 9. *)
Lemma restore_terminates_witness :
  (@restore ring_world (Z.to_nat 300001) 9 1 8192 5000000 kInternalStream true (flushed ring_world)).1 <> Spin /\
  (@canonical_restore ring_world (Z.to_nat 300001) 1 8192 5000000 kInternalStream true (flushed ring_world)).1 <> Spin.
Proof.
  assert (Hc : forall c tr, pause c <= @w_now_mono ring_world (c :: tr) - @w_now_mono ring_world tr <= pause c + 0).
  { intros c tr. change (pause c <= (1000 + slept (c :: tr)) - (1000 + slept tr) <= pause c + 0).
    replace (slept (c :: tr)) with (slept tr + pause c) by (destruct c; cbn [slept foldr pause]; fold (slept tr); lia). lia. }
  assert (Hr : a_ring_push_seq (flushed ring_world) !! tv_key 9 1 = Some 0) by (vm_compute; reflexivity).
  assert (Hh : 0 < @w_ring_head ring_world (a_trace (flushed ring_world))) by (vm_compute; reflexivity).
  refine (@restore_terminates ring_world 0 (Z.to_nat 300001) (flushed ring_world) 9 1 1 8192 5000000 kInternalStream true
    _ Hc _ _); [lia| |lia].
  intros r seq _ Hs. rewrite Hr in Hs. injection Hs as <-. exists 0%nat. split; [lia|exact Hh].
Defined.
