(* ===== verification/Bindings.v ===== *)
(** * The Python shim

    Models [src/python/bindings.cpp]: the class [Context] that puts torch tensors
    in front of the agent.  Torch and the interpreter are not part of the sources:
    what the shim reads of a tensor is the record [Tensor], and the operations it
    calls are the fields of the class [Torch], functions of the number of torch
    calls made so far (any deterministic behaviour); [TorchLaws] states the
    documented behaviour of [clone] and [empty] that the theorems use.

    A callback is a closure that holds its tensor alive.  The closures made so far
    are a table; the agent's trace tells which of them ran, and [run_callbacks]
    performs their effect.  The interpreter lock only orders these effects and is
    not represented. *)
From stdpp Require Import base gmap strings list pretty.
From Stdlib Require Import ZArith Lia.
From S2P Require Import Prelude.
From S2P Require Import Protocol.
From S2P Require Import ProtocolV2.
From S2P Require Import Rpc.
From S2P Require Import State.
From S2P Require Import Agent.
Open Scope Z_scope.
Open Scope offload_scope.

(** ** Torch *)
(** What the shim reads of a tensor; [tn_impl] is the object a handle refers to. *)
Record Tensor := mkTensor {
  tn_impl : Z; tn_is_cuda : bool; tn_is_contiguous : bool; tn_storage_offset : Z; tn_numel : Z;
  tn_element_size : Z; tn_storage_nbytes : Z; tn_requires_grad : bool; tn_data_ptr : Z;
  tn_scalar_type : Z; tn_device : Z }.
(** A Python object passed as stream. *)
Inductive py_object :=
  | PyNone
  | PyStream (cuda_stream : option Z)
  | PyInt (v : Z)
  | PyOther.
Class Torch := {
  th_current_stream : Z -> Z;
  th_clone : nat -> Tensor -> res Tensor;
  th_empty : nat -> list Z -> Z -> Z -> res Tensor;
  th_cast_error : string;
  th_finalizing : nat -> bool }.
Definition logical_nbytes (t : Tensor) : Z := u64 (tn_numel t * tn_element_size t).
(** The tensor is the whole of its storage. *)
Definition whole_storage (t : Tensor) : Prop :=
  tn_is_cuda t = true /\ tn_is_contiguous t = true /\ tn_storage_offset t = 0 /\
  logical_nbytes t = u64 (tn_storage_nbytes t).
Class TorchLaws (T : Torch) : Prop := {
  clone_whole k t c : tn_is_cuda t = true -> th_clone k t = Ok c -> whole_storage c;
  empty_cuda k shape dtype device t : th_empty k shape dtype device = Ok t -> whole_storage t }.

(** ** The context *)
(** [cl_source] is the tensor as it was captured.  [cl_held]: the closure still refers
    to it.  [cl_emptied]: the closure, if any, whose [set_data] on the same tensor
    object has since released the storage it had then. *)
Record Closure := mkClosure { cl_source : Tensor; cl_do_invalidate : bool; cl_held : bool; cl_emptied : option Z }.
#[export] Instance eta_Closure : Eta Closure := fun c => mkClosure
  (cl_source c) (cl_do_invalidate c) (cl_held c) (cl_emptied c).
(** [cx_replaced] lists the tensors given an empty storage, with the closure that
    did it; [cx_fault] is set when a callback used a tensor it no longer held. *)
Record Context := mkContext {
  cx_agent : option Agent; cx_job : JobKeyWire; cx_have_job : bool; cx_rank_id : Z;
  cx_local_tensor_ctr : Z;
  cx_closures : gmap Z Closure; cx_next_closure : Z; cx_torch_calls : nat;
  cx_replaced : list (Z * Z); cx_fault : bool }.
#[export] Instance eta_Context : Eta Context := fun c => mkContext
  (cx_agent c) (cx_job c) (cx_have_job c) (cx_rank_id c) (cx_local_tensor_ctr c) (cx_closures c)
  (cx_next_closure c) (cx_torch_calls c) (cx_replaced c) (cx_fault c).

(** ** Operations that may throw *)
Definition C (A : Type) := Context -> out A * Context.
Definition cret {A} (x : A) : C A := fun c => (Val x, c).
Definition cthrow {A} (m : string) : C A := fun c => (Exc m, c).
Definition cbind {A B} (m : C A) (k : A -> C B) : C B := fun c =>
  match m c with
  | (Val x, c') => k x c'
  | (Exc e, c') => (Exc e, c')
  | (Spin, c') => (Spin, c')
  end.
Definition cmodify (f : Context -> Context) : C unit := fun c => (Val tt, f c).
Definition cget : C Context := fun c => (Val c, c).
Declare Scope context_scope.
Delimit Scope context_scope with context.
Notation "'let+' x ':=' m 'in' k" := (cbind m (fun x => k))
  (at level 200, x name, m at level 100, k at level 200) : context_scope.
Open Scope context_scope.

Section Shim.
Context `{W : World} `{T : Torch}.

(** A call of torch: its answer, or its exception. *)
Definition torch {A} (f : nat -> res A) : C A := fun c =>
  let c' := c <| cx_torch_calls ::= S |> in
  match f (cx_torch_calls c) with Ok x => (Val x, c') | Throw m => (Exc m, c') end.
(** [set_data] by the closure [f]: the tensor object is shared with every other closure
    that captured it, so its storage is gone for all of them. *)
Definition set_data (impl f : Z) (closures : gmap Z Closure) : gmap Z Closure :=
  (fun cl => if decide (tn_impl (cl_source cl) = impl /\ cl_held cl = true /\ cl_emptied cl = None)
             then cl <| cl_emptied := Some f |> else cl) <$> closures.
(** The callback of [evict] and [canonical_evict]: while the interpreter shuts down
    it only drops the tensor. *)
Definition run_callback (f : Z) (c : Context) : Context :=
  match cx_closures c !! f with
  | None => c
  | Some cl =>
      let drop c := c <| cx_closures ::= <[f := cl <| cl_held := false |>]> |> in
      if th_finalizing (cx_torch_calls c) then drop c
      else if cl_do_invalidate cl then
        if cl_held cl then drop (c <| cx_replaced ::= cons (tn_impl (cl_source cl), f) |>
                                   <| cx_closures ::= set_data (tn_impl (cl_source cl)) f |>)
        else c <| cx_fault := true |>
      else drop c
  end.
Definition callback_of (c : call) : list Z :=
  match c with CInvalidate (Some f) _ => [f] | _ => [] end.
(** The closures a trace says were run, the last one first. *)
Definition invoked (t : trace) : list Z := t ≫= callback_of.
Definition run_callbacks (t : trace) (c : Context) : Context := foldr run_callback c (invoked t).
(** The part of [t'] that is new after [t]. *)
Definition since (t t' : trace) : trace := take (length t' - length t) t'.
Definition closed_text : string :=
  "state_spectre: session is closed — the offload_context has exited or was garbage-collected. Keep it in a `with` block (or hold the object it returns) for the lifetime of its use.".
(** [ag()->m(...)]: an exception when the session is closed, else the agent's
    operation and the callbacks it ran. *)
Definition ag {A} (m : M A) : C A := fun c =>
  match cx_agent c with
  | None => (Exc closed_text, c)
  | Some st =>
      let '(o, st') := m st in
      (o, run_callbacks (since (a_trace st) (a_trace st')) (c <| cx_agent := Some st' |>))
  end.
(** The value of a getter of the agent. *)
Definition ag_get {A} (f : Agent -> A) : C A := fun c =>
  match cx_agent c with None => (Exc closed_text, c) | Some st => (Val (f st), c) end.

Definition resolve_stream (stream_obj : py_object) (device : Z) : C Z :=
  match stream_obj with
  | PyNone => cret (th_current_stream device)
  | PyStream (Some v) | PyInt v => cret v
  | PyStream None => cthrow th_cast_error
  | PyOther => cthrow "stream must be None, a torch.cuda.Stream (with .cuda_stream), or an int handle"
  end.
(** Conversion to [int64_t]. *)
Definition i64 (z : Z) : Z := if decide (u64 z < 2 ^ 63) then u64 z else u64 z - 2 ^ 64.
Definition validate_destructive (t : Tensor) (unsafe_autograd : bool) : C unit :=
  if negb (tn_is_cuda t) then cthrow "evict: tensor must be a CUDA tensor"
  else if negb (tn_is_contiguous t) then
    cthrow "evict: tensor must be contiguous for destructive eviction (use allow_views=True, compact=True to copy a view)"
  else if decide (tn_storage_offset t <> 0) then
    cthrow "evict: tensor.storage_offset() must be 0 for destructive eviction (use allow_views=True, compact=True to copy a view)"
  else
    let logical_nbytes := i64 (tn_numel t * tn_element_size t) in
    let storage_nbytes := i64 (tn_storage_nbytes t) in
    if decide (logical_nbytes <> storage_nbytes) then
      cthrow ("evict: logical nbytes (" +:+ pretty logical_nbytes +:+ ") != underlying storage nbytes ("
              +:+ pretty storage_nbytes +:+ "); tensor does not own its full storage. Use allow_views=True, compact=True to copy the logical bytes instead.")
    else if tn_requires_grad t && negb unsafe_autograd then
      cthrow "evict: tensor.requires_grad is True; destructive eviction would invalidate an autograd-tracked tensor. Pass unsafe_autograd=True (inside off.unsafe_destructive_mode()) if you accept responsibility for autograd correctness (RACE_CONDITIONS §8)."
    else cret tt.

Definition next_tensor_id : C Z := fun c =>
  let local := cx_local_tensor_ctr c in
  (Val (Z.lor (u64 (Z.shiftl (Z.land (cx_rank_id c) 0xFFFFFF) 40)) (Z.land local 0xFFFFFFFFFF)),
   c <| cx_local_tensor_ctr ::= (fun n => u64 (n + 1)) |>).
(** The tensor that is copied: a contiguous clone, or the caller's own once it may
    be evicted. *)
Definition choose_source (t : Tensor) (compact allow_views unsafe_autograd : bool) : C Tensor :=
  if compact || allow_views then torch (fun k => th_clone k t)
  else let+ _ := validate_destructive t unsafe_autograd in cret t.
(** The lambda that captures the tensor by value. *)
Definition make_callback (source : Tensor) (do_invalidate : bool) : C Z := fun c =>
  let f := cx_next_closure c in
  (Val f, c <| cx_closures ::= <[f := mkClosure source do_invalidate true None]> |> <| cx_next_closure := f + 1 |>).

(** ** The v1 operations *)
Definition evict (t : Tensor) (name : string) (destructive allow_views unsafe_autograd compact wait : bool)
  (stream_obj : py_object) (tensor_id version : Z) : C (Z * Z * Z * Z * Z) :=
  if negb (tn_is_cuda t) then cthrow "evict: tensor must be a CUDA tensor"
  else
    let+ device := ag_get a_device in
    let scalar_type := u64 (tn_scalar_type t) in
    let device_index := tn_device t in
    let+ tensor_id := (if decide (tensor_id = 0) then next_tensor_id else cret tensor_id) in
    let version := if decide (version = 0) then 1 else version in
    let+ source := choose_source t compact allow_views unsafe_autograd in
    let nbytes := logical_nbytes source in
    let dev_ptr := tn_data_ptr source in
    let+ stream := resolve_stream stream_obj device in
    let+ cb := make_callback source destructive in
    let+ ticket := ag (Agent.evict dev_ptr nbytes stream destructive (mkTensorMeta tensor_id version nbytes name)
                         (Some cb) tensor_id wait) in
    if negb (t_ok ticket) then cthrow ("evict failed: " +:+ t_message ticket)
    else cret (t_tensor_id ticket, t_version ticket, nbytes, scalar_type, device_index).

(** [fuel] bounds the agent's polling. *)
Definition restore (fuel : nat) (tensor_id version : Z) (shape : list Z) (scalar_type device_index : Z)
  (stream_obj : py_object) (wait : bool) : C Tensor :=
  let+ device_index := (if decide (device_index < 0) then ag_get a_device else cret device_index) in
  let+ out := torch (fun k => th_empty k shape scalar_type device_index) in
  let+ stream := resolve_stream stream_obj device_index in
  let+ r := ag (Agent.restore fuel tensor_id version (tn_data_ptr out) (logical_nbytes out) stream wait) in
  if negb (rst_ok r) then cthrow ("restore failed: " +:+ rst_message r) else cret out.
Definition restore_into (fuel : nat) (dst : Tensor) (tensor_id version : Z) (stream_obj : py_object) (wait : bool)
  : C unit :=
  if negb (tn_is_cuda dst) then cthrow "restore_into: dst must be a CUDA tensor"
  else if negb (tn_is_contiguous dst) then cthrow "restore_into: dst must be contiguous"
  else
    let+ stream := resolve_stream stream_obj (tn_device dst) in
    let+ r := ag (Agent.restore fuel tensor_id version (tn_data_ptr dst) (logical_nbytes dst) stream wait) in
    if negb (rst_ok r) then cthrow ("restore_into failed: " +:+ rst_message r) else cret tt.
Definition canonical_restore_into (fuel : nat) (dst : Tensor) (object_id : Z) (stream_obj : py_object) (wait : bool)
  : C unit :=
  if negb (tn_is_cuda dst) then cthrow "canonical_restore_into: dst must be a CUDA tensor"
  else if negb (tn_is_contiguous dst) then cthrow "canonical_restore_into: dst must be contiguous"
  else
    let+ stream := resolve_stream stream_obj (tn_device dst) in
    let+ r := ag (canonical_restore fuel object_id (tn_data_ptr dst) (logical_nbytes dst) stream wait) in
    if negb (rst_ok r) then cthrow ("canonical_restore_into failed: " +:+ rst_message r) else cret tt.

(** ** Introspection *)
Definition is_offloaded (tensor_id version : Z) : C bool := ag_get (fun st => Agent.is_offloaded st tensor_id version).
(** Whether [wait_offloaded] returns now instead of waiting. *)
Definition wait_offloaded_returns (tensor_id version : Z) : C bool :=
  ag_get (fun st => Agent.wait_offloaded_returns st tensor_id version).
Definition location (tensor_id version : Z) : C string := ag (Agent.location tensor_id version).
Definition discard (tensor_id version : Z) : C unit := ag (Agent.discard tensor_id version).
Definition summary_string : C string := ag_get Agent.summary_string.
Definition summary : C AgentSummary := ag_get Agent.summary.
Definition assert_no_inflight : C unit := ag Agent.assert_no_inflight.
Definition cuda_device : C Z := ag_get a_device.
Definition numa_node : C Z := ag_get a_numa.
Definition rank_id : C Z := ag_get a_rank_id.

(** ** The canonical operations *)
Definition register_job (tenant_id : Z) (job_name : string) (scheduler_job_id : Z) : C (Z * Z * Z * string) :=
  let+ r := ag (Agent.register_job (mkRegisterJobRequest tenant_id job_name scheduler_job_id [] [])) in
  if negb (rjs_ok r) then cthrow ("register_job failed: " +:+ rjs_message r)
  else
    let+ _ := cmodify (fun c => c <| cx_job := rjs_job r |> <| cx_have_job := true |>) in
    cret (jk_tenant_id (rjs_job r), jk_job_id (rjs_job r), jk_launch_epoch (rjs_job r), jk_job_name (rjs_job r)).
(** [if (!have_job_) throw ...] *)
Definition need_job (what : string) : C JobKeyWire :=
  let+ c := cget in
  if cx_have_job c then cret (cx_job c) else cthrow (what +:+ ": register_job() first").

(** The axes of the key that Python supplies. *)
Record ShardAxes := mkShardAxes {
  sx_model_role : Z; sx_model_version : Z; sx_param_id : Z; sx_param_fqn_hash : Z; sx_param_fqn_debug : string;
  sx_layout : Z; sx_shape_hash : Z; sx_stride_hash : Z; sx_pp_rank : Z; sx_tp_rank : Z; sx_ep_rank : Z;
  sx_etp_rank : Z; sx_expert_id : Z; sx_shard_offset : Z; sx_shard_nbytes : Z }.
(** The request; rank, destructiveness and placement are filled in by the agent. *)
Definition evict_request (job : JobKeyWire) (x : ShardAxes) (scalar_type nbytes dedup_mode : Z)
  (allow_duplicate_candidate : bool) (local_tensor_id local_version : Z) : RequestCanonicalEvictRequest :=
  mkRequestCanonicalEvictRequest 0 0
    (mkCanonicalTensorKeyWire job (sx_model_role x) (sx_model_version x) (sx_param_id x) (sx_param_fqn_hash x)
       (sx_param_fqn_debug x) (u32 scalar_type) (sx_layout x) nbytes (sx_shape_hash x) (sx_stride_hash x)
       (sx_pp_rank x) (sx_tp_rank x) (sx_ep_rank x) (sx_etp_rank x) (sx_expert_id x) (sx_shard_offset x)
       (if decide (sx_shard_nbytes x = 0) then nbytes else sx_shard_nbytes x))
    local_tensor_id local_version true true true dedup_mode allow_duplicate_candidate 256 0 0 0.
(** The agent ignores [wait] here. *)
Definition canonical_evict (t : Tensor) (destructive allow_views unsafe_autograd compact : bool)
  (stream_obj : py_object) (x : ShardAxes) (dedup_mode : Z) (allow_duplicate_candidate : bool)
  (local_tensor_id local_version : Z) : C (bool * Z * Z * bool * string) :=
  if negb (tn_is_cuda t) then cthrow "canonical_evict: tensor must be CUDA"
  else
    let+ job := need_job "canonical_evict" in
    let+ device := ag_get a_device in
    let+ source := choose_source t compact allow_views unsafe_autograd in
    let nbytes := logical_nbytes source in
    let dev_ptr := tn_data_ptr source in
    let+ stream := resolve_stream stream_obj device in
    let req := evict_request job x (tn_scalar_type t) nbytes dedup_mode allow_duplicate_candidate
                 local_tensor_id local_version in
    let+ cb := make_callback source destructive in
    let hash_on_commit := bool_decide (dedup_mode = 2) || bool_decide (dedup_mode = 3) in
    let+ res := ag (Agent.canonical_evict dev_ptr nbytes stream destructive req (Some cb) local_tensor_id
                      hash_on_commit) in
    cret (cer_ok res, cer_action res, cer_object_id res, cer_did_d2h res, cer_message res).
Definition seal_model_version (model_role model_version : Z) (promote fail_if_missing : bool)
  : C (bool * Z * Z * Z * string) :=
  let+ job := need_job "seal" in
  let+ r := ag (Agent.seal_model_version
                  (mkSealModelVersionRequest job model_role model_version fail_if_missing [] promote)) in
  cret (sms_ok r, sms_state r, sms_tensor_count r, sms_total_nbytes r, sms_message r).
Definition drop_canonical_version (model_role model_version : Z) : C (Z * Z * Z * string) :=
  let+ job := need_job "drop" in
  let+ r := ag (Agent.drop_canonical_version (mkDropCanonicalVersionRequest job model_role model_version)) in
  if negb (dvs_ok r) then cthrow ("drop_canonical_version failed: " +:+ dvs_message r)
  else cret (dvs_dropped_count r, dvs_skipped_inflight r, dvs_bytes_freed r, dvs_message r).
Definition release_canonical (model_role model_version object_id : Z) : C (Z * Z * Z * string) :=
  let+ job := need_job "release" in
  let+ r := ag (Agent.release_canonical (mkReleaseCanonicalRequest 0 0 job model_role model_version object_id)) in
  if negb (rcs_ok r) then cthrow ("release_canonical failed: " +:+ rcs_message r)
  else cret (rcs_released_count r, rcs_freed_count r, rcs_bytes_freed r, rcs_message r).

(** ** Life cycle *)
Definition context_config (socket_path : string) (device rank local_rank world_rank numa_node
  registration_chunk_bytes : Z) (eager_register : bool) : AgentConfig :=
  mkAgentConfig socket_path device (u32 rank) (u32 local_rank) (u32 world_rank) numa_node
    (if decide (registration_chunk_bytes = 0) then 536870912 else registration_chunk_bytes) eager_register 1000 200.
(** The constructor: the agent connects and registers. *)
Definition open_context (cfg : AgentConfig) : out Context :=
  match construct (agent_zero cfg) with
  | (Val _, st) => Val (mkContext (Some st) (mkJobKeyWire 0 0 0 "") false (ac_rank_id cfg) 1 ∅ 0 0 [] false)
  | (Exc m, _) => Exc m
  | (Spin, _) => Spin
  end.
(** [agent_.reset()]: the destructor runs, and with it the remaining callbacks. *)
Definition close : C unit := fun c =>
  match cx_agent c with
  | None => (Val tt, c)
  | Some _ => let '(_, c') := ag shutdown c in (Val tt, c' <| cx_agent := None |>)
  end.
End Shim.
