(* ===== verification/BindingsProps.v ===== *)
(** * The shim releases only what was copied

    Executions of a [Context]: its operations and the steps of the agent's threads
    in any order.  Callbacks are tokens: every eviction makes one, and the agent
    runs each at most once, behind the copy it belongs to ([tokens]).  With the
    agent's own invariant ([AgentProps.ainv]) this gives the safety of destructive
    eviction down to the torch storage, and the liveness of the source of every
    copy in flight. *)
From stdpp Require Import base gmap strings list list_numbers.
From Stdlib Require Import ZArith Lia.
From S2P Require Import Prelude.
From S2P Require Import Protocol.
From S2P Require Import ProtocolV2.
From S2P Require Import Rpc.
From S2P Require Import State.
From S2P Require Import Agent.
From S2P Require Import AgentLogic.
From S2P Require Import AgentWorld.
From S2P Require Import AgentProps.
From S2P Require Import AgentFlow.
From S2P Require Import Bindings.
Open Scope Z_scope.
Open Scope offload_scope.
Open Scope agent_scope.

(** ** Tokens *)
(** The closures of the transfers that may still run them. *)
Definition fids (rs : list InflightD2H) : list Z := omap d_cb rs.
Definition tokens (st : Agent) : list Z := fids (a_inflight_d2h st ++ a_done_d2h st) ++ invoked (a_trace st).
Definition is_evict (c : call) : bool := match c with CEvict _ _ _ _ _ _ => true | _ => false end.
Definition evicts (t : trace) : trace := List.filter is_evict t.

Lemma invoked_app t t' : invoked (t ++ t') = invoked t ++ invoked t'.
Proof. apply bind_app. Qed.
Lemma evicts_app t t' : evicts (t ++ t') = evicts t ++ evicts t'.
Proof. apply List.filter_app. Qed.
Lemma fids_app a b : fids (a ++ b) = fids a ++ fids b.
Proof. apply omap_app. Qed.
Lemma invoked_invalidated t : invoked t = omap fst (invalidated t).
Proof.
  induction t as [|c t IH]; [done|]. unfold invoked, invalidated in *. rewrite !bind_cons, omap_app, IH.
  by destruct c as [| | | | | |[]| |].
Qed.
Lemma cookies_fids rs : omap fst (cookies rs) ⊆+ fids rs.
Proof.
  induction rs as [|r rs IH]; [done|]. unfold cookies, fids. rewrite bind_cons, omap_app. cbn [omap list_omap].
  destruct (d_destructive r), (d_cb r); cbn; try (by apply submseteq_cons); try done. by apply submseteq_skip.
Qed.
Lemma calm_tokens t : calls_calm t -> invoked t = [] /\ evicts t = [].
Proof.
  induction 1 as [|c t Hc _ [IH1 IH2]]; [done|]. unfold invoked, evicts in *. rewrite bind_cons, IH1. cbn. rewrite IH2.
  by destruct c.
Qed.

(** ** Operations that neither evict nor run callbacks *)
Record keep (st st' : Agent) : Prop := {
  kp_grows : grows st st';
  kp_inflight : a_inflight_d2h st' = a_inflight_d2h st;
  kp_done : a_done_d2h st' = a_done_d2h st;
  kp_invoked : invoked (a_trace st') = invoked (a_trace st);
  kp_evicts : evicts (a_trace st') = evicts (a_trace st) }.
#[local] Instance keep_preorder : PreOrder keep.
Proof.
  split; [intros st; split; try done; unfold grows; reflexivity|].
  intros x y z [G1] [G2]. split; try congruence. unfold grows in *. by etrans.
Qed.
Lemma keep_quiet_st st st' : quiet st st' -> keep st st'.
Proof.
  intros [(t & E & Ht) ? ? ? ? ? ? ? ? ? ? ?]. destruct (calm_tokens t Ht) as [H1 H2].
  split; try done; [by exists t|..]; rewrite E, ?invoked_app, ?evicts_app; by rewrite ?H1, ?H2.
Qed.
Lemma keep_tokens st st' : keep st st' -> tokens st' = tokens st.
Proof. intros [_ Hi Hd Hv _]. unfold tokens. by rewrite Hi, Hd, Hv. Qed.

Section Keeping.
Context `{W : World}.
Lemma keep_quiet {A} (m : M A) : ensures quiet m -> ensures keep m.
Proof. intros Hm st. apply keep_quiet_st, Hm. Qed.
Lemma keep_log c : callback_of c = [] -> is_evict c = false -> ensures keep (log c).
Proof.
  intros H1 H2 st. split; try done; [by exists [c]|..].
  - change (invoked (c :: a_trace st) = invoked (a_trace st)). unfold invoked. by rewrite bind_cons, H1.
  - cbn. by rewrite H2.
Qed.
Lemma keep_rpc r : ensures keep (rpc r).
Proof. intros st. unfold rpc. destruct (w_rpc (a_trace st) r); split; try done; by eexists [_]. Qed.
Lemma keep_modify f : (forall st, a_trace (f st) = a_trace st /\ a_inflight_d2h (f st) = a_inflight_d2h st /\
  a_done_d2h (f st) = a_done_d2h st) -> ensures keep (modify f).
Proof. intros H st. destruct (H st) as (E & ? & ?). split; cbn; rewrite ?E; try done. exists []. by rewrite E. Qed.
#[local] Hint Resolve keep_rpc : agent.
#[local] Hint Extern 1 (ensures keep (log _)) => apply keep_log; reflexivity : agent.
#[local] Hint Extern 1 (ensures keep (modify _)) => apply keep_modify; intros; repeat split : agent.
#[local] Hint Extern 2 (ensures keep _) => apply keep_quiet; solve [eauto with agent] : agent.
Lemma keep_push_entry e : ensures keep (push_entry e).
Proof. unfold push_entry. ensures. Qed.
Lemma keep_finalize_h2d r : ensures keep (finalize_h2d r).
Proof. unfold finalize_h2d. ensures. Qed.
#[local] Hint Resolve keep_push_entry keep_finalize_h2d : agent.
Lemma keep_complete_h2d r : ensures keep (complete_h2d r).
Proof. unfold complete_h2d, rpc_mark_h2d_complete, mismatch. ensures. Qed.
#[local] Hint Resolve keep_complete_h2d : agent.
Lemma keep_restore fuel tid ver dev n s wait : ensures keep (Agent.restore fuel tid ver dev n s wait).
Proof. unfold Agent.restore, rpc_request_prefetch, rpc_mark_h2d_submitted, mismatch. ensures. Qed.
Lemma keep_canonical_restore fuel oid dev n s wait : ensures keep (canonical_restore fuel oid dev n s wait).
Proof. unfold canonical_restore, rpc_release_canonical_restore, mismatch. ensures. Qed.
Lemma keep_discard tid ver : ensures keep (Agent.discard tid ver).
Proof. unfold Agent.discard, rpc_release_lease, mismatch. ensures. Qed.
Lemma keep_heartbeat : ensures keep heartbeat_beat.
Proof. unfold heartbeat_beat, rpc_heartbeat, mismatch. ensures. Qed.
Lemma keep_cleanup : ensures keep cleanup_mappings.
Proof. unfold cleanup_mappings. ensures. Qed.
End Keeping.

(** ** Operations that run callbacks *)
(** Evictions are not called; the trace grows. *)
Definition sev (st st' : Agent) : Prop := grows st st' /\ evicts (a_trace st') = evicts (a_trace st).
#[local] Instance sev_preorder : PreOrder sev.
Proof.
  split; [intros st; split; [unfold grows|]; reflexivity|]. intros x y z [G1 E1] [G2 E2]. split; [|congruence].
  unfold grows in *. by etrans.
Qed.
Lemma submseteq_NoDup {A} (l k : list A) : l ⊆+ k -> NoDup k -> NoDup l.
Proof. intros (k' & ->)%submseteq_Permutation (H & _)%NoDup_app. exact H. Qed.
Lemma fids_submseteq l k : l ⊆+ k -> fids l ⊆+ fids k.
Proof.
  intros (k' & E)%submseteq_Permutation. unfold fids. rewrite E, omap_app. by apply submseteq_inserts_r.
Qed.
Lemma effect_invoked st st' it ds hs : effect st st' it ds hs ->
  invoked (a_trace st') ⊆+ fids ds ++ invoked (a_trace st).
Proof.
  intros [(t & E & _ & Hc) _ _ _ _ _ _]. rewrite E, invoked_app, (invoked_invalidated t), Hc.
  apply submseteq_skips_r, cookies_fids.
Qed.

Section Spending.
Context `{W : World}.
Lemma sev_keep {A} (m : M A) : ensures keep m -> ensures sev m.
Proof. intros Hm st. destruct (Hm st). by split. Qed.
Lemma sev_log c : is_evict c = false -> ensures sev (log c).
Proof. intros Hc st. split; [by exists [c]|]. cbn. by rewrite Hc. Qed.
#[local] Hint Resolve keep_rpc keep_push_entry keep_finalize_h2d keep_complete_h2d : agent.
#[local] Hint Extern 1 (ensures sev (log _)) => apply sev_log; reflexivity : agent.
#[local] Hint Extern 1 (ensures sev (modify _)) => apply sev_keep, keep_modify; intros; repeat split : agent.
#[local] Hint Extern 2 (ensures keep _) => apply keep_quiet; solve [eauto with agent] : agent.
#[local] Hint Extern 3 (ensures sev _) => apply sev_keep; solve [eauto with agent] : agent.
Lemma sev_finalize_d2h r : ensures sev (finalize_d2h r).
Proof. unfold finalize_d2h, invalidate. ensures. Qed.
#[local] Hint Resolve sev_finalize_d2h : agent.
Lemma sev_complete_d2h r : ensures sev (complete_d2h r).
Proof. unfold complete_d2h, rpc_mark_d2h_complete, mismatch. ensures. Qed.
#[local] Hint Resolve sev_complete_d2h : agent.
Lemma sev_push_all {A} push finalize make (xs : list A) :
  (forall x, ensures sev (push x)) -> (forall x, ensures sev (finalize x)) -> (forall x, ensures sev (make x)) ->
  ensures sev (push_all push finalize make xs).
Proof.
  intros Hp Hf Hm. induction xs as [|x xs IH]; cbn [push_all]; [ensures|].
  apply ensures_bind; [exact _|apply Hp|intros []].
  - apply ensures_bind; [exact _|apply Hf|intros _; exact IH].
  - apply ensures_bind; [exact _|apply Hm|intros c]. apply ensures_bind; [exact _|exact IH|intros; ensures].
Qed.
Lemma sev_flush ds hs : ensures sev (flush_completions_batch ds hs).
Proof.
  assert (Hd : ensures sev (push_all ring_push_d2h finalize_d2h make_d2h_completion ds)).
  { apply sev_push_all; intros x; [unfold ring_push_d2h|..]; ensures. }
  assert (Hh : ensures sev (push_all ring_push_h2d finalize_h2d make_h2d_completion hs)).
  { apply sev_push_all; intros x; [unfold ring_push_h2d|..]; ensures. }
  assert (Hb : forall m, ensures sev (best_effort (rpc_batch_complete m))) by (intros m; unfold rpc_batch_complete, mismatch; ensures).
  unfold flush_completions_batch. ensures.
Qed.

(** [new] may be added to the tokens, nothing else. *)
Definition spends (new : list Z) (st st' : Agent) : Prop := sev st st' /\ tokens st' ⊆+ new ++ tokens st.
Lemma keep_spends st st' new : keep st st' -> spends new st st'.
Proof.
  intros H. split; [by destruct H|]. rewrite (keep_tokens _ _ H). by apply submseteq_inserts_l.
Qed.
Lemma spends_after_keep new x y z : keep x y -> spends new y z -> spends new x z.
Proof.
  intros H1 [H2 H3]. split; [|by rewrite <- (keep_tokens _ _ H1)]. etrans; [|exact H2]. by destruct H1.
Qed.
Lemma effect_spends st st' it ds hs : sev st st' -> effect st st' it ds hs -> spends (fids ds) st st'.
Proof.
  intros Hs He. split; [done|]. pose proof (effect_invoked _ _ _ _ _ He) as Hv. destruct He as [_ [Hi _] [Hd _] _ _ _ _].
  unfold tokens. rewrite Hi, Hd. by apply submseteq_app_middle.
Qed.
Lemma fids_perm a b : a ≡ₚ b -> fids a ≡ₚ fids b.
Proof. intros H. unfold fids. by rewrite H. Qed.
Lemma complete_d2h_spends r st : spends (fids [r]) st (complete_d2h r st).2.
Proof.
  destruct (does_complete_d2h r st) as (x & st' & it & ds & hs & E & He & _ & Hds & _).
  destruct (effect_spends _ _ _ _ _ (sev_complete_d2h r st) ltac:(by rewrite E)) as [Hs Ht].
  split; [done|]. by rewrite (fids_perm _ _ Hds) in Ht.
Qed.
Lemma progress_flush_spends st : spends [] st (progress_flush st).2.
Proof.
  unfold progress_flush. unfold bind at 1, get at 1. cbv beta iota.
  pose proof (sev_flush (a_done_d2h st) (a_done_h2d st) st) as [Hg He].
  destruct (flush_effect (a_done_d2h st) (a_done_h2d st) st) as (st1 & it & E & Hef & _).
  pose proof (effect_invoked _ _ _ _ _ Hef) as Hv. destruct Hef as [_ [Hi _] _ _ _ _ _].
  unfold bind at 1. rewrite E in Hg, He |- *. cbn [snd] in *. split; [split; [|exact He]|].
  - destruct Hg as [t Hg]. eexists (_ :: t). cbn. by rewrite Hg.
  - cbn [app]. unfold tokens. cbn. rewrite app_nil_r, Hi, fids_app, <- app_assoc. by apply submseteq_skips_l.
Qed.
Lemma progress_poll_spends st : a_done_d2h st = [] -> spends [] st (progress_poll st).2.
Proof.
  intros Hdone. unfold progress_poll, drop_d2h, drop_h2d. unfold bind at 1, get at 1. cbv beta iota.
  destruct (poll_events_spec d_ev d_nbytes (fun n st => st <| a_inflight_d2h_bytes ::= (fun b => u64 (b - n)) |>)
    ltac:(intros n s; by split) (a_inflight_d2h st) st)
    as (dn & wt & st1 & t1 & E1 & P1 & Et1 & Ht1 & Hsub & _).
  unfold bind at 1. rewrite E1. unfold bind at 1, modify at 1. cbv beta iota.
  set (st2 := st1 <| a_inflight_d2h := _ |> <| a_done_d2h := _ |>).
  destruct (poll_events_spec h_ev h_nbytes (fun n st => st <| a_inflight_h2d_bytes ::= (fun b => u64 (b - n)) |>)
    ltac:(intros n s; by split) (a_inflight_h2d st) st2)
    as (dn2 & wt2 & st3 & t2 & E2 & P2 & Et2 & Ht2 & _ & _).
  unfold bind at 1. rewrite E2. destruct P2 as [Pi2 _ Pd2 _ _].
  destruct (calm_tokens _ Ht1) as [V1 F1], (calm_tokens _ Ht2) as [V2 F2].
  assert (Et : a_trace st3 = t2 ++ t1 ++ a_trace st) by (by rewrite Et2, <- Et1).
  split; [split|]; cbn.
  - exists (t2 ++ t1). by rewrite <- app_assoc, <- Et.
  - by rewrite Et, !evicts_app, F1, F2.
  - unfold tokens. cbn. rewrite Pi2, Pd2, Et, !invoked_app, V1, V2, Hdone. cbn. rewrite app_nil_r.
    apply submseteq_skips_r, fids_submseteq. by rewrite Permutation_app_comm.
Qed.

(** Steps over an operation that stays in [keep]. *)
Ltac keep_step x H :=
  let st := fresh "st" in let H' := fresh "H" in let H0 := fresh "H" in
  apply wp_bind; eapply (wp_ensures keep); [solve [ensures]|]; intros [x|?|] st H';
  [rename H into H0; pose proof (transitivity H0 H') as H; clear H0 H'
  |by apply keep_spends, (transitivity H H')..].
Definition evict_call (dev n f cookie tid ver : Z) (st : Agent) : Agent :=
  st <| a_trace ::= cons (CEvict dev n (Some f) cookie tid ver) |>.
#[local] Hint Extern 1 (ensures keep (log _)) => apply keep_log; reflexivity : agent.
#[local] Hint Extern 1 (ensures keep (modify _)) => apply keep_modify; intros; repeat split : agent.
Lemma push_spends st0 st1 r f : keep st0 st1 -> d_cb r = Some f ->
  spends [f] st0 (st1 <| a_inflight_d2h ::= (fun l => l ++ [r]) |>).
Proof.
  intros [Hg Hi Hd Hv He] Hr. split; [by split|].
  change (fids ((a_inflight_d2h st1 ++ [r]) ++ a_done_d2h st1) ++ invoked (a_trace st1) ⊆+ [f] ++ tokens st0).
  unfold tokens. rewrite Hi, Hd, Hv, !fids_app. unfold fids at 2. cbn [omap list_omap]. rewrite Hr.
  rewrite <- !app_assoc. cbn [app]. by rewrite <- Permutation_middle.
Qed.
Lemma evict_spends dev n s destr meta f cookie wait st :
  spends [f] (evict_call dev n f cookie (tm_tensor_id meta) (tm_version meta) st)
    (Agent.evict dev n s destr meta (Some f) cookie wait st).2.
Proof.
  set (st0 := evict_call _ _ _ _ _ _ _).
  enough (wp (Agent.evict dev n s destr meta (Some f) cookie wait) (fun _ st' => spends [f] st0 st') st) by done.
  unfold Agent.evict. apply wp_bind. change (wp (log _) ?Q st) with (Q (Val tt) st0). cbv beta iota.
  assert (H : keep st0 st0) by reflexivity. unfold rpc_request_offload, mismatch.
  keep_step st1 H. cbv zeta. keep_step resp H. destruct (_ || _); [by apply keep_spends|].
  unfold rpc_mark_d2h_submitted, mismatch.
  keep_step x1 H. keep_step dst H. keep_step x2 H. keep_step sq H. keep_step now H.
  keep_step x3 H. keep_step sns H. keep_step ev H. keep_step x4 H. keep_step x5 H. keep_step cs H. keep_step x6 H.
  set (r := mkInflightD2H _ _ _ _ _ _ _ _ _ _ _). destruct wait.
  - keep_step x7 H. keep_step x8 H. apply wp_bind.
    match goal with |- wp _ _ ?s => pose proof (spends_after_keep _ _ _ _ H (complete_d2h_spends r s)) as Hs end.
    unfold wp. by destruct (complete_d2h r _) as [[]].
  - apply wp_bind, wp_modify, wp_ret. by apply push_spends.
Qed.
Lemma canonical_evict_spends dev n s destr req f cookie hash st :
  spends [f] (evict_call dev n f cookie (ce_local_tensor_id req) (ce_local_version req) st)
    (Agent.canonical_evict dev n s destr req (Some f) cookie hash st).2.
Proof.
  set (st0 := evict_call _ _ _ _ _ _ _).
  enough (wp (Agent.canonical_evict dev n s destr req (Some f) cookie hash) (fun _ st' => spends [f] st0 st') st) by done.
  unfold Agent.canonical_evict. apply wp_bind. change (wp (log _) ?Q st) with (Q (Val tt) st0). cbv beta iota.
  assert (H : keep st0 st0) by reflexivity. unfold rpc_request_canonical_evict, mismatch.
  assert (Hinv : forall st1 (b : bool) (out : CanonicalEvictResult), keep st0 st1 ->
    wp (let* _ := (if b then invalidate (Some f) cookie else ret tt) in ret out) (fun _ st' => spends [f] st0 st') st1).
  { clear. intros st1 b out H. destruct b; [|by apply keep_spends]. destruct H as [[t Hg] Hi Hd Hv He].
    split; [split; [by eexists (_ :: t); cbn; rewrite Hg|done]|].
    change (fids (a_inflight_d2h st1 ++ a_done_d2h st1) ++ f :: invoked (a_trace st1) ⊆+ [f] ++ tokens st0).
    unfold tokens. by rewrite Hi, Hd, Hv, <- Permutation_middle. }
  keep_step st1 H. cbv zeta. keep_step resp H. destruct (ces_ok resp); cbn [negb]; [|by apply keep_spends].
  case_decide; [by apply Hinv|]. case_decide; [by apply keep_spends|].
  unfold rpc_mark_d2h_submitted, rpc_mark_d2h_complete, rpc_commit_canonical_object, mismatch.
  keep_step dst H. keep_step x2 H. keep_step x3 H. keep_step sq H. keep_step now H. keep_step x4 H.
  keep_step ev H. keep_step x5 H. keep_step x6 H. keep_step cs H. keep_step now2 H. keep_step r H.
  destruct r as [out|]; [by apply keep_spends|]. keep_step st' H. destruct (if hash then _ else _) as [hlo hhi].
  keep_step c H. destruct c as [cres|out]; [|by apply keep_spends]. by apply Hinv.
Qed.
(** Teardown finalizes every transfer in flight. *)
Lemma spends_trans a b x y z : spends a x y -> spends b y z -> spends (a ++ b) x z.
Proof.
  intros [S1 H1] [S2 H2]. split; [by etrans|]. rewrite (Permutation_app_comm a b), <- app_assoc.
  etrans; [exact H2|]. by apply submseteq_skips_l.
Qed.
Lemma spends_bind {A B} (m : M A) (k : A -> M B) a b st : spends a st (m st).2 ->
  (forall x st', spends b st' (k x st').2) -> spends (a ++ b) st (bind m k st).2.
Proof.
  intros Hm Hk. assert (Hleft : forall st', spends a st st' -> spends (a ++ b) st st').
  { intros st' [Hs Ht]. split; [done|]. rewrite <- app_assoc. etrans; [exact Ht|].
    by apply submseteq_skips_l, submseteq_inserts_l. }
  unfold bind. destruct (m st) as [[x|e|] st1]; cbn in *; [|by apply Hleft..]. by eapply spends_trans.
Qed.
Lemma drain_d2h_spends l st : spends (fids l) st (for_each l (fun r =>
  let* _ := cuda (cudaEventSynchronize (d_ev r)) in complete_d2h r) st).2.
Proof.
  revert st. induction l as [|r l IH]; intros st; [apply keep_spends; reflexivity|]. cbn [for_each].
  change (r :: l) with ([r] ++ l). rewrite fids_app. apply spends_bind; [|intros _ st'; apply IH].
  apply (spends_bind _ _ [] (fids [r])); [|intros _ st'; apply complete_d2h_spends].
  apply keep_spends, keep_quiet_st, quiet_cuda.
Qed.
Lemma shutdown_spends st : spends [] st (shutdown st).2.
Proof.
  assert (Hkeep : forall A (m : M A), ensures keep m -> forall s, spends [] s (m s).2) by (intros A m Hm s; apply keep_spends, Hm).
  pose proof keep_cleanup as Hc. unfold shutdown.
  apply (spends_bind _ _ [] []); [apply Hkeep; ensures|]. intros _ s1.
  apply (spends_bind _ _ [] []).
  2: { intros _ s2. apply Hkeep. ensures. }
  unfold drain_inflight_on_shutdown. unfold bind at 1, get at 1. cbv beta iota. unfold bind at 1, modify at 1. cbv beta iota.
  set (s2 := s1 <| a_inflight_d2h := [] |> <| a_inflight_h2d := [] |>).
  assert (H : spends (fids (a_inflight_d2h s1) ++ []) s2 ((let* _ := for_each (a_inflight_d2h s1) (fun r =>
      let* _ := cuda (cudaEventSynchronize (d_ev r)) in complete_d2h r) in
    for_each (a_inflight_h2d s1) (fun r => let* _ := cuda (cudaEventSynchronize (h_ev r)) in complete_h2d r)) s2).2).
  { apply spends_bind; [apply drain_d2h_spends|]. intros _ s3. apply Hkeep. apply ensures_for_each; [exact _|]. intros x. ensures. }
  rewrite app_nil_r in H. destruct H as [H1 H2]. split; [exact H1|]. cbn [app]. etrans; [exact H2|].
  unfold tokens at 2. by rewrite fids_app, <- app_assoc.
Qed.
End Spending.

(** ** The context *)
(** The closure of every eviction so far captured the tensor that was handed to the
    agent: a whole storage. *)
Definition sources_ok (t : trace) (c : Context) : Prop := forall dev n cb cookie tid ver,
  CEvict dev n cb cookie tid ver ∈ t -> exists f cl, cb = Some f /\ cx_closures c !! f = Some cl /\
    tn_data_ptr (cl_source cl) = dev /\ logical_nbytes (cl_source cl) = n /\ whole_storage (cl_source cl).
(** [spent] are the closures that ran. *)
Record cwf (spent : list Z) (c : Context) : Prop := {
  cw_fault : cx_fault c = false;
  cw_next : 0 <= cx_next_closure c;
  cw_dom f : is_Some (cx_closures c !! f) <-> 0 <= f < cx_next_closure c;
  cw_held f cl : cx_closures c !! f = Some cl -> f ∉ spent -> cl_held cl = true;
  cw_replaced i f : (i, f) ∈ cx_replaced c -> f ∈ spent /\
    exists cl, cx_closures c !! f = Some cl /\ tn_impl (cl_source cl) = i /\ cl_do_invalidate cl = true;
  cw_emptied f cl g : cx_closures c !! f = Some cl -> cl_emptied cl = Some g ->
    g <> f /\ (tn_impl (cl_source cl), g) ∈ cx_replaced c }.
Record cinv (c : Context) : Prop := {
  ci_fault : cx_fault c = false;
  ci_agent st : cx_agent c = Some st -> ainv st /\ tokens st ⊆+ seqZ 0 (cx_next_closure c) /\
    sources_ok (evicts (a_trace st)) c /\ cwf (invoked (a_trace st)) c }.

Section ContextSafety.
Context `{W : World} `{T : Torch}.
(** A callback that only drops its tensor. *)
Lemma drop_cwf spent f c cl : cx_closures c !! f = Some cl -> cwf spent c ->
  cwf (f :: spent) (c <| cx_closures ::= <[f := cl <| cl_held := false |>]> |>).
Proof.
  intros Hcl [Hfa Hn Hd Hh Hp He]. split; cbn; try done.
  - intros g. rewrite lookup_insert_is_Some'. rewrite <- Hd. split; [|tauto]. intros [<-|]; [by rewrite Hcl|done].
  - intros g x [[<- <-]|[_ Hg]]%lookup_insert_Some Hn'; [set_solver|]. apply (Hh g x Hg). set_solver.
  - intros i g (Hs & x & Hx & Hi & Hv)%Hp. split; [set_solver|]. destruct (decide (g = f)) as [->|].
    + rewrite Hcl in Hx. injection Hx as <-. exists (cl <| cl_held := false |>). by rewrite lookup_insert_eq.
    + exists x. by rewrite lookup_insert_ne.
  - intros g x h [[<- <-]|[_ Hg]]%lookup_insert_Some; [intros H; by apply (He f cl h)|by apply He].
Qed.
Lemma set_data_lookup impl f cls g x' : set_data impl f cls !! g = Some x' ->
  exists x, cls !! g = Some x /\ cl_source x' = cl_source x /\ cl_do_invalidate x' = cl_do_invalidate x /\ cl_held x' = cl_held x /\
    (forall h, cl_emptied x' = Some h -> cl_emptied x = Some h \/ h = f /\ tn_impl (cl_source x) = impl).
Proof.
  unfold set_data. rewrite lookup_fmap. intros (x & Hx & ->)%fmap_Some. exists x. case_decide as Hd; [|by eauto 10].
  split_and!; try done. intros h [= <-]. right. by destruct Hd.
Qed.
Lemma set_data_is_Some impl f cls g : is_Some (set_data impl f cls !! g) <-> is_Some (cls !! g).
Proof. unfold set_data. by rewrite lookup_fmap, fmap_is_Some. Qed.
Lemma set_data_kept impl f cls g x : cls !! g = Some x -> exists x', set_data impl f cls !! g = Some x' /\ cl_source x' = cl_source x /\
  cl_do_invalidate x' = cl_do_invalidate x.
Proof. unfold set_data. rewrite lookup_fmap. intros ->. cbn. eexists. split; [done|]. by case_decide. Qed.
Lemma run_callback_cwf spent f c : f ∉ spent -> 0 <= f < cx_next_closure c -> cwf spent c ->
  cwf (f :: spent) (run_callback f c).
Proof.
  intros Hf Hr Hw. pose proof Hw as [Hfa Hn Hd Hh Hp He]. unfold run_callback. apply Hd in Hr as [cl Hcl]. rewrite Hcl.
  assert (Hheld := Hh f cl Hcl Hf).
  destruct (th_finalizing _); [by apply drop_cwf|]. destruct (cl_do_invalidate cl) eqn:Hi; [|by apply drop_cwf].
  rewrite Hheld. set (impl := tn_impl (cl_source cl)). split; cbn -[set_data]; try done.
  - intros g. rewrite lookup_insert_is_Some', set_data_is_Some, <- Hd. split; [|tauto]. intros [<-|]; [by rewrite Hcl|done].
  - intros g x' [[<- <-]|[_ (x & Hx & _ & _ & -> & _)%set_data_lookup]]%lookup_insert_Some Hn'; [set_solver|].
    apply (Hh g x Hx). set_solver.
  - intros i g [[= -> ->]|(Hs & x & Hx & Hix & Hv)%Hp]%elem_of_cons; (split; [set_solver|]).
    + exists (cl <| cl_held := false |>). by rewrite lookup_insert_eq.
    + destruct (decide (g = f)) as [->|Hne].
      * rewrite Hcl in Hx. injection Hx as <-. exists (cl <| cl_held := false |>). by rewrite lookup_insert_eq.
      * destruct (set_data_kept impl f _ _ _ Hx) as (x' & Hx' & E1 & E2). exists x'. rewrite lookup_insert_ne, E1, E2 by done. done.
  - intros g x' h [[<- <-]|[Hne (x & Hx & -> & _ & _ & Hem)%set_data_lookup]]%lookup_insert_Some.
    + cbn. intros H. destruct (He f cl h Hcl H). split; [done|by right].
    + intros [H|[-> <-]]%Hem; [destruct (He g x h Hx H); split; [done|by right]|]. split; [done|left].
Qed.
(** Callbacks leave the agent and the captured tensors alone. *)
Record cframe (c c' : Context) : Prop := {
  cf_agent : cx_agent c' = cx_agent c;
  cf_next : cx_next_closure c' = cx_next_closure c;
  cf_sources f cl : cx_closures c !! f = Some cl -> exists cl', cx_closures c' !! f = Some cl' /\ cl_source cl' = cl_source cl }.
#[local] Instance cframe_preorder : PreOrder cframe.
Proof.
  split; [intros c; split; eauto|]. intros x y z [A1 N1 S1] [A2 N2 S2]. split; try congruence.
  intros f cl (cl1 & H1 & E1)%S1. destruct (S2 f cl1 H1) as (cl2 & H2 & E2). exists cl2. by rewrite E2.
Qed.
Lemma run_callback_frame f c : cframe c (run_callback f c).
Proof.
  unfold run_callback. destruct (cx_closures c !! f) as [cl|] eqn:E; [|reflexivity].
  assert (Hd : forall c', cx_closures c' = cx_closures c -> cx_agent c' = cx_agent c -> cx_next_closure c' = cx_next_closure c ->
    cframe c (c' <| cx_closures ::= <[f := cl <| cl_held := false |>]> |>)).
  { intros c' E1 E2 E3. split; cbn; try done. intros g x Hg. rewrite E1. destruct (decide (g = f)) as [->|].
    - rewrite lookup_insert_eq. eexists. split; [done|]. by rewrite E in Hg; injection Hg as <-.
    - rewrite lookup_insert_ne by done. eauto. }
  destruct (th_finalizing _); [by apply Hd|]. destruct (cl_do_invalidate cl); [|by apply Hd].
  destruct (cl_held cl); [|split; cbn; eauto]. split; cbn -[set_data]; try done. intros g x Hg. destruct (decide (g = f)) as [->|].
  - rewrite lookup_insert_eq. eexists. split; [done|]. by rewrite E in Hg; injection Hg as <-.
  - rewrite lookup_insert_ne by done. destruct (set_data_kept (tn_impl (cl_source cl)) f _ _ _ Hg) as (x' & Hx' & E1 & _). eauto.
Qed.
Lemma run_callbacks_cwf fs spent c : NoDup (fs ++ spent) -> Forall (fun f => 0 <= f < cx_next_closure c) fs -> cwf spent c ->
  cwf (fs ++ spent) (foldr run_callback c fs) /\ cframe c (foldr run_callback c fs).
Proof.
  intros Hn Hr Hc. induction fs as [|f fs IH]; [split; [done|reflexivity]|]. cbn [app] in *.
  apply NoDup_cons in Hn as [Hf Hn]. apply Forall_cons in Hr as [Hf' Hr]. destruct (IH Hn Hr) as [Hw Hfr]. cbn [foldr]. split.
  - apply run_callback_cwf; [done| |done]. by rewrite (cf_next _ _ Hfr).
  - etrans; [exact Hfr|apply run_callback_frame].
Qed.
Lemma since_app t t' : since t (t' ++ t) = t'.
Proof. unfold since. rewrite length_app. replace (length t' + length t - length t)%nat with (length t') by lia. apply take_app_length. Qed.
Lemma sources_frame t c c' : cframe c c' -> sources_ok t c -> sources_ok t c'.
Proof.
  intros [_ _ Hs] Ho dev n cb cookie tid ver Hin. destruct (Ho _ _ _ _ _ _ Hin) as (f & cl & -> & Hf & Hd & Hn & Hw).
  destruct (Hs f cl Hf) as (cl' & Hf' & E). exists f, cl'. by rewrite E.
Qed.
(** The callbacks of an operation of the agent. *)
Lemma callbacks_cwf c st st' : cwf (invoked (a_trace st)) c -> grows st st' -> tokens st' ⊆+ seqZ 0 (cx_next_closure c) ->
  let c' := run_callbacks (since (a_trace st) (a_trace st')) (c <| cx_agent := Some st' |>) in
  cwf (invoked (a_trace st')) c' /\ cframe (c <| cx_agent := Some st' |>) c'.
Proof.
  intros Hw [t E] Ht. cbv zeta. rewrite E, since_app, invoked_app. unfold run_callbacks.
  assert (Hv : invoked t ++ invoked (a_trace st) ⊆+ seqZ 0 (cx_next_closure c)).
  { etrans; [|exact Ht]. rewrite <- invoked_app, <- E. unfold tokens. by apply submseteq_inserts_l. }
  apply run_callbacks_cwf.
  - eapply submseteq_NoDup; [exact Hv|apply NoDup_seqZ].
  - apply Forall_forall. intros f Hf. cbn. assert (f ∈ seqZ 0 (cx_next_closure c)) as Hs%elem_of_seqZ; [|lia].
    eapply elem_of_submseteq; [|exact Hv]. set_solver.
  - destruct Hw. by split.
Qed.

(** Operations of the agent that keep its invariant and make no eviction. *)
Definition benign {A} (m : M A) : Prop := forall st, ainv st -> ainv (m st).2 /\ spends [] st (m st).2.
Definition pres {A} (m : C A) : Prop := forall c, cinv c -> cinv (m c).2.
Lemma ag_cinv {A} (m : M A) : benign m -> pres (ag m).
Proof.
  intros Hm c Hc. unfold ag. destruct (cx_agent c) as [st|] eqn:E; [|exact Hc].
  destruct (ci_agent c Hc st E) as (Hi & Ht & Hs & Hw). destruct (Hm st Hi) as [Hi' [[Hg He] Htok]].
  destruct (m st) as [o st']. cbn [snd] in *. cbn [app] in Htok.
  destruct (callbacks_cwf c st st' Hw Hg) as [Hw' Hfr]; [by etrans|].
  split; [by destruct Hw'|]. intros st1. rewrite (cf_agent _ _ Hfr). intros [= <-]. split_and!; [done| | |done].
  - rewrite (cf_next _ _ Hfr). cbn. by etrans.
  - rewrite He. eapply sources_frame; [exact Hfr|]. exact Hs.
Qed.
Lemma pres_ret {A} (x : A) : pres (cret x).
Proof. by intros c. Qed.
Lemma pres_throw {A} m : pres (cthrow m : C A).
Proof. by intros c. Qed.
Lemma pres_bind {A B} (m : C A) (k : A -> C B) : pres m -> (forall x, pres (k x)) -> pres (cbind m k).
Proof.
  intros Hm Hk c Hc. unfold cbind. specialize (Hm c Hc). destruct (m c) as [[x|e|] c']; [by apply Hk|done..].
Qed.
Lemma cinv_frame c c' : cx_agent c' = cx_agent c -> cx_closures c' = cx_closures c -> cx_next_closure c' = cx_next_closure c ->
  cx_replaced c' = cx_replaced c -> cx_fault c' = cx_fault c -> cinv c -> cinv c'.
Proof.
  intros E1 E2 E3 E4 E5 [Hf Ha]. split; [congruence|]. intros st. rewrite E1. intros H%Ha.
  destruct H as (Hi & Ht & Hs & [? ? ? ? ? ?]). split_and!; [done|by rewrite E3| |].
  - unfold sources_ok. by rewrite E2.
  - split; rewrite ?E2, ?E3, ?E4, ?E5; done.
Qed.
Lemma pres_modify f : (forall c, cx_agent (f c) = cx_agent c /\ cx_closures (f c) = cx_closures c /\
  cx_next_closure (f c) = cx_next_closure c /\ cx_replaced (f c) = cx_replaced c /\ cx_fault (f c) = cx_fault c) -> pres (cmodify f).
Proof. intros H c. destruct (H c) as (? & ? & ? & ? & ?). by apply cinv_frame. Qed.
Lemma pres_get : pres cget.
Proof. by intros c. Qed.
Lemma pres_ag_get {A} (f : Agent -> A) : pres (ag_get f).
Proof. intros c. unfold ag_get. by destruct (cx_agent c). Qed.
Lemma pres_torch {A} (f : nat -> res A) : pres (torch f).
Proof. intros c Hc. unfold torch. destruct (f (cx_torch_calls c)); by apply (cinv_frame c). Qed.
Lemma pres_next_id : pres next_tensor_id.
Proof. intros c Hc. by apply (cinv_frame c). Qed.
Lemma seqZ_next n : 0 <= n -> n :: seqZ 0 n ≡ₚ seqZ 0 (n + 1).
Proof. intros Hn. rewrite seqZ_app by lia. rewrite (Permutation_app_comm (seqZ 0 n)). done. Qed.
Lemma make_callback_cwf spent src d c : Forall (fun f => f < cx_next_closure c) spent -> cwf spent c ->
  cwf spent (make_callback src d c).2.
Proof.
  intros Hsp [Hf Hn Hd Hh Hp He]. assert (Hfresh : cx_closures c !! cx_next_closure c = None).
  { apply eq_None_not_Some. intros H%Hd. lia. }
  split; cbn; try done; [lia|..].
  - intros f. rewrite lookup_insert_is_Some', Hd. lia.
  - intros f cl [[<- <-]|[_ H]]%lookup_insert_Some Hns; [done|by eapply Hh].
  - intros i f (Hs & cl & Hcl & ?)%Hp. split; [done|]. exists cl. rewrite lookup_insert_ne; [done|]. congruence.
  - intros f cl g [[<- <-]|[_ H]]%lookup_insert_Some; [done|by apply He].
Qed.
(** An eviction: a closure for a whole storage, then the agent's operation. *)
Lemma pres_evict {A B} (m : Z -> M A) (k : A -> C B) src d cookie tid ver :
  whole_storage src ->
  (forall f st, ainv st -> ainv (m f st).2 /\
     spends [f] (evict_call (tn_data_ptr src) (logical_nbytes src) f cookie tid ver st) (m f st).2) ->
  (forall x, pres (k x)) ->
  pres (cbind (make_callback src d) (fun cb => cbind (ag (m cb)) k)).
Proof.
  intros Hsrc Hm Hk c Hc. unfold cbind at 1. set (f := cx_next_closure c). set (c1 := (make_callback src d c).2).
  change (make_callback src d c) with (@Val Z f, c1). cbv beta iota.
  assert (Hag : cinv (ag (m f) c1).2).
  2: { unfold cbind. destruct (ag (m f) c1) as [[x|e|] c2]; [by apply Hk|done..]. }
  unfold ag. change (cx_agent c1) with (cx_agent c). destruct (cx_agent c) as [st|] eqn:E.
  2: { split; [by destruct Hc|]. cbn. by rewrite E. }
  destruct (ci_agent c Hc st E) as (Hi & Ht & Hs & Hw). destruct (Hm f st Hi) as [Hi' [[Hg He] Htok]].
  destruct (m f st) as [o st']. cbn [snd] in *.
  assert (Hg' : grows st st') by (destruct Hg as [t Hg]; exists (t ++ [CEvict (tn_data_ptr src) (logical_nbytes src) (Some f) cookie tid ver]); by rewrite <- app_assoc).
  assert (Ht' : tokens st' ⊆+ seqZ 0 (cx_next_closure c1)).
  { change (cx_next_closure c1) with (f + 1). rewrite <- seqZ_next by apply Hw. etrans; [exact Htok|]. by apply submseteq_skip. }
  assert (Hsp : Forall (fun g => g < cx_next_closure c) (invoked (a_trace st))).
  { apply Forall_forall. intros g Hgi. assert (g ∈ seqZ 0 (cx_next_closure c)) as H%elem_of_seqZ; [|lia].
    eapply elem_of_submseteq; [|exact Ht]. unfold tokens. set_solver. }
  destruct (callbacks_cwf c1 st st') as [Hw' Hfr]; [by apply make_callback_cwf|done..|].
  split; [by destruct Hw'|]. intros st1. rewrite (cf_agent _ _ Hfr). intros [= <-]. split_and!; [done| | |done].
  - rewrite (cf_next _ _ Hfr). exact Ht'.
  - rewrite He. eapply sources_frame; [exact Hfr|]. intros dev n cb ck ti ve [[= -> -> -> -> -> ->]|Hin]%elem_of_cons.
    + exists f, (mkClosure src d true None). split_and!; try done. apply lookup_insert_eq.
    + destruct (Hs _ _ _ _ _ _ Hin) as (g & cl & -> & Hcl & Hrest). exists g, cl. split; [done|]. split; [|done].
      cbn. rewrite lookup_insert_ne; [done|]. intros <-. assert (0 <= f < cx_next_closure c) by (apply Hw; by eexists). lia.
Qed.
Lemma i64_u64 a b : i64 a = i64 b -> u64 a = u64 b.
Proof.
  unfold i64. pose proof (u64_range a) as Ha. pose proof (u64_range b) as Hb. unfold in_u64 in *. repeat case_decide; lia.
Qed.
Context {TL : TorchLaws T}.
Lemma choose_source_whole t compact views unsafe c src c' : tn_is_cuda t = true ->
  choose_source t compact views unsafe c = (Val src, c') -> whole_storage src.
Proof.
  intros Ht. unfold choose_source. destruct (compact || views).
  - unfold torch. destruct (th_clone _ t) as [x|e] eqn:E; [|done]. intros [= <- _]. by eapply clone_whole.
  - unfold cbind, validate_destructive. rewrite Ht. cbn. destruct (tn_is_contiguous t) eqn:Hc; [|done]. cbn.
    case_decide as Ho; [done|]. case_decide as Hn; [done|]. destruct (_ && _); [done|]. intros [= <- _].
    unfold whole_storage. split_and!; [done..|by apply i64_u64].
Qed.
Lemma pres_validate t unsafe : pres (validate_destructive t unsafe).
Proof. intros c Hc. unfold validate_destructive. repeat (case_match; [exact Hc|]). exact Hc. Qed.
Lemma pres_choose t compact views unsafe : pres (choose_source t compact views unsafe).
Proof.
  unfold choose_source. destruct (_ || _); [apply pres_torch|]. apply pres_bind; [apply pres_validate|intros; apply pres_ret].
Qed.
Lemma pres_bind_source {B} t compact views unsafe (k : Tensor -> C B) : tn_is_cuda t = true ->
  (forall src, whole_storage src -> pres (k src)) -> pres (cbind (choose_source t compact views unsafe) k).
Proof.
  intros Ht Hk c Hc. pose proof (pres_choose t compact views unsafe c Hc) as Hp. unfold cbind.
  destruct (choose_source _ _ _ _ c) as [[x|e|] c'] eqn:E; [|done..]. apply Hk; [|done]. by eapply choose_source_whole.
Qed.
Lemma pres_stream o d : pres (resolve_stream o d).
Proof. intros c Hc. unfold resolve_stream. by destruct o as [|[]| |]. Qed.
Lemma pres_need_job what : pres (need_job what).
Proof. intros c Hc. unfold need_job, cbind, cget. by case_match. Qed.

(** ** Executions *)
Inductive cstep : Context -> Context -> Prop :=
  | cs_evict t name destr views unsafe compact wait s tid ver c :
      cstep c (Bindings.evict t name destr views unsafe compact wait s tid ver c).2
  | cs_restore fuel tid ver shape dtype dev s wait c : cstep c (Bindings.restore fuel tid ver shape dtype dev s wait c).2
  | cs_restore_into fuel dst tid ver s wait c : cstep c (restore_into fuel dst tid ver s wait c).2
  | cs_canonical_restore_into fuel dst oid s wait c : cstep c (canonical_restore_into fuel dst oid s wait c).2
  | cs_location tid ver c : cstep c (Bindings.location tid ver c).2
  | cs_discard tid ver c : cstep c (Bindings.discard tid ver c).2
  | cs_assert c : cstep c (Bindings.assert_no_inflight c).2
  | cs_register_job tenant name sched c : cstep c (Bindings.register_job tenant name sched c).2
  | cs_canonical_evict t destr views unsafe compact s x mode dup tid ver c :
      cstep c (Bindings.canonical_evict t destr views unsafe compact s x mode dup tid ver c).2
  | cs_seal role ver promote fail c : cstep c (Bindings.seal_model_version role ver promote fail c).2
  | cs_drop role ver c : cstep c (Bindings.drop_canonical_version role ver c).2
  | cs_release role ver oid c : cstep c (Bindings.release_canonical role ver oid c).2
  | cs_close c : cstep c (close c).2
  (* the threads of the agent *)
  | cs_poll c : (forall st, cx_agent c = Some st -> a_done_d2h st = [] /\ a_done_h2d st = []) -> cstep c (ag progress_poll c).2
  | cs_flush c : cstep c (ag progress_flush c).2
  | cs_heartbeat c : cstep c (ag heartbeat_beat c).2.
Definition context_reachable (cfg : AgentConfig) (c : Context) : Prop :=
  exists c0, open_context cfg = Val c0 /\ rtc cstep c0 c.

(** The operations of the agent keep its invariant ([run_api_ainv]). *)
Lemma forget_state {A} (m : M A) st : (forget m st).2 = (m st).2.
Proof. unfold forget, bind. by destruct (m st) as [[]]. Qed.
Lemma benign_api {A} o (m : M A) : (forall st, (run_api o st).2 = (m st).2) -> ensures keep m -> benign m.
Proof. intros E H st Hi. split; [rewrite <- E; by apply run_api_ainv|]. apply keep_spends, H. Qed.
Ltac by_api o := apply (benign_api o); [intros; cbn [run_api]; first [apply forget_state|done]|].
#[local] Hint Resolve keep_rpc : agent.
#[local] Hint Extern 2 (ensures keep _) => apply keep_quiet; solve [eauto with agent] : agent.
Lemma benign_restore fuel tid ver dev n s wait : benign (Agent.restore fuel tid ver dev n s wait).
Proof. by_api (ARestore fuel tid ver dev n s wait). apply keep_restore. Qed.
Lemma benign_canonical_restore fuel oid dev n s wait : benign (canonical_restore fuel oid dev n s wait).
Proof. by_api (ACanonicalRestore fuel oid dev n s wait). apply keep_canonical_restore. Qed.
Lemma benign_location tid ver : benign (Agent.location tid ver).
Proof. by_api (ALocation tid ver). unfold Agent.location, rpc_query_location, mismatch. ensures. Qed.
Lemma benign_discard tid ver : benign (Agent.discard tid ver).
Proof. by_api (ADiscard tid ver). apply keep_discard. Qed.
Lemma benign_assert : benign Agent.assert_no_inflight.
Proof. by_api AAssertNoInflight. unfold Agent.assert_no_inflight. ensures. Qed.
Lemma benign_register_job r : benign (Agent.register_job r).
Proof. by_api (ARegisterJob r). unfold Agent.register_job, rpc_register_job, mismatch. ensures. Qed.
Lemma benign_seal r : benign (Agent.seal_model_version r).
Proof. by_api (ASealModelVersion r). unfold Agent.seal_model_version, rpc_seal_model_version, mismatch. ensures. Qed.
Lemma benign_drop r : benign (Agent.drop_canonical_version r).
Proof. by_api (ADropCanonicalVersion r). unfold Agent.drop_canonical_version, rpc_drop_canonical_version, mismatch. ensures. Qed.
Lemma benign_release r : benign (Agent.release_canonical r).
Proof. by_api (AReleaseCanonical r). unfold Agent.release_canonical, rpc_release_canonical, mismatch. ensures. Qed.
Lemma benign_heartbeat : benign heartbeat_beat.
Proof.
  intros st Hi. split; [|apply keep_spends, keep_heartbeat]. eapply astep_ainv; [apply as_heartbeat|done].
Qed.
Lemma benign_flush : benign progress_flush.
Proof. intros st Hi. split; [by apply progress_flush_ainv|apply progress_flush_spends]. Qed.
Ltac pres_step :=
  lazymatch goal with
  | |- pres (cret _) => apply pres_ret
  | |- pres (cthrow _) => apply pres_throw
  | |- pres (cmodify _) => apply pres_modify; intros; repeat split
  | |- pres cget => apply pres_get
  | |- pres (ag_get _) => apply pres_ag_get
  | |- pres (torch _) => apply pres_torch
  | |- pres (resolve_stream _ _) => apply pres_stream
  | |- pres (need_job _) => apply pres_need_job
  | |- pres next_tensor_id => apply pres_next_id
  | |- pres (cbind (choose_source _ _ _ _) _) => apply pres_bind_source; [done|intros ? ?]
  | |- pres (cbind (make_callback _ _) _) => fail
  | |- pres (cbind _ _) => apply pres_bind; [|intros ?]
  | |- pres (ag _) => apply ag_cinv
  | |- pres (let _ := _ in _) => cbv zeta
  | |- pres (match ?x with _ => _ end) => destruct x eqn:?
  end.
Ltac pres := repeat pres_step.
Lemma evict_pres t name destr views unsafe compact wait s tid ver :
  pres (Bindings.evict t name destr views unsafe compact wait s tid ver).
Proof.
  unfold Bindings.evict. destruct (tn_is_cuda t) eqn:Ht; cbn [negb]; pres.
  all: eapply (pres_evict (fun cb => Agent.evict _ _ _ _ _ (Some cb) _ _)); [done| |intros; pres];
    intros f st Hi; split; [by apply evict_ainv|apply evict_spends].
Qed.
Lemma canonical_evict_pres t destr views unsafe compact s x mode dup tid ver :
  pres (Bindings.canonical_evict t destr views unsafe compact s x mode dup tid ver).
Proof.
  unfold Bindings.canonical_evict. destruct (tn_is_cuda t) eqn:Ht; cbn [negb]; pres.
  eapply (pres_evict (fun cb => Agent.canonical_evict _ _ _ _ _ (Some cb) _ _)); [done| |intros; pres].
  intros f st Hi. split; [by apply canonical_evict_ainv|apply (canonical_evict_spends _ _ _ _ (evict_request _ _ _ _ _ _ _ _))].
Qed.
Lemma close_pres : pres close.
Proof.
  intros c Hc. unfold close. destruct (cx_agent c) as [st|] eqn:E; [|exact Hc].
  destruct (ci_agent c Hc st E) as (Hi & Ht & Hs & Hw). unfold ag. rewrite E.
  destruct (shutdown_spends st) as [[Hg _] Htok]. destruct (shutdown st) as [o st']. cbn [snd] in *.
  destruct (callbacks_cwf c st st' Hw Hg) as [Hw' _]; [by etrans|]. split; [|done]. by destruct Hw'.
Qed.
Lemma ag_poll_cinv c : (forall st, cx_agent c = Some st -> a_done_d2h st = [] /\ a_done_h2d st = []) ->
  cinv c -> cinv (ag progress_poll c).2.
Proof.
  intros Hp Hc. unfold ag. destruct (cx_agent c) as [st|] eqn:E; [|exact Hc].
  destruct (Hp st eq_refl) as [Hd _].
  pose (m := (fun st' => if decide (a_done_d2h st' = []) then progress_poll st' else ret tt st') : M unit).
  assert (Hm : benign m).
  { intros s Hi. unfold m. case_decide; [|split; [done|apply keep_spends; reflexivity]].
    split; [by apply progress_poll_ainv|by apply progress_poll_spends]. }
  pose proof (ag_cinv m Hm c Hc) as Hr. unfold ag in Hr. rewrite E in Hr. unfold m in Hr. by rewrite decide_True in Hr.
Qed.
#[local] Hint Resolve benign_restore benign_canonical_restore benign_location benign_discard benign_assert
  benign_register_job benign_seal benign_drop benign_release benign_flush benign_heartbeat : agent.
Lemma cstep_pres c c' : cstep c c' -> cinv c -> cinv c'.
Proof.
  intros []; lazymatch goal with
    | |- cinv ?c -> cinv (close ?c).2 => apply close_pres
    | |- cinv ?c -> cinv (Bindings.evict _ _ _ _ _ _ _ _ _ _ _).2 => apply evict_pres
    | |- cinv ?c -> cinv (Bindings.canonical_evict _ _ _ _ _ _ _ _ _ _ _ _).2 => apply canonical_evict_pres
    | |- cinv ?c -> cinv (ag progress_poll ?c).2 => by apply ag_poll_cinv
    | |- cinv ?c -> cinv (?m ?c).2 => revert c; change (pres m)
    end.
  all: unfold Bindings.restore, restore_into, canonical_restore_into, Bindings.location, Bindings.discard,
    Bindings.assert_no_inflight, Bindings.register_job, Bindings.seal_model_version, Bindings.drop_canonical_version,
    Bindings.release_canonical; pres; auto with agent.
Qed.
Lemma open_cinv cfg c : open_context cfg = Val c -> cinv c.
Proof.
  unfold open_context. destruct (construct (agent_zero cfg)) as [[u|e|] st] eqn:E; try done. intros [= <-].
  destruct (ensures_use _ _ _ _ _ construct_still E) as ((t & Et & Ht) & Hin & Hdn & _). cbn in Hin, Hdn.
  rewrite app_nil_r in Et. destruct (calm_tokens t Ht) as [Hv He]. split; [done|]. intros st' [= <-]. split_and!.
  - apply (reachable_ainv cfg). exists st. split; [by destruct u|constructor].
  - unfold tokens. rewrite Hin, Hdn, Et, Hv. done.
  - rewrite Et, He. intros dev n cb ck tid ver H. by apply elem_of_nil in H.
  - split; cbn; try done; [|by intros i f H%elem_of_nil]. intros f. rewrite lookup_empty. split; [by intros []|lia].
Qed.
Lemma context_cinv cfg c : context_reachable cfg c -> cinv c.
Proof.
  intros (c0 & Ho & Hr). apply open_cinv in Ho. induction Hr as [|x y z Hxy _ IH]; [done|]. by eapply IH, cstep_pres.
Qed.

(** [n] bytes at [dev] were copied to the host and the copy was seen complete. *)
Definition copy_finished (t : trace) (dev n : Z) : Prop := exists t1 t2 t3 t4 dst s ev c,
  t = t4 ++ CCuda c cudaSuccess :: t3 ++ CCuda (cudaEventRecord ev s) cudaSuccess ::
      t2 ++ CCuda (cudaMemcpyAsync dst dev n cudaMemcpyDeviceToHost s) cudaSuccess :: t1 /\
  (c = cudaEventQuery ev \/ c = cudaEventSynchronize ev).
(** The copy of [n] bytes at [dev] was launched. *)
Definition copy_launched (t : trace) (dev n : Z) : Prop := exists t1 t2 dst s,
  t = t2 ++ CCuda (cudaMemcpyAsync dst dev n cudaMemcpyDeviceToHost s) cudaSuccess :: t1.
Lemma sources_evict t c dev n cb cookie tid ver : sources_ok (evicts t) c -> CEvict dev n cb cookie tid ver ∈ t ->
  exists f cl, cb = Some f /\ cx_closures c !! f = Some cl /\ tn_data_ptr (cl_source cl) = dev /\
    logical_nbytes (cl_source cl) = n /\ whole_storage (cl_source cl).
Proof.
  intros Hs Hin. eapply Hs. apply list_elem_of_In, List.filter_In. split; [|done]. by apply list_elem_of_In.
Qed.
(** The call that evicted a copied record is in the trace. *)
Lemma copied_evict t r : copied t r -> exists dev tid ver, CEvict dev (d_nbytes r) (d_cb r) (d_cookie r) tid ver ∈ t /\
  copy_launched t dev (d_nbytes r).
Proof.
  intros (dev & dst & s & t1 & t2 & t3 & t4 & -> & _ & _). exists dev, (d_tensor_id r), (d_version r). split.
  - apply elem_of_app. right. right. apply elem_of_app. right. right. apply elem_of_app. right. left.
  - eexists _, (t4 ++ _ :: t3), dst, s. by rewrite <- app_assoc.
Qed.
Lemma finished_evict t r : finished t r -> exists dev tid ver, CEvict dev (d_nbytes r) (d_cb r) (d_cookie r) tid ver ∈ t /\
  copy_finished t dev (d_nbytes r).
Proof.
  intros (c & t1 & t2 & -> & Hc & (dev & dst & s & u1 & u2 & u3 & u4 & -> & _ & _)).
  exists dev, (d_tensor_id r), (d_version r). split.
  - apply elem_of_app. right. right. apply elem_of_app. right. right. apply elem_of_app. right. right. apply elem_of_app. right. left.
  - by exists (u2 ++ CEvict dev (d_nbytes r) (d_cb r) (d_cookie r) (d_tensor_id r) (d_version r) :: u1), u3, u4, t2, dst, s, (d_ev r), c.
Qed.
Lemma invoked_split f t : f ∈ invoked t -> exists t2 ck t1, t = t2 ++ CInvalidate (Some f) ck :: t1.
Proof.
  unfold invoked. intros (c & Hf & (t2 & t1 & ->)%list_elem_of_split)%list_elem_of_bind.
  destruct c as [| | | | | |[g|] ck| |]; cbn in Hf; try by apply elem_of_nil in Hf.
  apply list_elem_of_singleton in Hf as ->. by exists t2, ck, t1.
Qed.
End ContextSafety.

(** C6. While a context is open, destructive eviction from Python releases only storage
    whose bytes are safe.  In every execution of a context and its agent, in every
    world and with every torch that keeps [TorchLaws], as long as the context was not
    closed, a tensor is given an empty storage only by the
    callback of a destructive eviction whose tensor was the whole of its storage
    (checked, or a fresh clone), and before the callback ran either all bytes of
    that storage had been copied to the host, with the copy seen complete, or the
    daemon had answered that it holds them already.  No callback ever runs on a
    tensor it no longer holds, whether the context is open or closed.  ([close]
    destroys the agent, whose last synchronisations may fail unseen:
    [AgentProps.shutdown_ignores_sync_error].) *)
Theorem shim_releases_copied {W : World} {T : Torch} {TL : TorchLaws T} (cfg : AgentConfig) (c : Context) :
  context_reachable cfg c ->
  cx_fault c = false /\
  forall st impl f, cx_agent c = Some st -> (impl, f) ∈ cx_replaced c ->
    exists cl t2 cookie t1, cx_closures c !! f = Some cl /\ tn_impl (cl_source cl) = impl /\
      cl_do_invalidate cl = true /\ whole_storage (cl_source cl) /\
      a_trace st = t2 ++ CInvalidate (Some f) cookie :: t1 /\
      (copy_finished t1 (tn_data_ptr (cl_source cl)) (logical_nbytes (cl_source cl)) \/ attached t1 (Some f) cookie).
Proof.
  intros [Hfa Ha]%context_cinv. split; [done|]. intros st impl f Hst Hr.
  destruct (Ha st Hst) as (Hi & _ & Hs & Hw). destruct (cw_replaced _ _ Hw _ _ Hr) as (Hf & cl & Hcl & Himp & Hd).
  destruct (invoked_split f _ Hf) as (t2 & ck & t1 & E). exists cl, t2, ck, t1. pose proof (ai_safe _ Hi) as Hsafe.
  rewrite E in Hsafe, Hs. apply safe_split in Hsafe.
  assert (Hev : forall dev n tid ver, CEvict dev n (Some f) ck tid ver ∈ t1 -> tn_data_ptr (cl_source cl) = dev /\
    logical_nbytes (cl_source cl) = n /\ whole_storage (cl_source cl)).
  { intros dev n tid ver Hin. edestruct (sources_evict _ c dev n (Some f) ck tid ver Hs) as (g & x & [= <-] & Hx & ?).
    - apply elem_of_app. right. by right.
    - rewrite Hcl in Hx. by injection Hx as <-. }
  destruct Hsafe as [(r & Hcb & <- & Hfin)|Hatt].
  - destruct (finished_evict _ _ Hfin) as (dev & tid & ver & Hin & Hcopy). rewrite Hcb in Hin.
    destruct (Hev _ _ _ _ Hin) as (-> & -> & Hws). split_and!; try done. by left.
  - pose proof Hatt as (req & resp & dev & n & tid & ver & t & -> & _ & _).
    destruct (Hev dev n tid ver) as (_ & _ & Hws); [right; left|]. split_and!; try done. by right.
Qed.

(** A torch that answers as documented. *)
Definition sample_torch : Torch := {|
  th_current_stream _ := 0;
  th_clone k t := Ok (mkTensor (1000 + Z.of_nat k) (tn_is_cuda t) true 0 (tn_numel t) (tn_element_size t)
                        (tn_numel t * tn_element_size t) false (2 ^ 32 + Z.of_nat k) (tn_scalar_type t) (tn_device t));
  th_empty k shape dtype device := Ok (mkTensor (1000 + Z.of_nat k) true true 0 (foldr Z.mul 1 shape) 4
                        (foldr Z.mul 1 shape * 4) false (2 ^ 32 + Z.of_nat k) dtype device);
  th_cast_error := "Unable to cast Python instance to C++ type";
  th_finalizing _ := false |}.
Lemma sample_torch_laws : TorchLaws sample_torch.
Proof.
  split; cbn; [intros k t c Hc [= <-]|intros k shape dtype device t [= <-]]; unfold whole_storage, logical_nbytes; cbn; by rewrite ?Hc.
Qed.
(** A float tensor of 5000000 bytes at 4096, evicted destructively by rank 3 and
    completed by the progress thread. *)
Definition sample_tensor : Tensor := mkTensor 77 true true 0 1250000 4 5000000 false 4096 6 0.
Definition shim_start : Context :=
  match @open_context ring_world sample_agent with Val c => c | _ => mkContext None (mkJobKeyWire 0 0 0 "") false 0 1 ∅ 0 0 [] false end.
Definition shim_evicted : Context :=
  (@Bindings.evict ring_world sample_torch sample_tensor "w" true false false false false PyNone 0 0 shim_start).2.
Definition shim_polled : Context := (@ag sample_torch _ (@progress_poll ring_world) shim_evicted).2.
Definition shim_flushed : Context := (@ag sample_torch _ (@progress_flush ring_world) shim_polled).2.
Lemma shim_flushed_reachable : @open_context ring_world sample_agent = Val shim_start ->
  match cx_agent shim_evicted with Some st => a_done_d2h st = [] /\ a_done_h2d st = [] | None => True end ->
  @context_reachable ring_world sample_torch sample_agent shim_evicted /\
  @context_reachable ring_world sample_torch sample_agent shim_flushed.
Proof.
  intros Ho Hd. assert (He : rtc (@cstep ring_world sample_torch) shim_start shim_evicted).
  { apply rtc_once. exact (@cs_evict ring_world sample_torch sample_tensor "w" true false false false false PyNone 0 0 shim_start). }
  split; exists shim_start; (split; [done|]); [exact He|].
  etrans; [exact He|]. eapply rtc_l; [apply (@cs_poll ring_world sample_torch shim_evicted)|].
  - intros st E. by rewrite E in Hd.
  - apply rtc_once. exact (@cs_flush ring_world sample_torch shim_polled).
Qed.
Lemma shim_releases_copied_witness :
  (77, 0) ∈ cx_replaced shim_flushed /\
  exists cl t2 cookie t1 st, cx_agent shim_flushed = Some st /\ cx_closures shim_flushed !! 0 = Some cl /\
    a_trace st = t2 ++ CInvalidate (Some 0) cookie :: t1 /\
    (copy_finished t1 (tn_data_ptr (cl_source cl)) (logical_nbytes (cl_source cl)) \/ attached t1 (Some 0) cookie).
Proof.
  assert (Hin : (77, 0) ∈ cx_replaced shim_flushed).
  { assert (E : cx_replaced shim_flushed = [(77, 0)]) by (vm_compute; reflexivity). rewrite E. left. }
  split; [exact Hin|].
  assert (Ho : @open_context ring_world sample_agent = Val shim_start) by (vm_compute; reflexivity).
  assert (Hd : match cx_agent shim_evicted with Some st => a_done_d2h st = [] /\ a_done_h2d st = [] | None => True end)
    by (vm_compute; split; reflexivity).
  destruct (cx_agent shim_flushed) as [st|] eqn:Hst; [|vm_compute in Hst; discriminate].
  destruct (proj2 (@shim_releases_copied ring_world sample_torch sample_torch_laws sample_agent shim_flushed
    (proj2 (shim_flushed_reachable Ho Hd))) st 77 0 Hst Hin) as (cl & t2 & ck & t1 & Hcl & _ & _ & _ & Et & Hj).
  exists cl, t2, ck, t1, st. split; [reflexivity|]. split; [exact Hcl|]. split; [exact Et|exact Hj].
Defined.

(** C23. The source of a copy stays alive while the copy runs, unless the same tensor
    was evicted destructively twice.  In every execution, while the context is open,
    the callback of every transfer to the host that is in flight or waiting to be
    reported has not run and still holds the tensor the bytes are copied from, at
    the time of the eviction a whole storage of as many bytes; closures of different
    transfers are different.  That storage has been released only if the callback
    of another destructive eviction of the same tensor object ran meanwhile, as it
    can ([overlapping_evictions]): then the copy reads released memory. *)
Theorem inflight_sources_held {W : World} {T : Torch} {TL : TorchLaws T} (cfg : AgentConfig) (c : Context) (st : Agent) :
  context_reachable cfg c -> cx_agent c = Some st ->
  NoDup (omap d_cb (a_inflight_d2h st ++ a_done_d2h st)) /\
  forall r, r ∈ a_inflight_d2h st ++ a_done_d2h st ->
    exists f cl, d_cb r = Some f /\ cx_closures c !! f = Some cl /\ cl_held cl = true /\
      whole_storage (cl_source cl) /\ d_nbytes r = logical_nbytes (cl_source cl) /\
      copy_launched (a_trace st) (tn_data_ptr (cl_source cl)) (d_nbytes r) /\
      (forall g, cl_emptied cl = Some g -> g <> f /\ (tn_impl (cl_source cl), g) ∈ cx_replaced c /\
         exists cl', cx_closures c !! g = Some cl' /\ tn_impl (cl_source cl') = tn_impl (cl_source cl) /\ cl_do_invalidate cl' = true).
Proof.
  intros [_ Ha]%context_cinv Hst. destruct (Ha st Hst) as (Hi & Ht & Hs & Hw).
  pose proof (submseteq_NoDup _ _ Ht (NoDup_seqZ _ _)) as Hnd. unfold tokens in Hnd.
  apply NoDup_app in Hnd as (Hnd1 & Hdis & _). split; [exact Hnd1|]. intros r Hr.
  assert (Hc : copied (a_trace st) r).
  { destruct Hi as [_ Hin Hdn _]. rewrite Forall_forall in Hin, Hdn. apply elem_of_app in Hr as [Hr|Hr]; [by apply Hin|].
    destruct (Hdn r Hr) as (x & t1 & t2 & -> & _ & Hc). by apply copied_app, (copied_app [_]). }
  destruct (copied_evict _ _ Hc) as (dev & tid & ver & Hin & Hl).
  destruct (sources_evict _ c _ _ _ _ _ _ Hs Hin) as (f & cl & Hcb & Hcl & <- & Hn & Hws).
  exists f, cl. split_and!; try done.
  - apply (cw_held _ _ Hw f cl Hcl). apply Hdis. apply list_elem_of_omap. by exists r.
  - intros g Hg. destruct (cw_emptied _ _ Hw f cl g Hcl Hg) as [Hne Hin']. split_and!; [done..|].
    destruct (cw_replaced _ _ Hw _ _ Hin') as (_ & cl' & ?). by exists cl'.
Qed.
Lemma inflight_sources_held_witness :
  exists st r, cx_agent shim_evicted = Some st /\ r ∈ a_inflight_d2h st ++ a_done_d2h st /\
    exists f cl, d_cb r = Some f /\ cx_closures shim_evicted !! f = Some cl /\ cl_held cl = true /\
      copy_launched (a_trace st) (tn_data_ptr (cl_source cl)) (d_nbytes r).
Proof.
  assert (Ho : @open_context ring_world sample_agent = Val shim_start) by (vm_compute; reflexivity).
  assert (Hd : match cx_agent shim_evicted with Some st => a_done_d2h st = [] /\ a_done_h2d st = [] | None => True end)
    by (vm_compute; split; reflexivity).
  assert (Hl : match cx_agent shim_evicted with Some st => length (a_inflight_d2h st) = 1%nat | None => False end)
    by (vm_compute; reflexivity).
  destruct (cx_agent shim_evicted) as [st|] eqn:Hst; [|destruct Hl].
  destruct (a_inflight_d2h st) as [|r l] eqn:Hr; [discriminate Hl|].
  assert (Hin : r ∈ a_inflight_d2h st ++ a_done_d2h st) by (rewrite Hr; left).
  exists st, r. split; [reflexivity|]. split; [rewrite Hr; left|].
  assert (Hreach : @context_reachable ring_world sample_torch sample_agent shim_evicted).
  { apply shim_flushed_reachable; [exact Ho|]. rewrite Hst. exact Hd. }
  destruct (proj2 (@inflight_sources_held ring_world sample_torch sample_torch_laws sample_agent shim_evicted st
    Hreach Hst) r Hin) as (f & cl & H1 & H2 & H3 & _ & _ & H6 & _).
  exists f, cl. split; [exact H1|]. split; [exact H2|]. split; [exact H3|exact H6].
Defined.

(** Nothing keeps Python from evicting one tensor twice, both times destructively and
    without waiting.  Here the second eviction comes after the progress thread saw the
    first copy complete and before it ran the callback, which then releases the
    storage while the second copy, launched from the same storage, is in flight. *)
Definition twice_evicted : Context :=
  (@Bindings.evict ring_world sample_torch sample_tensor "w" true false false false false PyNone 0 0 shim_polled).2.
Example overlapping_evictions :
  let c := (@ag sample_torch _ (@progress_flush ring_world) twice_evicted).2 in
  option_map (fun st => omap d_cb (a_inflight_d2h st)) (cx_agent c) = Some [1] /\
  cx_replaced c = [(77, 0)] /\
  option_map (fun cl => (tn_impl (cl_source cl), cl_held cl, cl_emptied cl)) (cx_closures c !! 1) = Some (77, true, Some 0).
Proof. vm_compute. split_and!; reflexivity. Qed.

(** ** Tensor ids *)
Lemma next_tensor_id_value c :
  (next_tensor_id c).1 = Val (cx_rank_id c mod 2 ^ 24 * 2 ^ 40 + cx_local_tensor_ctr c mod 2 ^ 40).
Proof.
  unfold next_tensor_id. cbn [fst]. f_equal.
  change 0xFFFFFF with (Z.ones 24). change 0xFFFFFFFFFF with (Z.ones 40). rewrite !Z.land_ones by lia.
  rewrite Z.shiftl_mul_pow2 by lia. set (a := cx_rank_id c mod 2 ^ 24).
  assert (Ha : 0 <= a < 2 ^ 24) by (apply Z.mod_pos_bound; lia).
  rewrite u64_small by (unfold in_u64; lia). rewrite <- Z.add_lor_land.
  assert (Hl : Z.land (a * 2 ^ 40) (cx_local_tensor_ctr c mod 2 ^ 40) = 0); [|lia].
  apply Z.bits_inj'. intros n Hn. rewrite Z.land_spec, Z.bits_0, Z.mul_pow2_bits by lia. destruct (Z_lt_ge_dec n 40).
  - by rewrite Z.testbit_neg_r by lia.
  - rewrite Z.mod_pow2_bits_high by lia. apply andb_false_r.
Qed.
(** Automatic tensor ids do not collide: for ranks below 2^24 that made fewer
    than 2^40 evictions, the ids two contexts assign differ unless rank and counter
    agree, no id is 0 (which means "assign one"), and the counter moves on. *)
Theorem tensor_ids_unique (c c' : Context) :
  0 <= cx_rank_id c < 2 ^ 24 -> 0 <= cx_rank_id c' < 2 ^ 24 ->
  1 <= cx_local_tensor_ctr c < 2 ^ 40 -> 1 <= cx_local_tensor_ctr c' < 2 ^ 40 ->
  (next_tensor_id c).1 <> Val 0 /\
  ((next_tensor_id c).1 = (next_tensor_id c').1 <->
     cx_rank_id c = cx_rank_id c' /\ cx_local_tensor_ctr c = cx_local_tensor_ctr c') /\
  cx_local_tensor_ctr (next_tensor_id c).2 = cx_local_tensor_ctr c + 1 /\
  cx_rank_id (next_tensor_id c).2 = cx_rank_id c.
Proof.
  intros Hr Hr' Hc Hc'. rewrite !next_tensor_id_value, !Z.mod_small by lia. split_and!; [intros [=]; lia| |cbn; apply u64_small; unfold in_u64; lia|done].
  split; [intros [=]; nia|]. by intros [-> ->].
Qed.
Lemma tensor_ids_unique_witness :
  (next_tensor_id shim_start).1 = Val (3 * 2 ^ 40 + 1) /\ (next_tensor_id shim_start).1 <> Val 0 /\
  cx_local_tensor_ctr (next_tensor_id shim_start).2 = 2.
Proof.
  split; [vm_compute; reflexivity|].
  assert (H : 0 <= cx_rank_id shim_start < 2 ^ 24) by (vm_compute; split; [discriminate|reflexivity]).
  assert (H' : 1 <= cx_local_tensor_ctr shim_start < 2 ^ 40) by (vm_compute; split; [discriminate|reflexivity]).
  destruct (tensor_ids_unique shim_start shim_start H H H' H') as (H1 & _ & H3 & _).
  split; [exact H1|]. rewrite H3. vm_compute. reflexivity.
Defined.
