(* ===== verification/Findings.v ===== *)
(** * Executions that show defects

    Concrete executions, evaluated in the model, of behaviour the code does not
    mean to have.  Each starts from a fresh daemon and uses only requests and
    background steps a client can cause (but for [lease_ids_wrap], which sets a
    counter that far); no other thread interferes. *)
From stdpp Require Import base gmap strings list relations.
From Stdlib Require Import ZArith Lia.
From S2P Require Import Prelude.
From S2P Require Import Ring.
From S2P Require Import Protocol.
From S2P Require Import ProtocolV2.
From S2P Require Import State.
From S2P Require Import Alloc.
From S2P Require Import Drain.
From S2P Require Import Offload.
From S2P Require Import Rpc.
From S2P Require Import Store.
From S2P Require Import Session.
From S2P Require Import Canonical.
From S2P Require Import Export.
From S2P Require Import Rollout.
From S2P Require Import System.
From S2P Require Import Identity.
From S2P Require Import Scenarios.
Open Scope Z_scope.
Open Scope offload_scope.

(** What a client can see of object 1: its state, the location of its bytes and
    the state of its first slot. *)
Definition object_view (d : Daemon) : option object_state_t * option location_kind_t * slot_state_t :=
  (ob_state <$> objects d !! 1, lo_kind <$> locations d !! canonical_tid 1, slot_state d 0).

(** A creator that repeats its commit (a retried RPC) is taken for a candidate:
    the run of the committed object is freed and its location erased, while the
    object stays VALID_PINNED and the commit is answered [ok]. *)
Theorem repeated_commit_loses_bytes :
  object_view committed = (Some OBJ_VALID_PINNED, Some LOC_PINNED, SLOT_PINNED_VALID) /\
  let '(resp, d) := handle_commit_canonical_object 20 (commit_request 3 1 1 1 42) committed in
  ccs_ok resp = true /\ object_view d = (Some OBJ_VALID_PINNED, None, SLOT_FREE).
Proof. vm_compute. repeat split; reflexivity. Qed.

(** A commit that names another rank's lease (here rank 3's lease 2 on plain tensor
    9) discards that lease and its reserved run: neither the owner nor the tensor
    of the lease is checked. *)
Theorem commit_discards_foreign_lease :
  let d := run_ok [offload 3 1 9 1 5000] attached in
  let '(resp, d') := handle_commit_canonical_object 20 (commit_request 4 2 1 2 42) d in
  le_owner_rank <$> leases d !! 2 = Some 3 /\ slot_state d 3 = SLOT_RESERVED_D2H /\
  ccs_ok resp = true /\ le_owner_rank <$> leases d' !! 2 = None /\ slot_state d' 3 = SLOT_FREE.
Proof. vm_compute. repeat split; reflexivity. Qed.

(** A sealed object that was drained and is restored from cold storage becomes
    VALID_MULTI_TIER and can no longer be pulled, although its version is sealed. *)
Definition drained_sealed : Daemon :=
  run_ok [offload 3 1 9 1 16777216; offload 3 1 10 1 16777216;
          ReqReleaseLease (mkReleaseLeaseRequest 3 1 2 0 "")] sealed.
Definition warmed : Daemon :=
  run_ok [restore 4 2 1; ReqReleaseCanonicalRestore (mkReleaseCanonicalRestoreRequest 4 2 1)] drained_sealed.
Theorem cold_restore_breaks_pull :
  (handle_pull_tensor (fun _ => quiet_gap) (mkExportResult true "" 1 0 0 "") (pull_request 1) sealed).1.(pts_ok) = true /\
  lo_kind <$> locations drained_sealed !! canonical_tid 1 = Some LOC_PAGEABLE /\
  ob_state <$> objects drained_sealed !! 1 = Some OBJ_SEALED /\
  ob_state <$> objects warmed !! 1 = Some OBJ_VALID_MULTI_TIER /\
  version_sealed warmed (mkVersionKey (mkJobUID 1 2 1) 0 7) = true /\
  let r := (handle_pull_tensor (fun _ => quiet_gap) (mkExportResult true "" 1 0 0 "") (pull_request 1) warmed).1 in
  pts_ok r = false /\ pts_message r = "object not sealed".
Proof. vm_compute. repeat split; reflexivity. Qed.

(** A prefetch of a resident tensor gives a second lease on the same run.
    Releasing it frees the run under the first lease; once the run is given to
    rank 4, releasing the first lease frees rank 4's reservation. *)
Definition double_lease : Daemon :=
  run_ok [ReqRequestPrefetch (mkRequestPrefetchRequest 3 1 (canonical_tid 1) 0 0 0 0 0 0);
          ReqReleaseLease (mkReleaseLeaseRequest 3 1 2 0 ""); offload 4 2 10 1 5000000] committed.
Theorem prefetch_release_frees_foreign_run :
  (le_owner_rank <$> leases double_lease !! 1, le_owner_rank <$> leases double_lease !! 3) = (Some 3, Some 4) /\
  le_base_slot <$> leases double_lease !! 3 = Some 0 /\ slot_state double_lease 0 = SLOT_RESERVED_D2H /\
  let d := run_ok [ReqReleaseLease (mkReleaseLeaseRequest 3 1 1 0 "")] double_lease in
  le_base_slot <$> leases d !! 3 = Some 0 /\ slot_state d 0 = SLOT_FREE.
Proof. vm_compute. repeat split; reflexivity. Qed.

(** Sessions that expire keep their completion ring: after the two ranks of a
    daemon with two rings timed out, a new rank gets none. *)
Theorem expired_sessions_leak_rings :
  let d := run_ok [reg 3 77; reg 4 78] (smoke_daemon []) in
  let d := heartbeat_monitor_sweep 6000000010 d in
  (se_alive <$> sessions d !! 3, se_alive <$> sessions d !! 4) = (Some false, Some false) /\
  rrs_ring_index (handle_register 6000000020 (mkRegisterRankRequest 5 0 0 0 0 79 0) d).1 = NO_U32.
Proof. vm_compute. repeat split; reflexivity. Qed.

(** Completions still in the ring when a rank registers again are popped and
    rejected, because the session is already marked dead: the copy that finished
    is lost and its run freed. *)
Definition with_straggler : Daemon :=
  let d := run_ok [reg 3 77; offload 3 1 9 1 5000; d2h_submit 3 1 1 9 1 0] (smoke_daemon []) in
  match run_op (OpRingPush 0 (mkEntry 1 9 1 0 EVENT_D2H_COMPLETE 0)) d with Ok d' => d' | Throw _ => d end.
Theorem stragglers_rejected_on_register :
  slot_state with_straggler 0 = SLOT_D2H_IN_FLIGHT /\
  slot_state (ring_poller_sweep 20 with_straggler) 0 = SLOT_DRAIN_IN_FLIGHT /\
  lo_kind <$> locations (ring_poller_sweep 20 with_straggler) !! 9 = Some LOC_PINNED /\
  let d := (handle_register 20 (mkRegisterRankRequest 3 0 0 0 0 77 0) with_straggler).2 in
  metrics d kEpochMismatchRejected = 1 /\ locations d !! 9 = None /\ slot_state d 0 = SLOT_FREE.
Proof. vm_compute. repeat split; reflexivity. Qed.

(** A cold restore whose readback fails frees a run it never charged: the gauge of
    used pinned bytes wraps below zero. *)
Definition nvme_config : DaemonConfig :=
  smoke_config <| c_drain_target := kNvmeOnly |> <| c_nvme_enabled := true |>.
Definition nvme_daemon : Daemon :=
  run_ok [reg 3 77; reg 4 78; ReqRegisterJob (mkRegisterJobRequest 1 "job" 2 [] []); evict 3 1 11 0;
          d2h_submit 3 1 1 (canonical_tid 1) 1 0; d2h_complete 3 1 1 (canonical_tid 1) 1 0; commit 3 1 1 1 42;
          offload 3 1 9 1 16777216; offload 3 1 10 1 16777216;
          ReqReleaseLease (mkReleaseLeaseRequest 3 1 2 0 ""); ReqReleaseLease (mkReleaseLeaseRequest 3 1 3 0 "")]
    (default inhabitant (daemon_init nvme_config 0)).
Definition read_error : IoGap := mkGap id (Some 4096) (Some []) false 100.
Theorem failed_readback_wraps_gauge :
  lo_kind <$> locations nvme_daemon !! canonical_tid 1 = Some LOC_NVME /\
  metrics nvme_daemon kUsedPinnedBytes = 0 /\
  match handle_request_canonical_restore 20 (fun _ => read_error)
          (mkRequestCanonicalRestoreRequest 4 2 1 0 0) nvme_daemon with
  | Ok (resp, d) => crs_message resp = "readback failed" /\ metrics d kUsedPinnedBytes = 2 ^ 64 - 6291456
  | Throw _ => False
  end.
Proof. vm_compute. repeat split; reflexivity. Qed.

(** [slots_for_bytes] wraps: a request for the largest 64-bit size is granted a run
    of one 2 MiB slot, and a size of [2 ^ 32] slots is counted as no slot at all. *)
Theorem slots_for_bytes_wraps :
  let d := run_ok [reg 3 77] (smoke_daemon []) in
  let '(resp, d') := handle_request_offload 10 (fun _ => quiet_gap)
    (mkRequestOffloadRequest 3 1 9 1 (2 ^ 64 - 1) 0 0 0 0 0 "") d in
  ros_ok resp = true /\ ros_capacity resp = 2097152 /\ le_slot_count <$> leases d' !! ros_lease_id resp = Some 1 /\
  le_nbytes <$> leases d' !! ros_lease_id resp = Some (2 ^ 64 - 1) /\ slots_for_bytes d (2 ^ 32 * 2097152) = 0.
Proof. vm_compute. repeat split; reflexivity. Qed.

(** Pulling an object in cold storage copies its bytes to slot 0, although that
    slot is reserved for rank 3's copy of tensor 10 under lease 3. *)
Theorem pull_overwrites_slot_zero :
  (le_tensor_id <$> leases drained_sealed !! 3, le_base_slot <$> leases drained_sealed !! 3) = (Some 10, Some 0) /\
  slot_state drained_sealed 0 = SLOT_RESERVED_D2H /\ arena_writes drained_sealed = [] /\
  let '(resp, d) := handle_pull_tensor (fun _ => quiet_gap) (mkExportResult true "" 1 0 0 "") (pull_request 1)
                      drained_sealed in
  pts_ok resp = true /\ arena_writes d = [(0, 5000000)].
Proof. vm_compute. repeat split; reflexivity. Qed.

(** Sealing a sealed version again with [promote] is answered [ok] and does not
    promote it. *)
Theorem reseal_does_not_promote :
  let unpromoted := (handle_seal_model_version 10 ((seal_request 7) <| sm_promote := false |>) attached).2 in
  let '(resp, d) := handle_seal_model_version 20 (seal_request 7) unpromoted in
  sms_ok resp = true /\ sms_message resp = "already sealed" /\ latest_sealed d !! mkRoleKey (mkJobUID 1 2 1) 0 = None.
Proof. vm_compute. repeat split; reflexivity. Qed.

(** After [2 ^ 64] leases the next id is one that may still be held: the lease under
    it is replaced. *)
Theorem lease_ids_wrap :
  let d := (run_ok [reg 3 77; offload 3 1 9 1 5000] (smoke_daemon [])) <| next_lease_id := 2 ^ 64 + 1 |> in
  let '(resp, d') := handle_request_offload 10 (fun _ => quiet_gap) (mkRequestOffloadRequest 3 1 10 1 5000 0 0 0 0 0 "") d in
  le_tensor_id <$> leases d !! 1 = Some 9 /\ ros_ok resp = true /\ ros_lease_id resp = 1 /\
  le_tensor_id <$> leases d' !! 1 = Some 10.
Proof. vm_compute. repeat split; reflexivity. Qed.
